(* ===== verification/_CoqProject ===== *)
-Q . S2P
Prelude.v
GoStrings.v
GoFloat.v
GoAny.v
Json.v
JsonCodec.v
GoNet.v
GoUrl.v
GoFlag.v
GoHttp.v
Errors.v
Response.v
Base64.v
X509.v
Pem.v
Chain.v
Verify.v
GoHeap.v
Api.v
DeepCopy.v
World.v
Client.v
Signer.v
PrivateKey.v
Provision.v
KmpSigner.v
Kubernetes.v
Issuer.v
Reconciler.v
Status.v
Main.v
Confinement.v
Escrow.v
Requests.v
Lifecycle.v
Convergence.v
History.v
Operation.v
Startup.v
Samples.v
StoreSamples.v
