(* ===== verification/Prelude.v ===== *)
(** * kmp-issuer: a verification library

    kmp-issuer is a cert-manager external issuer for ManageEngine Key Manager
    Plus.  It serves two kinds of request.  A cert-manager CertificateRequest
    carries a CSR: the controller has Key Manager Plus sign it and returns the
    chain.  A KMPCertificate asks for a certificate whose key Key Manager Plus
    generates and keeps in escrow: the controller has the pair created, exports
    it and writes it to a Secret.  Both go through one REST client, whose
    answers have no fixed schema and are searched for fields by name.

    This library models the Go code of [src/internal], [src/api] and
    [src/cmd/main.go] as functions, operation by operation, under the names of
    the source, and proves what makes them correct.

    ** Files

    The Go language and standard library, as far as the program uses them:
    - GoStrings: byte strings, UTF-8, [strings], [strconv.Quote], [%d];
    - GoFloat: finite [float64]s by exact rational arithmetic and one rounding,
      conversions to integers, [strconv.FormatFloat];
    - GoAny: [any] as decoded from JSON, maps and the [range] over them;
    - Json, JsonCodec: [encoding/json], and that marshalled documents read back;
    - GoUrl: [net/url]: URLs as records, parsed and printed (the rules of Go
      1.26);
    - GoFlag: [flag]: the command line;
    - GoHttp: [path.Join], queries, multipart bodies, [http.Request];
    - GoNet: [net.ParseIP], [IP.Equal], [IP.String]; Base64: [encoding/base64];
    - X509, Pem: the interfaces to [crypto/x509] and [encoding/pem], and an
      instance of the second;
    - GoHeap: memory: pointers, slices with their capacity, [append], [copy],
      and what a deep copy is.

    The program ([internal/kmp] unless another directory is given):
    - Errors: errors.go and the tree of [fmt.Errorf] and [errors.Join] with
      [errors.Is] and [errors.As];
    - Response: response.go; Chain: chain.go; Verify: verify.go;
      PrivateKey: privatekey.go;
    - World: the state of a run, the monad [io], the predicate [run], and
      [http.Client.Do] with the redirects it follows;
    - Client: client.go and create.go;
    - Signer: signer.go; Provision: provision.go;
    - Api: api/v1alpha1, as values; DeepCopy: the same structs with their
      pointers and slices, and zz_generated.deepcopy.go;
    - KmpSigner: internal/signer/kmp.go;
    - Kubernetes: the API server and cert-manager's helpers, as an interface;
    - Issuer: internal/controllers/signer.go;
    - Reconciler: internal/controllers/kmpcertificate_controller.go;
    - Status: [setCondition] and [Reconcile] of that file with the status in
      memory;
    - Main: the builders and objects of cmd/main.go, where the parts are put
      together; Startup: [init] and [main] as a whole, from the command line on;
    - Confinement: where the wired program sends credentials; Escrow: what it
      keeps of them for the keys it has escrowed;
    - Requests: a CertificateRequest that is served; Lifecycle: a reconciliation
      that is, and what it leaves for the next;
    - Convergence: a cluster that serves what was written, and a resource that is
      at rest in it;
    - History: any number of activations of the controllers, side by side;
    - Operation: activations one after the other, in such a cluster;
    - Samples: instances of all interfaces and the theorems applied in them;
      StoreSamples: a cluster that remembers what is written.

    ** How the code is modelled

    A function of type [(T, error)] returns a [result]; on every path of this
    program one of the two is nil.  An error keeps what [errors.Is],
    [errors.As] and [Error()] can tell of it: its wrappers, its sentinels, the
    fields of a [kmp.Error].  The response document is the type [any] of
    GoAny; the order in which the runtime ranges a map is an argument of every
    function that ranges one, so a theorem holds for all orders.  Code with
    effects is a function of the [world]: the clock, everything outside the
    process, the choices made so far and the log of what the program did -
    requests it sent with their outcomes and the redirects on the way, Secrets it
    wrote with what was there before, statuses it wrote, events it recorded.
    [run m w Q] says that [m], started in [w], ends, and that its
    result, the world it leaves and the events it adds satisfy [Q].  A deferred
    function, such as the status update of [Reconcile], is a step after the
    body.

    Where objects are changed in place or shared, there is a memory as well:
    [mem A] passes a [heap], and [None] is a panic.  A [view] reads what a
    pointer or slice denotes; the deep copies, the conditions of a status and
    the TLS options of [main] are modelled that way and related to the values
    the rest of the library works with.  A pointer to a struct is the struct;
    its fields with pointers and slices are locations.

    Integers are [Z]; the places where a width matters (the day count,
    durations, ids) write the conversion out.

    ** Interfaces

    What is not code of the repository is a class, an argument of everything
    that uses it; its laws state documented behaviour, and Samples has an
    instance of each, so they can hold.
    - [PublicKeys], [X509], [PrivateKeys]: keys, parsing, signature checks.
      Laws: a parsed certificate keeps its bytes, PKCS#8 reads back.
    - [Pem]: decoding takes up input and finds what was encoded.
    - [Env]: a single exchange with the network, the clock's delays, the random
      source, the runtime's choices, references resolved against a URL
      ([url.URL.Parse]), the texts of the errors of [net/url] and
      [encoding/json].  No laws: every theorem holds whatever Key Manager Plus
      answers.
    - [Kubernetes]: API calls likewise; [CreateOrUpdate] reads the Secret and
      writes what the callback makes of it, if that differs
      ([creates_or_updates]); [SetControllerReference] makes the resource the
      controller unless another object is, and leaves all else alone
      ([controller_set]); [rand.Read] fills its buffer.  Of
      [ParseSingleCertificateChainPEM] nothing is assumed in general: the
      theorems that read its chain back assume [pki_starts_within] (Lifecycle),
      that it starts with one of the certificates given, in whatever order those
      are, and the theorems of liveness ask for certificates it accepts
      ([published_splits], Main).
    - [Store] (Convergence): an API server that serves what was written and that
      nobody else changes.  Only [operator_settles] needs it; reads through a
      cache that lags behind do not satisfy it.
    - [Unicode]: the case tables beyond ASCII.  [Conversions]: what converting
      a float that does not fit gives, which the language leaves open.
    - [DeepCopies] (GoHeap): what a deep copy promises, as a class the
      generated methods are instances of.  [MetaTypes], [MetaCopies]
      (DeepCopy): the metadata of Kubernetes and the status of issuer-lib, with
      their deep copies.
    - [ProvisionerOk], [ReconcilerOk] (Reconciler): what the KMPCertificate
      controller is promised by the code that provisions.  Its lemmas are
      proved against them, Main discharges them for the wired program.

    ** What is proved

    - The KMPCertificate controller (Main, Reconciler,
      Lifecycle, Escrow): it writes no Secret but
      that of the resource it was called for, none that another object controls,
      and only with a private key and a chain that belong together, were read out
      of the answers logged before, and carry the names asked for; its result and
      the status it stores are those of the attempt; when it leaves a Secret
      alone and when certificates are renewed.  It does write a pair, and a new one once that is
      due, when Key Manager Plus and the cluster do their part, and leaves the
      Secret it wrote alone until then.
    - The control loop (Convergence, Operation): in a cluster that serves what was
      written, the log of the program says what the cluster has, and once a
      reconciliation has stored a pair all further ones update the status once
      and then do nothing, until renewal, while the operator serves others.
    - Escrow (Escrow): the Secret holds the key that was exported under the
      password it was created with, and that password if the controller made it
      up.
    - The operator over its life (History, Confinement): its activations run
      concurrently, each from whatever world it finds, with their events
      interleaved in any way.  Every Secret and status written is accounted for by
      the resource the activation read; every request goes to the server of the
      issuer it is made for with the credentials that issuer names, which leave
      that server only where its answers redirect to.
    - Memory (Status, DeepCopy): the controller with its status in memory does
      what the model on values does, from any memory; setting a condition in
      place is the pure function; every generated deep copy denotes what the
      original does and shares nothing with it.
    - The start (Startup): the command line gives the flags it spells; the
      program makes the calls of its plan in order, up to the first that fails,
      and each TLS server gets its own options.
    - The CertificateRequest controller (Main, Issuer, Requests): a bundle it
      returns is for the key and the names of the CSR of that request, and it
      returns one when it is served; which errors are
      blamed on the issuer and which stop the retries.
    - The workflows (Signer, Provision): [Sign] and [Provision] refine step
      relations that say what is sent in which order and where they stop;
      signing is requested at most once; the wait for the certificate ends, and
      for a reason; [Sign] returns a bundle and [Provision] a pair whenever Key
      Manager Plus answers as it should, in time.
    - The client (Client): every answer is classified, errors included; what
      each request carries and that its document reads back as that; the requests
      of a client [NewClient] made can be built, keep the scheme and host of the
      configured URL, and have the path of the API below the configured one and
      nothing of its query; a lookup never guesses an id; what the connectivity probe takes for an answer.
    - Responses (Response): which types a document consists of; the searches
      find a field if there is one, of the right record, and what they return
      is in the document; where the order
      of the runtime can and cannot matter.
    - Certificates and keys (Chain, Verify, PrivateKey): which certificates are
      read out of a response; a bundle is a chain of issuers from the leaf and
      reads back; names are accepted exactly when all are covered; the key of
      an export is the one it holds and is stored readable.
    - Configuration (KmpSigner, Signer): which issuers give a client and with
      which options, validation of the sign type, the validity in days.
    - Where the code falls short of its comments: an id that can depend on the
      order of a map, a successful probe that is refused, a build failure that
      is retried although it is permanent, an issued certificate the next
      reconciliation does not accept, ids beyond 2^53, a token that follows
      redirects to other hosts.

    ** Fuel

    Loops whose recursion is not structural carry fuel.  PEM loops get one more
    than the length of the document, and every block takes up input; the JSON
    parser gets twice the length and two, and [parse_document_fuel] proves it
    enough; [fetchCertificate] gets the number of intervals in its timeout and
    one, and its loop is proved never to run out; the loop of [BuildBundle]
    takes a certificate off its list each turn, whose length it gets; an exchange
    follows at most nine redirects, as [net/http] does; an IPv6 address has at
    most eight groups and gets nine.  Trimming takes a rune off its string at
    each turn.  Decimal printing of a [float64] tries up to
    seventeen digits, which determine the value; this last bound is a fact
    about binary64 that is not proved.

    ** What is not modelled

    ASN.1, signature algorithms and PEM decryption, TLS and a single HTTP
    exchange, the API server and issuer-lib's own controllers are behind the
    interfaces above or absent.  So is the decoder of [encoding/pem], whose treatment of
    malformed input changed between releases of Go: what the program relies on
    are its laws.  Logging, signals, and what the controller manager and the two
    servers do once they run are absent; the flags other packages define are an
    argument.  A base URL whose host is an IPv6 address with a zone is excluded
    where requests are shown to be buildable ([unzoned]); Samples has one whose
    requests are not.  History leaves a lagging cache and other writers to the
    worlds its activations start in.
    [Reconciler_SetupWithManager] leaves out that a missing event recorder is
    filled in, since [main] sets one.  The kubebuilder markers are for the API
    server.  Cancellation is modelled where the program waits; within an
    exchange it is part of what the network answers.  That the runtime gives the
    first element appended to a nil slice of functions an array of capacity one
    is a hypothesis of [program_follows_plan], which Samples shows it needs.

    ** What is left

    Printing and parsing of IP addresses as a round trip; the error texts of
    [encoding/json] and [net/url], which are parameters; the time a
    reconciliation takes, in terms of the answers of Key Manager Plus; what
    becomes of a resource whose Secret another one controls, beyond that it is
    not overwritten ([Reconcile_writes_only_pairs]): [Reconcile_stores_pair] and
    [operator_settles] exclude the case. *)

From stdpp Require Export base decidable list strings sorting sets.
From Stdlib Require Export ZArith Lia.

(** ** Results of fallible Go functions *)

(** A Go function that returns [(T, error)] hands back either a value or an
    error, never both, on every path of this program. *)
Inductive result (E A : Type) : Type :=
| Ok (a : A)
| Err (e : E).
Arguments Ok {E A} a.
Arguments Err {E A} e.

Definition result_bind {E A B} (m : result E A) (k : A → result E B) : result E B :=
  match m with
  | Ok a => k a
  | Err e => Err e
  end.

Declare Scope go_scope.
Delimit Scope go_scope with go.

Notation "'try' x := m 'in' k" := (result_bind m (λ x, k))
  (at level 200, x pattern, m at level 200, k at level 200) : go_scope.

(** ** Automation *)

(** Split every boolean conjunction, disjunction and comparison in the context
    into its propositional reading. *)
Ltac bool_prop :=
  repeat match goal with
  | H : andb _ _ = true |- _ => apply andb_true_iff in H as [? ?]
  | H : orb _ _ = true |- _ => apply orb_true_iff in H
  | H : orb _ _ = false |- _ => apply orb_false_iff in H as [? ?]
  | H : negb _ = true |- _ => apply negb_true_iff in H
  | H : negb _ = false |- _ => apply negb_false_iff in H
  | H : (_ =? _)%Z = true |- _ => apply Z.eqb_eq in H
  | H : (_ =? _)%Z = false |- _ => apply Z.eqb_neq in H
  | H : (_ <=? _)%Z = true |- _ => apply Z.leb_le in H
  | H : (_ <=? _)%Z = false |- _ => apply Z.leb_gt in H
  | H : (_ <? _)%Z = true |- _ => apply Z.ltb_lt in H
  | H : (_ <? _)%Z = false |- _ => apply Z.ltb_ge in H
  end.

(** Take the branch of every [match] or [if] whose scrutinee occurs in the goal. *)
Ltac case_match_goal :=
  repeat match goal with
  | |- context [match ?x with _ => _ end] => destruct x eqn:?
  end.

(** Follow a successful computation: case on the scrutinees of a hypothesis and
    drop the branches that contradict it. *)
Ltac follow H :=
  repeat match type of H with
  | context [match ?x with _ => _ end] =>
      let E := fresh "E" in destruct x eqn:E; try discriminate H
  end.

(** ** Lists *)

Section lists.
Context {A B : Type}.
Implicit Types l : list A.

(** The first hit of a linear search, as [for ... { if p { return } }]. *)
Fixpoint find_first (f : A → option B) l : option B :=
  match l with
  | [] => None
  | x :: l' => match f x with Some y => Some y | None => find_first f l' end
  end.

Lemma find_first_Some f l y :
  find_first f l = Some y → ∃ x, x ∈ l ∧ f x = Some y.
Proof.
  induction l as [|x l IH]; simpl; [done|].
  destruct (f x) eqn:E; intros H.
  - exists x. split; [left|congruence].
  - destruct (IH H) as (x' & ? & ?). exists x'. split; [by right|done].
Qed.

Lemma find_first_None f l :
  find_first f l = None ↔ ∀ x, x ∈ l → f x = None.
Proof.
  induction l as [|x l IH]; simpl.
  - split; [|done]. intros _ x Hx. by apply not_elem_of_nil in Hx.
  - destruct (f x) eqn:E.
    + split; [done|]. intros H. specialize (H x (list_elem_of_here x l)). congruence.
    + rewrite IH. split.
      * intros H x' [->|?]%elem_of_cons; auto.
      * intros H x' ?. apply H. by right.
Qed.

Lemma find_first_is_Some f l :
  is_Some (find_first f l) ↔ ∃ x, x ∈ l ∧ is_Some (f x).
Proof.
  split.
  - intros [y (x & ? & E)%find_first_Some]. eauto.
  - intros (x & Hx & Hs). apply not_eq_None_Some. intros E.
    rewrite find_first_None in E. rewrite (E x Hx) in Hs. by destruct Hs.
Qed.

Lemma find_first_app f l1 l2 :
  find_first f (l1 ++ l2) =
  match find_first f l1 with Some y => Some y | None => find_first f l2 end.
Proof. induction l1 as [|x l1 IH]; simpl; [done|]. by destruct (f x). Qed.
End lists.

Lemma elem_of_flat_map {A B} (f : A → list B) (l : list A) y :
  y ∈ flat_map f l ↔ ∃ x, x ∈ l ∧ y ∈ f x.
Proof. setoid_rewrite list_elem_of_In. apply in_flat_map. Qed.

Lemma flat_map_nil {A B} (f : A → list B) (l : list A) :
  flat_map f l = [] ↔ ∀ x, x ∈ l → f x = [].
Proof.
  induction l as [|x l IH]; simpl.
  - split; [|done]. by intros _ x ?%not_elem_of_nil.
  - rewrite app_nil, IH. setoid_rewrite elem_of_cons. naive_solver.
Qed.

Lemma find_first_ext {A B} (f g : A → option B) l :
  (∀ x, x ∈ l → f x = g x) → find_first f l = find_first g l.
Proof.
  induction l as [|x l IH]; simpl; intros Hfg; [done|].
  rewrite Hfg by (by left). destruct (g x); [done|]. apply IH. intros. apply Hfg. by right.
Qed.

Lemma existsb_elem_of {A} (p : A → bool) (l : list A) :
  existsb p l = true ↔ ∃ x, x ∈ l ∧ p x = true.
Proof. setoid_rewrite list_elem_of_In. apply existsb_exists. Qed.
