(* ===== verification/GoStrings.v ===== *)
(** * Go strings and the parts of [strings], [unicode/utf8], [strconv] and [path]
    the program uses.

    A Go string (and a [[]byte]) is a sequence of bytes; here it is a Rocq
    [string], one [ascii] per byte.  Unicode's case tables are the class
    [Unicode]: everything about the ASCII range is defined here, the tables are
    only consulted above it. *)

From S2P Require Import Prelude.
From Stdlib Require Export Ascii.
From Stdlib Require Import DecimalString DecimalZ DecimalPos DecimalFacts.
Local Open Scope Z_scope.

(** ** Bytes *)

Definition byte_of (c : ascii) : Z := Z.of_N (N_of_ascii c).
Definition to_byte (z : Z) : ascii := ascii_of_N (Z.to_N z).

Lemma byte_of_range c : 0 ≤ byte_of c < 256.
Proof.
  unfold byte_of. pose proof (N_ascii_bounded c). lia.
Qed.

Lemma to_byte_of c : to_byte (byte_of c) = c.
Proof. unfold to_byte, byte_of. rewrite N2Z.id. apply ascii_N_embedding. Qed.

Lemma byte_of_to z : 0 ≤ z < 256 → byte_of (to_byte z) = z.
Proof. intros H. unfold to_byte, byte_of. rewrite N_ascii_embedding by lia. lia. Qed.

(** The double quote and the backslash, which no string literal here can hold. *)
Definition dquote : ascii := to_byte 34.
Definition backslash : ascii := to_byte 92.
Definition newline : ascii := to_byte 10.
Definition chr (z : Z) : string := String (to_byte z) EmptyString.

(** [len(s)], as a Go [int]. *)
Definition len (s : string) : Z := Z.of_nat (String.length s).

Fixpoint bytes_of (s : string) : list ascii :=
  match s with EmptyString => [] | String c s' => c :: bytes_of s' end.
Fixpoint of_bytes (l : list ascii) : string :=
  match l with [] => EmptyString | c :: l' => String c (of_bytes l') end.

Lemma of_bytes_of s : of_bytes (bytes_of s) = s.
Proof. induction s; simpl; congruence. Qed.

(** [s[:n]] and [s[n:]]; Go panics past the end, which no caller here does. *)
Fixpoint take_bytes (n : nat) (s : string) : string :=
  match n, s with
  | S n', String c s' => String c (take_bytes n' s')
  | _, _ => EmptyString
  end.
Fixpoint drop_bytes (n : nat) (s : string) : string :=
  match n, s with
  | S n', String _ s' => drop_bytes n' s'
  | O, _ => s
  | _, EmptyString => EmptyString
  end.

Lemma take_bytes_length n s :
  String.length (take_bytes n s) = (n `min` String.length s)%nat.
Proof. revert s; induction n; intros [|c s]; simpl; auto. Qed.

(** Concatenation. *)
Lemma string_app_cons c (a b : string) : String c a +:+ b = String c (a +:+ b).
Proof. done. Qed.

Lemma string_app_nil_l (s : string) : "" +:+ s = s.
Proof. done. Qed.

Lemma string_app_nil_r (s : string) : s +:+ "" = s.
Proof. induction s as [|c s IH]; [done|]. by rewrite string_app_cons, IH. Qed.

Lemma string_app_assoc (a b c : string) : a +:+ b +:+ c = (a +:+ b) +:+ c.
Proof. induction a as [|x a IH]; [done|]. by rewrite !string_app_cons, IH. Qed.

Lemma string_app_length (a b : string) :
  String.length (a +:+ b) = (String.length a + String.length b)%nat.
Proof. induction a as [|x a IH]; [done|]. rewrite string_app_cons. simpl. by rewrite IH. Qed.

(** ** Searching *)

Fixpoint has_prefix (s p : string) : bool :=
  match p, s with
  | EmptyString, _ => true
  | String _ _, EmptyString => false
  | String a p', String b s' => Ascii.eqb a b && has_prefix s' p'
  end.

(** [strings.Contains] *)
Fixpoint contains (s sub : string) : bool :=
  has_prefix s sub ||
  match s with EmptyString => false | String _ s' => contains s' sub end.

(** [strings.Index] as an [option]: the offset of the first occurrence. *)
Fixpoint index_of (s sub : string) : option nat :=
  if has_prefix s sub then Some O
  else match s with
       | EmptyString => None
       | String _ s' => S <$> index_of s' sub
       end.

(** [strings.Join] *)
Definition join (sep : string) (parts : list string) : string := String.concat sep parts.

(** ** UTF-8 *)

(** What [for _, r := range s] sees: a rune, or a byte that is not valid UTF-8
    (which ranges as [utf8.RuneError]). *)
Inductive rune_item :=
| Rune (r : Z)
| BadByte (b : Z).

Definition rune_error : Z := 65533.
Definition rune_of (i : rune_item) : Z :=
  match i with Rune r => r | BadByte _ => rune_error end.

Definition in_range (lo hi b : Z) : bool := (lo <=? b) && (b <=? hi).
Definition continuation (b : Z) : bool := in_range 128 191 b.

Definition two_byte_ok (b0 b1 : Z) : bool := in_range 194 223 b0 && continuation b1.

Definition three_byte_ok (b0 b1 b2 : Z) : bool :=
  continuation b2 &&
  ((b0 =? 224) && in_range 160 191 b1
   || (in_range 225 236 b0 || in_range 238 239 b0) && continuation b1
   || (b0 =? 237) && in_range 128 159 b1).

Definition four_byte_ok (b0 b1 b2 b3 : Z) : bool :=
  continuation b2 && continuation b3 &&
  ((b0 =? 240) && in_range 144 191 b1
   || in_range 241 243 b0 && continuation b1
   || (b0 =? 244) && in_range 128 143 b1).

Definition two_byte_rune (b0 b1 : Z) : Z := (b0 - 192) * 64 + (b1 - 128).
Definition three_byte_rune (b0 b1 b2 : Z) : Z :=
  (b0 - 224) * 4096 + (b1 - 128) * 64 + (b2 - 128).
Definition four_byte_rune (b0 b1 b2 b3 : Z) : Z :=
  (b0 - 240) * 262144 + (b1 - 128) * 4096 + (b2 - 128) * 64 + (b3 - 128).

Fixpoint decode_runes (s : string) : list rune_item :=
  match s with
  | EmptyString => []
  | String c0 s1 =>
    let b0 := byte_of c0 in
    if b0 <? 128 then Rune b0 :: decode_runes s1
    else match s1 with
    | EmptyString => [BadByte b0]
    | String c1 s2 =>
      let b1 := byte_of c1 in
      if two_byte_ok b0 b1 then Rune (two_byte_rune b0 b1) :: decode_runes s2
      else match s2 with
      | EmptyString => BadByte b0 :: decode_runes s1
      | String c2 s3 =>
        let b2 := byte_of c2 in
        if three_byte_ok b0 b1 b2 then Rune (three_byte_rune b0 b1 b2) :: decode_runes s3
        else match s3 with
        | EmptyString => BadByte b0 :: decode_runes s1
        | String c3 s4 =>
          let b3 := byte_of c3 in
          if four_byte_ok b0 b1 b2 b3 then Rune (four_byte_rune b0 b1 b2 b3) :: decode_runes s4
          else BadByte b0 :: decode_runes s1
        end
      end
    end
  end.

(** [utf8.AppendRune]: surrogates and values out of range encode [RuneError]. *)
Definition encode_rune (r : Z) : string :=
  let r := if (r <? 0) || (1114111 <? r) || in_range 55296 57343 r then rune_error else r in
  if r <? 128 then chr r
  else if r <? 2048 then
    chr (192 + r / 64) +:+ chr (128 + r mod 64)
  else if r <? 65536 then
    chr (224 + r / 4096) +:+ chr (128 + (r / 64) mod 64) +:+ chr (128 + r mod 64)
  else
    chr (240 + r / 262144) +:+ chr (128 + (r / 4096) mod 64)
    +:+ chr (128 + (r / 64) mod 64) +:+ chr (128 + r mod 64).

Definition encode_runes (rs : list Z) : string := String.concat "" (encode_rune <$> rs).

Fixpoint is_ascii (s : string) : bool :=
  match s with EmptyString => true | String c s' => (byte_of c <? 128) && is_ascii s' end.

(** Valid UTF-8 text: no byte ranges as [RuneError] for being malformed. *)
Definition valid_utf8 (s : string) : bool :=
  forallb (λ i, match i with Rune _ => true | BadByte _ => false end) (decode_runes s).

(** [strings.Map]: a rune the mapping sends to a negative value is dropped. *)
Definition strings_map (f : Z → Z) (s : string) : string :=
  encode_runes (filter (λ r, 0 ≤ r) (f ∘ rune_of <$> decode_runes s)).

(** ** Unicode tables *)

(** The tables of package [unicode] beyond ASCII. *)
Class Unicode := {
  unicode_to_lower : Z → Z;            (** [unicode.ToLower] of a rune ≥ 128 *)
  unicode_same_fold : Z → Z → bool;    (** the two runes are in one [SimpleFold] orbit *)
  unicode_is_print : Z → bool          (** [strconv.IsPrint] of a rune ≥ 128 *)
}.

(** The tables restricted to ASCII: no rune above it has case or is printable. *)
Definition ascii_tables : Unicode := {|
  unicode_to_lower r := r;
  unicode_same_fold _ _ := false;
  unicode_is_print _ := false |}.

Definition is_upper (r : Z) : bool := in_range 65 90 r.

Definition ascii_lower (r : Z) : Z := if is_upper r then r + 32 else r.

Section unicode.
Context `{Unicode}.

Definition rune_lower (r : Z) : Z :=
  if r <? 128 then ascii_lower r else unicode_to_lower r.

Fixpoint ascii_to_lower (s : string) : string :=
  match s with
  | EmptyString => EmptyString
  | String c s' => String (to_byte (ascii_lower (byte_of c))) (ascii_to_lower s')
  end.

(** [strings.ToLower] *)
Definition to_lower (s : string) : string :=
  if is_ascii s then ascii_to_lower s else strings_map rune_lower s.

Definition rune_fold_eq (a b : Z) : bool :=
  let lo := Z.min a b in
  let hi := Z.max a b in
  (lo =? hi)
  || (if hi <? 128 then is_upper lo && (hi =? lo + 32) else unicode_same_fold lo hi).

Fixpoint runes_fold_eq (xs ys : list Z) : bool :=
  match xs, ys with
  | [], [] => true
  | x :: xs', y :: ys' => rune_fold_eq x y && runes_fold_eq xs' ys'
  | _, _ => false
  end.

(** [strings.EqualFold] *)
Definition equal_fold (s t : string) : bool :=
  runes_fold_eq (rune_of <$> decode_runes s) (rune_of <$> decode_runes t).

Lemma rune_fold_eq_refl a : rune_fold_eq a a = true.
Proof. unfold rune_fold_eq. by rewrite Z.min_id, Z.max_id, Z.eqb_refl. Qed.

Lemma runes_fold_eq_refl xs : runes_fold_eq xs xs = true.
Proof. induction xs; simpl; [done|]. by rewrite rune_fold_eq_refl. Qed.

Lemma equal_fold_refl s : equal_fold s s = true.
Proof. apply runes_fold_eq_refl. Qed.

Lemma rune_fold_eq_sym a b : rune_fold_eq a b = rune_fold_eq b a.
Proof. unfold rune_fold_eq. by rewrite Z.min_comm, Z.max_comm. Qed.

Lemma equal_fold_sym s t : equal_fold s t = equal_fold t s.
Proof.
  unfold equal_fold. generalize (rune_of <$> decode_runes s) (rune_of <$> decode_runes t).
  induction l as [|x l IH]; intros [|y l']; simpl; auto.
  by rewrite rune_fold_eq_sym, IH.
Qed.
End unicode.

(** ** [strings.TrimSpace] *)

(** The UTF-8 encodings of the runes [unicode.IsSpace] accepts. *)
Definition space_encodings : list string :=
  (chr <$> [9; 10; 11; 12; 13; 32]) ++
  (encode_rune <$> [133; 160; 5760; 8192; 8193; 8194; 8195; 8196; 8197; 8198; 8199;
                    8200; 8201; 8202; 8232; 8233; 8239; 8287; 12288]).

(** Drop prefixes out of [encs] while there is one; one fuel unit per byte. *)
Fixpoint trim_prefixes (encs : list string) (fuel : nat) (s : string) : string :=
  match fuel with
  | O => s
  | S fuel' =>
    match find_first (λ e, if has_prefix s e then Some (String.length e) else None) encs with
    | Some (S n) => trim_prefixes encs fuel' (drop_bytes (S n) s)
    | _ => s
    end
  end.

Definition reverse_string (s : string) : string := of_bytes (rev (bytes_of s)).

Definition trim_space (s : string) : string :=
  let left := trim_prefixes space_encodings (String.length s) s in
  reverse_string (trim_prefixes (reverse_string <$> space_encodings) (String.length left) (reverse_string left)).

(** ** [strconv] *)

(** [strconv.FormatInt(z, 10)] and [strconv.Itoa] *)
Definition format_int (z : Z) : string := NilZero.string_of_int (Z.to_int z).

Definition max_int64 : Z := 9223372036854775807.
Definition min_int64 : Z := -9223372036854775808.

(** The value of a non-empty run of decimal digits. *)
Fixpoint digits_value (acc : Z) (s : string) : option Z :=
  match s with
  | EmptyString => Some acc
  | String c s' =>
    let b := byte_of c in
    if in_range 48 57 b then digits_value (acc * 10 + (b - 48)) s' else None
  end.

(** A sign already read, the digits that must follow it and the int64 range check. *)
Definition parse_digits (neg : bool) (digits : string) : option Z :=
  match digits with
  | EmptyString => None
  | String _ _ =>
    match digits_value 0 digits with
    | Some n =>
      let z := if neg then - n else n in
      if (min_int64 <=? z) && (z <=? max_int64) then Some z else None
    | None => None
    end
  end.

(** [strconv.ParseInt(s, 10, 64)], errors (syntax or range) as [None]. *)
Definition parse_int (s : string) : option Z :=
  match s with
  | EmptyString => None
  | String c s' =>
    if byte_of c =? 45 then parse_digits true s'
    else if byte_of c =? 43 then parse_digits false s'
    else parse_digits false s
  end.

(** [strconv.FormatBool] *)
Definition format_bool (b : bool) : string := if b then "true" else "false".

Definition hex_digit (z : Z) : string := chr (if z <? 10 then 48 + z else 87 + z).

Fixpoint hex_digits (n : nat) (z : Z) : string :=
  match n with O => EmptyString | S n' => hex_digits n' (z / 16) +:+ hex_digit (z mod 16) end.

(** [strconv.Quote], the [%q] verb. *)
Section quote.
Context `{Unicode}.

Definition is_print (r : Z) : bool :=
  if r <? 128 then in_range 32 126 r else unicode_is_print r.

Definition escape (tail : string) : string := String backslash tail.

Definition quote_item (i : rune_item) : string :=
  match i with
  | BadByte b => escape ("x" +:+ hex_digits 2 b)
  | Rune r =>
    if (r =? 34) || (r =? 92) then escape (chr r)
    else if is_print r then encode_rune r
    else if r =? 7 then escape "a" else if r =? 8 then escape "b"
    else if r =? 12 then escape "f" else if r =? 10 then escape "n"
    else if r =? 13 then escape "r" else if r =? 9 then escape "t"
    else if r =? 11 then escape "v"
    else if (r <? 32) || (r =? 127) then escape ("x" +:+ hex_digits 2 r)
    else if r <? 65536 then escape ("u" +:+ hex_digits 4 r)
    else escape ("U" +:+ hex_digits 8 r)
  end.

Definition quote (s : string) : string :=
  String dquote (String.concat "" (quote_item <$> decode_runes s)) +:+ String dquote "".
End quote.

(** ** Decimal round trip *)

Ltac step_digit :=
  match goal with |- context [byte_of ?c] =>
    let v := eval vm_compute in (byte_of c) in change (byte_of c) with v end;
  match goal with |- context [in_range ?a ?b ?c] => change (in_range a b c) with true end;
  cbv iota.

Lemma digits_value_uint_acc d p :
  digits_value (Zpos p) (NilEmpty.string_of_uint d) = Some (Zpos (Pos.of_uint_acc d p)).
Proof.
  revert p. induction d; intros p; cbn [NilEmpty.string_of_uint digits_value Pos.of_uint_acc];
    [done|..]; step_digit; rewrite <- IHd; f_equal; lia.
Qed.

Lemma digits_value_uint d :
  digits_value 0 (NilEmpty.string_of_uint d) = Some (Z.of_N (Pos.of_uint d)).
Proof.
  induction d; cbn [NilEmpty.string_of_uint digits_value Pos.of_uint]; [done|..];
    step_digit;
    first [exact IHd | cbn [Z.of_N]; by rewrite <- digits_value_uint_acc].
Qed.

Lemma nil_zero_uint d : d ≠ Decimal.Nil → NilZero.string_of_uint d = NilEmpty.string_of_uint d.
Proof. by destruct d. Qed.

Lemma string_of_uint_digit d :
  d ≠ Decimal.Nil →
  ∃ c s, NilEmpty.string_of_uint d = String c s ∧ 48 ≤ byte_of c ≤ 57.
Proof. destruct d; [done|..]; intros _; eexists _, _; split; try reflexivity; vm_compute; split; discriminate. Qed.

Lemma to_int_digits z :
  ∃ d, d ≠ Decimal.Nil ∧ Z.of_N (Pos.of_uint d) = Z.abs z ∧
       Z.to_int z = (if z <? 0 then Decimal.Neg d else Decimal.Pos d).
Proof.
  destruct z as [|p|p]; simpl.
  - exists (Decimal.D0 Decimal.Nil). done.
  - exists (Pos.to_uint p). split; [apply DecimalPos.Unsigned.to_uint_nonnil|].
    rewrite DecimalPos.Unsigned.of_to. done.
  - exists (Pos.to_uint p). split; [apply DecimalPos.Unsigned.to_uint_nonnil|].
    rewrite DecimalPos.Unsigned.of_to. done.
Qed.

Lemma parse_digits_uint (neg : bool) d z :
  d ≠ Decimal.Nil → Z.of_N (Pos.of_uint d) = (if neg then - z else z) →
  min_int64 ≤ z ≤ max_int64 →
  parse_digits neg (NilEmpty.string_of_uint d) = Some z.
Proof.
  intros Hd Hval Hz. destruct (string_of_uint_digit d Hd) as (c & s & Hs & _).
  assert (Hr : (min_int64 <=? z) && (z <=? max_int64) = true).
  { apply andb_true_iff. rewrite !Z.leb_le. lia. }
  unfold parse_digits. rewrite digits_value_uint, Hs, Hval.
  destruct neg; rewrite ?Z.opp_involutive; by rewrite Hr.
Qed.

Lemma parse_format_int z :
  min_int64 ≤ z ≤ max_int64 → parse_int (format_int z) = Some z.
Proof.
  intros Hz. unfold format_int.
  destruct (to_int_digits z) as (d & Hd & Hval & ->).
  destruct (string_of_uint_digit d Hd) as (c & s & Hs & Hc).
  destruct (Z.ltb_spec z 0); cbn [NilZero.string_of_int]; rewrite nil_zero_uint by done.
  - unfold parse_int. change (byte_of "-" =? 45) with true. cbv iota.
    apply parse_digits_uint; [done|lia|done].
  - unfold parse_int. rewrite Hs.
    destruct (Z.eqb_spec (byte_of c) 45); [lia|].
    destruct (Z.eqb_spec (byte_of c) 43); [lia|].
    rewrite <- Hs. apply parse_digits_uint; [done|lia|done].
Qed.

Lemma format_int_inj z z' :
  min_int64 ≤ z ≤ max_int64 → min_int64 ≤ z' ≤ max_int64 →
  format_int z = format_int z' → z = z'.
Proof.
  intros Hz Hz' E. apply (f_equal parse_int) in E.
  rewrite !parse_format_int in E by done. by injection E.
Qed.

Lemma format_int_nonempty z : format_int z ≠ "".
Proof.
  unfold format_int. destruct (to_int_digits z) as (d & Hd & _ & ->).
  destruct (string_of_uint_digit d Hd) as (c & s & Hs & _).
  destruct (z <? 0); cbn [NilZero.string_of_int]; [done|].
  rewrite nil_zero_uint, Hs by done. done.
Qed.
