(* ===== verification/GoFloat.v ===== *)
(** * Finite IEEE 754 binary64 values, as Go's [float64].

    JSON numbers reach the program as [float64], and [time.Duration.Hours]
    computes in it.  A value is [(-1)^neg * man * 2^exp]; every operation
    computes the exact rational result and rounds it once, to nearest, ties to
    even.  Infinities and NaN never arise in this program: [encoding/json]
    rejects numbers that overflow, and no division is by zero. *)

From S2P Require Import Prelude GoStrings.
Local Open Scope Z_scope.

Record float64 := F64 { f_neg : bool; f_man : Z; f_exp : Z }.

Definition f_zero : float64 := F64 false 0 (-1074).

Definition f_sign (f : float64) : Z := if f_neg f then -1 else 1.

(** The value as a fraction with a positive denominator. *)
Definition f_num (f : float64) : Z := f_sign f * f_man f * 2 ^ Z.max 0 (f_exp f).
Definition f_den (f : float64) : Z := 2 ^ Z.max 0 (- f_exp f).

(** The integer nearest to [n / d], ties to even. *)
Definition div_even (n d : Z) : Z :=
  let q := n / d in
  let r := n mod d in
  if 2 * r <? d then q
  else if d <? 2 * r then q + 1
  else if Z.even q then q else q + 1.

(** [n / d] scaled by [2^-e] and rounded to an integer. *)
Definition scale_even (n d e : Z) : Z :=
  div_even (n * 2 ^ Z.max 0 (- e)) (d * 2 ^ Z.max 0 e).

(** The [k] with [2^k ≤ n / d < 2^(k+1)]. *)
Definition ratio_log2 (n d : Z) : Z :=
  let k := Z.log2 n - Z.log2 d in
  if n * 2 ^ Z.max 0 (- k) <? d * 2 ^ Z.max 0 k then k - 1 else k.

(** The binary64 value nearest to [(-1)^neg * n / d] for [0 ≤ n], [0 < d];
    [None] when it overflows. *)
Definition round_ratio (neg : bool) (n d : Z) : option float64 :=
  if n =? 0 then Some (F64 neg 0 (-1074))
  else
    let e := Z.max (-1074) (ratio_log2 n d - 52) in
    let q := scale_even n d e in
    let '(m, e) := if q =? 2 ^ 53 then (2 ^ 52, e + 1) else (q, e) in
    if 971 <? e then None else Some (F64 neg m e).

Definition round_signed (n d : Z) : option float64 := round_ratio (n <? 0) (Z.abs n) d.

(** [float64(z)] of an integer; no [int64] overflows. *)
Definition float_of_int (z : Z) : float64 := default f_zero (round_signed z 1).

Definition float_eq (f g : float64) : bool := f_num f * f_den g =? f_num g * f_den f.

Definition float_add (f g : float64) : float64 :=
  default f_zero (round_signed (f_num f * f_den g + f_num g * f_den f) (f_den f * f_den g)).

(** Division by a positive value. *)
Definition float_div (f g : float64) : float64 :=
  default f_zero (round_signed (f_num f * f_den g) (f_den f * f_num g)).

(** [math.Ceil], as the integer it denotes. *)
Definition float_ceil (f : float64) : Z := - ((- f_num f) / f_den f).

Definition float_trunc (f : float64) : Z := Z.quot (f_num f) (f_den f).

(** Conversions of a [float64] to an integer type: the result is implementation
    dependent when the value does not fit (Go specification, Conversions). *)
Class Conversions := {
  int64_out_of_range : float64 → Z;
  int32_of_out_of_range : Z → Z
}.

(** What amd64 does. *)
Definition amd64_conversions : Conversions := {|
  int64_out_of_range _ := min_int64;
  int32_of_out_of_range z := (z + 2147483648) mod 4294967296 - 2147483648 |}.

Definition fits_int64 (z : Z) : bool := (min_int64 <=? z) && (z <=? max_int64).
Definition fits_int32 (z : Z) : bool := (-2147483648 <=? z) && (z <=? 2147483647).

Definition float_to_int64 `{Conversions} (f : float64) : Z :=
  let z := float_trunc f in
  if fits_int64 z then z else int64_out_of_range f.

Definition integral_to_int32 `{Conversions} (z : Z) : Z :=
  if fits_int32 z then z else int32_of_out_of_range z.

(** ** [strconv.FormatFloat(f, 'f', -1, 64)] *)

(** The least [p] at or above the start with [n / d < 10^p]; the caller starts
    one below the estimate [log2 * log10 2], within two of the answer. *)
Fixpoint decimal_exponent (fuel : nat) (p n d : Z) : Z :=
  match fuel with
  | O => p
  | S fuel' =>
    if n * 10 ^ Z.max 0 (- p) <? d * 10 ^ Z.max 0 p then p
    else decimal_exponent fuel' (p + 1) n d
  end.

(** [c * 10^x] rounds to the magnitude of [f]. *)
Definition decimal_rounds_to (f : float64) (c x : Z) : bool :=
  match round_ratio false (c * 10 ^ Z.max 0 x) (10 ^ Z.max 0 (- x)) with
  | Some g => (f_man g =? f_man f) && (f_exp g =? f_exp f)
  | None => false
  end.

(** The shortest decimal [c * 10^x] that reads back as [f], closest to it when
    two of that length do. *)
Fixpoint shortest_decimal (fuel : nat) (digits p : Z) (f : float64) : Z * Z :=
  let n := Z.abs (f_num f) in
  let x := p - digits in
  let num := n * 10 ^ Z.max 0 (- x) in
  let den := f_den f * 10 ^ Z.max 0 x in
  let lo := num / den in
  let nearest := div_even num den in
  if decimal_rounds_to f nearest x then (nearest, x)
  else if decimal_rounds_to f lo x then (lo, x)
  else if decimal_rounds_to f (lo + 1) x then (lo + 1, x)
  else match fuel with
  | O => (nearest, x)
  | S fuel' => shortest_decimal fuel' (digits + 1) p f
  end.

Fixpoint zeros (n : nat) : string := match n with O => "" | S n' => String "0" (zeros n') end.

(** Drop the trailing zeros a carry can leave in the digits. *)
Fixpoint strip_zeros (fuel : nat) (c x : Z) : Z * Z :=
  match fuel with
  | O => (c, x)
  | S fuel' => if (c mod 10 =? 0) && negb (c =? 0) then strip_zeros fuel' (c / 10) (x + 1) else (c, x)
  end.

Definition format_decimal (c x : Z) : string :=
  let ds := format_int c in
  if 0 <=? x then ds +:+ zeros (Z.to_nat x)
  else
    let frac := Z.to_nat (- x) in
    let ds := zeros (S frac - String.length ds) +:+ ds in
    let whole := (String.length ds - frac)%nat in
    take_bytes whole ds +:+ "." +:+ drop_bytes whole ds.

Definition format_float (f : float64) : string :=
  let body :=
    if f_man f =? 0 then "0"
    else
      let n := Z.abs (f_num f) in
      let estimate := (ratio_log2 n (f_den f) * 30103) / 100000 - 1 in
      let p := decimal_exponent 5 estimate n (f_den f) in
      let '(c, x) := shortest_decimal 17 1 p f in
      let '(c, x) := strip_zeros 20 c x in
      format_decimal c x in
  if f_neg f then String "-" body else body.

(** ** Exactness on integers *)

Lemma f_den_pos f : 0 < f_den f.
Proof. unfold f_den. apply Z.pow_pos_nonneg; lia. Qed.

Lemma div_even_exact q d : 0 < d → div_even (q * d) d = q.
Proof.
  intros Hd. unfold div_even. rewrite Z.div_mul, Z_mod_mult by lia.
  by destruct (Z.ltb_spec (2 * 0) d); [|lia].
Qed.

Lemma div_even_le n d q : 0 < d → n ≤ q * d → div_even n d ≤ q.
Proof.
  intros Hd Hn. unfold div_even.
  pose proof (Z.div_mod n d ltac:(lia)) as Hdm. pose proof (Z.mod_pos_bound n d Hd) as Hr.
  assert (n / d ≤ q) by (apply Z.div_le_upper_bound; lia).
  destruct (Z.ltb_spec (2 * (n mod d)) d); [done|].
  assert (n / d < q) by nia.
  destruct (Z.ltb_spec d (2 * (n mod d))); [lia|]. destruct (Z.even (n / d)); lia.
Qed.

Lemma div_even_ge n d q : 0 < d → q * d ≤ n → q ≤ div_even n d.
Proof.
  intros Hd Hq. assert (q ≤ n / d) by (apply Z.div_le_lower_bound; lia).
  unfold div_even. repeat case_match; lia.
Qed.

Lemma div_even_nonneg n d : 0 < d → 0 ≤ n → 0 ≤ div_even n d.
Proof.
  intros Hd Hn. unfold div_even. assert (0 ≤ n / d) by (apply Z.div_pos; lia).
  repeat case_match; lia.
Qed.

(** The binary logarithm of a ratio that is an integer. *)
Lemma ratio_log2_exact z d : 0 < z → 0 < d → ratio_log2 (z * d) d = Z.log2 z.
Proof.
  intros Hz Hd. unfold ratio_log2.
  pose proof (Z.log2_mul_below z d Hz Hd) as Hlo.
  pose proof (Z.log2_mul_above z d ltac:(lia) ltac:(lia)) as Hhi.
  pose proof (Z.log2_spec z Hz) as [Hz1 Hz2].
  pose proof (Z.log2_nonneg z).
  set (k := Z.log2 (z * d) - Z.log2 d).
  rewrite Z.max_l, Z.max_r by (unfold k; lia). rewrite Z.pow_0_r, Z.mul_1_r.
  assert (k = Z.log2 z ∨ k = Z.succ (Z.log2 z)) as [-> | ->] by (unfold k; lia).
  - destruct (Z.ltb_spec (z * d) (d * 2 ^ Z.log2 z)); [nia|done].
  - destruct (Z.ltb_spec (z * d) (d * 2 ^ Z.succ (Z.log2 z))); [lia|nia].
Qed.

Lemma ratio_log2_le n d z : 0 < n → 0 < d → 0 < z → n ≤ z * d → ratio_log2 n d ≤ Z.log2 z.
Proof.
  intros Hn Hd Hz Hle.
  pose proof (Z.log2_le_mono _ _ Hle).
  pose proof (Z.log2_mul_above z d ltac:(lia) ltac:(lia)) as Hhi.
  pose proof (Z.log2_spec z Hz) as [Hz1 Hz2]. pose proof (Z.log2_nonneg z).
  unfold ratio_log2. set (k := Z.log2 n - Z.log2 d).
  destruct (Z.ltb_spec (n * 2 ^ Z.max 0 (- k)) (d * 2 ^ Z.max 0 k)) as [|Hge]; [lia|].
  destruct (Z.le_gt_cases k (Z.log2 z)) as [|Hk]; [done|].
  rewrite (Z.max_l 0 (- k)), (Z.max_r 0 k), Z.pow_0_r, Z.mul_1_r in Hge by lia.
  assert (2 ^ Z.succ (Z.log2 z) ≤ 2 ^ k) by (apply Z.pow_le_mono_r; lia). nia.
Qed.

Definition represents (f : float64) (z : Z) : Prop := f_num f = z * f_den f.

Lemma round_ratio_exact neg z d :
  0 < d → 0 ≤ z ≤ 2 ^ 53 →
  ∃ f, round_ratio neg (z * d) d = Some f ∧ represents f (if neg then - z else z).
Proof.
  intros Hd Hz. unfold round_ratio.
  destruct (Z.eqb_spec (z * d) 0) as [E|E].
  { assert (z = 0) as -> by nia. eexists. split; [done|]. by destruct neg. }
  rewrite ratio_log2_exact by nia.
  assert (0 ≤ Z.log2 z) by apply Z.log2_nonneg.
  assert (Z.log2 z ≤ 53) by (change 53 with (Z.log2 (2 ^ 53)); apply Z.log2_le_mono; lia).
  pose proof (Z.log2_spec z ltac:(nia)) as [Hz1 Hz2].
  rewrite Z.max_r by lia.
  assert (Z.log2 z = 53 ∨ Z.log2 z ≤ 52) as [Hl|Hl] by lia.
  - assert (z = 2 ^ 53) as -> by (rewrite Hl in Hz1; lia).
    change (Z.log2 (2 ^ 53) - 52) with 1. unfold scale_even.
    change (2 ^ Z.max 0 1) with 2.
    change (2 ^ Z.max 0 (- (1))) with 1.
    replace (2 ^ 53 * d * 1) with (2 ^ 52 * (d * 2)) by lia.
    rewrite div_even_exact by lia. change (2 ^ 52 =? 2 ^ 53) with false. cbv iota beta.
    change (971 <? 1) with false. eexists. split; [done|]. by destruct neg.
  - unfold scale_even. set (s := Z.log2 z - 52).
    rewrite (Z.max_l 0 s), Z.pow_0_r, Z.mul_1_r by lia.
    rewrite (Z.max_r 0 (- s)) by lia.
    replace (z * d * 2 ^ (- s)) with (z * 2 ^ (- s) * d) by lia.
    rewrite div_even_exact by lia.
    assert (z * 2 ^ (- s) < 2 ^ 53).
    { replace (2 ^ 53) with (2 ^ Z.succ (Z.log2 z) * 2 ^ (- s)).
      - apply Z.mul_lt_mono_pos_r; [apply Z.pow_pos_nonneg; lia|lia].
      - rewrite <- Z.pow_add_r by lia. f_equal. lia. }
    destruct (Z.eqb_spec (z * 2 ^ (- s)) (2 ^ 53)); [lia|].
    destruct (Z.ltb_spec 971 s); [lia|]. eexists. split; [done|].
    unfold represents, f_num, f_den, f_sign; simpl.
    rewrite (Z.max_l 0 s), (Z.max_r 0 (- s)) by lia. destruct neg; lia.
Qed.

Lemma round_signed_exact z d :
  0 < d → Z.abs z ≤ 2 ^ 53 →
  ∃ f, round_signed (z * d) d = Some f ∧ represents f z.
Proof.
  intros Hd Hz. unfold round_signed. rewrite Z.abs_mul, (Z.abs_eq d) by lia.
  destruct (round_ratio_exact (z * d <? 0) (Z.abs z) d) as (f & -> & Hf); [lia|lia|].
  exists f. split; [done|]. unfold represents in *. rewrite Hf. f_equal.
  destruct (Z.ltb_spec (z * d) 0); nia.
Qed.

Lemma round_signed_int z d n :
  0 < d → Z.abs z ≤ 2 ^ 53 → n = z * d → represents (default f_zero (round_signed n d)) z.
Proof. intros ?? ->. by destruct (round_signed_exact z d) as (f & -> & ?). Qed.

Lemma float_of_int_exact z : Z.abs z ≤ 2 ^ 53 → represents (float_of_int z) z.
Proof. intros. apply round_signed_int; lia. Qed.

Lemma float_add_exact f g x y :
  represents f x → represents g y → Z.abs (x + y) ≤ 2 ^ 53 →
  represents (float_add f g) (x + y).
Proof.
  unfold represents at 1 2. intros Hf Hg Hb. pose proof (f_den_pos f). pose proof (f_den_pos g).
  apply round_signed_int; [lia|done|]. rewrite Hf, Hg. ring.
Qed.

Lemma float_div_exact f g q y :
  represents f (q * y) → represents g y → 0 < y → Z.abs q ≤ 2 ^ 53 →
  represents (float_div f g) q.
Proof.
  unfold represents at 1 2. intros Hf Hg Hy Hb. pose proof (f_den_pos f). pose proof (f_den_pos g).
  apply round_signed_int; [nia|done|]. rewrite Hf, Hg. ring.
Qed.

Lemma float_trunc_exact f z : represents f z → float_trunc f = z.
Proof.
  unfold represents, float_trunc. intros ->. pose proof (f_den_pos f). apply Z.quot_mul; lia.
Qed.

Lemma float_ceil_exact f z : represents f z → float_ceil f = z.
Proof.
  unfold represents, float_ceil. intros ->. pose proof (f_den_pos f).
  rewrite <- Z.mul_opp_l, Z.div_mul; lia.
Qed.

Lemma float_eq_represents f g z : represents f z → represents g z → float_eq f g = true.
Proof. unfold represents, float_eq. intros -> ->. apply Z.eqb_eq. ring. Qed.

(** ** Rounding stays between the integers around the exact value *)

Lemma round_ratio_between n d y z :
  0 ≤ y → 0 < d → 0 < z < 2 ^ 53 → y * d ≤ n ≤ z * d →
  ∃ f, round_ratio false n d = Some f ∧ y * f_den f ≤ f_num f ≤ z * f_den f.
Proof.
  intros Hy Hd Hz [Hge Hle]. unfold round_ratio. assert (0 ≤ n) as Hn by nia.
  destruct (Z.eqb_spec n 0) as [->|E].
  { eexists. split; [done|]. pose proof (f_den_pos (F64 false 0 (-1074))).
    assert (y = 0) as -> by nia. split; [done|]. change (f_num _) with 0. nia. }
  assert (Z.log2 z < 53) by (apply Z.log2_lt_pow2; lia).
  assert (ratio_log2 n d ≤ Z.log2 z) by (apply ratio_log2_le; lia).
  set (e := Z.max (-1074) (ratio_log2 n d - 52)). assert (e ≤ 0) by lia.
  unfold scale_even. rewrite (Z.max_l 0 e), Z.pow_0_r, Z.mul_1_r by lia.
  rewrite (Z.max_r 0 (- e)) by lia.
  assert (0 < 2 ^ (- e)) by (apply Z.pow_pos_nonneg; lia).
  set (q := div_even (n * 2 ^ (- e)) d).
  assert (0 ≤ q) by (apply div_even_nonneg; nia).
  assert (q ≤ z * 2 ^ (- e)) by (apply div_even_le; nia).
  assert (y * 2 ^ (- e) ≤ q) by (apply div_even_ge; [done|]; rewrite <- Z.mul_assoc, (Z.mul_comm (2 ^ _) d), Z.mul_assoc;
    apply Z.mul_le_mono_nonneg_r; lia).
  destruct (Z.eqb_spec q (2 ^ 53)) as [Hq|Hq].
  - destruct (Z.ltb_spec 971 (e + 1)); [lia|]. eexists. split; [done|].
    unfold f_num, f_den, f_sign. cbn [f_man f_exp f_neg].
    assert (e < 0).
    { apply Z.le_neq. split; [done|]. intros He. assert (2 ^ (- e) = 1) as E1 by (by rewrite He).
      rewrite E1 in *. lia. }
    rewrite (Z.max_l 0 (e + 1)), (Z.max_r 0 (- (e + 1))) by lia.
    assert (2 ^ (- e) = 2 * 2 ^ (- (e + 1))) as E2.
    { rewrite <- Z.pow_succ_r by lia. f_equal. lia. }
    rewrite E2 in *. lia.
  - destruct (Z.ltb_spec 971 e); [lia|]. eexists. split; [done|].
    unfold f_num, f_den, f_sign. cbn [f_man f_exp f_neg].
    rewrite (Z.max_l 0 e), (Z.max_r 0 (- e)) by lia. lia.
Qed.

Definition between (f : float64) (lo hi : Z) : Prop := lo * f_den f ≤ f_num f ≤ hi * f_den f.

Lemma between_weaken f lo hi lo' hi' : between f lo hi → lo' ≤ lo → hi ≤ hi' → between f lo' hi'.
Proof. unfold between. intros [??] ??. pose proof (f_den_pos f). split; nia. Qed.

Lemma round_signed_between n d y z :
  0 ≤ y → 0 < d → 0 < z < 2 ^ 53 → y * d ≤ n ≤ z * d →
  between (default f_zero (round_signed n d)) y z.
Proof.
  intros Hy Hd Hz Hle. assert (0 ≤ n) by nia.
  unfold round_signed. rewrite (proj2 (Z.ltb_ge n 0)), Z.abs_eq by lia.
  by destruct (round_ratio_between n d y z) as (f & -> & Hf).
Qed.

Lemma float_of_int_between z : 0 ≤ z < 2 ^ 53 → between (float_of_int z) z z.
Proof. intros Hz. pose proof (float_of_int_exact z ltac:(lia)) as Hr. unfold between. by rewrite Hr. Qed.

Lemma float_add_between f g x x' y y' :
  between f x x' → between g y y' → 0 ≤ x + y → 0 < x' + y' < 2 ^ 53 →
  between (float_add f g) (x + y) (x' + y').
Proof.
  intros [??] [??] ? ?. pose proof (f_den_pos f). pose proof (f_den_pos g).
  apply round_signed_between; [done|nia|done|split; nia].
Qed.

Lemma float_div_between f g d x y :
  between f (x * d) (y * d) → represents g d → 0 < d → 0 ≤ x → 0 < y < 2 ^ 53 →
  between (float_div f g) x y.
Proof.
  unfold represents. intros [??] Hg ???. pose proof (f_den_pos f). pose proof (f_den_pos g).
  apply round_signed_between; rewrite ?Hg; [done|nia|done|split; nia].
Qed.

Lemma float_ceil_between f lo hi : between f lo hi → lo ≤ float_ceil f ≤ hi.
Proof.
  unfold between, float_ceil. intros [Hlo Hhi]. pose proof (f_den_pos f). split.
  - apply Z.opp_le_mono. rewrite Z.opp_involutive. apply Z.div_le_upper_bound; lia.
  - apply Z.opp_le_mono. rewrite Z.opp_involutive. apply Z.div_le_lower_bound; lia.
Qed.

(** ** A lower bound with a fraction survives rounding, too *)

(** The number is at least [y / 2^s]. *)
Definition at_least (f : float64) (s y : Z) : Prop := y * f_den f ≤ f_num f * 2 ^ s.

Lemma round_ratio_at_least n d s y z :
  0 ≤ s → 0 ≤ y → 0 < d → 0 < z → Z.log2 z + s ≤ 52 → n ≤ z * d → y * d ≤ n * 2 ^ s →
  ∃ f, round_ratio false n d = Some f ∧ at_least f s y.
Proof.
  intros Hs Hy Hd Hz Hlog Hle Hge. assert (0 < 2 ^ s) as Hs2 by (apply Z.pow_pos_nonneg; lia).
  assert (0 ≤ n) as Hn by nia. unfold round_ratio, at_least.
  destruct (Z.eqb_spec n 0) as [->|E].
  { eexists. split; [done|]. pose proof (f_den_pos (F64 false 0 (-1074))). assert (y = 0) as -> by nia.
    change (f_num _) with 0. lia. }
  assert (ratio_log2 n d ≤ Z.log2 z) by (apply ratio_log2_le; lia).
  assert (0 ≤ Z.log2 z) by apply Z.log2_nonneg.
  set (e := Z.max (-1074) (ratio_log2 n d - 52)). assert (e ≤ - s) by lia.
  unfold scale_even. rewrite (Z.max_l 0 e), Z.pow_0_r, Z.mul_1_r by lia. rewrite (Z.max_r 0 (- e)) by lia.
  assert (2 ^ (- e) = 2 ^ s * 2 ^ (- e - s)) as He.
  { rewrite <- Z.pow_add_r by lia. f_equal. lia. }
  assert (0 < 2 ^ (- e - s)) by (apply Z.pow_pos_nonneg; lia).
  set (q := div_even (n * 2 ^ (- e)) d).
  assert (y * 2 ^ (- e - s) ≤ q) as Hq.
  { apply div_even_ge; [done|]. rewrite He. nia. }
  destruct (Z.eqb_spec q (2 ^ 53)) as [Eq|Eq].
  - destruct (Z.ltb_spec 971 (e + 1)); [lia|]. eexists. split; [done|].
    unfold f_num, f_den, f_sign. cbn [f_man f_exp f_neg].
    destruct (Z.eq_dec e 0) as [E0|E0].
    + assert (s = 0) as -> by lia. rewrite E0, Eq in Hq. rewrite E0. change (2 ^ (- 0 - 0)) with 1 in Hq.
      change (y * 1 ≤ 2 ^ 52 * 2 * 1). lia.
    + rewrite (Z.max_l 0 (e + 1)), (Z.max_r 0 (- (e + 1))) by lia.
      assert (2 ^ (- e) = 2 * 2 ^ (- (e + 1))) as E2 by (rewrite <- Z.pow_succ_r by lia; f_equal; lia).
      rewrite Eq in Hq. assert (y * (2 * 2 ^ (- (e + 1))) ≤ 2 ^ 53 * 2 ^ s) as Hm.
      { rewrite <- E2, He, (Z.mul_comm (2 ^ s)), Z.mul_assoc. apply Z.mul_le_mono_nonneg_r; lia. }
      change (2 ^ 53) with (2 * 2 ^ 52) in Hm. lia.
  - destruct (Z.ltb_spec 971 e); [lia|]. eexists. split; [done|].
    unfold f_num, f_den, f_sign. cbn [f_man f_exp f_neg].
    rewrite (Z.max_l 0 e), (Z.max_r 0 (- e)) by lia.
    assert (y * 2 ^ (- e - s) * 2 ^ s ≤ q * 2 ^ s) by (apply Z.mul_le_mono_nonneg_r; lia). rewrite He. lia.
Qed.

Lemma round_signed_at_least n d s y z :
  0 ≤ s → 0 ≤ y → 0 < d → 0 < z → Z.log2 z + s ≤ 52 → n ≤ z * d → y * d ≤ n * 2 ^ s →
  at_least (default f_zero (round_signed n d)) s y.
Proof.
  intros Hs Hy Hd Hz Hlog Hle Hge. assert (0 < 2 ^ s) by (apply Z.pow_pos_nonneg; lia).
  assert (0 ≤ n) by nia. unfold round_signed. rewrite (proj2 (Z.ltb_ge n 0)), Z.abs_eq by lia.
  by destruct (round_ratio_at_least n d s y z) as (f & -> & Hf).
Qed.

Lemma float_add_at_least f g x y s hi :
  0 ≤ s → 0 ≤ x + y → 0 < hi → Z.log2 hi + s ≤ 52 → f_num f * f_den g + f_num g * f_den f ≤ hi * (f_den f * f_den g) →
  at_least f s x → at_least g s y → at_least (float_add f g) s (x + y).
Proof.
  unfold at_least at 1 2. intros ? ? ? ? ? Hf Hg. pose proof (f_den_pos f). pose proof (f_den_pos g).
  apply (round_signed_at_least _ _ _ _ hi); [done|done|nia|done|done|lia|].
  assert (x * f_den f * f_den g ≤ f_num f * 2 ^ s * f_den g) by (apply Z.mul_le_mono_nonneg_r; lia).
  assert (y * f_den g * f_den f ≤ f_num g * 2 ^ s * f_den f) by (apply Z.mul_le_mono_nonneg_r; lia). lia.
Qed.

(** The quotient by an integer, on a finer grid. *)
Lemma float_div_at_least f g d s t x y hi :
  0 ≤ s → 0 ≤ t → 0 ≤ y → 0 < hi → Z.log2 hi + t ≤ 52 → 0 < d → represents g d → f_num f ≤ hi * d * f_den f →
  at_least f s x → y * d * 2 ^ s ≤ x * 2 ^ t → at_least (float_div f g) t y.
Proof.
  unfold represents. unfold at_least at 1. intros ? ? ? ? ? ? Hg ? Hf Hxy.
  pose proof (f_den_pos f). pose proof (f_den_pos g).
  assert (0 < 2 ^ s) by (apply Z.pow_pos_nonneg; lia). assert (0 < 2 ^ t) by (apply Z.pow_pos_nonneg; lia).
  assert (y * d * f_den f ≤ f_num f * 2 ^ t) as Hmain.
  { apply (Z.mul_le_mono_pos_r _ _ (2 ^ s)); [done|].
    assert (y * d * 2 ^ s * f_den f ≤ x * 2 ^ t * f_den f) by (apply Z.mul_le_mono_nonneg_r; lia).
    assert (x * f_den f * 2 ^ t ≤ f_num f * 2 ^ s * 2 ^ t) by (apply Z.mul_le_mono_nonneg_r; lia). lia. }
  apply (round_signed_at_least _ _ _ _ hi); rewrite ?Hg; [done|done|nia|done|done| |].
  - assert (f_num f * f_den g ≤ hi * d * f_den f * f_den g) by (apply Z.mul_le_mono_nonneg_r; lia). lia.
  - assert (y * d * f_den f * f_den g ≤ f_num f * 2 ^ t * f_den g) by (apply Z.mul_le_mono_nonneg_r; lia). lia.
Qed.

(** More than an integer is rounded up past it. *)
Lemma float_ceil_at_least f s y k : 0 ≤ s → at_least f s y → k * 2 ^ s < y → k + 1 ≤ float_ceil f.
Proof.
  unfold at_least, float_ceil. intros Hs Hf Hk. pose proof (f_den_pos f). assert (0 < 2 ^ s) by (apply Z.pow_pos_nonneg; lia).
  assert (k * f_den f < f_num f).
  { apply (Z.mul_lt_mono_pos_r (2 ^ s)); [done|].
    assert (k * 2 ^ s * f_den f < y * f_den f) by (apply Z.mul_lt_mono_pos_r; lia). lia. }
  pose proof (Z.div_lt_upper_bound (- f_num f) (f_den f) (- k)). lia.
Qed.

Lemma at_least_int f z s : represents f z → 0 ≤ s → at_least f s (z * 2 ^ s).
Proof. unfold represents, at_least. intros -> ?. lia. Qed.

(** ** Decimal renderings are never empty *)

Lemma app_nonempty_l (a b : string) : a ≠ "" → a +:+ b ≠ "".
Proof. by destruct a. Qed.

Lemma app_nonempty_r (a b : string) : b ≠ "" → a +:+ b ≠ "".
Proof. by destruct a. Qed.

Lemma format_decimal_nonempty c x : format_decimal c x ≠ "".
Proof.
  unfold format_decimal. destruct (0 <=? x).
  - apply app_nonempty_l, format_int_nonempty.
  - by apply app_nonempty_r.
Qed.

Lemma format_float_nonempty f : format_float f ≠ "".
Proof.
  unfold format_float. destruct (f_neg f); [done|]. destruct (f_man f =? 0); [done|].
  case_match. case_match. apply format_decimal_nonempty.
Qed.
