(* ===== verification/GoAny.v ===== *)
(** * Dynamically typed values: Go's [any], as decoded from or encoded to JSON.

    A [map[string]any] is its entries in ascending key order ([map_set] keeps
    them so); [range_map] is the [for range] loop over it, whose order the Go
    runtime chooses. *)

From S2P Require Import Prelude GoStrings GoFloat.

(** The dynamic types the program encodes, or looks for in a decoded response.
    A [json.Number] is the text of a number, which has a first character. *)
Inductive any : Type :=
| Nil
| Bool (b : bool)
| Int32 (z : Z)
| Float64 (f : float64)
| JsonNumber (first : ascii) (rest : string)
| Str (s : string)
| Slice (items : list any)
| Map (entries : list (string * any)).

Section any_ind.
Context (P : any → Prop).
Hypothesis HNil : P Nil.
Hypothesis HBool : ∀ b, P (Bool b).
Hypothesis HInt32 : ∀ z, P (Int32 z).
Hypothesis HFloat64 : ∀ f, P (Float64 f).
Hypothesis HJsonNumber : ∀ c s, P (JsonNumber c s).
Hypothesis HStr : ∀ s, P (Str s).
Hypothesis HSlice : ∀ l, Forall P l → P (Slice l).
Hypothesis HMap : ∀ m, Forall (λ e, P e.2) m → P (Map m).

Fixpoint any_nested_ind (v : any) : P v :=
  match v with
  | Nil => HNil
  | Bool b => HBool b
  | Int32 z => HInt32 z
  | Float64 f => HFloat64 f
  | JsonNumber c s => HJsonNumber c s
  | Str s => HStr s
  | Slice l =>
    HSlice l ((fix go l : Forall P l :=
      match l with
      | [] => Forall_nil_2 _
      | x :: l' => Forall_cons_2 _ _ _ (any_nested_ind x) (go l')
      end) l)
  | Map m =>
    HMap m ((fix go m : Forall (λ e, P e.2) m :=
      match m with
      | [] => Forall_nil_2 _
      | e :: m' => Forall_cons_2 _ e _ (any_nested_ind e.2) (go m')
      end) m)
  end.
End any_ind.

(** ** Maps *)

Definition keys {V} (m : list (string * V)) : list string := m.*1.

(** [m[k] = v] *)
Fixpoint map_set {V} (k : string) (v : V) (m : list (string * V)) : list (string * V) :=
  match m with
  | [] => [(k, v)]
  | (k', v') :: m' =>
    match String.compare k k' with
    | Lt => (k, v) :: m
    | Eq => (k, v) :: m'
    | Gt => (k', v') :: map_set k v m'
    end
  end.

(** [v, ok := m[k]] *)
Fixpoint map_get {V} (k : string) (m : list (string * V)) : option V :=
  match m with
  | [] => None
  | (k', v) :: m' => if decide (k = k') then Some v else map_get k m'
  end.

(** A map literal, its assignments in order. *)
Definition map_of {V} (l : list (string * V)) : list (string * V) :=
  foldl (λ m e, map_set e.1 e.2 m) [] l.

Definition key_lt (a b : string) : Prop := String.compare a b = Lt.
#[export] Instance key_lt_dec a b : Decision (key_lt a b).
Proof. unfold key_lt. apply _. Defined.

(** The representation invariant of a map: keys strictly ascending. *)
Definition map_ok {V} (m : list (string * V)) : Prop := StronglySorted key_lt (keys m).

Lemma string_compare_refl s : String.compare s s = Eq.
Proof. induction s; simpl; [done|]. unfold Ascii.compare. by rewrite N.compare_refl. Qed.

Lemma key_lt_trans a b c : key_lt a b → key_lt b c → key_lt a c.
Proof.
  unfold key_lt. revert b c. induction a as [|x a IH]; intros [|y b] [|z c]; simpl; try done.
  unfold Ascii.compare.
  destruct (N.compare_spec (N_of_ascii x) (N_of_ascii y)) as [E| |]; try done.
  - rewrite E. destruct (N.compare_spec (N_of_ascii y) (N_of_ascii z)); try done. eauto.
  - intros _. destruct (N.compare_spec (N_of_ascii y) (N_of_ascii z)) as [E2|Hl|]; try done.
    + intros _. rewrite <- E2. by rewrite (proj2 (N.compare_lt_iff _ _)).
    + intros _. rewrite (proj2 (N.compare_lt_iff _ _)); [done|lia].
Qed.

Lemma key_lt_irrefl a : ¬ key_lt a a.
Proof. unfold key_lt. by rewrite string_compare_refl. Qed.

Lemma key_gt_lt a b : String.compare a b = Gt → key_lt b a.
Proof. unfold key_lt. intros H. by rewrite String.compare_antisym, H. Qed.

Section maps.
Context {V : Type}.
Implicit Types m : list (string * V).

Lemma elem_of_map_set k v m k' v' :
  (k', v') ∈ map_set k v m → (k' = k ∧ v' = v) ∨ (k', v') ∈ m.
Proof.
  induction m as [|[a b] m IH]; simpl.
  - rewrite list_elem_of_singleton. intros [=]; auto.
  - destruct (String.compare k a); rewrite !elem_of_cons; naive_solver.
Qed.

Lemma map_set_key_In k v m x : x ∈ keys (map_set k v m) → x = k ∨ x ∈ keys m.
Proof.
  unfold keys. rewrite !list_elem_of_fmap. intros ([k' v'] & -> & H).
  apply elem_of_map_set in H as [[-> ->]|H]; [auto|].
  right. by exists (k', v').
Qed.

Lemma map_set_ok k v m : map_ok m → map_ok (map_set k v m).
Proof.
  unfold map_ok. induction m as [|[a b] m IH]; simpl; intros H.
  - repeat constructor.
  - inversion_clear H as [|? ? Hs Ha]. destruct (String.compare k a) eqn:E; simpl.
    + apply String.compare_eq_iff in E as ->. by constructor.
    + constructor; [by constructor|]. constructor; [done|].
      eapply Forall_impl; [exact Ha|]. intros x. by apply key_lt_trans.
    + constructor; [auto|]. apply Forall_forall. intros x [->|Hx]%map_set_key_In.
      * by apply key_gt_lt.
      * by eapply Forall_forall in Ha.
Qed.

Lemma map_of_ok l : map_ok (map_of (V:=V) l).
Proof.
  unfold map_of. assert (H : map_ok (V:=V) []) by constructor. revert H.
  generalize (@nil (string * V)).
  induction l as [|e l IH]; simpl; [done|]. intros m Hm. by apply IH, map_set_ok.
Qed.

Lemma map_ok_NoDup m : map_ok m → NoDup (keys m).
Proof.
  unfold map_ok. generalize (keys m). clear m. intros l. induction 1 as [|k l Hs IH Hk]; constructor; [|done].
  intros Hin. eapply Forall_forall in Hk; [|done]. by apply key_lt_irrefl in Hk.
Qed.

Lemma map_get_Some k v m : map_get k m = Some v → (k, v) ∈ m.
Proof.
  induction m as [|[a b] m IH]; simpl; [done|].
  case_decide as E; rewrite elem_of_cons; [intros [= ->]; left; by rewrite E|auto].
Qed.

Lemma map_get_elem k v m : map_ok m → (k, v) ∈ m → map_get k m = Some v.
Proof.
  intros Hm%map_ok_NoDup. induction m as [|[a b] m IH]; simpl; [by intros ?%not_elem_of_nil|].
  apply NoDup_cons in Hm as [Hn Hm]. rewrite elem_of_cons. intros [[= -> ->]|H].
  - by case_decide.
  - case_decide as E; [subst|auto]. destruct Hn. apply list_elem_of_fmap. by exists (a, v).
Qed.

Lemma map_get_set_eq k v m : map_get k (map_set k v m) = Some v.
Proof.
  induction m as [|[a b] m IH]; simpl; [by rewrite decide_True|].
  destruct (String.compare k a) eqn:E; simpl; [by rewrite decide_True..|].
  rewrite decide_False; [done|]. intros ->. by rewrite string_compare_refl in E.
Qed.

Lemma map_get_set_ne k k' v m : k' ≠ k → map_get k' (map_set k v m) = map_get k' m.
Proof.
  intros Hne. induction m as [|[a b] m IH]; simpl; [by rewrite decide_False|].
  destruct (String.compare k a) eqn:E; simpl.
  - apply String.compare_eq_iff in E as <-. by rewrite !decide_False.
  - by rewrite (decide_False (P:=k' = k)).
  - by rewrite IH.
Qed.
Lemma map_get_filter (P : string → Prop) (Hdec : ∀ e : string * V, Decision (P e.1)) k m :
  P k → map_get k (filter (λ e, P e.1) m) = map_get k m.
Proof.
  intros Hk. induction m as [|[k' v'] m IH]; [done|]. rewrite filter_cons. simpl. destruct (decide _) as [?|Hno]; simpl in *.
  - by destruct (decide (k = k')).
  - rewrite decide_False by (by intros <-). done.
Qed.

Lemma map_get_elem_NoDup k v m : NoDup (keys m) → (k, v) ∈ m → map_get k m = Some v.
Proof.
  unfold keys. induction m as [|[k' v'] m IH]; simpl; [by intros _ ?%not_elem_of_nil|].
  intros [Hk Hnd]%NoDup_cons [[= -> ->]|Hin]%elem_of_cons; [by rewrite decide_True|].
  rewrite decide_False; [auto|]. intros ->. apply Hk, list_elem_of_fmap. by exists (k', v).
Qed.

Lemma map_get_perm k m m' : NoDup (keys m) → m ≡ₚ m' → map_get k m = map_get k m'.
Proof.
  intros Hnd Hp. assert (NoDup (keys m')) as Hnd' by (unfold keys in *; by rewrite <- Hp).
  destruct (map_get k m) as [v|] eqn:E, (map_get k m') as [v'|] eqn:E'; try done.
  - apply map_get_Some in E. rewrite Hp in E. by rewrite (map_get_elem_NoDup _ _ _ Hnd' E) in E'.
  - apply map_get_Some in E. rewrite Hp in E. by rewrite (map_get_elem_NoDup _ _ _ Hnd' E) in E'.
  - apply map_get_Some in E'. rewrite <- Hp in E'. by rewrite (map_get_elem_NoDup _ _ _ Hnd E') in E.
Qed.

(** Maps with the same lookups are the same list of entries. *)
Lemma map_ok_ext m m' : map_ok m → map_ok m' → (∀ k, map_get k m = map_get k m') → m = m'.
Proof.
  intros Hm Hm' Hget.
  assert (∀ n, map_ok n → StronglySorted (λ e e' : string * V, key_lt e.1 e'.1) n) as Hsort.
  { unfold map_ok, keys. intros n. induction n as [|e n IH]; simpl; intros Hn; [constructor|].
    inversion_clear Hn as [|? ? Hs Ha]. constructor; [auto|].
    apply Forall_forall. intros x Hx. rewrite Forall_forall in Ha. apply Ha, list_elem_of_fmap. eauto. }
  apply (StronglySorted_unique_strong (λ e e', key_lt e.1 e'.1)); auto.
  - intros e e' _ _ H1 H2. exfalso. eapply key_lt_irrefl, key_lt_trans; eassumption.
  - apply NoDup_Permutation; [by eapply NoDup_fmap_1, map_ok_NoDup..|].
    intros [k v]. split; intros Hin.
    + apply map_get_Some. rewrite <- Hget. by apply map_get_elem.
    + apply map_get_Some. rewrite Hget. by apply map_get_elem.
Qed.
End maps.

(** What [json.Unmarshal] decodes into an [any]: numbers are [float64]s, and maps
    satisfy the invariant. *)
Fixpoint well_formed (v : any) : Prop :=
  match v with
  | Int32 _ | JsonNumber _ _ => False
  | Slice l => (fix go l := match l with [] => True | x :: l' => well_formed x ∧ go l' end) l
  | Map m =>
    map_ok m ∧
    (fix go m := match m with [] => True | e :: m' => well_formed e.2 ∧ go m' end) m
  | _ => True
  end.

Lemma well_formed_slice l : well_formed (Slice l) ↔ Forall well_formed l.
Proof.
  simpl. induction l as [|x l IH]; [done|]. by rewrite Forall_cons, <- IH.
Qed.

Lemma well_formed_map m : well_formed (Map m) ↔ map_ok m ∧ Forall (λ e, well_formed e.2) m.
Proof.
  simpl. apply and_iff_compat_l. induction m as [|x m IH]; [done|]. by rewrite Forall_cons, <- IH.
Qed.

(** ** Iteration order *)

(** The runtime's choice for one loop nest: the position each key of a map
    gets.  Every order of the entries of a map is some [order]
    ([range_map_complete]). *)
Definition order := list (string * any) → string → nat.

Definition ranked (rank : string → nat) (e1 e2 : string * any) : Prop :=
  (rank e1.1 ≤ rank e2.1)%nat.
#[export] Instance ranked_dec rank : RelDecision (ranked rank).
Proof. intros e1 e2. apply le_dec. Defined.
#[export] Instance ranked_total rank : Total (ranked rank).
Proof. intros e1 e2. unfold ranked. lia. Qed.
#[export] Instance ranked_trans rank : Transitive (ranked rank).
Proof. intros e1 e2 e3. unfold ranked. lia. Qed.

Definition range_map (o : order) (m : list (string * any)) : list (string * any) :=
  merge_sort (ranked (o m)) m.

Fixpoint position (k : string) (ks : list string) : nat :=
  match ks with
  | [] => O
  | k' :: ks' => if decide (k = k') then O else S (position k ks')
  end.

(** The order that visits keys as [l] lists them. *)
Definition order_of (l : list string) : order := λ _ k, position k l.

(** The order that follows the keys. *)
Definition key_order : order := λ m k, position k (keys m).

Lemma range_map_perm o m : range_map o m ≡ₚ m.
Proof. apply merge_sort_Permutation. Qed.

Lemma elem_of_range_map o m e : e ∈ range_map o m ↔ e ∈ m.
Proof. by rewrite (range_map_perm o m). Qed.

Lemma position_sorted l l' :
  NoDup (l ++ keys l') →
  StronglySorted (ranked (λ k, position k (l ++ keys l'))) l'.
Proof.
  assert (Hpos : ∀ (a b : list string) k, k ∉ a → position k (a ++ k :: b) = length a).
  { intros a b k. induction a as [|x a IH]; simpl; intros Hk; [by rewrite decide_True|].
    rewrite decide_False by set_solver. rewrite IH by set_solver. done. }
  assert (Hge : ∀ (a b : list string) k, k ∉ a → (length a ≤ position k (a ++ b))%nat).
  { intros a b k. induction a as [|x a IH]; simpl; intros Hk; [lia|].
    rewrite decide_False by set_solver.
    assert ((length a ≤ position k (a ++ b))%nat) by (apply IH; set_solver). lia. }
  revert l. induction l' as [|[k v] l' IH]; intros l Hnd; simpl in *; constructor.
  - specialize (IH (l ++ [k])). rewrite <- app_assoc in IH. by apply IH.
  - apply NoDup_app in Hnd as (_ & Hdis & [Hk _]%NoDup_cons).
    assert (k ∉ l) by (intros ?; eapply Hdis; [done|]; by left).
    apply Forall_forall. intros [k' v'] Hin. unfold ranked. simpl.
    rewrite (Hpos l (keys l') k) by done. apply Hge. intros Hl.
    apply (Hdis k' Hl). right. apply list_elem_of_fmap. by exists (k', v').
Qed.

(** Every order of the entries of a map is a possible iteration. *)
Lemma range_map_complete m l : map_ok m → l ≡ₚ m → range_map (order_of (keys l)) m = l.
Proof.
  intros Hm%map_ok_NoDup Hp.
  assert (Hnd : NoDup (keys l)).
  { unfold keys in *. by rewrite Hp. }
  pose proof (position_sorted [] l Hnd) as Hs. simpl in Hs.
  apply (StronglySorted_unique_strong (ranked (λ k, position k (keys l)))).
  - intros [k1 v1] [k2 v2] H1 H2. unfold range_map, order_of, ranked in *.
    rewrite merge_sort_Permutation, <- Hp in H1. simpl. intros Hle Hle2.
    assert (k1 = k2) as <-.
    { clear -H1 H2 Hle Hle2. revert Hle Hle2. induction l as [|[k v] l IH]; simpl; [set_solver|].
      rewrite !elem_of_cons in *. repeat case_decide; subst; try lia; intros;
        destruct H1 as [[=]|], H2 as [[=]|]; subst; try done; apply IH; (done || lia). }
    f_equal. clear -H1 H2 Hnd. induction l as [|[k v] l IH]; [set_solver|].
    simpl in Hnd. apply NoDup_cons in Hnd as [Hn Hnd].
    assert (∀ w, (k, w) ∉ l) as Hnk.
    { intros w Hw. apply Hn. apply list_elem_of_fmap. by exists (k, w). }
    rewrite !elem_of_cons in *. naive_solver.
  - apply StronglySorted_merge_sort; apply _.
  - done.
  - unfold range_map. by rewrite merge_sort_Permutation.
Qed.
