(* ===== verification/Json.v ===== *)
(** * The parts of [encoding/json] the program uses.

    [json_marshal] is [json.Marshal] on request details (strings, booleans,
    [int32]s and maps of them), [json_unmarshal] is [json.Unmarshal] into an
    [any]. *)

From S2P Require Import Prelude GoStrings GoFloat GoAny.
Local Open Scope Z_scope.

(** ** Encoding *)

(** One rune of a string, with the HTML escaping [json.Marshal] applies. *)
Definition json_item (i : rune_item) : string :=
  match i with
  | BadByte _ => escape "ufffd"
  | Rune r =>
    if (r =? 34) || (r =? 92) then escape (chr r)
    else if r =? 8 then escape "b" else if r =? 12 then escape "f"
    else if r =? 10 then escape "n" else if r =? 13 then escape "r"
    else if r =? 9 then escape "t"
    else if (r <? 32) || (r =? 60) || (r =? 62) || (r =? 38) || (r =? 8232) || (r =? 8233)
    then escape ("u" +:+ hex_digits 4 r)
    else encode_rune r
  end.

Definition json_string (s : string) : string :=
  String dquote (String.concat "" (json_item <$> decode_runes s) +:+ String dquote "").

(** [json.Marshal]; [None] for the dynamic types the program never encodes. *)
Fixpoint json_marshal (v : any) : option string :=
  match v with
  | Nil => Some "null"
  | Bool b => Some (format_bool b)
  | Int32 z => Some (format_int z)
  | Str s => Some (json_string s)
  | Map m =>
    (λ parts, "{" +:+ join "," parts +:+ "}") <$>
    (fix members m : option (list string) :=
       match m with
       | [] => Some []
       | (k, v) :: m' =>
         match json_marshal v, members m' with
         | Some enc, Some rest => Some ((json_string k +:+ ":" +:+ enc) :: rest)
         | _, _ => None
         end
       end) m
  | Float64 _ | JsonNumber _ _ | Slice _ => None
  end.

(** The members of an object. *)
Fixpoint json_members (m : list (string * any)) : option (list string) :=
  match m with
  | [] => Some []
  | (k, v) :: m' =>
    match json_marshal v, json_members m' with
    | Some enc, Some rest => Some ((json_string k +:+ ":" +:+ enc) :: rest)
    | _, _ => None
    end
  end.

Lemma json_marshal_Map m :
  json_marshal (Map m) = (λ parts, "{" +:+ join "," parts +:+ "}") <$> json_members m.
Proof. reflexivity. Qed.

Lemma json_marshal_map m :
  (∀ e, e ∈ m → is_Some (json_marshal e.2)) → is_Some (json_marshal (Map m)).
Proof.
  intros Hm. rewrite json_marshal_Map, fmap_is_Some.
  induction m as [|[k v] m IH]; simpl; [done|].
  destruct (Hm (k, v)) as [enc Henc]; [by left|]. simpl in Henc. rewrite Henc.
  destruct IH as [rest ->]; [|done]. intros e He. apply Hm. by right.
Qed.

(** ** Decoding *)

Inductive parsed (A : Type) :=
| Done (a : A) (rest : string)
| Malformed
| OutOfFuel.
Arguments Done {A} a rest.
Arguments Malformed {A}.
Arguments OutOfFuel {A}.

Definition is_json_space (b : Z) : bool := (b =? 32) || (b =? 9) || (b =? 10) || (b =? 13).

Fixpoint skip_space (s : string) : string :=
  match s with
  | String c s' => if is_json_space (byte_of c) then skip_space s' else s
  | EmptyString => s
  end.

Definition hex_value (c : ascii) : option Z :=
  let b := byte_of c in
  if in_range 48 57 b then Some (b - 48)
  else if in_range 97 102 b then Some (b - 87)
  else if in_range 65 70 b then Some (b - 55)
  else None.

(** The four hex digits of a [\u] escape. *)
Definition hex4 (s : string) : option (Z * string) :=
  match s with
  | String a (String b (String c (String d r))) =>
    match hex_value a, hex_value b, hex_value c, hex_value d with
    | Some a, Some b, Some c, Some d => Some (((a * 16 + b) * 16 + c) * 16 + d, r)
    | _, _, _, _ => None
    end
  | _ => None
  end.

(** The low half of a surrogate pair, if [s] goes on with one. *)
Definition low_surrogate (s : string) : option (Z * string) :=
  match s with
  | String a (String b r) =>
    if (byte_of a =? 92) && (byte_of b =? 117) then
      match hex4 r with
      | Some (lo, r') => if in_range 56320 57343 lo then Some (lo, r') else None
      | None => None
      end
    else None
  | _ => None
  end.

(** What follows a backslash: the bytes it stands for and the rest. *)
Definition unescape (s : string) : option (string * string) :=
  match s with
  | EmptyString => None
  | String c r =>
    let b := byte_of c in
    if (b =? 34) || (b =? 92) || (b =? 47) then Some (chr b, r)
    else if b =? 98 then Some (chr 8, r)
    else if b =? 102 then Some (chr 12, r)
    else if b =? 110 then Some (chr 10, r)
    else if b =? 114 then Some (chr 13, r)
    else if b =? 116 then Some (chr 9, r)
    else if b =? 117 then
      match hex4 r with
      | None => None
      | Some (u, r) =>
        if in_range 55296 57343 u then
          match low_surrogate r with
          | Some (lo, r') =>
            if u <? 56320 then Some (encode_rune ((u - 55296) * 1024 + (lo - 56320) + 65536), r')
            else Some (encode_rune rune_error, r)
          | None => Some (encode_rune rune_error, r)
          end
        else Some (encode_rune u, r)
      end
    else None
  end.

(** A string literal after its opening quote. *)
Fixpoint parse_string (fuel : nat) (s : string) : parsed string :=
  match fuel with
  | O => OutOfFuel
  | S fuel' =>
    match s with
    | EmptyString => Malformed
    | String c r =>
      let b := byte_of c in
      if b =? 34 then Done "" r
      else if b =? 92 then
        match unescape r with
        | None => Malformed
        | Some (bytes, r') =>
          match parse_string fuel' r' with
          | Done tail r'' => Done (bytes +:+ tail) r''
          | other => other
          end
        end
      else if b <? 32 then Malformed
      else
        match parse_string fuel' r with
        | Done tail r' => Done (String c tail) r'
        | other => other
        end
    end
  end.

(** A run of digits: its value appended to [acc], its length, the rest. *)
Fixpoint take_digits (acc n : Z) (s : string) : Z * Z * string :=
  match s with
  | String c r =>
    let b := byte_of c in
    if in_range 48 57 b then take_digits (acc * 10 + (b - 48)) (n + 1) r else (acc, n, s)
  | EmptyString => (acc, n, s)
  end.

(** An optional sign, [+] only where the grammar has it. *)
Definition split_sign (plus : bool) (s : string) : bool * string :=
  match s with
  | String c r =>
    if byte_of c =? 45 then (true, r)
    else if plus && (byte_of c =? 43) then (false, r)
    else (false, s)
  | EmptyString => (false, s)
  end.

(** The optional exponent. *)
Definition parse_exponent (s : string) : option (Z * string) :=
  match s with
  | String c r =>
    if (byte_of c =? 101) || (byte_of c =? 69) then
      let '(neg, r) := split_sign true r in
      let '(e, n, r) := take_digits 0 0 r in
      if n =? 0 then None else Some (if neg then - e else e, r)
    else Some (0, s)
  | EmptyString => Some (0, s)
  end.

(** The integer part and the optional fraction: all digits as one integer, and
    how many of them are behind the point. *)
Definition parse_mantissa (s : string) : option (Z * Z * string) :=
  let '(i, n, r) := take_digits 0 0 s in
  if n =? 0 then None
  else if (1 <? n) && (match s with String c _ => byte_of c =? 48 | _ => false end) then None
  else
    match r with
    | String c r' =>
      if byte_of c =? 46 then
        let '(m, k, r'') := take_digits i 0 r' in
        if k =? 0 then None else Some (m, k, r'')
      else Some (i, 0, r)
    | EmptyString => Some (i, 0, r)
    end.

Definition parse_number (s : string) : parsed any :=
  let '(neg, r) := split_sign false s in
  match parse_mantissa r with
  | None => Malformed
  | Some (m, k, r) =>
    match parse_exponent r with
    | None => Malformed
    | Some (e, r) =>
      match round_ratio neg (m * 10 ^ Z.max 0 (e - k)) (10 ^ Z.max 0 (k - e)) with
      | Some f => Done (Float64 f) r
      | None => Malformed
      end
    end
  end.

(** A literal must match to its end; a longer word fails at the delimiter. *)
Definition parse_literal (word : string) (v : any) (s : string) : parsed any :=
  if has_prefix s word then Done v (drop_bytes (String.length word) s) else Malformed.

Definition max_nesting_depth : Z := 10000.

Fixpoint parse_value (fuel : nat) (depth : Z) (s : string) {struct fuel} : parsed any :=
  match fuel with
  | O => OutOfFuel
  | S fuel' =>
    match skip_space s with
    | EmptyString => Malformed
    | String c r =>
      let b := byte_of c in
      if b =? 123 then
        if max_nesting_depth <? depth + 1 then Malformed
        else match skip_space r with
        | String c' r' =>
          if byte_of c' =? 125 then Done (Map []) r' else parse_members fuel' (depth + 1) [] r
        | EmptyString => Malformed
        end
      else if b =? 91 then
        if max_nesting_depth <? depth + 1 then Malformed
        else match skip_space r with
        | String c' r' =>
          if byte_of c' =? 93 then Done (Slice []) r' else parse_items fuel' (depth + 1) [] r
        | EmptyString => Malformed
        end
      else if b =? 34 then
        match parse_string (S (String.length r)) r with
        | Done str r' => Done (Str str) r'
        | Malformed => Malformed
        | OutOfFuel => OutOfFuel
        end
      else if b =? 116 then parse_literal "true" (Bool true) (String c r)
      else if b =? 102 then parse_literal "false" (Bool false) (String c r)
      else if b =? 110 then parse_literal "null" Nil (String c r)
      else parse_number (String c r)
    end
  end
with parse_members (fuel : nat) (depth : Z) (acc : list (string * any)) (s : string) {struct fuel} : parsed any :=
  match fuel with
  | O => OutOfFuel
  | S fuel' =>
    match skip_space s with
    | EmptyString => Malformed
    | String c r =>
      if byte_of c =? 34 then
        match parse_string (S (String.length r)) r with
        | Done k r =>
          match skip_space r with
          | EmptyString => Malformed
          | String c r =>
            if byte_of c =? 58 then
              match parse_value fuel' depth r with
              | Done v r =>
                match skip_space r with
                | EmptyString => Malformed
                | String c r =>
                  if byte_of c =? 44 then parse_members fuel' depth (map_set k v acc) r
                  else if byte_of c =? 125 then Done (Map (map_set k v acc)) r
                  else Malformed
                end
              | other => other
              end
            else Malformed
          end
        | Malformed => Malformed
        | OutOfFuel => OutOfFuel
        end
      else Malformed
    end
  end
with parse_items (fuel : nat) (depth : Z) (acc : list any) (s : string) {struct fuel} : parsed any :=
  match fuel with
  | O => OutOfFuel
  | S fuel' =>
    match parse_value fuel' depth s with
    | Done v r =>
      match skip_space r with
      | EmptyString => Malformed
      | String c r =>
        if byte_of c =? 44 then parse_items fuel' depth (v :: acc) r
        else if byte_of c =? 93 then Done (Slice (rev (v :: acc))) r
        else Malformed
      end
    | other => other
    end
  end.

(** Invalid UTF-8 decodes as U+FFFD; outside a string literal it stays a syntax
    error. *)
Definition to_valid_utf8 (s : string) : string := encode_runes (rune_of <$> decode_runes s).

Definition parse_document (s : string) : parsed any :=
  let s := to_valid_utf8 s in
  match parse_value (2 * String.length s + 2) 0 s with
  | Done v r => match skip_space r with EmptyString => Done v "" | _ => Malformed end
  | other => other
  end.

(** [json.Unmarshal(data, &v)] for [var v any]; [None] is a non-nil error. *)
Definition json_unmarshal (data : string) : option any :=
  match parse_document data with Done v _ => Some v | _ => None end.

(** ** Decoding terminates and yields well-formed values *)

Notation slen := String.length (only parsing).

Lemma skip_space_length s : (slen (skip_space s) ≤ slen s)%nat.
Proof. induction s as [|c s IH]; simpl; [lia|]. destruct (is_json_space _); simpl; lia. Qed.

Lemma drop_bytes_length n s : (slen (drop_bytes n s) = slen s - n)%nat.
Proof. revert s; induction n; intros [|c s]; simpl; auto. Qed.

Lemma take_digits_length acc n s a m r :
  take_digits acc n s = (a, m, r) → Z.of_nat (slen s) = Z.of_nat (slen r) + (m - n) ∧ n ≤ m.
Proof.
  revert acc n. induction s as [|c s IH]; intros acc n; simpl; [intros [= <- <- <-]; simpl; lia|].
  destruct (in_range 48 57 (byte_of c)); [|intros [= <- <- <-]; simpl; lia].
  intros [? ?]%IH. lia.
Qed.

Lemma hex4_length s u r : hex4 s = Some (u, r) → (slen r < slen s)%nat.
Proof.
  destruct s as [|? [|? [|? [|? s]]]]; simpl; try done. intros H. follow H.
  injection H as <- <-. lia.
Qed.

Lemma low_surrogate_length s u r : low_surrogate s = Some (u, r) → (slen r < slen s)%nat.
Proof.
  destruct s as [|? [|? s]]; simpl; try done. intros H. follow H. injection H as <- <-.
  match goal with E : hex4 _ = _ |- _ => apply hex4_length in E end. lia.
Qed.

Lemma unescape_length s b r : unescape s = Some (b, r) → (slen r < slen s)%nat.
Proof.
  destruct s as [|c s]; simpl; [done|]. intros H. follow H; injection H as <- <-;
    repeat match goal with
    | E : hex4 _ = _ |- _ => apply hex4_length in E
    | E : low_surrogate _ = _ |- _ => apply low_surrogate_length in E
    end; lia.
Qed.

Lemma parse_string_spec fuel s :
  match parse_string fuel s with
  | Done _ r => (slen r < slen s)%nat
  | Malformed => True
  | OutOfFuel => (fuel ≤ slen s)%nat
  end.
Proof.
  revert s. induction fuel as [|fuel IH]; intros s; simpl; [lia|].
  destruct s as [|c s]; simpl; [done|].
  destruct (byte_of c =? 34); [lia|]. destruct (byte_of c =? 92).
  - destruct (unescape s) as [[b r]|] eqn:E; [|done]. apply unescape_length in E.
    specialize (IH r). destruct (parse_string fuel r); lia || done.
  - destruct (byte_of c <? 32); [done|].
    specialize (IH s). destruct (parse_string fuel s); lia || done.
Qed.

Lemma parse_mantissa_length s m k r : parse_mantissa s = Some (m, k, r) → (slen r < slen s)%nat.
Proof.
  unfold parse_mantissa. intros H. follow H; injection H as <- <- <-; bool_prop;
    repeat match goal with
    | E : take_digits _ _ _ = _ |- _ => apply take_digits_length in E
    end; simpl in *; lia.
Qed.

Lemma split_sign_length plus s neg r : split_sign plus s = (neg, r) → (slen r ≤ slen s)%nat.
Proof.
  destruct s as [|c s]; simpl; [by intros [= <- <-]|].
  destruct (byte_of c =? 45); [|destruct (plus && _)]; intros [= <- <-]; simpl; lia.
Qed.

Lemma parse_exponent_length s e r : parse_exponent s = Some (e, r) → (slen r ≤ slen s)%nat.
Proof.
  unfold parse_exponent. intros H. follow H; injection H as <- <-;
    repeat match goal with
    | E : split_sign _ _ = _ |- _ => apply split_sign_length in E
    | E : take_digits _ _ _ = _ |- _ => apply take_digits_length in E
    end; simpl in *; lia.
Qed.

Lemma parse_number_spec s :
  match parse_number s with
  | Done v r => (slen r < slen s)%nat ∧ well_formed v
  | Malformed => True
  | OutOfFuel => False
  end.
Proof.
  unfold parse_number.
  destruct (split_sign false s) as [neg r] eqn:Er. apply split_sign_length in Er.
  destruct (parse_mantissa r) as [[[m k] r1]|] eqn:E1; [|done].
  destruct (parse_exponent r1) as [[e r2]|] eqn:E2; [|done].
  apply parse_mantissa_length in E1. apply parse_exponent_length in E2.
  destruct (round_ratio _ _ _); [|done]. split; [lia|done].
Qed.

Lemma parse_literal_spec w v s :
  w ≠ EmptyString → well_formed v →
  match parse_literal w v s with
  | Done v' r => (slen r < slen s)%nat ∧ well_formed v'
  | Malformed => True
  | OutOfFuel => False
  end.
Proof.
  intros Hw Hv. unfold parse_literal. destruct (has_prefix s w) eqn:E; [|done].
  split; [|done]. rewrite drop_bytes_length. destruct w, s; simpl in *; try done. lia.
Qed.

Definition parse_bound (limit : string → nat) (fuel : nat) (s : string) (p : parsed any) : Prop :=
  match p with
  | Done v r => (slen r < slen s)%nat ∧ well_formed v
  | Malformed => True
  | OutOfFuel => (fuel < limit s)%nat
  end.

Ltac space_lengths :=
  repeat match goal with
  | E : skip_space ?s = String _ _ |- _ =>
    pose proof (skip_space_length s); rewrite E in *; clear E; simpl in *
  end.

Lemma parse_bound_call limit limit' fuel r s p :
  parse_bound limit fuel r p → (slen r ≤ slen s)%nat → (limit r < limit' s)%nat →
  parse_bound limit' (S fuel) s p.
Proof. destruct p; simpl; [intros [??]|..]; split || intros; (done || lia). Qed.

(** The bounds of the three functions, by the fuel. *)
Definition value_bound (fuel : nat) : Prop := ∀ depth s,
  parse_bound (λ s, 2 * slen s + 1)%nat fuel s (parse_value fuel depth s).
Definition members_bound (fuel : nat) : Prop := ∀ depth acc s, well_formed (Map acc) →
  parse_bound (λ s, 2 * slen s + 1)%nat fuel s (parse_members fuel depth acc s).
Definition items_bound (fuel : nat) : Prop := ∀ depth acc s, Forall well_formed acc →
  parse_bound (λ s, 2 * slen s + 2)%nat fuel s (parse_items fuel depth acc s).

Lemma value_bound_step fuel : members_bound fuel → items_bound fuel → value_bound (S fuel).
Proof.
  unfold members_bound, items_bound. intros IHm IHi.
  intros depth s. cbn [parse_value].
  destruct (skip_space s) as [|c r] eqn:E; [done|].
  destruct (byte_of c =? 123).
  { destruct (max_nesting_depth <? _); [done|].
    destruct (skip_space r) as [|c' r'] eqn:E'; [done|].
    destruct (byte_of c' =? 125).
    - space_lengths. split; [lia|]. apply well_formed_map. split; constructor.
    - eapply parse_bound_call; [apply IHm, well_formed_map; split; constructor|..];
        space_lengths; lia. }
  destruct (byte_of c =? 91).
  { destruct (max_nesting_depth <? _); [done|].
    destruct (skip_space r) as [|c' r'] eqn:E'; [done|].
    destruct (byte_of c' =? 93).
    - space_lengths. split; [lia|done].
    - eapply parse_bound_call; [apply IHi; constructor|..]; space_lengths; lia. }
  destruct (byte_of c =? 34).
  { pose proof (parse_string_spec (S (slen r)) r) as Hs.
    destruct (parse_string _ r); [|done|lia]. space_lengths. split; [lia|done]. }
  pose proof (parse_literal_spec "true" (Bool true) (String c r) ltac:(done) I).
  pose proof (parse_literal_spec "false" (Bool false) (String c r) ltac:(done) I).
  pose proof (parse_literal_spec "null" Nil (String c r) ltac:(done) I).
  pose proof (parse_number_spec (String c r)). space_lengths.
  repeat match goal with |- context [if ?b then _ else _] => destruct b end;
    match goal with |- parse_bound _ _ _ ?p => destruct p end; simpl in *; intuition lia.
Qed.

Lemma members_bound_step fuel : value_bound fuel → members_bound fuel → members_bound (S fuel).
Proof.
  unfold value_bound, members_bound. intros IHv IHm.
  intros depth acc s Hacc. cbn [parse_members].
  destruct (skip_space s) as [|c r] eqn:E; [done|]. destruct (byte_of c =? 34); [|done].
  pose proof (parse_string_spec (S (slen r)) r) as Hs.
  destruct (parse_string _ r) as [k r1| |]; [|done|lia].
  destruct (skip_space r1) as [|c1 r2] eqn:E1; [done|]. destruct (byte_of c1 =? 58); [|done].
  specialize (IHv depth r2). destruct (parse_value fuel depth r2) as [v r3| |]; simpl in IHv;
    [|done|space_lengths; simpl; lia].
  destruct IHv as [Hr3 Hv].
  assert (well_formed (Map (map_set k v acc))).
  { apply well_formed_map in Hacc as [Hok Hall]. apply well_formed_map.
    split; [by apply map_set_ok|]. apply Forall_forall. intros [k' v'] Hin.
    apply elem_of_map_set in Hin as [[-> ->]|Hin]; [done|].
    by eapply Forall_forall in Hall. }
  destruct (skip_space r3) as [|c3 r4] eqn:E3; [done|].
  destruct (byte_of c3 =? 44).
  + eapply parse_bound_call; [by apply IHm|..]; space_lengths; lia.
  + destruct (byte_of c3 =? 125); [|done]. space_lengths. split; [lia|done].
Qed.

Lemma items_bound_step fuel : value_bound fuel → items_bound fuel → items_bound (S fuel).
Proof.
  unfold value_bound, items_bound. intros IHv IHi.
  intros depth acc s Hacc. cbn [parse_items].
  specialize (IHv depth s). destruct (parse_value fuel depth s) as [v r| |]; simpl in IHv;
    [|done|simpl; lia].
  destruct IHv as [Hr Hv].
  destruct (skip_space r) as [|c r1] eqn:E; [done|].
  destruct (byte_of c =? 44).
  + eapply parse_bound_call; [apply IHi; by constructor|..]; space_lengths; lia.
  + destruct (byte_of c =? 93); [|done]. space_lengths. split; [lia|].
    apply well_formed_slice, Forall_app. split; [by apply List.Forall_rev|by repeat constructor].
Qed.

Lemma parse_bounds fuel : value_bound fuel ∧ members_bound fuel ∧ items_bound fuel.
Proof.
  induction fuel as [|fuel (IHv & IHm & IHi)].
  - repeat split; intros ?; intros; simpl; lia.
  - split_and!; auto using value_bound_step, members_bound_step, items_bound_step.
Qed.

(** The fuel [parse_document] provides is always enough. *)
Lemma parse_document_fuel s : parse_document s ≠ OutOfFuel.
Proof.
  unfold parse_document. set (s' := to_valid_utf8 s).
  destruct (parse_bounds (2 * slen s' + 2)) as (Hv & _ & _). specialize (Hv 0 s').
  destruct (parse_value _ 0 s'); simpl in *; [|done|lia]. by destruct (skip_space rest).
Qed.

Lemma json_unmarshal_well_formed data v : json_unmarshal data = Some v → well_formed v.
Proof.
  unfold json_unmarshal, parse_document. set (s' := to_valid_utf8 data).
  destruct (parse_bounds (2 * slen s' + 2)) as (Hv & _ & _). specialize (Hv 0 s').
  destruct (parse_value _ 0 s'); simpl in *; [|done..].
  destruct (skip_space rest); [|done]. intros [= <-]. tauto.
Qed.
