(* ===== verification/JsonCodec.v ===== *)
(** * What [json.Marshal] writes, [json.Unmarshal] reads back

    For the documents the program encodes: objects of texts, booleans, [int32]s
    and objects. *)

From S2P Require Import Prelude GoStrings GoFloat GoAny Json.
From Stdlib Require Import DecimalString DecimalPos DecimalN DecimalFacts.
Local Open Scope Z_scope.

(** ** UTF-8 *)

(** A Unicode scalar value. *)
Definition valid_rune (r : Z) : Prop := 0 ≤ r ≤ 1114111 ∧ ¬ 55296 ≤ r ≤ 57343.

Definition valid_item (i : rune_item) : Prop :=
  match i with Rune r => valid_rune r | BadByte _ => True end.

Lemma in_range_spec lo hi b : in_range lo hi b = true ↔ lo ≤ b ≤ hi.
Proof. unfold in_range. rewrite andb_true_iff, !Z.leb_le. lia. Qed.

Lemma in_range_false lo hi b : in_range lo hi b = false ↔ ¬ lo ≤ b ≤ hi.
Proof. rewrite <- in_range_spec. by destruct (in_range lo hi b). Qed.

Lemma two_byte_valid b0 b1 : two_byte_ok b0 b1 = true → valid_rune (two_byte_rune b0 b1).
Proof.
  unfold two_byte_ok, continuation, valid_rune, two_byte_rune.
  rewrite andb_true_iff, !in_range_spec. lia.
Qed.

Lemma three_byte_valid b0 b1 b2 :
  three_byte_ok b0 b1 b2 = true → valid_rune (three_byte_rune b0 b1 b2).
Proof.
  unfold three_byte_ok, continuation, valid_rune, three_byte_rune.
  rewrite !andb_true_iff, !orb_true_iff, !andb_true_iff, !orb_true_iff, !in_range_spec, !Z.eqb_eq. lia.
Qed.

Lemma four_byte_valid b0 b1 b2 b3 :
  four_byte_ok b0 b1 b2 b3 = true → valid_rune (four_byte_rune b0 b1 b2 b3).
Proof.
  unfold four_byte_ok, continuation, valid_rune, four_byte_rune.
  rewrite !andb_true_iff, !orb_true_iff, !andb_true_iff, !in_range_spec, !Z.eqb_eq. lia.
Qed.

Lemma decode_runes_valid s : Forall valid_item (decode_runes s).
Proof.
  remember (String.length s) as n eqn:En. assert (String.length s ≤ n)%nat as Hn by lia. clear En.
  revert s Hn. induction n as [|n IH]; intros [|c0 s1] Hn; try (simpl in Hn; lia); [constructor..|].
  simpl String.length in Hn. pose proof (byte_of_range c0) as H0. cbn [decode_runes]. cbv zeta.
  destruct (Z.ltb_spec (byte_of c0) 128).
  { constructor; [unfold valid_item, valid_rune; lia|apply IH; lia]. }
  destruct s1 as [|c1 s2]; [by repeat constructor|].
  destruct (two_byte_ok _ _) eqn:E2.
  { constructor; [by apply two_byte_valid|apply IH; simpl in Hn; lia]. }
  assert (Forall valid_item (BadByte (byte_of c0) :: decode_runes (String c1 s2))) as Hbad
    by (constructor; [done|apply IH; lia]).
  destruct s2 as [|c2 s3]; [exact Hbad|].
  destruct (three_byte_ok _ _ _) eqn:E3.
  { constructor; [by apply three_byte_valid|apply IH; simpl in Hn; lia]. }
  destruct s3 as [|c3 s4]; [exact Hbad|].
  destruct (four_byte_ok _ _ _ _) eqn:E4; [|exact Hbad].
  constructor; [by apply four_byte_valid|apply IH; simpl in Hn; lia].
Qed.

(** The bytes of an encoded rune. *)
Definition rune_bytes (r : Z) : list Z :=
  if r <? 128 then [r]
  else if r <? 2048 then [192 + r / 64; 128 + r mod 64]
  else if r <? 65536 then [224 + r / 4096; 128 + (r / 64) mod 64; 128 + r mod 64]
  else [240 + r / 262144; 128 + (r / 4096) mod 64; 128 + (r / 64) mod 64; 128 + r mod 64].

Lemma encode_rune_valid r : valid_rune r → encode_rune r = of_bytes (to_byte <$> rune_bytes r).
Proof.
  intros [Hr Hs]. unfold encode_rune, rune_bytes.
  rewrite (proj2 (Z.ltb_ge r 0)), (proj2 (Z.ltb_ge 1114111 r)), (proj2 (in_range_false 55296 57343 r)) by lia.
  cbn [orb]. by repeat case_match.
Qed.

Lemma decode_encode_rune r t :
  valid_rune r → decode_runes (encode_rune r +:+ t) = Rune r :: decode_runes t.
Proof.
  intros Hr. rewrite encode_rune_valid by done. destruct Hr as [Hr Hs]. unfold rune_bytes.
  pose proof (Z.mod_pos_bound r 64 ltac:(done)). pose proof (Z.mod_pos_bound (r / 64) 64 ltac:(done)).
  pose proof (Z.mod_pos_bound (r / 4096) 64 ltac:(done)).
  assert (r = r / 64 * 64 + r mod 64) by (rewrite Z.mul_comm; by apply Z.div_mod).
  assert (r / 64 = r / 4096 * 64 + (r / 64) mod 64).
  { replace (r / 4096) with (r / 64 / 64) by (by rewrite Z.div_div). rewrite Z.mul_comm. by apply Z.div_mod. }
  assert (r / 4096 = r / 262144 * 64 + (r / 4096) mod 64).
  { replace (r / 262144) with (r / 4096 / 64) by (by rewrite Z.div_div). rewrite Z.mul_comm. by apply Z.div_mod. }
  destruct (Z.ltb_spec r 128); [|destruct (Z.ltb_spec r 2048); [|destruct (Z.ltb_spec r 65536)]];
    simpl; rewrite !byte_of_to by lia; cbv zeta.
  - by rewrite (proj2 (Z.ltb_lt _ _)).
  - rewrite (proj2 (Z.ltb_ge _ _)) by lia. unfold two_byte_ok, continuation.
    rewrite !(proj2 (in_range_spec _ _ _)) by lia. cbn [andb]. do 2 f_equal. unfold two_byte_rune. lia.
  - rewrite (proj2 (Z.ltb_ge _ _)) by lia. unfold two_byte_ok.
    rewrite (proj2 (in_range_false 194 223 _)) by lia. cbn [andb].
    assert (three_byte_ok (224 + r / 4096) (128 + (r / 64) mod 64) (128 + r mod 64) = true) as ->.
    { unfold three_byte_ok, continuation.
      rewrite !andb_true_iff, !orb_true_iff, !andb_true_iff, !orb_true_iff, !in_range_spec, !Z.eqb_eq. lia. }
    do 2 f_equal. unfold three_byte_rune. lia.
  - rewrite (proj2 (Z.ltb_ge _ _)) by lia. unfold two_byte_ok.
    rewrite (proj2 (in_range_false 194 223 _)) by lia. cbn [andb].
    assert (three_byte_ok (240 + r / 262144) (128 + (r / 4096) mod 64) (128 + (r / 64) mod 64) = false) as ->.
    { apply not_true_iff_false. unfold three_byte_ok, continuation.
      rewrite !andb_true_iff, !orb_true_iff, !andb_true_iff, !orb_true_iff, !in_range_spec, !Z.eqb_eq. lia. }
    assert (four_byte_ok (240 + r / 262144) (128 + (r / 4096) mod 64) (128 + (r / 64) mod 64) (128 + r mod 64)
            = true) as ->.
    { unfold four_byte_ok, continuation.
      rewrite !andb_true_iff, !orb_true_iff, !andb_true_iff, !in_range_spec, !Z.eqb_eq. lia. }
    do 2 f_equal. unfold four_byte_rune. lia.
Qed.

(** A text that stays as it is in front of any other. *)
Definition clean (s : string) : Prop := ∀ t, to_valid_utf8 (s +:+ t) = s +:+ to_valid_utf8 t.

Lemma clean_nil : clean "".
Proof. done. Qed.

Lemma clean_app a b : clean a → clean b → clean (a +:+ b).
Proof. intros Ha Hb t. by rewrite <- string_app_assoc, Ha, Hb, string_app_assoc. Qed.

Lemma encode_runes_cons r rs : encode_runes (r :: rs) = encode_rune r +:+ encode_runes rs.
Proof.
  unfold encode_runes. rewrite fmap_cons. simpl. destruct (encode_rune <$> rs); [|done].
  by rewrite string_app_nil_r.
Qed.

Lemma clean_rune r : valid_rune r → clean (encode_rune r).
Proof. intros Hr t. unfold to_valid_utf8. by rewrite decode_encode_rune, fmap_cons, encode_runes_cons. Qed.

Lemma ascii_rune c : byte_of c < 128 → encode_rune (byte_of c) = String c "".
Proof.
  intros Hc. pose proof (byte_of_range c). rewrite encode_rune_valid by (unfold valid_rune; lia).
  unfold rune_bytes. rewrite (proj2 (Z.ltb_lt _ _)) by lia. simpl. by rewrite to_byte_of.
Qed.

Lemma clean_ascii s : is_ascii s = true → clean s.
Proof.
  induction s as [|c s IH]; simpl; [intros _; apply clean_nil|].
  rewrite andb_true_iff, Z.ltb_lt. intros [Hc Hs]. pose proof (byte_of_range c).
  change (clean (String c "" +:+ s)). rewrite <- ascii_rune by lia.
  apply clean_app; [apply clean_rune; unfold valid_rune; lia|by apply IH].
Qed.

Lemma clean_concat sep l : clean sep → Forall clean l → clean (String.concat sep l).
Proof.
  intros Hsep. induction 1 as [|x l Hx Hl IH]; [apply clean_nil|]. simpl. destruct l; [done|].
  by apply clean_app, clean_app.
Qed.

Lemma two_byte_bytes b0 b1 :
  two_byte_ok b0 b1 = true → rune_bytes (two_byte_rune b0 b1) = [b0; b1].
Proof.
  unfold two_byte_ok, continuation, rune_bytes, two_byte_rune. rewrite andb_true_iff, !in_range_spec.
  intros [H0 H1]. rewrite (proj2 (Z.ltb_ge _ 128)), (proj2 (Z.ltb_lt _ 2048)) by lia.
  repeat f_equal; Z.to_euclidean_division_equations; lia.
Qed.

Lemma three_byte_bytes b0 b1 b2 :
  three_byte_ok b0 b1 b2 = true → rune_bytes (three_byte_rune b0 b1 b2) = [b0; b1; b2].
Proof.
  unfold three_byte_ok, continuation, rune_bytes, three_byte_rune.
  rewrite !andb_true_iff, !orb_true_iff, !andb_true_iff, !orb_true_iff, !in_range_spec, !Z.eqb_eq.
  intros [H2 H01].
  rewrite (proj2 (Z.ltb_ge _ 128)), (proj2 (Z.ltb_ge _ 2048)), (proj2 (Z.ltb_lt _ 65536)) by lia.
  repeat f_equal; Z.to_euclidean_division_equations; lia.
Qed.

Lemma four_byte_bytes b0 b1 b2 b3 :
  four_byte_ok b0 b1 b2 b3 = true → rune_bytes (four_byte_rune b0 b1 b2 b3) = [b0; b1; b2; b3].
Proof.
  unfold four_byte_ok, continuation, rune_bytes, four_byte_rune.
  rewrite !andb_true_iff, !orb_true_iff, !andb_true_iff, !in_range_spec, !Z.eqb_eq.
  intros [[H2 H3] H01].
  rewrite (proj2 (Z.ltb_ge _ 128)), (proj2 (Z.ltb_ge _ 2048)), (proj2 (Z.ltb_ge _ 65536)) by lia.
  repeat f_equal; Z.to_euclidean_division_equations; lia.
Qed.

(** Well-formed text stays as it is. *)
Lemma to_valid_utf8_valid s : valid_utf8 s = true → to_valid_utf8 s = s.
Proof.
  remember (String.length s) as n eqn:En. assert (String.length s ≤ n)%nat as Hn by lia. clear En.
  revert s Hn. unfold valid_utf8, to_valid_utf8.
  induction n as [|n IH]; intros [|c0 s1] Hn; try (simpl in Hn; lia); [done..|].
  simpl String.length in Hn. cbn [decode_runes]. cbv zeta.
  destruct (Z.ltb_spec (byte_of c0) 128).
  { simpl forallb. intros Hv. rewrite fmap_cons, encode_runes_cons, IH by (done || lia). simpl rune_of.
    by rewrite ascii_rune. }
  destruct s1 as [|c1 s2]; [done|].
  destruct (two_byte_ok _ _) eqn:E2.
  { simpl forallb. intros Hv. rewrite fmap_cons, encode_runes_cons, IH by (done || (simpl in Hn; lia)).
    simpl rune_of. rewrite encode_rune_valid, two_byte_bytes by (done || by apply two_byte_valid).
    simpl. by rewrite !to_byte_of. }
  destruct s2 as [|c2 s3]; [done|].
  destruct (three_byte_ok _ _ _) eqn:E3.
  { simpl forallb. intros Hv. rewrite fmap_cons, encode_runes_cons, IH by (done || (simpl in Hn; lia)).
    simpl rune_of. rewrite encode_rune_valid, three_byte_bytes by (done || by apply three_byte_valid).
    simpl. by rewrite !to_byte_of. }
  destruct s3 as [|c3 s4]; [done|].
  destruct (four_byte_ok _ _ _ _) eqn:E4; [|done].
  simpl forallb. intros Hv. rewrite fmap_cons, encode_runes_cons, IH by (done || (simpl in Hn; lia)).
  simpl rune_of. rewrite encode_rune_valid, four_byte_bytes by (done || by apply four_byte_valid).
  simpl. by rewrite !to_byte_of.
Qed.

(** ** String literals *)

(** [s], from after the opening quote of a literal, reads as [out] and leaves
    [rest]. *)
Definition reads_string (s out rest : string) : Prop :=
  ∀ fuel, (String.length s ≤ fuel)%nat → parse_string fuel s = Done out rest.

(** A byte a literal holds as it is. *)
Definition plain_byte (b : Z) : Prop := 32 ≤ b < 256 ∧ b ≠ 34 ∧ b ≠ 92.

Lemma reads_plain bs tail out rest :
  Forall plain_byte bs → reads_string tail out rest →
  reads_string (of_bytes (to_byte <$> bs) +:+ tail) (of_bytes (to_byte <$> bs) +:+ out) rest.
Proof.
  intros Hbs Ht. induction Hbs as [|b bs Hb Hbs IH]; [done|]. intros [|fuel] Hf; [simpl in Hf; lia|].
  change (of_bytes (to_byte <$> b :: bs) +:+ tail)
    with (String (to_byte b) (of_bytes (to_byte <$> bs) +:+ tail)) in *.
  cbn [String.length parse_string] in *. cbv zeta. destruct Hb as (Hb & H34 & H92). rewrite byte_of_to by lia.
  rewrite (proj2 (Z.eqb_neq b 34)), (proj2 (Z.eqb_neq b 92)), (proj2 (Z.ltb_ge b 32)) by lia.
  rewrite IH by lia. done.
Qed.

Lemma reads_escape e bytes tail out rest :
  unescape (e +:+ tail) = Some (bytes, tail) → reads_string tail out rest →
  reads_string (escape e +:+ tail) (bytes +:+ out) rest.
Proof.
  intros Hu Ht [|fuel] Hf; [simpl in Hf; lia|]. unfold escape in *. rewrite string_app_cons in *.
  cbn [parse_string String.length] in *. change (byte_of backslash) with 92. cbv zeta. simpl Z.eqb.
  cbv iota. rewrite Hu, Ht; [done|]. rewrite string_app_length in Hf. lia.
Qed.

Lemma hex_value_digit z : 0 ≤ z < 16 →
  hex_value (to_byte (if z <? 10 then 48 + z else 87 + z)) = Some z.
Proof.
  intros Hz. unfold hex_value. rewrite byte_of_to by (destruct (Z.ltb_spec z 10); lia).
  destruct (Z.ltb_spec z 10).
  - rewrite (proj2 (in_range_spec 48 57 _)) by lia. f_equal. lia.
  - rewrite (proj2 (in_range_false 48 57 _)), (proj2 (in_range_spec 97 102 _)) by lia. f_equal. lia.
Qed.

Lemma hex4_digits r tail : 0 ≤ r < 65536 → hex4 (hex_digits 4 r +:+ tail) = Some (r, tail).
Proof.
  intros Hr. cbn [hex_digits]. unfold hex_digit, chr.
  repeat first [rewrite string_app_nil_l | rewrite string_app_cons]. cbn [hex4]. pose proof (Z.mod_pos_bound r 16 ltac:(done)). pose proof (Z.mod_pos_bound (r / 16) 16 ltac:(done)).
  pose proof (Z.mod_pos_bound (r / 16 / 16) 16 ltac:(done)).
  pose proof (Z.mod_pos_bound (r / 16 / 16 / 16) 16 ltac:(done)).
  rewrite !hex_value_digit by lia. do 2 f_equal. Z.to_euclidean_division_equations. lia.
Qed.

Lemma unescape_u r tail :
  0 ≤ r < 55296 ∨ 57344 ≤ r < 65536 → unescape (("u" +:+ hex_digits 4 r) +:+ tail) = Some (encode_rune r, tail).
Proof.
  intros Hr. rewrite <- string_app_assoc, string_app_cons. unfold unescape.
  change (byte_of "u") with 117. simpl Z.eqb. cbn [orb]. cbv zeta iota. rewrite string_app_nil_l.
  rewrite hex4_digits, (proj2 (in_range_false _ _ _)) by lia. done.
Qed.

Lemma rune_bytes_plain r : valid_rune r → 32 ≤ r → r ≠ 34 → r ≠ 92 → Forall plain_byte (rune_bytes r).
Proof.
  intros [Hr _] H32 H34 H92. unfold rune_bytes, plain_byte.
  destruct (Z.ltb_spec r 128); [repeat constructor; lia|].
  destruct (Z.ltb_spec r 2048); [|destruct (Z.ltb_spec r 65536)];
    (repeat constructor; try (Z.to_euclidean_division_equations; lia)).
Qed.

Lemma reads_item i tail out rest :
  valid_item i → reads_string tail out rest →
  reads_string (json_item i +:+ tail) (encode_rune (rune_of i) +:+ out) rest.
Proof.
  intros Hi Ht. destruct i as [r|b]; simpl in Hi |- *.
  - destruct (Z.eqb_spec r 34) as [->|]; [by apply reads_escape|].
    destruct (Z.eqb_spec r 92) as [->|]; [by apply reads_escape|]. cbn [orb].
    destruct (Z.eqb_spec r 8) as [->|]; [by apply reads_escape|].
    destruct (Z.eqb_spec r 12) as [->|]; [by apply reads_escape|].
    destruct (Z.eqb_spec r 10) as [->|]; [by apply reads_escape|].
    destruct (Z.eqb_spec r 13) as [->|]; [by apply reads_escape|].
    destruct (Z.eqb_spec r 9) as [->|]; [by apply reads_escape|].
    destruct (_ || _) eqn:Eu.
    + apply reads_escape; [|done]. apply unescape_u. destruct Hi as [? _].
      rewrite !orb_true_iff, !Z.eqb_eq, Z.ltb_lt in Eu. lia.
    + rewrite encode_rune_valid by done. apply reads_plain; [|done].
      rewrite !orb_false_iff, Z.ltb_ge in Eu. apply rune_bytes_plain; [done|lia..].
  - by apply (reads_escape "ufffd" (encode_rune rune_error)).
Qed.

Lemma json_item_clean i : valid_item i → clean (json_item i).
Proof.
  assert (∀ n z, 0 ≤ z → is_ascii (hex_digits n z) = true) as Hhex.
  { intros n. induction n as [|n IH]; intros z Hz; [done|]. cbn [hex_digits].
    assert (∀ a b, is_ascii a = true → is_ascii b = true → is_ascii (a +:+ b) = true) as Happ.
    { intros a b Ha Hb. induction a as [|c a IHa]; [done|]. rewrite string_app_cons. simpl in *.
      apply andb_true_iff in Ha as [-> Ha]. by apply IHa. }
    apply Happ; [apply IH; by apply Z.div_pos|]. unfold hex_digit, chr. simpl.
    pose proof (Z.mod_pos_bound z 16 ltac:(done)).
    rewrite byte_of_to by (destruct (Z.ltb_spec (z mod 16) 10); lia).
    rewrite (proj2 (Z.ltb_lt _ _)); [done|]. destruct (Z.ltb_spec (z mod 16) 10); lia. }
  intros Hi. destruct i as [r|b]; simpl in Hi |- *; [|by apply clean_ascii].
  destruct (Z.eqb_spec r 34) as [->|]; [by apply clean_ascii|].
  destruct (Z.eqb_spec r 92) as [->|]; [by apply clean_ascii|]. cbn [orb].
  repeat (case_match; [by apply clean_ascii|]).
  case_match; [|by apply clean_rune].
  apply clean_ascii. unfold escape. change (is_ascii (hex_digits 4 r) = true). apply Hhex.
  by destruct Hi as [[? _] _].
Qed.

Lemma reads_items items rest :
  Forall valid_item items →
  reads_string (String.concat "" (json_item <$> items) +:+ String dquote rest)
    (encode_runes (rune_of <$> items)) rest.
Proof.
  induction 1 as [|i items Hi Hitems IH].
  - intros [|fuel] Hf; [simpl in Hf; lia|]. done.
  - rewrite !fmap_cons, encode_runes_cons.
    assert (∀ x l, String.concat "" (x :: l) = x +:+ String.concat "" l) as Hcons.
    { intros x l. simpl. destruct l; [by rewrite string_app_nil_r|done]. }
    rewrite Hcons, <- string_app_assoc. by apply reads_item.
Qed.

(** A literal reads back, with malformed UTF-8 replaced. *)
Lemma parse_json_string s rest :
  ∃ r, json_string s +:+ rest = String dquote r ∧
       parse_string (S (String.length r)) r = Done (to_valid_utf8 s) rest.
Proof.
  unfold json_string. eexists. split; [apply string_app_cons|].
  rewrite <- string_app_assoc, string_app_cons, string_app_nil_l.
  apply reads_items; [apply decode_runes_valid|lia].
Qed.

Lemma json_string_clean s : clean (json_string s).
Proof.
  unfold json_string. change (clean (String dquote "" +:+ String.concat "" (json_item <$> decode_runes s)
                                     +:+ String dquote "")).
  apply clean_app; [by apply clean_ascii|]. apply clean_app; [|by apply clean_ascii].
  apply clean_concat; [apply clean_nil|]. apply Forall_fmap.
  eapply Forall_impl; [apply decode_runes_valid|]. apply json_item_clean.
Qed.

(** ** Numbers *)

(** What follows a value in a document. *)
Definition follows (rest : string) : Prop :=
  match rest with String c _ => byte_of c = 44 ∨ byte_of c = 125 | EmptyString => True end.

Lemma take_digits_value s acc n v rest :
  digits_value acc s = Some v → follows rest →
  take_digits acc n (s +:+ rest) = (v, n + len s, rest).
Proof.
  intros Hv Hr. revert acc n Hv. induction s as [|c s IH]; intros acc n Hv; cbn [digits_value] in Hv.
  - injection Hv as ->. rewrite string_app_nil_l. unfold len. simpl. rewrite Z.add_0_r.
    destruct rest as [|c rest]; [done|]. simpl. rewrite (proj2 (in_range_false _ _ _)); [done|].
    simpl in Hr. lia.
  - rewrite string_app_cons. cbn [take_digits]. destruct (in_range 48 57 (byte_of c)); [|done].
    rewrite (IH _ _ Hv). unfold len. cbn [String.length]. f_equal. f_equal. lia.
Qed.

Lemma to_uint_no_zero p d : Pos.to_uint p ≠ Decimal.D0 d.
Proof.
  intros E. pose proof (DecimalN.Unsigned.to_of (Pos.to_uint p)) as Ho.
  change (Pos.to_uint p) with (N.to_uint (Npos p)) in Ho at 1.
  rewrite DecimalN.Unsigned.of_to in Ho. change (N.to_uint (Npos p)) with (Pos.to_uint p) in Ho.
  rewrite E in Ho. unfold Decimal.unorm in Ho. destruct (Decimal.nzhead (Decimal.D0 d)) as [|d'| | | | | | | | |] eqn:En;
    try discriminate Ho.
  - injection Ho as ->. pose proof (DecimalPos.Unsigned.of_to p) as Hp. by rewrite E in Hp.
  - by apply DecimalFacts.nzhead_nonzero in En.
Qed.

(** The digits of a number: no leading zero unless it is the only one. *)
Lemma format_int_digits z :
  ∃ ds, format_int z = (if z <? 0 then String "-" ds else ds) ∧ digits_value 0 ds = Some (Z.abs z) ∧
    ∃ c s, ds = String c s ∧ 48 ≤ byte_of c ≤ 57 ∧ (byte_of c = 48 → s = "").
Proof.
  unfold format_int. destruct z as [|p|p]; simpl.
  - exists "0". split_and!; [done..|]. exists "0"%char, "". split_and!; [done|by vm_compute|by vm_compute|done].
  - exists (NilEmpty.string_of_uint (Pos.to_uint p)).
    rewrite nil_zero_uint by apply DecimalPos.Unsigned.to_uint_nonnil.
    rewrite digits_value_uint, DecimalPos.Unsigned.of_to. split_and!; [done..|].
    pose proof (to_uint_no_zero p) as Hz. pose proof (DecimalPos.Unsigned.to_uint_nonnil p).
    destruct (Pos.to_uint p); try done; [by edestruct Hz|..]; eexists _, _; (split; [reflexivity|]);
      by vm_compute.
  - exists (NilEmpty.string_of_uint (Pos.to_uint p)).
    rewrite nil_zero_uint by apply DecimalPos.Unsigned.to_uint_nonnil.
    rewrite digits_value_uint, DecimalPos.Unsigned.of_to. split_and!; [done..|].
    pose proof (to_uint_no_zero p) as Hz. pose proof (DecimalPos.Unsigned.to_uint_nonnil p).
    destruct (Pos.to_uint p); try done; [by edestruct Hz|..]; eexists _, _; (split; [reflexivity|]);
      by vm_compute.
Qed.

Lemma parse_mantissa_digits ds n rest :
  digits_value 0 ds = Some n → follows rest →
  (∃ c s, ds = String c s ∧ 48 ≤ byte_of c ≤ 57 ∧ (byte_of c = 48 → s = "")) →
  parse_mantissa (ds +:+ rest) = Some (n, 0, rest).
Proof.
  intros Hv Hr (c & s & -> & Hc & Hz). unfold parse_mantissa. rewrite (take_digits_value _ _ _ _ _ Hv Hr).
  unfold len. cbn [String.length]. rewrite Nat2Z.inj_succ.
  rewrite (proj2 (Z.eqb_neq _ 0)) by lia.
  rewrite string_app_cons.
  assert ((1 <? 0 + Z.succ (Z.of_nat (String.length s))) && (byte_of c =? 48) = false) as ->.
  { destruct (Z.eqb_spec (byte_of c) 48) as [E|]; [|by rewrite andb_false_r]. rewrite (Hz E). done. }
  destruct rest as [|c' rest]; [done|]. simpl in Hr.
  by rewrite (proj2 (Z.eqb_neq (byte_of c') 46)) by lia.
Qed.

Lemma parse_format_number z rest :
  Z.abs z ≤ 2 ^ 53 → follows rest →
  parse_number (format_int z +:+ rest) = Done (Float64 (float_of_int z)) rest.
Proof.
  intros Hz Hr. destruct (format_int_digits z) as (ds & -> & Hv & Hds). unfold parse_number.
  assert (split_sign false ((if z <? 0 then String "-" ds else ds) +:+ rest) = (z <? 0, ds +:+ rest)) as ->.
  { destruct (z <? 0); [done|]. destruct Hds as (c & s & -> & Hc & _). rewrite string_app_cons.
    unfold split_sign. by rewrite (proj2 (Z.eqb_neq (byte_of c) 45)) by lia. }
  rewrite (parse_mantissa_digits _ _ _ Hv Hr Hds).
  assert (parse_exponent rest = Some (0, rest)) as ->.
  { destruct rest as [|c rest]; [done|]. simpl in Hr |- *.
    by rewrite (proj2 (Z.eqb_neq (byte_of c) 101)), (proj2 (Z.eqb_neq (byte_of c) 69)) by lia. }
  change (Z.max 0 (0 - 0)) with 0. rewrite Z.pow_0_r, Z.mul_1_r.
  unfold float_of_int, round_signed.
  destruct (round_ratio_exact (z <? 0) (Z.abs z) 1) as (f & Hf & _); [lia|lia|].
  rewrite Z.mul_1_r in Hf. by rewrite Hf.
Qed.

(** ** Documents *)

(** What the other side reads: malformed UTF-8 replaced, numbers as [float64]. *)
Fixpoint decoded (v : any) : any :=
  match v with
  | Int32 z => Float64 (float_of_int z)
  | Str s => Str (to_valid_utf8 s)
  | Map m => Map (map (λ e, (e.1, decoded e.2)) m)
  | _ => v
  end.

(** Documents of [d] levels of objects the program encodes. *)
Inductive encodable : nat → any → Prop :=
| encodable_nil d : encodable d Nil
| encodable_bool d b : encodable d (Bool b)
| encodable_int32 d z : fits_int32 z = true → encodable d (Int32 z)
| encodable_str d s : encodable d (Str s)
| encodable_map d m :
    map_ok m → Forall (λ e, is_ascii e.1 = true ∧ encodable d e.2) m → encodable (S d) (Map m).

Lemma map_set_last {V} (acc : list (string * V)) k v :
  map_ok (acc ++ [(k, v)]) → map_set k v acc = acc ++ [(k, v)].
Proof.
  unfold map_ok. induction acc as [|[k' v'] acc IH]; intros Hok; [done|].
  simpl in Hok. inversion_clear Hok as [|? ? Hs Hk]. simpl. rewrite IH by done.
  assert (key_lt k' k) as Hlt.
  { eapply Forall_forall in Hk; [exact Hk|]. unfold keys. rewrite fmap_app. apply elem_of_app. right. by left. }
  unfold key_lt in Hlt. by rewrite String.compare_antisym, Hlt.
Qed.

Lemma ascii_utf8 s : is_ascii s = true → to_valid_utf8 s = s.
Proof.
  intros Hs%clean_ascii. rewrite <- (string_app_nil_r s) at 1. rewrite Hs. apply string_app_nil_r.
Qed.

(** [text] reads as [w] wherever a value is expected. *)
Definition reads_value (d : nat) (text : string) (w : any) : Prop :=
  ∀ fuel depth rest, depth + Z.of_nat d ≤ max_nesting_depth → follows rest →
    (2 * String.length text + 1 ≤ fuel)%nat → parse_value fuel depth (text +:+ rest) = Done w rest.

(** The members of a non-empty object, from the first key on. *)
Definition reads_members (d : nat) (text : string) (w : list (string * any)) : Prop :=
  ∀ fuel depth acc rest, depth + Z.of_nat d ≤ max_nesting_depth →
    (2 * String.length text + 1 ≤ fuel)%nat → map_ok (acc ++ w) →
    parse_members fuel depth acc (text +:+ String "}" rest) = Done (Map (acc ++ w)) rest.

Lemma parse_member fuel depth acc k text tail :
  parse_members (S fuel) depth acc (json_string k +:+ ":" +:+ text +:+ tail) =
  match parse_value fuel depth (text +:+ tail) with
  | Done v r =>
    match skip_space r with
    | EmptyString => Malformed
    | String c r =>
      if byte_of c =? 44 then parse_members fuel depth (map_set (to_valid_utf8 k) v acc) r
      else if byte_of c =? 125 then Done (Map (map_set (to_valid_utf8 k) v acc)) r
      else Malformed
    end
  | other => other
  end.
Proof.
  destruct (parse_json_string k (":" +:+ text +:+ tail)) as (r & -> & Hr). cbn [parse_members].
  change (skip_space (String dquote r)) with (String dquote r). cbv beta iota.
  change (byte_of dquote =? 34) with true. cbv iota. rewrite Hr. cbv iota.
  change (":" +:+ text +:+ tail) with (String ":" (text +:+ tail)).
  change (skip_space (String ":" (text +:+ tail))) with (String ":" (text +:+ tail)). cbv iota.
  change (byte_of ":" =? 58) with true. done.
Qed.

Lemma reads_member_last d k text w :
  is_ascii k = true → reads_value d text w → reads_members d (json_string k +:+ ":" +:+ text) [(k, w)].
Proof.
  intros Hk Hv [|fuel] depth acc rest Hd Hf Hok; [lia|]. rewrite <- !string_app_assoc, parse_member.
  rewrite !string_app_length in Hf. change (String.length ":") with 1%nat in Hf. rewrite Hv; [|done|by right|lia].
  change (skip_space (String "}" rest)) with (String "}" rest). cbv iota.
  change (byte_of "}" =? 44) with false. change (byte_of "}" =? 125) with true. cbv iota.
  by rewrite ascii_utf8, map_set_last.
Qed.

Lemma reads_member_cons d k text w more ws :
  is_ascii k = true → reads_value d text w → reads_members d more ws → ws ≠ [] →
  reads_members d ((json_string k +:+ ":" +:+ text) +:+ "," +:+ more) ((k, w) :: ws).
Proof.
  intros Hk Hv Hms Hws [|fuel] depth acc rest Hd Hf Hok; [lia|].
  rewrite <- !string_app_assoc, parse_member. rewrite !string_app_length in Hf.
  change (String.length ",") with 1%nat in Hf. change (String.length ":") with 1%nat in Hf.
  change ("," +:+ more +:+ String "}" rest) with (String "," (more +:+ String "}" rest)).
  rewrite Hv; [|done|by left|lia].
  change (skip_space (String "," (more +:+ String "}" rest))) with (String "," (more +:+ String "}" rest)).
  cbv iota. change (byte_of "," =? 44) with true. cbv iota.
  assert (map_ok (acc ++ [(k, w)])) as Hok'.
  { unfold map_ok, keys in *. rewrite fmap_app in *. eapply StronglySorted_app_1_l.
    rewrite <- app_assoc. exact Hok. }
  rewrite ascii_utf8, map_set_last by done. rewrite Hms; [|done|lia|by rewrite <- app_assoc].
  by rewrite <- app_assoc.
Qed.

Lemma reads_object d parts ws :
  (∀ rest, ∃ r, parts +:+ rest = String dquote r) → map_ok ws → reads_members d parts ws →
  reads_value (S d) ("{" +:+ parts +:+ "}") (Map ws).
Proof.
  intros Hq Hok Hm [|fuel] depth rest Hd _ Hf; [lia|]. rewrite !string_app_length in Hf.
  change (String.length "{") with 1%nat in Hf. rewrite <- !string_app_assoc.
  change ("{" +:+ parts +:+ "}" +:+ rest) with (String "{" (parts +:+ String "}" rest)).
  cbn [parse_value]. change (skip_space (String "{" ?x)) with (String "{" x). cbv iota.
  change (byte_of "{" =? 123) with true. cbv zeta iota.
  rewrite (proj2 (Z.ltb_ge _ _)) by lia. destruct (Hq (String "}" rest)) as [r Er].
  specialize (Hm fuel (depth + 1) [] rest ltac:(lia) ltac:(lia) Hok). rewrite Er in Hm |- *.
  change (skip_space (String dquote r)) with (String dquote r). cbv iota.
  change (byte_of dquote =? 125) with false. exact Hm.
Qed.

Lemma reads_scalar d text w :
  (∀ rest, follows rest → ∃ c r, text +:+ rest = String c r ∧
     is_json_space (byte_of c) = false ∧ byte_of c ≠ 123 ∧ byte_of c ≠ 91 ∧
     (if byte_of c =? 34 then
        match parse_string (S (String.length r)) r with
        | Done str r' => Done (Str str) r'
        | Malformed => Malformed
        | OutOfFuel => OutOfFuel
        end
      else if byte_of c =? 116 then parse_literal "true" (Bool true) (String c r)
      else if byte_of c =? 102 then parse_literal "false" (Bool false) (String c r)
      else if byte_of c =? 110 then parse_literal "null" Nil (String c r)
      else parse_number (String c r)) = Done w rest) →
  reads_value d text w.
Proof.
  intros Ht [|fuel] depth rest _ Hr Hf; [lia|].
  destruct (Ht rest Hr) as (c & r & -> & Hs & H1 & H2 & Hp). cbn [parse_value skip_space].
  rewrite Hs. cbv zeta iota. rewrite (proj2 (Z.eqb_neq (byte_of c) 123)), (proj2 (Z.eqb_neq (byte_of c) 91)) by done.
  exact Hp.
Qed.

(** What encoding a value comes to. *)
Record codec (d : nat) (v : any) (text : string) : Prop := {
  codec_text : json_marshal v = Some text;
  codec_clean : clean text;
  codec_reads : reads_value d text (decoded v)
}.

Lemma codec_bool d b : codec d (Bool b) (format_bool b).
Proof.
  split; [done|destruct b; by apply clean_ascii|]. apply reads_scalar. intros rest _.
  destruct b; eexists _, _; (split; [reflexivity|]); split_and!; try done; by destruct rest.
Qed.

Lemma codec_null d : codec d Nil "null".
Proof.
  split; [done|by apply clean_ascii|]. apply reads_scalar. intros rest _.
  eexists _, _. split; [reflexivity|]. split_and!; try done; by destruct rest.
Qed.

Lemma codec_str d s : codec d (Str s) (json_string s).
Proof.
  split; [done|apply json_string_clean|]. apply reads_scalar. intros rest _.
  destruct (parse_json_string s rest) as (r & -> & Hr). exists dquote, r. split_and!; try done.
  change (byte_of dquote =? 34) with true. cbv iota. by rewrite Hr.
Qed.

Lemma format_int_ascii z : is_ascii (format_int z) = true.
Proof.
  destruct (format_int_digits z) as (ds & -> & Hv & _).
  assert (∀ acc n, digits_value acc ds = Some n → is_ascii ds = true) as Hds.
  { clear Hv. induction ds as [|c ds IH]; intros acc n; [done|]. cbn [digits_value is_ascii].
    destruct (in_range 48 57 (byte_of c)) eqn:E; [|done]. apply in_range_spec in E. intros Hv.
    rewrite (proj2 (Z.ltb_lt _ _)) by lia. by eapply IH. }
  apply Hds in Hv. by destruct (z <? 0).
Qed.

Lemma codec_int32 d z : fits_int32 z = true → codec d (Int32 z) (format_int z).
Proof.
  intros Hz. assert (Z.abs z ≤ 2 ^ 53) as Hb.
  { unfold fits_int32 in Hz. apply andb_true_iff in Hz. rewrite !Z.leb_le in Hz. lia. }
  split; [done|apply clean_ascii, format_int_ascii|]. apply reads_scalar. intros rest Hr.
  pose proof (parse_format_number z rest Hb Hr) as Hp.
  destruct (format_int_digits z) as (ds & E & _ & c & s & -> & Hc & _). rewrite E in Hp |- *.
  assert (∃ c' s', (if z <? 0 then String "-" (String c s) else String c s) +:+ rest = String c' s' ∧
            (byte_of c' = 45 ∨ 48 ≤ byte_of c' ≤ 57)) as (c' & s' & E' & Hc').
  { destruct (z <? 0); rewrite string_app_cons; eexists _, _; (split; [reflexivity|]); [by left|by right]. }
  rewrite E' in Hp |- *. exists c', s'. split; [done|].
  rewrite !(proj2 (Z.eqb_neq (byte_of c') _)) by lia.
  unfold is_json_space. rewrite !(proj2 (Z.eqb_neq (byte_of c') _)) by lia. split_and!; (done || lia).
Qed.

(** The members of an object, each with its codec. *)
Lemma codec_members d m :
  m ≠ [] → (∀ e, e ∈ m → is_ascii e.1 = true ∧ ∃ text, codec d e.2 text) →
  ∃ parts, json_members m = Some parts ∧ Forall clean parts ∧
    (∀ rest, ∃ r, join "," parts +:+ rest = String dquote r) ∧
    reads_members d (join "," parts) (map (λ e, (e.1, decoded e.2)) m).
Proof.
  induction m as [|[k v] m IH]; intros Hne Hm; [done|].
  destruct (Hm (k, v)) as (Hk & text & [Htext Hclean Hreads]); [by left|]. simpl in *.
  assert (∀ s tail, ∃ r, (json_string s +:+ tail) = String dquote r) as Hquote.
  { intros s tail. destruct (parse_json_string s tail) as (r & -> & _). eauto. }
  assert (clean (json_string k +:+ ":" +:+ text)) as Hpart.
  { apply clean_app; [apply json_string_clean|]. apply clean_app; [by apply clean_ascii|done]. }
  rewrite Htext. destruct (decide (m = [])) as [->|Hm'].
  - eexists. split_and!; [done|by repeat constructor| |].
    + intros rest. unfold join. simpl. rewrite <- string_app_assoc. apply Hquote.
    + simpl. by apply reads_member_last.
  - destruct IH as (parts & -> & Hcleans & Hq & Hreads'); [done|intros e He; apply Hm; by right|].
    eexists. split_and!; [done|by constructor| |].
    + intros rest. unfold join. destruct parts as [|p parts]; simpl; rewrite <- !string_app_assoc; apply Hquote.
    + unfold join in *. destruct parts as [|p parts].
      { destruct (Hq "") as [r Er]. done. }
      change (String.concat "," ((json_string k +:+ ":" +:+ text) :: p :: parts))
        with ((json_string k +:+ ":" +:+ text) +:+ "," +:+ String.concat "," (p :: parts)).
      apply reads_member_cons; [done..|]. by destruct m.
Qed.

Lemma encodable_codec d v : encodable d v → ∃ text, codec d v text.
Proof.
  revert v. induction d as [|d IH]; intros v Hv; inversion Hv as [| |? ? Hz| |? m Hok Hm]; subst;
    eauto using codec_null, codec_bool, codec_int32, codec_str.
  destruct (decide (m = [])) as [->|Hne].
  { exists "{}". split; [done|by apply clean_ascii|]. intros [|fuel] depth rest Hd _ Hf; [simpl in Hf; lia|].
    change ("{}" +:+ rest) with (String "{" (String "}" rest)). cbn [parse_value].
    change (skip_space (String "{" ?x)) with (String "{" x). cbv iota.
    change (byte_of "{" =? 123) with true. cbv zeta iota. by rewrite (proj2 (Z.ltb_ge _ _)) by lia. }
  rewrite Forall_forall in Hm.
  destruct (codec_members d m) as (parts & Hparts & Hclean & Hq & Hreads); [done| |].
  { intros e He. destruct (Hm e He). eauto. }
  exists ("{" +:+ join "," parts +:+ "}"). split.
  - by rewrite json_marshal_Map, Hparts.
  - apply clean_app; [by apply clean_ascii|]. apply clean_app; [|by apply clean_ascii].
    apply clean_concat; [by apply clean_ascii|done].
  - simpl decoded. apply reads_object; [done| |done]. unfold map_ok, keys in *.
    replace (_.*1) with (m.*1); [done|].
    clear. induction m as [|e m IH]; [done|]. simpl. by f_equal.
Qed.

(** Marshalling such a value succeeds and unmarshalling gives it back. *)
Lemma marshal_unmarshal d v :
  encodable d v → Z.of_nat d ≤ max_nesting_depth →
  ∃ text, json_marshal v = Some text ∧ json_unmarshal text = Some (decoded v).
Proof.
  intros Hv Hd. destruct (encodable_codec d v Hv) as [text [Ht Hc Hr]]. exists text. split; [done|].
  unfold json_unmarshal, parse_document.
  assert (to_valid_utf8 text = text) as ->.
  { rewrite <- (string_app_nil_r text) at 1. rewrite Hc. apply string_app_nil_r. }
  cbv zeta. specialize (Hr (2 * String.length text + 2)%nat 0 "" ltac:(lia) I ltac:(lia)).
  rewrite string_app_nil_r in Hr. by rewrite Hr.
Qed.
