(* ===== verification/GoNet.v ===== *)
(** * [net.IP]: equality, parsing and printing *)

From S2P Require Import Prelude GoStrings.
Local Open Scope Z_scope.

(** A [net.IP] is its 4 or 16 bytes. *)
Notation ip := string (only parsing).

(** The prefix [::ffff:0:0/96] of an IPv4 address in IPv6 form. *)
Definition v4InV6Prefix : string :=
  Nat.iter 10 (String (to_byte 0)) (chr 255 +:+ chr 255).

(** [IP.Equal]: an IPv4 address equals its IPv6 form. *)
Definition ip_equal (a b : ip) : bool :=
  let v6_of_v4 (v4 v6 : ip) :=
    has_prefix v6 v4InV6Prefix && bool_decide (drop_bytes 12 v6 = v4) in
  if len a =? len b then bool_decide (a = b)
  else if (len a =? 4) && (len b =? 16) then v6_of_v4 a b
  else if (len a =? 16) && (len b =? 4) then v6_of_v4 b a
  else false.

Definition byte_list (s : string) : list Z := byte_of <$> bytes_of s.

Definition v4_string (bs : list Z) : string := join "." (format_int <$> bs).

(** The eight 16-bit groups of an IPv6 address. *)
Fixpoint groups (bs : list Z) : list Z :=
  match bs with hi :: lo :: rest => hi * 256 + lo :: groups rest | _ => [] end.

Fixpoint zero_run (gs : list Z) : nat :=
  match gs with g :: gs' => if g =? 0 then S (zero_run gs') else O | [] => O end.

(** Start and length of the first longest run of zero groups. *)
Fixpoint longest_run (i : nat) (gs : list Z) (best : nat * nat) : nat * nat :=
  match gs with
  | [] => best
  | _ :: gs' =>
    let n := zero_run gs in
    longest_run (S i) gs' (if (best.2 <? n)%nat then (i, n) else best)
  end.

(** Lower-case hex without leading zeros. *)
Definition group_string (g : Z) : string :=
  if g <? 16 then hex_digits 1 g
  else if g <? 256 then hex_digits 2 g
  else if g <? 4096 then hex_digits 3 g
  else hex_digits 4 g.

Definition v6_string (gs : list Z) : string :=
  let '(start, n) := longest_run 0 gs (O, O) in
  if (n <? 2)%nat then join ":" (group_string <$> gs)
  else join ":" (group_string <$> take start gs) +:+ "::"
       +:+ join ":" (group_string <$> drop (start + n) gs).

(** [IP.String] *)
Definition ip_string (a : ip) : string :=
  if len a =? 0 then "<nil>"
  else if len a =? 4 then v4_string (byte_list a)
  else if len a =? 16 then
    if has_prefix a v4InV6Prefix then v4_string (byte_list (drop_bytes 12 a))
    else v6_string (groups (byte_list a))
  else "?" +:+ String.concat "" (hex_digits 2 <$> byte_list a).

(** ** [net.ParseIP] *)

(** Split at every occurrence of a byte. *)
Fixpoint split_byte (sep : Z) (s : string) : list string :=
  match s with
  | EmptyString => [EmptyString]
  | String c s' =>
    if byte_of c =? sep then EmptyString :: split_byte sep s'
    else match split_byte sep s' with
         | w :: ws => String c w :: ws
         | [] => [String c EmptyString]
         end
  end.

(** A decimal field of an IPv4 address: no leading zero, at most 255. *)
Definition v4_field (s : string) : option Z :=
  match s with
  | EmptyString => None
  | String c s' =>
    if (byte_of c =? 48) && negb (bool_decide (s' = EmptyString)) then None
    else match digits_value 0 s with
         | Some n => if n <=? 255 then Some n else None
         | None => None
         end
  end.

Definition parse_v4 (s : string) : option (list Z) :=
  match split_byte 46 s with
  | [a; b; c; d] =>
    match v4_field a, v4_field b, v4_field c, v4_field d with
    | Some a, Some b, Some c, Some d => Some [a; b; c; d]
    | _, _, _, _ => None
    end
  | _ => None
  end.

Definition hex_field_value (c : ascii) : option Z :=
  let b := byte_of c in
  if in_range 48 57 b then Some (b - 48)
  else if in_range 97 102 b then Some (b - 87)
  else if in_range 65 70 b then Some (b - 55)
  else None.

(** A group: the hex digits at the front, at most four of them. *)
Fixpoint take_hex (n : nat) (acc : Z) (s : string) : nat * Z * string :=
  match s with
  | String c s' =>
    match hex_field_value c with
    | Some v => take_hex (S n) (acc * 16 + v) s'
    | None => (n, acc, s)
    end
  | EmptyString => (n, acc, s)
  end.

(** The loop of [netip.parseIPv6]: the bytes read so far, in order, where an
    ellipsis was met, the text left; one fuel unit per group. *)
Fixpoint parse_v6_groups (fuel : nat) (acc : list Z) (ellipsis : option nat) (s : string)
  : option (list Z * option nat) :=
  match fuel with
  | O => None
  | S fuel' =>
    if (16 <=? length acc)%nat then (if bool_decide (s = EmptyString) then Some (acc, ellipsis) else None)
    else
    let '(n, v, r) := take_hex 0 0 s in
    if (n =? 0)%nat || (4 <? n)%nat then None
    else match r with
    | String c r' =>
      if byte_of c =? 46 then
        (** an IPv4 tail must fill the last four bytes *)
        if (match ellipsis with None => negb (length acc =? 12)%nat | Some _ => false end)
           || (12 <? length acc)%nat then None
        else match parse_v4 s with
             | Some v4 => Some (acc ++ v4, ellipsis)
             | None => None
             end
      else
        let acc := acc ++ [v / 256; v mod 256] in
        if byte_of c =? 58 then
          match r' with
          | EmptyString => None
          | String c2 r2 =>
            if byte_of c2 =? 58 then
              match ellipsis with
              | Some _ => None
              | None =>
                match r2 with
                | EmptyString => Some (acc, Some (length acc))
                | _ => parse_v6_groups fuel' acc (Some (length acc)) r2
                end
              end
            else parse_v6_groups fuel' acc ellipsis r'
          end
        else None
    | EmptyString => Some (acc ++ [v / 256; v mod 256], ellipsis)
    end
  end.

Definition parse_v6 (s : string) : option (list Z) :=
  let expand '((acc, ellipsis) : list Z * option nat) :=
    if (length acc =? 16)%nat then
      match ellipsis with Some _ => None | None => Some acc end
    else match ellipsis with
    | None => None
    | Some i => Some (take i acc ++ repeat 0 (16 - length acc) ++ drop i acc)
    end in
  match s with
  | String a (String b r) =>
    if (byte_of a =? 58) && (byte_of b =? 58) then
      if bool_decide (r = EmptyString) then Some (repeat 0 16)
      else match parse_v6_groups 9 [] (Some O) r with Some p => expand p | None => None end
    else match parse_v6_groups 9 [] None s with Some p => expand p | None => None end
  | _ => None
  end.

Fixpoint first_separator (s : string) : option Z :=
  match s with
  | EmptyString => None
  | String c s' =>
    let b := byte_of c in
    if (b =? 46) || (b =? 58) || (b =? 37) then Some b else first_separator s'
  end.

(** [net.ParseIP]: always the 16-byte form; zones are refused. *)
Definition ParseIP (s : string) : option ip :=
  match first_separator s with
  | Some 46 => (λ bs, v4InV6Prefix +:+ of_bytes (to_byte <$> bs)) <$> parse_v4 s
  | Some 58 => (λ bs, of_bytes (to_byte <$> bs)) <$> parse_v6 s
  | _ => None
  end.

Lemma ip_equal_refl a : ip_equal a a = true.
Proof. unfold ip_equal. rewrite Z.eqb_refl. by apply bool_decide_eq_true_2. Qed.

Lemma ip_equal_sym a b : ip_equal a b = ip_equal b a.
Proof.
  unfold ip_equal. cbv zeta. rewrite (Z.eqb_sym (len b) (len a)).
  destruct (Z.eqb_spec (len a) (len b)) as [E|].
  { by apply bool_decide_ext. }
  destruct (Z.eqb_spec (len a) 4), (Z.eqb_spec (len b) 4), (Z.eqb_spec (len a) 16),
    (Z.eqb_spec (len b) 16); simpl; done || lia.
Qed.
