(* ===== verification/GoUrl.v ===== *)
(** * [net/url]: parsing and printing of URLs

    [url.Parse] and [URL.String] with their escaping, and that what is printed
    reads back.  Of Go's releases this is 1.26, which the module requires: an
    IP literal is a valid IPv6 address in brackets at the start of the host,
    and a host has at most one colon besides. *)

From S2P Require Import Prelude GoStrings GoNet.
Local Open Scope Z_scope.

(** ** The data *)

Record userinfo := Userinfo { username : string; password : option string }.

(** [url.URL] *)
Record url := Url {
  Scheme : string;
  Opaque : string;
  User : option userinfo;
  Host : string;
  Path : string;
  RawPath : string;
  OmitHost : bool;
  ForceQuery : bool;
  RawQuery : string;
  Fragment : string;
  RawFragment : string
}.

(** ** Escaping *)

(** The parts of a URL with their own rules; queries are escaped in GoHttp. *)
Inductive encoding := encodePath | encodeUserPassword | encodeHost | encodeZone | encodeFragment.

Definition one_of (b : Z) (s : string) : bool := existsb (λ c, byte_of c =? b) (bytes_of s).

(** Letters and digits. *)
Definition alphanumeric (b : Z) : bool :=
  in_range 97 122 b || in_range 65 90 b || in_range 48 57 b.

Definition in_host (m : encoding) : bool :=
  match m with encodeHost | encodeZone => true | _ => false end.

(** [shouldEscape]; 34 is the double quote. *)
Definition should_escape (m : encoding) (b : Z) : bool :=
  if alphanumeric b then false
  else if in_host m && (one_of b "!$&'()*+,;=:[]<>" || (b =? 34)) then false
  else if one_of b "-_.~" then false
  else if one_of b "$&+,/:;=?@" then
    match m with
    | encodePath => b =? 63
    | encodeUserPassword => one_of b "@/?:"
    | encodeFragment => false
    | encodeHost | encodeZone => true
    end
  else match m with encodeFragment => negb (one_of b "!()*") | _ => true end.

Definition hex_upper (z : Z) : string := chr (if z <? 10 then 48 + z else 55 + z).

Definition hex_of (c : ascii) : option Z :=
  let b := byte_of c in
  if in_range 48 57 b then Some (b - 48)
  else if in_range 65 70 b then Some (b - 55)
  else if in_range 97 102 b then Some (b - 87)
  else None.

Definition percent (b : Z) : string := "%" +:+ hex_upper (b / 16) +:+ hex_upper (b mod 16).

(** [escape] *)
Fixpoint url_escape (m : encoding) (s : string) : string :=
  match s with
  | EmptyString => ""
  | String c s' =>
    (if should_escape m (byte_of c) then percent (byte_of c) else String c "") +:+ url_escape m s'
  end.

(** What may not be written with a percent sign: in a host, ASCII other than
    the percent sign itself; in a zone, what may not be written plainly, but
    for that sign and the space. *)
Definition refused_escape (m : encoding) (v : Z) : bool :=
  match m with
  | encodeHost => (v <? 128) && negb (v =? 37)
  | encodeZone => negb (v =? 37) && negb (v =? 32) && should_escape encodeHost v
  | _ => false
  end.

(** What may not be written plainly. *)
Definition refused_byte (m : encoding) (b : Z) : bool := in_host m && (b <? 128) && should_escape m b.

(** [unescape] *)
Fixpoint url_unescape (m : encoding) (s : string) : option string :=
  match s with
  | EmptyString => Some ""
  | String c s' =>
    if byte_of c =? 37 then
      match s' with
      | String h (String l s'') =>
        match hex_of h, hex_of l with
        | Some h, Some l =>
          if refused_escape m (h * 16 + l) then None
          else String (to_byte (h * 16 + l)) <$> url_unescape m s''
        | _, _ => None
        end
      | _ => None
      end
    else if refused_byte m (byte_of c) then None
    else String c <$> url_unescape m s'
  end.

(** [validEncoded] *)
Definition valid_encoded (m : encoding) (s : string) : bool :=
  forallb (λ c, one_of (byte_of c) "!$&'()*+,;=:@[]%" || negb (should_escape m (byte_of c))) (bytes_of s).

(** ** Cutting *)

(** [strings.Cut] at a byte. *)
Fixpoint cut_byte (sep : Z) (s : string) : option (string * string) :=
  match s with
  | EmptyString => None
  | String c s' =>
    if byte_of c =? sep then Some ("", s')
    else match cut_byte sep s' with Some (a, b) => Some (String c a, b) | None => None end
  end.

(** The same at its last occurrence. *)
Fixpoint cut_last (sep : Z) (s : string) : option (string * string) :=
  match s with
  | EmptyString => None
  | String c s' =>
    match cut_last sep s' with
    | Some (a, b) => Some (String c a, b)
    | None => if byte_of c =? sep then Some ("", s') else None
    end
  end.

(** ** Parsing *)

(** [stringContainsCTLByte] *)
Definition is_control (b : Z) : bool := (b <? 32) || (b =? 127).
Definition has_control (s : string) : bool := existsb (λ c, is_control (byte_of c)) (bytes_of s).

(** [getScheme] *)
Inductive scheme_scan := NoScheme | MissingScheme | HasScheme (scheme rest : string).

Fixpoint get_scheme (first : bool) (s : string) : scheme_scan :=
  match s with
  | EmptyString => NoScheme
  | String c s' =>
    let b := byte_of c in
    let continue :=
      match get_scheme false s' with HasScheme a r => HasScheme (String c a) r | r => r end in
    if in_range 97 122 b || in_range 65 90 b then continue
    else if in_range 48 57 b || one_of b "+-." then if first then NoScheme else continue
    else if b =? 58 then if first then MissingScheme else HasScheme "" s'
    else NoScheme
  end.

Definition is_digits (s : string) : bool := forallb (λ c, in_range 48 57 (byte_of c)) (bytes_of s).

(** [validOptionalPort] *)
Definition valid_optional_port (s : string) : bool :=
  match s with EmptyString => true | String c s' => (byte_of c =? 58) && is_digits s' end.

(** [netip.ParseAddr] accepts it as an IPv6 address. *)
Definition valid_ip_literal (s : string) : bool :=
  bool_decide (first_separator s = Some 58) &&
  match cut_byte 37 s with
  | Some (addr, zone) => bool_decide (zone ≠ "") && bool_decide (is_Some (parse_v6 addr))
  | None => bool_decide (is_Some (parse_v6 s))
  end.

(** The colon that starts the port. *)
Definition port_ok (s : string) : bool :=
  match cut_byte 58 s with Some (_, p) => is_digits p | None => true end.

(** What stands in the brackets, unescaped. *)
Definition unescape_literal (s : string) : option string :=
  match index_of s "%25" with
  | Some i =>
    match url_unescape encodeHost (take_bytes i s), url_unescape encodeZone (drop_bytes i s) with
    | Some a, Some z => Some (a +:+ z)
    | _, _ => None
    end
  | None => url_unescape encodeHost s
  end.

(** [parseHost] *)
Definition parse_host (s : string) : option string :=
  match cut_last 91 s with
  | Some (front, rest) =>
    if bool_decide (front ≠ "") then None
    else match cut_last 93 rest with
    | Some (literal, port) =>
      if negb (valid_optional_port port) then None
      else match unescape_literal literal with
      | Some name => if valid_ip_literal name then Some ("[" +:+ name +:+ "]" +:+ port) else None
      | None => None
      end
    | None => None
    end
  | None => if port_ok s then url_unescape encodeHost s else None
  end.

(** [validUserinfo] *)
Definition valid_userinfo (s : string) : bool :=
  forallb (λ c, alphanumeric (byte_of c) || one_of (byte_of c) "-._:~!$&'()*+,;=%@") (bytes_of s).

Definition parse_userinfo (s : string) : option userinfo :=
  if negb (valid_userinfo s) then None
  else match cut_byte 58 s with
  | None => (λ n, Userinfo n None) <$> url_unescape encodeUserPassword s
  | Some (n, p) =>
    match url_unescape encodeUserPassword n, url_unescape encodeUserPassword p with
    | Some n, Some p => Some (Userinfo n (Some p))
    | _, _ => None
    end
  end.

(** [parseAuthority] *)
Definition parse_authority (s : string) : option (option userinfo * string) :=
  match cut_last 64 s with
  | None => (λ h, (None, h)) <$> parse_host s
  | Some (info, host) =>
    match parse_host host, parse_userinfo info with
    | Some h, Some i => Some (Some i, h)
    | _, _ => None
    end
  end.

(** [setPath] and [setFragment]: the unescaped text, and the raw one where it is
    not the default encoding. *)
Definition set_escaped (m : encoding) (s : string) : option (string * string) :=
  match url_unescape m s with
  | Some t => Some (t, if bool_decide (s = url_escape m t) then "" else s)
  | None => None
  end.

(** The part before the query, the query, and whether a lone question mark
    stands for it. *)
Definition split_query (s : string) : string * string * bool :=
  match cut_byte 63 s with
  | None => (s, "", false)
  | Some (rest, q) => (rest, q, bool_decide (q = ""))
  end.

(** The authority and the path. *)
Definition split_authority (s : string) : string * string :=
  match cut_byte 47 s with Some (a, p) => (a, "/" +:+ p) | None => (s, "") end.

Definition with_path (scheme : string) (user : option userinfo) (host : string) (omit force : bool)
    (query path : string) : option url :=
  match set_escaped encodePath path with
  | Some (p, raw) => Some (Url scheme "" user host p raw omit force query "" "")
  | None => None
  end.

(** [parse] of the text before the fragment *)
Definition url_parse (s : string) : option url :=
  if has_control s then None
  else if bool_decide (s = "*") then Some (Url "" "" None "" "*" "" false false "" "" "")
  else
    match (match get_scheme true s with
           | MissingScheme => None
           | NoScheme => Some ("", s)
           | HasScheme scheme rest => Some (ascii_to_lower scheme, rest)
           end) with
    | None => None
    | Some (scheme, rest) =>
      let '(rest, query, force) := split_query rest in
      if negb (has_prefix rest "/") && bool_decide (scheme ≠ "") then
        Some (Url scheme rest None "" "" "" false force query "" "")
      else if negb (has_prefix rest "/") && contains (split_authority rest).1 ":" then None
      else if (bool_decide (scheme ≠ "") || negb (has_prefix rest "///")) && has_prefix rest "//" then
        let '(authority, path) := split_authority (drop_bytes 2 rest) in
        match parse_authority authority with
        | Some (user, host) => with_path scheme user host false force query path
        | None => None
        end
      else with_path scheme None "" (bool_decide (scheme ≠ "") && has_prefix rest "/") force query rest
    end.

(** [url.Parse]; its errors, which only differ in their text, as [None]. *)
Definition url_Parse (s : string) : option url :=
  let '(front, fragment) := match cut_byte 35 s with Some p => p | None => (s, "") end in
  match url_parse front with
  | None => None
  | Some u =>
    if bool_decide (fragment = "") then Some u
    else match set_escaped encodeFragment fragment with
    | Some (f, raw) =>
      Some (Url (Scheme u) (Opaque u) (User u) (Host u) (Path u) (RawPath u) (OmitHost u) (ForceQuery u)
              (RawQuery u) f raw)
    | None => None
    end
  end.

(** ** Printing *)

(** The raw text still is an encoding of the unescaped one. *)
Definition raw_valid (m : encoding) (t raw : string) : bool :=
  bool_decide (raw ≠ "") && valid_encoded m raw && bool_decide (url_unescape m raw = Some t).

Definition EscapedPath (u : url) : string :=
  if raw_valid encodePath (Path u) (RawPath u) then RawPath u
  else if bool_decide (Path u = "*") then "*"
  else url_escape encodePath (Path u).

Definition EscapedFragment (u : url) : string :=
  if raw_valid encodeFragment (Fragment u) (RawFragment u) then RawFragment u
  else url_escape encodeFragment (Fragment u).

(** [Userinfo.String] *)
Definition userinfo_String (i : userinfo) : string :=
  url_escape encodeUserPassword (username i)
  +:+ match password i with Some p => ":" +:+ url_escape encodeUserPassword p | None => "" end.

(** What stands before the path. *)
Definition url_front (u : url) : string :=
  (if bool_decide (Scheme u = "") then "" else Scheme u +:+ ":")
  +:+ if bool_decide (Scheme u = "" ∧ Host u = "" ∧ User u = None)
         || (OmitHost u && bool_decide (Host u = "" ∧ User u = None)) then ""
      else (if bool_decide (Host u = "" ∧ Path u = "" ∧ User u = None) then "" else "//")
           +:+ (match User u with Some i => userinfo_String i +:+ "@" | None => "" end)
           +:+ url_escape encodeHost (Host u).

(** The path; a relative one is kept apart from the host, and from what could be
    read as a scheme. *)
Definition url_middle (u : url) : string :=
  let path := EscapedPath u in
  (if bool_decide (path ≠ "") && negb (has_prefix path "/") && bool_decide (Host u ≠ "") then "/"
   else if bool_decide (url_front u = "") && contains (split_authority path).1 ":" then "./"
   else "") +:+ path.

(** [URL.String] *)
Definition url_String (u : url) : string :=
  (if bool_decide (Opaque u ≠ "")
   then (if bool_decide (Scheme u = "") then "" else Scheme u +:+ ":") +:+ Opaque u
   else url_front u +:+ url_middle u)
  +:+ (if ForceQuery u || bool_decide (RawQuery u ≠ "") then "?" +:+ RawQuery u else "")
  +:+ (if bool_decide (Fragment u = "") then "" else "#" +:+ EscapedFragment u).

(** ** Bytes *)

(** A property of bytes that holds of all 256. *)
Lemma all_bytes (p : Z → bool) : forallb p (seqZ 0 256) = true → ∀ c, p (byte_of c) = true.
Proof.
  intros Hp c. rewrite forallb_forall in Hp. apply Hp, list_elem_of_In, elem_of_seqZ.
  pose proof (byte_of_range c). lia.
Qed.

Ltac by_bytes :=
  let c := fresh in intros c;
  match goal with |- ?l = true =>
    match eval pattern (byte_of c) in l with ?p _ => apply (all_bytes p) end
  end; vm_compute; reflexivity.

(** Every byte of a string satisfies [p]. *)
Definition bytes_are (p : Z → bool) (s : string) : Prop := Forall (λ c, p (byte_of c) = true) (bytes_of s).

Lemma bytes_are_nil p : bytes_are p "".
Proof. constructor. Qed.

Lemma bytes_are_cons p c s : bytes_are p (String c s) ↔ p (byte_of c) = true ∧ bytes_are p s.
Proof. unfold bytes_are. cbn [bytes_of]. by rewrite Forall_cons. Qed.

Lemma bytes_are_app p a b : bytes_are p (a +:+ b) ↔ bytes_are p a ∧ bytes_are p b.
Proof.
  induction a as [|c a IH]; [split; [split; [constructor|done]|by intros [_ ?]]|].
  rewrite string_app_cons, !bytes_are_cons, IH. tauto.
Qed.

Lemma bytes_are_impl (p q : Z → bool) s :
  (∀ c, implb (p (byte_of c)) (q (byte_of c)) = true) → bytes_are p s → bytes_are q s.
Proof.
  intros Hpq Hs. eapply Forall_impl; [exact Hs|]. intros c Hc. specialize (Hpq c). by rewrite Hc in Hpq.
Qed.

Lemma bytes_are_forallb p s : forallb (λ c, p (byte_of c)) (bytes_of s) = true ↔ bytes_are p s.
Proof. unfold bytes_are. rewrite Forall_forall, forallb_forall. by setoid_rewrite list_elem_of_In. Qed.

Lemma hex_upper_of z : 0 ≤ z < 16 →
  ∃ c, hex_upper z = String c "" ∧ hex_of c = Some z ∧ alphanumeric (byte_of c) = true.
Proof.
  intros Hz. unfold hex_upper, chr. eexists. split; [done|]. unfold hex_of, alphanumeric, in_range.
  destruct (Z.ltb_spec z 10); rewrite byte_of_to by lia; split; try (case_match_goal; bool_prop; try lia; f_equal; lia);
    rewrite !orb_true_iff, !andb_true_iff, !Z.leb_le; lia.
Qed.

(** ** Escaped text reads back *)

Lemma percent_spec b : 0 ≤ b < 256 → ∃ h l,
  percent b = String "%" (String h (String l "")) ∧ hex_of h = Some (b / 16) ∧ hex_of l = Some (b mod 16) ∧
  alphanumeric (byte_of h) = true ∧ alphanumeric (byte_of l) = true.
Proof.
  intros Hb. unfold percent.
  destruct (hex_upper_of (b / 16)) as (h & -> & ? & ?); [split; [apply Z.div_pos; lia|apply Z.div_lt_upper_bound; lia]|].
  destruct (hex_upper_of (b mod 16)) as (l & -> & ? & ?); [apply Z.mod_pos_bound; lia|].
  by exists h, l.
Qed.

(** What [url_escape] leaves of a byte can be read again. *)
Definition readable (m : encoding) (b : Z) : bool :=
  if should_escape m b then negb (refused_escape m b) else negb (b =? 37).

Lemma plain_not_refused m b : should_escape m b = false → refused_byte m b = false.
Proof. intros E. unfold refused_byte. by rewrite E, andb_false_r. Qed.

Lemma url_unescape_escape m s : bytes_are (readable m) s → url_unescape m (url_escape m s) = Some s.
Proof.
  induction s as [|c s IH]; [done|]. intros [Hc Hs]%bytes_are_cons. unfold readable in Hc.
  cbn [url_escape]. destruct (should_escape m (byte_of c)) eqn:E.
  - apply negb_true_iff in Hc. pose proof (byte_of_range c) as Hr.
    destruct (percent_spec (byte_of c) Hr) as (h & l & -> & Hh & Hl & _).
    rewrite !string_app_cons, string_app_nil_l. cbn [url_unescape].
    change (byte_of "%" =? 37) with true. cbv iota. rewrite Hh, Hl.
    replace (byte_of c / 16 * 16 + byte_of c mod 16) with (byte_of c) by (rewrite Z.mul_comm; by apply Z.div_mod).
    rewrite Hc, (IH Hs), to_byte_of. done.
  - apply negb_true_iff in Hc. rewrite string_app_cons, string_app_nil_l. cbn [url_unescape].
    by rewrite Hc, (plain_not_refused _ _ E), (IH Hs).
Qed.

(** The bytes of escaped text. *)
Lemma url_escape_bytes m (p : Z → bool) s :
  p 37 = true → (∀ c, implb (alphanumeric (byte_of c)) (p (byte_of c)) = true) →
  (∀ c, implb (negb (should_escape m (byte_of c))) (p (byte_of c)) = true) →
  bytes_are p (url_escape m s).
Proof.
  intros Hpct Hal Hp. induction s as [|c s IH]; [constructor|]. cbn [url_escape].
  apply bytes_are_app. split; [|done]. destruct (should_escape m (byte_of c)) eqn:E.
  - destruct (percent_spec (byte_of c)) as (h & l & -> & _ & _ & Hh & Hl); [apply byte_of_range|].
    pose proof (Hal h) as Ah. pose proof (Hal l) as Al. rewrite Hh in Ah. rewrite Hl in Al.
    simpl in Ah, Al. rewrite !bytes_are_cons. split_and!; [done..|constructor].
  - apply bytes_are_cons. specialize (Hp c). rewrite E in Hp. split; [done|constructor].
Qed.

(** Every byte can be escaped in a path, user, password or fragment. *)
Lemma readable_any m s : in_host m = false → bytes_are (readable m) s.
Proof.
  intros Hm. unfold bytes_are. apply Forall_forall. intros c _. revert c. destruct m; try done; by_bytes.
Qed.

(** ** Cutting *)

Definition lacks (sep : Z) (s : string) : Prop := bytes_are (λ b, negb (b =? sep)) s.

Lemma lacks_cons sep c s : lacks sep (String c s) ↔ byte_of c =? sep = false ∧ lacks sep s.
Proof. unfold lacks. by rewrite bytes_are_cons, negb_true_iff. Qed.

Lemma lacks_app sep a b : lacks sep (a +:+ b) ↔ lacks sep a ∧ lacks sep b.
Proof. apply bytes_are_app. Qed.

Lemma cut_byte_at sep a c b : lacks sep a → byte_of c = sep → cut_byte sep (a +:+ String c b) = Some (a, b).
Proof.
  intros Ha <-. induction a as [|x a IH]; [rewrite string_app_nil_l; cbn [cut_byte]; by rewrite Z.eqb_refl|].
  apply lacks_cons in Ha as [Hx Ha]. rewrite string_app_cons. cbn [cut_byte]. by rewrite Hx, IH.
Qed.

Lemma cut_byte_lacks sep s : lacks sep s ↔ cut_byte sep s = None.
Proof.
  induction s as [|c s IH]; [split; [done|constructor]|]. rewrite lacks_cons, IH. cbn [cut_byte].
  destruct (byte_of c =? sep); [naive_solver|]. destruct (cut_byte sep s) as [[a b]|]; naive_solver.
Qed.

Lemma cut_byte_Some sep s a b :
  cut_byte sep s = Some (a, b) → ∃ c, byte_of c = sep ∧ s = a +:+ String c b ∧ lacks sep a.
Proof.
  revert a. induction s as [|c s IH]; [done|]. intros a. cbn [cut_byte].
  destruct (Z.eqb_spec (byte_of c) sep) as [E|E]; [intros [= <- <-]; exists c; split_and!; [done..|constructor]|].
  destruct (cut_byte sep s) as [[a' b']|]; [|done]. intros [= <- <-].
  destruct (IH a' eq_refl) as (d & ? & -> & ?). exists d. split_and!; [done|done|].
  apply lacks_cons. by rewrite (proj2 (Z.eqb_neq _ _) E).
Qed.

Lemma cut_last_lacks sep s : lacks sep s ↔ cut_last sep s = None.
Proof.
  induction s as [|c s IH]; [split; [done|constructor]|]. rewrite lacks_cons, IH. cbn [cut_last].
  destruct (cut_last sep s) as [[a b]|]; [naive_solver|]. destruct (byte_of c =? sep); naive_solver.
Qed.

Lemma cut_last_at sep a c b : byte_of c = sep → lacks sep b → cut_last sep (a +:+ String c b) = Some (a, b).
Proof.
  intros <- Hb. induction a as [|x a IH].
  - rewrite string_app_nil_l. cbn [cut_last]. by rewrite (proj1 (cut_last_lacks _ _) Hb), Z.eqb_refl.
  - rewrite string_app_cons. cbn [cut_last]. by rewrite IH.
Qed.

Lemma cut_last_Some sep s a b :
  cut_last sep s = Some (a, b) → ∃ c, byte_of c = sep ∧ s = a +:+ String c b ∧ lacks sep b.
Proof.
  revert a. induction s as [|c s IH]; [done|]. intros a. cbn [cut_last].
  destruct (cut_last sep s) as [[a' b']|] eqn:E.
  - intros [= <- <-]. destruct (IH a' eq_refl) as (d & ? & -> & ?). by exists d.
  - destruct (Z.eqb_spec (byte_of c) sep) as [Ec|]; [|done]. intros [= <- <-]. exists c.
    split_and!; [done..|]. by apply cut_last_lacks.
Qed.

(** ** Hosts *)

(** The bytes of a host that was read. *)
Definition host_byte (b : Z) : bool := (128 <=? b) || (b =? 37) || negb (should_escape encodeHost b).

Lemma host_byte_readable s : bytes_are host_byte s → bytes_are (readable encodeHost) s.
Proof. apply bytes_are_impl. by_bytes. Qed.

(** Induction along [url_unescape]. *)
Lemma url_unescape_ind m (P : string → string → Prop) :
  P "" "" →
  (∀ c s t, byte_of c ≠ 37 → refused_byte m (byte_of c) = false → P s t → P (String c s) (String c t)) →
  (∀ h l v s t, alphanumeric (byte_of h) = true → alphanumeric (byte_of l) = true → 0 ≤ v < 256 →
     refused_escape m v = false → P s t →
     P (String "%" (String h (String l s))) (String (to_byte v) t)) →
  ∀ s t, url_unescape m s = Some t → P s t.
Proof.
  intros Hnil Hplain Hpct.
  assert (∀ n s t, (String.length s ≤ n)%nat → url_unescape m s = Some t → P s t) as H;
    [|intros s t; by apply (H (String.length s))].
  induction n as [|n IH]; intros [|c s] t Hn; simpl in Hn; try lia; [by intros [= <-]..|].
  cbn [url_unescape]. destruct (Z.eqb_spec (byte_of c) 37) as [Ec|Ec].
  - destruct s as [|h [|l s]]; [done..|]. destruct (hex_of h) as [vh|] eqn:Eh, (hex_of l) as [vl|] eqn:El; try done.
    destruct (refused_escape _ _) eqn:Er; [done|]. destruct (url_unescape m s) as [t'|] eqn:Et; [|done].
    intros [= <-]. replace c with ("%"%char) by (by rewrite <- (to_byte_of c), Ec).
    assert (∀ d v, hex_of d = Some v → alphanumeric (byte_of d) = true ∧ 0 ≤ v < 16) as Hx.
    { intros d v. unfold hex_of, alphanumeric, in_range. rewrite !orb_true_iff, !andb_true_iff, !Z.leb_le.
      case_match_goal; bool_prop; intros [= <-]; lia. }
    destruct (Hx _ _ Eh), (Hx _ _ El). apply Hpct; [done|done|lia|done|]. apply IH; [simpl in Hn; lia|done].
  - destruct (refused_byte m (byte_of c)) eqn:Er; [done|]. destruct (url_unescape m s) as [t'|] eqn:Et; [|done].
    intros [= <-]. apply Hplain; [done|done|]. apply IH; [lia|done].
Qed.

Lemma host_bytes s t : url_unescape encodeHost s = Some t → bytes_are host_byte t.
Proof.
  apply (url_unescape_ind encodeHost (λ _ t, bytes_are host_byte t)); clear s t.
  - constructor.
  - intros c s t Hc Hr Ht. apply bytes_are_cons. split; [|done]. revert Hr. unfold refused_byte, host_byte. cbn [in_host].
    destruct (Z.leb_spec 128 (byte_of c)); [done|]. rewrite (proj2 (Z.ltb_lt _ _)) by lia.
    by destruct (should_escape _ _), (byte_of c =? 37).
  - intros h l v s t _ _ Hv Hr Ht. apply bytes_are_cons. split; [|done]. rewrite byte_of_to by done.
    unfold refused_escape in Hr. unfold host_byte. destruct (Z.leb_spec 128 v); [done|].
    rewrite (proj2 (Z.ltb_lt _ _)) in Hr by lia. by destruct (v =? 37).
Qed.

(** *** Ports *)

Lemma port_ok_cons c s : port_ok (String c s) = if byte_of c =? 58 then is_digits s else port_ok s.
Proof.
  unfold port_ok. cbn [cut_byte]. destruct (byte_of c =? 58); [done|]. by destruct (cut_byte 58 s) as [[a b]|].
Qed.

Lemma is_digits_bytes s : is_digits s = true ↔ bytes_are (in_range 48 57) s.
Proof. apply bytes_are_forallb. Qed.

Lemma alphanumeric_not b v : alphanumeric b = true → alphanumeric v = false → b =? v = false.
Proof. intros Hb Hv. destruct (Z.eqb_spec b v); [by subst; rewrite Hb in Hv|done]. Qed.

(** Text of bytes that are not escaped stays as it is. *)
Lemma url_escape_plain m s : bytes_are (λ b, negb (should_escape m b)) s → url_escape m s = s.
Proof.
  induction s as [|c s IH]; [done|]. intros [Hc%negb_true_iff Hs]%bytes_are_cons.
  cbn [url_escape]. by rewrite Hc, string_app_cons, string_app_nil_l, (IH Hs).
Qed.

Lemma url_unescape_plain m s : bytes_are (λ b, negb (should_escape m b)) s → url_unescape m s = Some s.
Proof.
  intros Hs. rewrite <- (url_escape_plain m s Hs) at 1. apply url_unescape_escape.
  revert Hs. apply bytes_are_impl. intros c. unfold readable.
  destruct (should_escape m (byte_of c)) eqn:E; [done|]. destruct (Z.eqb_spec (byte_of c) 37) as [Ec|]; [|done].
  rewrite Ec in E. by destruct m.
Qed.

Lemma digits_plain s : is_digits s = true → bytes_are (λ b, negb (should_escape encodeHost b)) s.
Proof. rewrite is_digits_bytes. apply bytes_are_impl. by_bytes. Qed.

Lemma port_ok_unescape s t : url_unescape encodeHost s = Some t → port_ok s = true → port_ok t = true.
Proof.
  intros Ht Hs. assert ((is_digits s = true → t = s) ∧ (port_ok s = true → port_ok t = true)) as [_ H]; [|auto].
  clear Hs. revert s t Ht.
  apply (url_unescape_ind encodeHost (λ s t, (is_digits s = true → t = s) ∧ (port_ok s = true → port_ok t = true))).
  - done.
  - intros c s t _ _ [Hd Hp]. split.
    + unfold is_digits in *. cbn [bytes_of forallb]. intros [_ Hs]%andb_true_iff. by rewrite Hd.
    + rewrite !port_ok_cons. destruct (byte_of c =? 58); [|done]. intros Hs. by rewrite (Hd Hs).
  - intros h l v s t Hh Hl Hv Hr [_ Hp]. split; [done|]. rewrite !port_ok_cons.
    change (byte_of "%" =? 58) with false. rewrite !(alphanumeric_not _ 58) by done. cbv iota.
    rewrite byte_of_to by done. destruct (Z.eqb_spec v 58) as [->|]; [by vm_compute in Hr|done].
Qed.

Lemma port_ok_escape t : port_ok t = true → port_ok (url_escape encodeHost t) = true.
Proof.
  induction t as [|c t IH]; [done|]. rewrite port_ok_cons. cbn [url_escape]. intros Ht.
  destruct (should_escape encodeHost (byte_of c)) eqn:E.
  - destruct (percent_spec (byte_of c)) as (h & l & -> & _ & _ & Hh & Hl); [apply byte_of_range|].
    rewrite !string_app_cons, string_app_nil_l, !port_ok_cons. change (byte_of "%" =? 58) with false.
    rewrite !(alphanumeric_not _ 58) by done. destruct (Z.eqb_spec (byte_of c) 58) as [Ec|]; [|auto].
    by rewrite Ec in E.
  - rewrite string_app_cons, string_app_nil_l, port_ok_cons. destruct (byte_of c =? 58); [|auto].
    by rewrite url_escape_plain by by apply digits_plain.
Qed.

(** *** IP literals *)

(** The bytes of an IPv6 address. *)
Definition literal_byte (b : Z) : bool :=
  in_range 48 57 b || in_range 97 102 b || in_range 65 70 b || (b =? 58) || (b =? 46).

Lemma take_hex_bytes n acc s k v r :
  take_hex n acc s = (k, v, r) → ∃ front, s = front +:+ r ∧ bytes_are literal_byte front.
Proof.
  revert n acc. induction s as [|c s IH]; intros n acc; cbn [take_hex].
  - intros [= <- <- <-]. exists "". by split; [|constructor].
  - destruct (hex_field_value c) as [x|] eqn:E.
    + intros (front & -> & Hf)%IH. exists (String c front). split; [done|]. apply bytes_are_cons. split; [|done].
      revert E. unfold hex_field_value, literal_byte. by case_match_goal.
    + intros [= <- <- <-]. exists "". by split; [|constructor].
Qed.

Lemma digits_value_bytes acc s n : digits_value acc s = Some n → is_digits s = true.
Proof.
  revert acc. induction s as [|c s IH]; intros acc; [done|]. cbn [digits_value]. unfold is_digits. cbn [bytes_of forallb].
  destruct (in_range 48 57 (byte_of c)); [|done]. intros Hd. exact (IH _ Hd).
Qed.

Lemma split_byte_bytes p sep s : p sep = true → Forall (bytes_are p) (split_byte sep s) → bytes_are p s.
Proof.
  intros Hsep. induction s as [|c s IH]; [constructor|]. cbn [split_byte]. rewrite bytes_are_cons.
  destruct (Z.eqb_spec (byte_of c) sep) as [->|_]; [by intros [_ H]%Forall_cons; auto|].
  destruct (split_byte sep s) as [|w ws].
  - intros [[Hc _]%bytes_are_cons _]%Forall_cons. auto.
  - intros [[Hc Hw]%bytes_are_cons Hws]%Forall_cons. split; [done|]. apply IH. by constructor.
Qed.

Lemma v4_field_bytes s n : v4_field s = Some n → bytes_are literal_byte s.
Proof.
  destruct s as [|c s]; [done|]. unfold v4_field. destruct (_ && _); [done|].
  destruct (digits_value 0 (String c s)) as [z|] eqn:E; [|done]. intros _.
  apply digits_value_bytes, is_digits_bytes in E. revert E. apply bytes_are_impl. by_bytes.
Qed.

Lemma parse_v4_bytes s bs : parse_v4 s = Some bs → bytes_are literal_byte s.
Proof.
  unfold parse_v4. intros Hp. apply (split_byte_bytes _ 46); [done|].
  destruct (split_byte 46 s) as [|a [|b [|c [|d [|]]]]]; try done.
  destruct (v4_field a) eqn:?, (v4_field b) eqn:?, (v4_field c) eqn:?, (v4_field d) eqn:?; try done.
  repeat (constructor; [by eapply v4_field_bytes|]). constructor.
Qed.

Lemma parse_v6_groups_bytes fuel acc ellipsis s r :
  parse_v6_groups fuel acc ellipsis s = Some r → bytes_are literal_byte s.
Proof.
  revert acc ellipsis s. induction fuel as [|fuel IH]; intros acc ellipsis s; [done|]. cbn [parse_v6_groups].
  destruct (16 <=? length acc)%nat; [case_bool_decide; [subst; constructor|done]|].
  destruct (take_hex 0 0 s) as [[n v] r'] eqn:E. destruct (_ || _); [done|].
  pose proof E as (front & -> & Hf)%take_hex_bytes. intros Hr.
  destruct r' as [|c r']; [by rewrite string_app_nil_r|]. destruct (Z.eqb_spec (byte_of c) 46) as [Ec|_].
  { destruct (_ || _); [done|]. destruct (parse_v4 _) eqn:Ev; [|done]. by eapply parse_v4_bytes. }
  destruct (Z.eqb_spec (byte_of c) 58) as [Ec|]; [|done]. apply bytes_are_app. split; [done|].
  apply bytes_are_cons. rewrite Ec. split; [done|]. destruct r' as [|c2 r2]; [constructor|].
  destruct (Z.eqb_spec (byte_of c2) 58) as [Ec2|]; [|by apply IH in Hr]. apply bytes_are_cons. rewrite Ec2.
  split; [done|]. destruct ellipsis; [done|]. destruct r2; [constructor|]. by apply IH in Hr.
Qed.

Lemma parse_v6_bytes s : is_Some (parse_v6 s) → bytes_are literal_byte s.
Proof.
  unfold parse_v6. intros [x Hx]. destruct s as [|a [|b r]]; [done..|].
  destruct (Z.eqb_spec (byte_of a) 58) as [Ea|], (Z.eqb_spec (byte_of b) 58) as [Eb|]; cbn [andb] in Hx;
    try (destruct (parse_v6_groups _ _ _ _) as [p|] eqn:E; [|done]; by eapply parse_v6_groups_bytes).
  rewrite !bytes_are_cons, Ea, Eb. split_and!; [done..|]. case_bool_decide as Er; [subst; constructor|].
  destruct (parse_v6_groups _ _ _ r) as [p|] eqn:E; [|done]. by eapply parse_v6_groups_bytes.
Qed.

(** *** A host that was read is printed as itself *)

(** It is not an IPv6 address with a zone.  A zone may be given in bytes that
    are not allowed when they are escaped, as they are when it is printed. *)
Definition unzoned (h : string) : Prop := has_prefix h "[" = true → lacks 37 h.

Lemma escape_lacks m sep s :
  alphanumeric sep = false → sep ≠ 37 → lacks sep s → lacks sep (url_escape m s).
Proof.
  intros Hal Hne. induction s as [|c s IH]; [done|]. intros [Hc Hs]%lacks_cons. cbn [url_escape].
  apply lacks_app. split; [|auto]. destruct (should_escape m (byte_of c)).
  - destruct (percent_spec (byte_of c)) as (h & l & -> & _ & _ & Hh & Hl); [apply byte_of_range|].
    rewrite !lacks_cons. split_and!; [by apply Z.eqb_neq|by apply alphanumeric_not..|constructor].
  - apply lacks_cons. split; [done|constructor].
Qed.

Lemma unescape_lacks_bracket s t : url_unescape encodeHost s = Some t → lacks 91 s → lacks 91 t.
Proof.
  revert s t. apply (url_unescape_ind encodeHost (λ s t, lacks 91 s → lacks 91 t)); [done|..].
  - intros c s t _ _ IH. rewrite !lacks_cons. naive_solver.
  - intros h l v s t _ _ Hv Hr IH. rewrite !lacks_cons. intros (_ & _ & _ & Hs). split; [|auto].
    rewrite byte_of_to by done. destruct (Z.eqb_spec v 91) as [->|]; [by vm_compute in Hr|done].
Qed.

Lemma index_of_lacks s : lacks 37 s → index_of s "%25" = None.
Proof.
  induction s as [|c s IH]; [done|]. intros [Hc Hs]%lacks_cons. cbn [index_of has_prefix].
  destruct (Ascii.eqb_spec "%" c) as [<-|_]; [done|]. cbn [andb]. by rewrite (IH Hs).
Qed.

Lemma valid_port_bytes p : valid_optional_port p = true → bytes_are (λ b, in_range 48 57 b || (b =? 58)) p.
Proof.
  destruct p as [|c p]; [constructor|]. cbn [valid_optional_port]. intros [Hc%Z.eqb_eq Hp]%andb_true_iff.
  apply bytes_are_cons. rewrite Hc. split; [done|]. apply is_digits_bytes in Hp. revert Hp. apply bytes_are_impl. by_bytes.
Qed.

Lemma valid_ip_literal_bytes s : valid_ip_literal s = true → lacks 37 s → bytes_are literal_byte s.
Proof.
  unfold valid_ip_literal. intros [_ H]%andb_true_iff Hs. rewrite (proj1 (cut_byte_lacks _ _) Hs) in H.
  apply bool_decide_eq_true in H. by apply parse_v6_bytes.
Qed.

Definition literal_host (name port : string) : string := "[" +:+ name +:+ "]" +:+ port.

Lemma parse_literal_host name port :
  bytes_are literal_byte name → valid_ip_literal name = true → valid_optional_port port = true →
  url_escape encodeHost (literal_host name port) = literal_host name port ∧
  parse_host (literal_host name port) = Some (literal_host name port) ∧
  bytes_are host_byte (literal_host name port).
Proof.
  intros Hname Hvalid Hport. pose proof (valid_port_bytes _ Hport) as Hpb.
  assert (bytes_are (λ b, negb (should_escape encodeHost b)) (literal_host name port)) as Hplain.
  { unfold literal_host. rewrite !bytes_are_app. split_and!.
    - by repeat constructor.
    - revert Hname. apply bytes_are_impl. by_bytes.
    - by repeat constructor.
    - revert Hpb. apply bytes_are_impl. by_bytes. }
  split_and!; [by apply url_escape_plain| |revert Hplain; apply bytes_are_impl; by_bytes].
  unfold parse_host, literal_host.
  change ("[" +:+ name +:+ "]" +:+ port) with ("" +:+ String "[" (name +:+ String "]" port)).
  rewrite cut_last_at; [|done|]. 2:{ unfold lacks. rewrite bytes_are_app, bytes_are_cons. split_and!.
    - revert Hname. apply bytes_are_impl. by_bytes.
    - done.
    - revert Hpb. apply bytes_are_impl. by_bytes. }
  rewrite bool_decide_eq_false_2 by auto. rewrite cut_last_at; [|done|revert Hpb; apply bytes_are_impl; by_bytes].
  rewrite Hport. unfold unescape_literal. rewrite index_of_lacks by (revert Hname; apply bytes_are_impl; by_bytes).
  rewrite url_unescape_plain by (revert Hname; apply bytes_are_impl; by_bytes). by rewrite Hvalid.
Qed.

(** Hosts without a zone: an IP literal with an optional port, or a name with
    one. *)
Definition good_host (h : string) : Prop :=
  (lacks 91 h ∧ bytes_are host_byte h ∧ port_ok h = true) ∨
  ∃ name port, h = literal_host name port ∧ bytes_are literal_byte name ∧ valid_ip_literal name = true ∧
    valid_optional_port port = true.

Lemma parse_host_good s h : parse_host s = Some h → unzoned h → good_host h.
Proof.
  unfold parse_host. destruct (cut_last 91 s) as [[front rest]|] eqn:E.
  - case_bool_decide as Ef; [done|]. destruct (cut_last 93 rest) as [[literal port]|]; [|done].
    destruct (valid_optional_port port) eqn:Hport; [|done]. destruct (unescape_literal literal) as [name|]; [|done].
    destruct (valid_ip_literal name) eqn:Hv; [|done]. intros [= <-] Hu. fold (literal_host name port) in *.
    assert (lacks 37 (literal_host name port)) as Hl by (apply Hu; unfold literal_host; by destruct name).
    right. exists name, port. split_and!; [done| |done..]. apply valid_ip_literal_bytes; [done|].
    unfold literal_host in Hl. rewrite !lacks_app in Hl. tauto.
  - destruct (port_ok s) eqn:Hp; [|done]. intros Hs _. left. split_and!; [|by eapply host_bytes|by eapply port_ok_unescape].
    eapply unescape_lacks_bracket; [done|]. by apply cut_last_lacks.
Qed.

Lemma good_host_prints h : good_host h → bytes_are host_byte h ∧ parse_host (url_escape encodeHost h) = Some h.
Proof.
  intros [(Hl & Hb & Hp)|(name & port & -> & Hn & Hv & Hp)].
  - split; [done|]. unfold parse_host. rewrite (proj1 (cut_last_lacks _ _)) by by apply escape_lacks.
    rewrite port_ok_escape by done. apply url_unescape_escape. by apply host_byte_readable.
  - destruct (parse_literal_host name port) as (-> & ? & ?); done.
Qed.

(** [removeEmptyPort] of [net/http] *)
Definition drop_empty_port (h : string) : string :=
  match cut_last 58 h with Some (a, EmptyString) => a | _ => h end.

Lemma string_app_last (a b : string) c d : a +:+ String c "" = b +:+ String d "" → a = b ∧ c = d.
Proof.
  revert b. induction a as [|x a IH]; intros [|y b]; rewrite ?string_app_cons, ?string_app_nil_l; intros E.
  - by injection E.
  - injection E as _ E. by destruct b.
  - injection E as _ E. by destruct a.
  - injection E as -> E. by destruct (IH _ E) as [-> ->].
Qed.

Lemma good_host_drop h : good_host h → good_host (drop_empty_port h).
Proof.
  intros Hh. unfold drop_empty_port. destruct (cut_last 58 h) as [[a [|]]|] eqn:E; [|done..].
  apply cut_last_Some in E as (c & Hc & -> & _). destruct Hh as [(Hl & Hb & Hp)|(name & port & Eh & Hn & Hv & Hp)].
  - left. apply lacks_app in Hl as [Hl _]. apply bytes_are_app in Hb as [Hb _]. split_and!; [done..|].
    unfold port_ok in *. destruct (cut_byte 58 a) as [[a1 a2]|] eqn:E; [|done].
    apply cut_byte_Some in E as (d & Hd & -> & Ha1). rewrite <- string_app_assoc in Hp.
    rewrite string_app_cons, cut_byte_at in Hp by done. apply is_digits_bytes, bytes_are_app in Hp as [_ Hp].
    apply bytes_are_cons in Hp as [Hp _]. by rewrite Hc in Hp.
  - right. destruct port as [|d p].
    + unfold literal_host in Eh. rewrite string_app_nil_r, string_app_assoc in Eh.
      apply string_app_last in Eh as [_ ->]. done.
    + cbn [valid_optional_port] in Hp. apply andb_true_iff in Hp as [Hd%Z.eqb_eq Hp].
      destruct (decide (p = "")) as [->|Hne].
      * exists name, "". split_and!; [|done..]. unfold literal_host in *. rewrite string_app_nil_r.
        rewrite !string_app_assoc in Eh. apply string_app_last in Eh as [-> _]. by rewrite string_app_assoc.
      * exfalso. assert (∃ q e, p = q +:+ String e "") as (q & e & ->).
        { clear -Hne. induction p as [|x p IH]; [done|]. destruct (decide (p = "")) as [->|Hp]; [by exists "", x|].
          destruct (IH Hp) as (q & e & ->). by exists (String x q), e. }
        apply is_digits_bytes, bytes_are_app in Hp as [_ [He _]%bytes_are_cons].
        unfold literal_host in Eh. rewrite <- (string_app_cons d q), !string_app_assoc in Eh. apply string_app_last in Eh as [_ ->].
        by rewrite Hc in He.
Qed.

(** ** Users *)

Lemma parse_print_userinfo i : parse_userinfo (userinfo_String i) = Some i.
Proof.
  assert (∀ s, bytes_are (λ b, alphanumeric b || one_of b "-._~$&+,;=%") (url_escape encodeUserPassword s)) as Hb.
  { intros s. apply url_escape_bytes; [done|by_bytes..]. }
  unfold parse_userinfo, userinfo_String. destruct i as [n p]. cbn [username password].
  assert (∀ s, url_unescape encodeUserPassword (url_escape encodeUserPassword s) = Some s) as Hr.
  { intros s. by apply url_unescape_escape, readable_any. }
  assert (valid_userinfo (url_escape encodeUserPassword n +:+
    match p with Some p => ":" +:+ url_escape encodeUserPassword p | None => "" end) = true) as ->.
  { unfold valid_userinfo. apply (bytes_are_forallb (λ b, alphanumeric b || one_of b "-._:~!$&'()*+,;=%@")).
    assert (∀ s, bytes_are (λ b, alphanumeric b || one_of b "-._:~!$&'()*+,;=%@") (url_escape encodeUserPassword s)) as Hw.
    { intros s. eapply bytes_are_impl; [|apply Hb]. by_bytes. }
    destruct p; rewrite !bytes_are_app; split_and!; try apply Hw; by repeat constructor. }
  assert (∀ s, lacks 58 (url_escape encodeUserPassword s)) as Hl.
  { intros s. eapply bytes_are_impl; [|apply Hb]. by_bytes. }
  cbn [negb]. destruct p as [p|].
  - rewrite string_app_cons, string_app_nil_l, cut_byte_at by done. by rewrite !Hr.
  - rewrite string_app_nil_r, (proj1 (cut_byte_lacks _ _) (Hl n)), Hr. done.
Qed.

(** ** URLs of a host *)

Definition rooted (p : string) : Prop := p = "" ∨ ∃ p', p = String "/" p'.

Lemma has_prefix_nil s : has_prefix s "" = true.
Proof. by destruct s. Qed.

Lemma rooted_prefix p : has_prefix (String "/" p) "/" = true.
Proof. cbn [has_prefix]. by rewrite Ascii.eqb_refl, has_prefix_nil. Qed.

(** What [url.Parse] makes of a URL with one of the schemes the program accepts
    and a host without a zone. *)
Record http_url (u : url) : Prop := {
  http_scheme : Scheme u ∈ ["http"; "https"];
  http_hierarchical : Opaque u = "";
  http_host : Host u ≠ "" ∨ Path u ≠ "";
  http_good_host : good_host (Host u);
  http_path : rooted (Path u);
  http_raw_path : rooted (RawPath u);
  http_authority : OmitHost u = false;
  http_query : bytes_are (λ b, negb (is_control b) && negb (b =? 35)) (RawQuery u)
}.

Lemma unescape_rooted m p t : url_unescape m p = Some t → rooted p → rooted t.
Proof.
  intros Hp [->|[p' ->]]; [left; by injection Hp|]. cbn [url_unescape] in Hp.
  change (byte_of "/" =? 37) with false in Hp. cbv iota in Hp. destruct (refused_byte _ _); [done|].
  destruct (url_unescape m p') as [t'|]; [|done]. injection Hp as <-. right. by exists t'.
Qed.

Lemma has_control_spec s : has_control s = false ↔ bytes_are (λ b, negb (is_control b)) s.
Proof.
  unfold has_control. rewrite <- bytes_are_forallb.
  induction (bytes_of s) as [|c l IH]; cbn; [done|]. destruct (is_control (byte_of c)); cbn; [done|exact IH].
Qed.

Lemma split_authority_rooted s : rooted (split_authority s).2.
Proof.
  unfold split_authority. destruct (cut_byte 47 s) as [[a p]|]; [right; by exists p|by left].
Qed.

Lemma cut_bytes p sep s a b : cut_byte sep s = Some (a, b) → bytes_are p s → bytes_are p a ∧ bytes_are p b.
Proof. intros (c & _ & -> & _)%cut_byte_Some. rewrite bytes_are_app, bytes_are_cons. tauto. Qed.

Lemma get_scheme_rest p first s a r : get_scheme first s = HasScheme a r → bytes_are p s → bytes_are p r.
Proof.
  revert first a. induction s as [|c s IH]; intros first a; [done|]. cbn [get_scheme]. rewrite bytes_are_cons.
  assert (∀ a', match get_scheme false s with HasScheme a r => HasScheme (String c a) r | r => r end = HasScheme a' r →
    bytes_are p s → bytes_are p r) as Hnext.
  { intros a'. destruct (get_scheme false s) eqn:E; [done..|]. intros [= <- <-]. by eapply IH. }
  intros Hg [_ Hs]. destruct (_ || _) in Hg; [by eapply Hnext|].
  destruct (_ || _) in Hg; [destruct first; [done|by eapply Hnext]|].
  destruct (_ =? _) in Hg; [|done]. destruct first; [done|]. by injection Hg as <- <-.
Qed.

Lemma split_query_bytes p s rest q force :
  split_query s = (rest, q, force) → bytes_are p s → bytes_are p q.
Proof.
  unfold split_query. destruct (cut_byte 63 s) as [[a b]|] eqn:E; intros [= <- <- <-] Hs; [|constructor].
  by eapply cut_bytes in E as [_ ?].
Qed.

Lemma parse_authority_host s user h : parse_authority s = Some (user, h) → ∃ s', parse_host s' = Some h.
Proof.
  unfold parse_authority. destruct (cut_last 64 s) as [[info host]|].
  - destruct (parse_host host) eqn:E, (parse_userinfo info); try done. intros [= <- <-]. eauto.
  - destruct (parse_host s) eqn:E; [|done]. intros [= <- <-]. eauto.
Qed.

(** What is read before the fragment, when there is a host. *)
Lemma url_parse_host s u :
  bytes_are (λ b, negb (b =? 35)) s → url_parse s = Some u → Host u ≠ "" →
  Opaque u = "" ∧ OmitHost u = false ∧ rooted (Path u) ∧ rooted (RawPath u) ∧
  (∃ s', parse_host s' = Some (Host u)) ∧
  bytes_are (λ b, negb (is_control b) && negb (b =? 35)) (RawQuery u).
Proof.
  intros Hfrag. unfold url_parse. destruct (has_control s) eqn:Hctl; [done|]. apply has_control_spec in Hctl.
  assert (bytes_are (λ b, negb (is_control b) && negb (b =? 35)) s) as Hs.
  { unfold bytes_are in *. rewrite Forall_forall in *. intros c Hc. by rewrite (Hctl c Hc), (Hfrag c Hc). }
  case_bool_decide; [by intros [= <-]|].
  assert (∀ scheme user host omit force query path u, with_path scheme user host omit force query path = Some u →
    rooted path → u = Url scheme "" user host (Path u) (RawPath u) omit force query "" "" ∧
    rooted (Path u) ∧ rooted (RawPath u)) as Hpath.
  { intros scheme user host omit force query path v. unfold with_path, set_escaped.
    destruct (url_unescape encodePath path) as [t|] eqn:E; [|done]. intros [= <-] Hr. split_and!; [done| |].
    - by eapply unescape_rooted.
    - cbn. case_bool_decide; [by left|done]. }
  destruct (match get_scheme true s with NoScheme => _ | _ => _ end) as [[scheme rest]|] eqn:Escheme; [|done].
  assert (bytes_are (λ b, negb (is_control b) && negb (b =? 35)) rest) as Hrest.
  { destruct (get_scheme true s) eqn:E; try done; injection Escheme as <- <-; [done|by eapply get_scheme_rest]. }
  destruct (split_query rest) as [[rest' query] force] eqn:Eq. pose proof (split_query_bytes _ _ _ _ _ Eq Hrest) as Hq.
  destruct (_ && _); [by intros [= <-]|]. destruct (_ && _); [done|]. destruct (_ && _).
  - destruct (split_authority (drop_bytes 2 rest')) as [authority path] eqn:Ea.
    destruct (parse_authority authority) as [[user host]|] eqn:Eh; [|done].
    intros Hu _. pose proof (split_authority_rooted (drop_bytes 2 rest')) as Hp. rewrite Ea in Hp.
    destruct (Hpath _ _ _ _ _ _ _ _ Hu Hp) as (-> & ? & ?). split_and!; try done. by eapply parse_authority_host.
  - unfold with_path. destruct (set_escaped _ _) as [[p raw]|]; [|done]. by intros [= <-].
Qed.

Lemma url_Parse_http s u :
  url_Parse s = Some u → Scheme u ∈ ["http"; "https"] → Host u ≠ "" → unzoned (Host u) → http_url u.
Proof.
  unfold url_Parse. intros Hp Hscheme Hhost Hz.
  destruct (match cut_byte 35 s with Some p => p | None => _ end) as [front fragment] eqn:E.
  assert (lacks 35 front) as Hfront.
  { destruct (cut_byte 35 s) as [[a b]|] eqn:Ec; injection E as <- <-;
      [by apply cut_byte_Some in Ec as (? & _ & _ & ?)|by apply cut_byte_lacks]. }
  destruct (url_parse front) as [v|] eqn:Ev; [|done].
  assert (Host u = Host v ∧ Opaque u = Opaque v ∧ OmitHost u = OmitHost v ∧ Path u = Path v ∧ RawPath u = RawPath v ∧
    RawQuery u = RawQuery v) as (Hh & Ho & Hom & Hpa & Hraw & Hq).
  { case_bool_decide; [by simplify_eq|]. destruct (set_escaped _ _) as [[f raw]|]; [|done]. by injection Hp as <-. }
  rewrite Hh in Hhost, Hz. destruct (url_parse_host _ _ Hfront Ev Hhost) as (? & ? & ? & ? & [s' Hs'] & ?).
  pose proof (parse_host_good _ _ Hs' Hz). constructor; try congruence. left. congruence.
Qed.

(** ** Printed URLs read back *)

Definition path_byte (b : Z) : bool := negb (is_control b) && negb (b =? 35) && negb (b =? 63).

Lemma EscapedPath_spec u :
  rooted (Path u) → rooted (RawPath u) →
  url_unescape encodePath (EscapedPath u) = Some (Path u) ∧ bytes_are path_byte (EscapedPath u) ∧
  rooted (EscapedPath u) ∧ (EscapedPath u = "" ↔ Path u = "").
Proof.
  intros Hp Hr. unfold EscapedPath. destruct (raw_valid _ _ _) eqn:E.
  - unfold raw_valid in E. apply andb_true_iff in E as [[Hne%bool_decide_eq_true Hv]%andb_true_iff Hu%bool_decide_eq_true].
    split_and!; [done| |done|].
    + unfold valid_encoded in Hv.
      apply (bytes_are_forallb (λ b, one_of b "!$&'()*+,;=:@[]%" || negb (should_escape encodePath b))) in Hv.
      revert Hv. apply bytes_are_impl. by_bytes.
    + split; [done|]. intros E. rewrite E in Hu. destruct Hr as [?|[p' Ep]]; [done|]. rewrite Ep in Hu.
      cbn [url_unescape] in Hu. change (byte_of "/" =? 37) with false in Hu. cbv iota in Hu.
      destruct (refused_byte _ _); [done|]. by destruct (url_unescape encodePath p').
  - case_bool_decide as Es; [rewrite Es in Hp; by destruct Hp as [?|[? ?]]|]. split_and!.
    + by apply url_unescape_escape, readable_any.
    + apply url_escape_bytes; [done|by_bytes..].
    + destruct Hp as [->|[p' ->]]; [by left|right]. by eexists.
    + destruct Hp as [->|[p' ->]]; done.
Qed.

Lemma get_http_scheme scheme s :
  scheme ∈ ["http"; "https"] → get_scheme true (scheme +:+ "://" +:+ s) = HasScheme scheme ("//" +:+ s) ∧
  ascii_to_lower scheme = scheme ∧ scheme ≠ "" ∧ scheme +:+ "://" +:+ s ≠ "*".
Proof. rewrite !elem_of_cons, elem_of_nil. by intros [->|[->|[]]]. Qed.

(** What stands between the slashes and the path. *)
Definition authority (u : url) : string :=
  (match User u with Some i => userinfo_String i +:+ "@" | None => "" end) +:+ url_escape encodeHost (Host u).

Lemma print_http u :
  http_url u →
  url_String u = (Scheme u +:+ "://") +:+ authority u +:+ EscapedPath u
    +:+ (if ForceQuery u || bool_decide (RawQuery u ≠ "") then "?" +:+ RawQuery u else "")
    +:+ (if bool_decide (Fragment u = "") then "" else "#" +:+ EscapedFragment u).
Proof.
  intros Hu. assert (Scheme u ≠ "") as Hs by (apply (get_http_scheme _ "" (http_scheme u Hu))).
  pose proof (http_host u Hu) as Hh.
  destruct (EscapedPath_spec u (http_path u Hu) (http_raw_path u Hu)) as (_ & _ & Hr & _).
  unfold url_String. rewrite (http_hierarchical u Hu), (bool_decide_eq_false_2 ("" ≠ "")) by auto.
  assert (url_front u = (Scheme u +:+ "://") +:+ authority u) as Ef.
  { unfold url_front. rewrite (http_authority u Hu), (bool_decide_eq_false_2 (Scheme u = "")),
      (bool_decide_eq_false_2 (Scheme u = "" ∧ _)), (bool_decide_eq_false_2 (Host u = "" ∧ Path u = "" ∧ _)) by tauto.
    cbn [orb andb].
    unfold authority. rewrite <- !string_app_assoc. do 2 f_equal. }
  assert (url_middle u = EscapedPath u) as Em.
  { unfold url_middle. rewrite (bool_decide_eq_false_2 (url_front u = "")).
    2:{ rewrite Ef. by destruct (Scheme u). }
    destruct Hr as [->|[p' ->]]; [done|]. by rewrite rooted_prefix, andb_false_r. }
  rewrite Ef, Em. by rewrite !string_app_assoc.
Qed.

Lemma authority_bytes u :
  http_url u → bytes_are (λ b, negb (is_control b) && negb (b =? 35) && negb (b =? 63) && negb (b =? 47)) (authority u).
Proof.
  intros Hu. unfold authority. apply bytes_are_app. split.
  - destruct (User u) as [[n p]|]; [|constructor]. unfold userinfo_String. cbn [username password].
    destruct p; rewrite !bytes_are_app; split_and!; try (by repeat constructor);
      apply url_escape_bytes; (done || by_bytes).
  - apply url_escape_bytes; [done|by_bytes..].
Qed.

Lemma parse_print_authority u : http_url u → parse_authority (authority u) = Some (User u, Host u).
Proof.
  intros Hu. destruct (good_host_prints _ (http_good_host u Hu)) as [_ Hh]. unfold parse_authority, authority.
  assert (lacks 64 (url_escape encodeHost (Host u))) as Hl by (apply url_escape_bytes; [done|by_bytes..]).
  destruct (User u) as [i|].
  - rewrite <- string_app_assoc. change ("@" +:+ url_escape encodeHost (Host u)) with (String "@" (url_escape encodeHost (Host u))).
    rewrite cut_last_at by done. by rewrite Hh, parse_print_userinfo.
  - rewrite string_app_nil_l, (proj1 (cut_last_lacks _ _) Hl), Hh. done.
Qed.

Lemma split_authority_app a p : lacks 47 a → rooted p → split_authority (a +:+ p) = (a, p).
Proof.
  unfold split_authority. intros Ha [->|[p' ->]].
  - rewrite string_app_nil_r. by rewrite (proj1 (cut_byte_lacks _ _) Ha).
  - by rewrite (cut_byte_at 47 a "/" p').
Qed.

Lemma split_query_app p (force : bool) q :
  bytes_are (λ b, negb (b =? 63)) p →
  split_query (p +:+ if force || bool_decide (q ≠ "") then "?" +:+ q else "") = (p, q, force && bool_decide (q = "")).
Proof.
  intros Hp. unfold split_query. destruct (decide (q = "")) as [->|Hq].
  - rewrite (bool_decide_eq_false_2 ("" ≠ "")) by auto. rewrite orb_false_r.
    destruct force; [rewrite string_app_cons, string_app_nil_l; by rewrite cut_byte_at|]. by rewrite string_app_nil_r, (proj1 (cut_byte_lacks _ _) Hp).
  - rewrite bool_decide_eq_true_2, orb_true_r by done. rewrite string_app_cons, string_app_nil_l, cut_byte_at by done.
    by rewrite bool_decide_eq_false_2, andb_false_r.
Qed.

Lemma url_parse_print u :
  http_url u → ∃ raw, rooted raw ∧
  url_parse ((Scheme u +:+ "://") +:+ authority u +:+ EscapedPath u
    +:+ if ForceQuery u || bool_decide (RawQuery u ≠ "") then "?" +:+ RawQuery u else "")
  = Some (Url (Scheme u) "" (User u) (Host u) (Path u) raw false (ForceQuery u && bool_decide (RawQuery u = ""))
            (RawQuery u) "" "").
Proof.
  intros Hu. destruct (EscapedPath_spec u (http_path u Hu) (http_raw_path u Hu)) as (Hread & Hpb & Hr & _).
  pose proof (authority_bytes u Hu) as Hab. unfold url_parse.
  rewrite (proj2 (has_control_spec _)).
  2:{ rewrite !bytes_are_app. split_and!.
    - pose proof (http_scheme u Hu) as Hs. rewrite !elem_of_cons, elem_of_nil in Hs. by destruct Hs as [->|[->|[]]]; repeat constructor.
    - by repeat constructor.
    - revert Hab. apply bytes_are_impl. by_bytes.
    - revert Hpb. apply bytes_are_impl. by_bytes.
    - destruct (_ || _); [|constructor]. apply bytes_are_app. split; [by repeat constructor|].
      generalize (http_query u Hu). apply bytes_are_impl. by_bytes. }
  rewrite <- string_app_assoc.
  destruct (get_http_scheme (Scheme u) (authority u +:+ EscapedPath u
    +:+ if ForceQuery u || bool_decide (RawQuery u ≠ "") then "?" +:+ RawQuery u else "") (http_scheme u Hu))
    as (-> & -> & Hne & Hstar).
  rewrite (bool_decide_eq_false_2 _ Hstar).
  rewrite (string_app_assoc "//"), (string_app_assoc ("//" +:+ authority u)).
  rewrite split_query_app.
  2:{ rewrite !bytes_are_app. split_and!; [by repeat constructor| |].
    - revert Hab. apply bytes_are_impl. by_bytes.
    - revert Hpb. apply bytes_are_impl. by_bytes. }
  rewrite <- (string_app_assoc "//").
  assert (∀ s, has_prefix ("//" +:+ s) "/" = true ∧ has_prefix ("//" +:+ s) "//" = true) as Hslash.
  { intros s. rewrite !string_app_cons. cbn [has_prefix]. by rewrite !Ascii.eqb_refl, has_prefix_nil. }
  destruct (Hslash (authority u +:+ EscapedPath u)) as [-> ->]. cbn [negb andb].
  rewrite bool_decide_eq_true_2 by done. cbn [orb andb].
  change (drop_bytes 2 ("//" +:+ authority u +:+ EscapedPath u)) with (authority u +:+ EscapedPath u).
  rewrite split_authority_app by (done || (revert Hab; apply bytes_are_impl; by_bytes)).
  rewrite parse_print_authority by done. unfold with_path, set_escaped. rewrite Hread.
  eexists. split; [|done]. destruct (bool_decide (EscapedPath u = _)); [by left|done].
Qed.

(** Reading what was printed gives the same URL, up to how it is written. *)
Lemma url_Parse_String u :
  http_url u → ∃ raw rawf, rooted raw ∧
  url_Parse (url_String u)
  = Some (Url (Scheme u) "" (User u) (Host u) (Path u) raw false (ForceQuery u && bool_decide (RawQuery u = ""))
            (RawQuery u) (Fragment u) rawf).
Proof.
  intros Hu. rewrite print_http by done. destruct (url_parse_print u Hu) as (raw & Hraw & Hp).
  destruct (EscapedPath_spec u (http_path u Hu) (http_raw_path u Hu)) as (_ & Hpb & _).
  set (front := (Scheme u +:+ "://") +:+ authority u +:+ EscapedPath u
    +:+ if ForceQuery u || bool_decide (RawQuery u ≠ "") then "?" +:+ RawQuery u else "") in *.
  assert (lacks 35 front) as Hl.
  { unfold lacks, front. rewrite !bytes_are_app. split_and!.
    - pose proof (http_scheme u Hu) as Hs. rewrite !elem_of_cons, elem_of_nil in Hs. by destruct Hs as [->|[->|[]]]; repeat constructor.
    - by repeat constructor.
    - generalize (authority_bytes u Hu). apply bytes_are_impl. by_bytes.
    - revert Hpb. apply bytes_are_impl. by_bytes.
    - destruct (_ || _); [|constructor]. apply bytes_are_app. split; [by repeat constructor|].
      generalize (http_query u Hu). apply bytes_are_impl. by_bytes. }
  replace ((Scheme u +:+ "://") +:+ authority u +:+ EscapedPath u +:+ _ +:+ _) with
    (front +:+ if bool_decide (Fragment u = "") then "" else "#" +:+ EscapedFragment u)
    by (unfold front; by rewrite !string_app_assoc).
  unfold url_Parse. destruct (decide (Fragment u = "")) as [Ef|Ef].
  - rewrite (bool_decide_eq_true_2 _ Ef), string_app_nil_r, (proj1 (cut_byte_lacks _ _) Hl), Hp, bool_decide_eq_true_2, Ef by done. exists raw. by eexists.
  - rewrite (bool_decide_eq_false_2 _ Ef), string_app_cons, string_app_nil_l, cut_byte_at, Hp by done.
    assert (url_unescape encodeFragment (EscapedFragment u) = Some (Fragment u)) as Hr.
    { unfold EscapedFragment. destruct (raw_valid _ _ _) eqn:E; [|by apply url_unescape_escape, readable_any].
      unfold raw_valid in E. by apply andb_true_iff in E as [_ ?%bool_decide_eq_true]. }
    rewrite bool_decide_eq_false_2 by (intros E; rewrite E in Hr; by injection Hr).
    unfold set_escaped. rewrite Hr. cbn [Scheme]. exists raw. by eexists.
Qed.
