(* ===== verification/GoFlag.v ===== *)
(** * Go's [flag]

    [flag.CommandLine] as far as the program uses it: string and boolean flags
    with defaults, and [Parse], which exits on an error.  Flags that other
    packages define are an argument. *)

From stdpp Require Import gmap.
From S2P Require Import Prelude GoStrings GoUrl.
Local Open Scope go_scope.
Local Open Scope Z_scope.

(** ** Values *)

(** The variable behind a flag. *)
Inductive variable :=
| BoolVar (b : bool)
| StringVar (s : string).

(** The variables by the names of their flags. *)
Definition variables := gmap string variable.

(** [strconv.ParseBool] *)
Definition ParseBool (s : string) : option bool :=
  if bool_decide (s ∈ ["1"; "t"; "T"; "true"; "TRUE"; "True"]) then Some true
  else if bool_decide (s ∈ ["0"; "f"; "F"; "false"; "FALSE"; "False"]) then Some false
  else None.

(** [boolFlag.IsBoolFlag]: the flag needs no value. *)
Definition is_bool (v : variable) : bool := match v with BoolVar _ => true | StringVar _ => false end.

(** [Value.Set] *)
Definition set_value (old : variable) (text : string) : result string variable :=
  match old with
  | BoolVar _ => match ParseBool text with Some b => Ok (BoolVar b) | None => Err "parse error" end
  | StringVar _ => Ok (StringVar text)
  end.

(** A flag of another package: whether it is boolean, and the error of its
    [Set]. *)
Definition foreign_flags := string → option (bool * (string → option string)).

(** ** Parsing *)

Inductive argument :=
| NoFlag                                        (** the first that is not a flag *)
| Terminator                                    (** [--] *)
| BadSyntax
| AFlag (name : string) (value : option string).

(** The syntax of one argument. *)
Definition read_argument (s : string) : argument :=
  match s with
  | String c1 (String c2 rest) =>
    if negb (byte_of c1 =? 45) then NoFlag
    else if (byte_of c2 =? 45) && bool_decide (rest = "") then Terminator
    else
      let name := if byte_of c2 =? 45 then rest else String c2 rest in
      match name with
      | String c _ =>
        if (byte_of c =? 45) || (byte_of c =? 61) then BadSyntax
        else match cut_byte 61 name with
        | Some (name, value) => AFlag name (Some value)
        | None => AFlag name None
        end
      | EmptyString => BadSyntax
      end
  | _ => NoFlag
  end.

Inductive parsed :=
| Parsed (vars : variables) (rest : list string)   (** and the arguments left *)
| HelpRequested                                    (** [ErrHelp] *)
| Failed (message : string).

Section parse.
Context `{Unicode} (foreign : foreign_flags).

(** What a flag is: whether it is boolean, and what setting it does. *)
Definition lookup_flag (vars : variables) (name : string)
  : option (bool * (string → result string variables)) :=
  match vars !! name with
  | Some old => Some (is_bool old, λ text, try v := set_value old text in Ok (<[name := v]> vars))
  | None =>
    match foreign name with
    | Some (b, set) => Some (b, λ text, match set text with Some err => Err err | None => Ok vars end)
    | None => None
    end
  end.

(** [FlagSet.Parse]: [parseOne] until it sees no flag. *)
Fixpoint Parse (vars : variables) (args : list string) : parsed :=
  match args with
  | [] => Parsed vars []
  | arg :: rest =>
    match read_argument arg with
    | NoFlag => Parsed vars args
    | Terminator => Parsed vars rest
    | BadSyntax => Failed ("bad flag syntax: " +:+ arg)
    | AFlag name value =>
      match lookup_flag vars name with
      | None =>
        if bool_decide (name = "help") || bool_decide (name = "h") then HelpRequested
        else Failed ("flag provided but not defined: -" +:+ name)
      | Some (true, set) =>
        match set (match value with Some text => text | None => "true" end) with
        | Ok vars => Parse vars rest
        | Err err =>
          Failed (match value with
                  | Some text => "invalid boolean value " +:+ quote text +:+ " for -" +:+ name +:+ ": " +:+ err
                  | None => "invalid boolean flag " +:+ name +:+ ": " +:+ err
                  end)
        end
      | Some (false, set) =>
        let bad text err := Failed ("invalid value " +:+ quote text +:+ " for flag -" +:+ name +:+ ": " +:+ err) in
        match value, rest with
        | Some text, _ => match set text with Ok vars => Parse vars rest | Err err => bad text err end
        | None, text :: rest' => match set text with Ok vars => Parse vars rest' | Err err => bad text err end
        | None, [] => Failed ("flag needs an argument: -" +:+ name)
        end
      end
    end
  end.

(** ** Settings *)

(** The ways to write a setting: after one or two dashes, with the value after
    an equals sign or, unless the flag is boolean, as the next argument; a
    boolean flag alone means [true]. *)
Inductive spells (vars : variables) (name value : string) : list string → Prop :=
| spells_equals dashes :
    dashes ∈ ["-"; "--"] → spells vars name value [dashes +:+ name +:+ "=" +:+ value]
| spells_next dashes old :
    dashes ∈ ["-"; "--"] → vars !! name = Some old → is_bool old = false →
    spells vars name value [dashes +:+ name; value]
| spells_bare dashes old :
    dashes ∈ ["-"; "--"] → vars !! name = Some old → is_bool old = true → value = "true" →
    spells vars name value [dashes +:+ name].

(** Settings one after the other, with what they make of the variables. *)
Inductive spelled : variables → list string → variables → Prop :=
| spelled_none vars : spelled vars [] vars
| spelled_more vars name value old new args args' vars' :
    spells vars name value args → vars !! name = Some old → set_value old value = Ok new →
    spelled (<[name := new]> vars) args' vars' → spelled vars (args ++ args') vars'.

(** The names of flags: not empty, no equals sign, no dash in front. *)
Definition flag_name (name : string) : Prop :=
  lacks 61 name ∧ match name with String c _ => byte_of c ≠ 45 | EmptyString => False end.

Lemma read_flag dashes name rest :
  dashes ∈ ["-"; "--"] → flag_name name → (rest = "" ∨ ∃ value, rest = "=" +:+ value) →
  read_argument (dashes +:+ name +:+ rest) =
  AFlag name (match rest with String _ value => Some value | EmptyString => None end).
Proof.
  intros Hd [Hl Hc] Hrest. destruct name as [|c name]; [done|].
  assert (Hcut : (match cut_byte 61 (String c name +:+ rest) with
                  | Some (n, value) => AFlag n (Some value) | None => AFlag (String c name +:+ rest) None end) =
                 AFlag (String c name) (match rest with String _ value => Some value | EmptyString => None end)).
  { destruct Hrest as [->|[value ->]].
    - rewrite string_app_nil_r. by rewrite (proj1 (cut_byte_lacks _ _) Hl).
    - change ("=" +:+ value) with (String "=" value). by rewrite cut_byte_at. }
  apply lacks_cons in Hl as [Hc' _]. pose proof (proj2 (Z.eqb_neq _ _) Hc) as E. rewrite string_app_cons in Hcut |- *.
  unfold read_argument. set (name' := String c (name +:+ rest)) in *.
  rewrite !elem_of_cons, elem_of_nil in Hd. destruct Hd as [->|[->|[]]];
    [change ("-" +:+ name') with (String "-" name')|change ("--" +:+ name') with (String "-" (String "-" name'))];
    subst name'; cbv iota beta; change (byte_of "-" =? 45) with true; cbn [negb andb].
  - rewrite E. cbn [andb]. by rewrite E, Hc'.
  - rewrite bool_decide_eq_false_2 by done. by rewrite E, Hc'.
Qed.

(** Settings do what they say, whatever follows. *)
Lemma Parse_spelled vars args vars' rest :
  (∀ name, is_Some (vars !! name) → flag_name name) →
  spelled vars args vars' → Parse vars (args ++ rest) = Parse vars' rest.
Proof.
  intros Hnames Hs. revert Hnames. induction Hs as [|vars name value old new args args' vars' Hsp Hold Hset Hs IH];
    intros Hnames; [done|].
  rewrite <- app_assoc. assert (flag_name name) as Hname by (apply Hnames; by eexists).
  assert (lookup_flag vars name = Some (is_bool old, λ text, try v := set_value old text in Ok (<[name := v]> vars))) as Hl.
  { unfold lookup_flag. by rewrite Hold. }
  rewrite <- IH.
  2:{ intros k Hk. apply Hnames. destruct (decide (name = k)) as [<-|]; [by eexists|].
    unfold variables in *. by rewrite lookup_insert_ne in Hk. }
  destruct Hsp as [dashes Hd|dashes old' Hd Hold' Hb|dashes old' Hd Hold' Hb ->]; cbn [app Parse].
  - rewrite (read_flag dashes name ("=" +:+ value)), string_app_cons, string_app_nil_l by eauto. rewrite Hl.
    destruct (is_bool old); cbv beta; by rewrite Hset.
  - rewrite <- (string_app_nil_r name), read_flag by auto. rewrite string_app_nil_r, Hl. rewrite Hold in Hold'. injection Hold' as <-.
    rewrite Hb. cbv beta. by rewrite Hset.
  - rewrite <- (string_app_nil_r name), read_flag by auto. rewrite string_app_nil_r, Hl. rewrite Hold in Hold'. injection Hold' as <-.
    rewrite Hb. cbv beta. by rewrite Hset.
Qed.

(** An argument that ends the flags. *)
Definition ends_flags (args : list string) : Prop :=
  match args with [] => True | arg :: _ => read_argument arg = NoFlag ∨ read_argument arg = Terminator end.

Lemma Parse_ends vars args : ends_flags args → ∃ rest, Parse vars args = Parsed vars rest.
Proof. destruct args as [|arg args]; simpl; [by eexists|]. intros [->| ->]; by eexists. Qed.
End parse.
