(* ===== verification/GoHttp.v ===== *)
(** * [net/url], [path], [mime/multipart] and [net/http] requests

    What the client uses to build a request.  The exchange itself belongs to
    [Env] (see World.v). *)

From S2P Require Import Prelude GoStrings GoAny.
From S2P Require Export GoUrl.
Local Open Scope Z_scope.

(** ** Queries *)

(** [url.QueryEscape] *)
Fixpoint query_escape (s : string) : string :=
  match s with
  | EmptyString => ""
  | String c s' =>
    let b := byte_of c in
    (if b =? 32 then "+"
     else if alphanumeric b || one_of b "-_.~" then String c ""
     else percent b) +:+ query_escape s'
  end.

(** [url.QueryUnescape] *)
Fixpoint query_unescape (s : string) : option string :=
  match s with
  | EmptyString => Some ""
  | String c s' =>
    if byte_of c =? 43 then String " " <$> query_unescape s'
    else if byte_of c =? 37 then
      match s' with
      | String h (String l s'') =>
        match hex_of h, hex_of l with
        | Some h, Some l => String (to_byte (h * 16 + l)) <$> query_unescape s''
        | _, _ => None
        end
      | _ => None
      end
    else String c <$> query_unescape s'
  end.

(** [url.Values]: entries in key order. *)
Notation values := (list (string * list string)).

(** [Values.Encode] *)
Definition query_encode (q : values) : string :=
  join "&" (flat_map (λ e, (λ v, query_escape e.1 +:+ "=" +:+ query_escape v) <$> e.2) q).

(** ** [path] *)

(** The elements of a slash separated path. *)
Fixpoint split_slash (s : string) : list string :=
  match s with
  | EmptyString => [""]
  | String c s' =>
    if byte_of c =? 47 then "" :: split_slash s'
    else match split_slash s' with
         | first :: rest => String c first :: rest
         | [] => [String c ""]
         end
  end.

(** The elements that remain, last first, after the rules of [path.Clean] for
    empty, [.] and [..] elements. *)
Definition clean_step (rooted : bool) (out : list string) (elem : string) : list string :=
  if bool_decide (elem = "" ∨ elem = ".") then out
  else if bool_decide (elem = "..") then
    match out with
    | [] => if rooted then [] else [".."]
    | last :: out' => if bool_decide (last = "..") then ".." :: out else out'
    end
  else elem :: out.

Definition path_clean (p : string) : string :=
  let rooted := has_prefix p "/" in
  let out := rev (foldl (clean_step rooted) [] (split_slash p)) in
  if rooted then "/" +:+ join "/" out
  else match out with [] => "." | _ => join "/" out end.

(** [path.Join]: empty when every element is. *)
Definition path_join (elems : list string) : string :=
  match filter (λ e, e ≠ "") elems with
  | [] => ""
  | elems => path_clean (join "/" elems)
  end.

(** ** Requests *)

Record http_request := HttpRequest {
  Method : string;
  URL : url;
  Header : list (string * string);
  req_Body : option string
}.

(** The URL [http.NewRequestWithContext] gives a request to a URL: it is printed
    and parsed again, and an empty port is dropped. *)
Definition request_URL (u : url) : option url :=
  match url_Parse (url_String u) with
  | Some v =>
    Some (Url (Scheme v) (Opaque v) (User v) (drop_empty_port (Host v)) (Path v) (RawPath v) (OmitHost v)
            (ForceQuery v) (RawQuery v) (Fragment v) (RawFragment v))
  | None => None
  end.

(** [textproto.CanonicalMIMEHeaderKey] of a key made of letters, digits and [-]. *)
Fixpoint canonical_key (upper : bool) (k : string) : string :=
  match k with
  | EmptyString => ""
  | String c k' =>
    let b := byte_of c in
    let b' := if upper && in_range 97 122 b then b - 32
              else if negb upper && in_range 65 90 b then b + 32 else b in
    String (to_byte b') (canonical_key (b =? 45) k')
  end.

(** [Header.Set] *)
Definition header_set (k v : string) (h : list (string * string)) : list (string * string) :=
  map_set (canonical_key true k) v h.

(** ** [mime/multipart] *)

Definition crlf : string := chr 13 +:+ chr 10.

(** [multipart.Writer] escapes backslashes and double quotes in a name; the
    names of this program have none. *)
Definition quoted (s : string) : string := String dquote (s +:+ String dquote "").

Definition form_file_header (field filename : string) : string :=
  "Content-Disposition: form-data; name=" +:+ quoted field +:+ "; filename=" +:+ quoted filename +:+ crlf
  +:+ "Content-Type: application/octet-stream" +:+ crlf.

Definition form_field_header (field : string) : string :=
  "Content-Disposition: form-data; name=" +:+ quoted field +:+ crlf.

(** The bytes a [multipart.Writer] has produced once it is closed, from the
    header and the content of each part. *)
Definition multipart_body (boundary : string) (parts : list (string * string)) : string :=
  join crlf ((λ p, "--" +:+ boundary +:+ crlf +:+ p.1 +:+ crlf +:+ p.2) <$> parts)
  +:+ crlf +:+ "--" +:+ boundary +:+ "--" +:+ crlf.

Definition FormDataContentType (boundary : string) : string :=
  "multipart/form-data; boundary=" +:+ boundary.

(** ** Lemmas *)

(** A query that was encoded has no byte that ends it. *)
Lemma query_escape_bytes s : bytes_are (λ b, negb (is_control b) && negb (b =? 35)) (query_escape s).
Proof.
  induction s as [|c s IH]; [constructor|]. cbn [query_escape]. apply bytes_are_app. split; [|done].
  destruct (byte_of c =? 32); [by repeat constructor|]. destruct (_ || _) eqn:E.
  - apply bytes_are_cons. split; [|constructor]. revert E.
    assert (∀ c, implb (alphanumeric (byte_of c) || one_of (byte_of c) "-_.~")
                   (negb (is_control (byte_of c)) && negb (byte_of c =? 35)) = true) as H by by_bytes.
    intros E. specialize (H c). by rewrite E in H.
  - destruct (percent_spec (byte_of c)) as (h & l & -> & _ & _ & Hh & Hl); [apply byte_of_range|].
    assert (∀ c, implb (alphanumeric (byte_of c)) (negb (is_control (byte_of c)) && negb (byte_of c =? 35)) = true)
      as H by by_bytes.
    pose proof (H h) as Ah. pose proof (H l) as Al. rewrite Hh in Ah. rewrite Hl in Al.
    rewrite !bytes_are_cons. split_and!; [done..|constructor].
Qed.

Lemma query_encode_bytes q : bytes_are (λ b, negb (is_control b) && negb (b =? 35)) (query_encode q).
Proof.
  unfold query_encode, join. set (l := flat_map _ _).
  assert (Forall (bytes_are (λ b, negb (is_control b) && negb (b =? 35))) l) as Hl.
  { apply Forall_forall. intros x. unfold l. rewrite elem_of_flat_map. intros (e & _ & Hx).
    apply list_elem_of_fmap in Hx as (v & -> & _). rewrite !bytes_are_app.
    split_and!; [apply query_escape_bytes|by repeat constructor|apply query_escape_bytes]. }
  clearbody l. induction Hl as [|x l Hx Hl IH]; [constructor|]. destruct l as [|y l]; [done|].
  change (String.concat "&" (x :: y :: l)) with (x +:+ "&" +:+ String.concat "&" (y :: l)).
  rewrite !bytes_are_app. split_and!; [done|by repeat constructor|done].
Qed.

(** A URL of a host can be requested: what is requested is the same URL, but for
    an empty port. *)
Lemma request_URL_http u :
  http_url u → ∃ raw rawf force, rooted raw ∧
  request_URL u = Some (Url (Scheme u) "" (User u) (drop_empty_port (Host u)) (Path u) raw false force
                          (RawQuery u) (Fragment u) rawf).
Proof.
  intros Hu. destruct (url_Parse_String u Hu) as (raw & rawf & Hraw & E). exists raw, rawf. unfold request_URL. rewrite E.
  by eexists.
Qed.

Lemma request_URL_again u v : http_url u → Path u ≠ "" → request_URL u = Some v → http_url v.
Proof.
  intros Hu Hne E. destruct (request_URL_http u Hu) as (raw & rawf & force & Hraw & E').
  rewrite E in E'. injection E' as ->. destruct Hu. by constructor; try apply good_host_drop; auto.
Qed.

(** What the server reads from a query parameter is what the client put there. *)
Lemma query_unescape_escape s : query_unescape (query_escape s) = Some s.
Proof.
  induction s as [|c s IH]; simpl; [done|].
  destruct (Z.eqb_spec (byte_of c) 32) as [E|E].
  - rewrite string_app_cons, string_app_nil_l. simpl. rewrite IH. simpl. do 2 f_equal.
    by rewrite <- (to_byte_of c), E.
  - destruct (_ || _) eqn:U.
    + rewrite string_app_cons, string_app_nil_l. cbn [query_unescape].
      destruct (Z.eqb_spec (byte_of c) 43) as [Hc|_]; [by rewrite Hc in U|].
      destruct (Z.eqb_spec (byte_of c) 37) as [Hc|_]; [by rewrite Hc in U|].
      by rewrite IH.
    + pose proof (byte_of_range c).
      destruct (percent_spec (byte_of c)) as (h & l & -> & Hh & Hl & _); [done|].
      rewrite !string_app_cons, string_app_nil_l. cbn [query_unescape].
      change (byte_of "%" =? 43) with false. change (byte_of "%" =? 37) with true. cbv iota.
      rewrite Hh, Hl, IH. simpl. do 2 f_equal. rewrite Z.mul_comm, <- Z.div_mod by lia. apply to_byte_of.
Qed.
