(* ===== verification/Errors.v ===== *)
(** * Go error values and [internal/kmp/errors.go]

    An error is its dynamic type: the program's sentinels, [kmp.Error],
    [fmt.Errorf] wrappers, [errors.Join], the two wrappers of issuer-lib and
    errors known only by their text. *)

From S2P Require Import Prelude GoStrings.
Local Open Scope Z_scope.

(** [kmp.Error]; [E] is the type of the underlying error. *)
Record kmp_error (E : Type) := KmpError {
  Op : string;
  StatusCode : Z;
  APIStatus : string;
  Message : string;
  Body : string;
  Permanent : bool;
  Underlying : option E
}.
Arguments KmpError {E}.
Arguments Op {E}. Arguments StatusCode {E}. Arguments APIStatus {E}. Arguments Message {E}.
Arguments Body {E}. Arguments Permanent {E}. Arguments Underlying {E}.

(** Package-level error values, compared by identity. *)
Inductive sentinel :=
| ErrInvalidConfig
| ErrUnusableResponse
| errNoPrivateKey
| errGetAuthSecret
| errHealthCheckerBuilder
| errHealthCheckerCheck
| errSignerBuilder
| errSignerSign
| errNotInCluster
| ContextCanceled
| DeadlineExceeded.

#[export] Instance sentinel_eq_dec : EqDecision sentinel.
Proof. solve_decision. Defined.

Definition sentinel_text (s : sentinel) : string :=
  match s with
  | ErrInvalidConfig => "invalid signing configuration"
  | ErrUnusableResponse => "unusable response from key manager plus"
  | errNoPrivateKey => "not a private key"
  | errGetAuthSecret => "failed to get Secret containing Issuer credentials"
  | errHealthCheckerBuilder => "failed to build the healthchecker"
  | errHealthCheckerCheck => "healthcheck failed"
  | errSignerBuilder => "failed to build the signer"
  | errSignerSign => "failed to sign"
  | errNotInCluster => "not running in-cluster"
  | ContextCanceled => "context canceled"
  | DeadlineExceeded => "context deadline exceeded"
  end.

Inductive error : Type :=
| New (msg : string)                     (** [errors.New], or a foreign error *)
| Sentinel (s : sentinel)
| Wrapped (msg : string) (cause : error) (** [fmt.Errorf] with one [%w] *)
| Joined (e1 e2 : error)                 (** [errors.Join] *)
| KmpErr (e : kmp_error error)           (** [*kmp.Error] *)
| PermanentErr (e : error)               (** issuer-lib's [signer.PermanentError] *)
| IssuerErr (e : error).                 (** issuer-lib's [signer.IssuerError] *)

Notation res := (result error).

(** ** Error text *)

Section text.
Context `{Unicode}.

(** The [Error] method of [kmp.Error], given the text of the underlying error. *)
Definition kmp_error_text (e : kmp_error error) (cause : option string) : string :=
  "key manager plus: " +:+ Op e
  +:+ (if StatusCode e =? 0 then "" else ": http " +:+ format_int (StatusCode e))
  +:+ (if decide (APIStatus e = "") then "" else ": status " +:+ quote (APIStatus e))
  +:+ (if decide (Message e = "") then "" else ": " +:+ Message e)
  +:+ (match cause with Some c => ": " +:+ c | None => "" end)
  +:+ (if decide (Message e = "" ∧ Underlying e = None ∧ Body e ≠ "") then ": " +:+ Body e else "").

(** [err.Error()] *)
Fixpoint error_text (e : error) : string :=
  match e with
  | New msg => msg
  | Sentinel s => sentinel_text s
  | Wrapped msg _ => msg
  | Joined e1 e2 => error_text e1 +:+ String newline (error_text e2)
  | KmpErr k =>
    kmp_error_text k (match Underlying k with Some c => Some (error_text c) | None => None end)
  | PermanentErr e => error_text e
  | IssuerErr e => error_text e
  end.

(** [fmt.Errorf("<prefix>: %w", err)] *)
Definition wrap (prefix : string) (e : error) : error :=
  Wrapped (prefix +:+ ": " +:+ error_text e) e.

(** [fmt.Errorf("%w: <detail>", sentinel)] *)
Definition mark (s : sentinel) (detail : string) : error :=
  Wrapped (sentinel_text s +:+ ": " +:+ detail) (Sentinel s).
End text.

(** ** Walking an error tree *)

(** [errors.Is(err, target)] *)
Fixpoint errors_is (e : error) (target : sentinel) : bool :=
  match e with
  | New _ => false
  | Sentinel s => bool_decide (s = target)
  | Wrapped _ c => errors_is c target
  | Joined e1 e2 => errors_is e1 target || errors_is e2 target
  | KmpErr k => match Underlying k with Some c => errors_is c target | None => false end
  | PermanentErr c => errors_is c target
  | IssuerErr c => errors_is c target
  end.

(** [errors.As(err, &kmpErr)]: the first [*kmp.Error] in pre-order. *)
Fixpoint errors_as_kmp (e : error) : option (kmp_error error) :=
  match e with
  | New _ | Sentinel _ => None
  | Wrapped _ c => errors_as_kmp c
  | Joined e1 e2 =>
    match errors_as_kmp e1 with Some k => Some k | None => errors_as_kmp e2 end
  | KmpErr k => Some k
  | PermanentErr c => errors_as_kmp c
  | IssuerErr c => errors_as_kmp c
  end.

(** ** Classification *)

Definition IsPermanent (err : error) : bool :=
  if errors_is err ErrInvalidConfig || errors_is err ErrUnusableResponse then true
  else match errors_as_kmp err with
  | Some kmpErr => Permanent kmpErr
  | None => false
  end.

Definition permanentStatus (code : Z) : bool :=
  if (code =? 408) || (code =? 429) then false
  else (400 <=? code) && (code <? 500).

Definition authFailureHints : list string :=
  ["authtoken"; "auth token"; "authentication failed"; "invalid token"; "unauthorized";
   "not authorized"; "invalid user"].

Definition IsAuthFailure `{Unicode} (err : error) : bool :=
  match errors_as_kmp err with
  | None => false
  | Some kmpErr =>
    if (StatusCode kmpErr =? 401) || (StatusCode kmpErr =? 403) then true
    else
      let haystack := to_lower (Message kmpErr +:+ " " +:+ Body kmpErr) in
      existsb (λ hint, contains haystack hint) authFailureHints
  end.

(** ** Lemmas *)

Lemma IsPermanent_Wrapped msg e : IsPermanent (Wrapped msg e) = IsPermanent e.
Proof. done. Qed.

Lemma IsPermanent_mark `{Unicode} s d :
  s = ErrInvalidConfig ∨ s = ErrUnusableResponse → IsPermanent (mark s d) = true.
Proof. by intros [-> | ->]. Qed.

Lemma IsPermanent_kmp k :
  (∀ c, Underlying k = Some c →
     errors_is c ErrInvalidConfig = false ∧ errors_is c ErrUnusableResponse = false) →
  IsPermanent (KmpErr k) = Permanent k.
Proof.
  intros H. unfold IsPermanent. simpl. destruct (Underlying k) as [c|]; [|done].
  by destruct (H c eq_refl) as [-> ->].
Qed.

#[export] Hint Rewrite IsPermanent_Wrapped : kmp.

Lemma permanentStatus_spec code :
  permanentStatus code = true ↔ 400 ≤ code < 500 ∧ code ≠ 408 ∧ code ≠ 429.
Proof. unfold permanentStatus. split; [intros H; case_match; lia|intros H; case_match; lia]. Qed.
