(* ===== verification/Response.v ===== *)
(** * [internal/kmp/response.go]: querying a decoded response *)

From S2P Require Import Prelude GoStrings GoFloat GoAny Json.
Local Open Scope Z_scope.

(** [type response struct]; a [*response] is an [option response]. *)
Record response := Response { doc : any; body : string }.

Definition maxRecordedBody : Z := 2048.

Definition parseResponse (body : string) : option response :=
  match json_unmarshal body with
  | Some doc => Some (Response doc body)
  | None => None
  end.

Definition truncate (s : string) (max : Z) : string :=
  let s := trim_space s in
  if len s <=? max then s else take_bytes (Z.to_nat max) s +:+ "... (truncated)".

Definition truncatedBody (r : option response) : string :=
  match r with
  | None => ""
  | Some r => truncate (body r) maxRecordedBody
  end.

Section response.
Context `{Unicode, Conversions}.

(** Go evaluates [strings.ToLower] first, then copies rune by rune. *)
Definition normalizeKey (k : string) : string :=
  encode_runes
    (filter (λ r, r ≠ 95 ∧ r ≠ 45 ∧ r ≠ 32 ∧ r ≠ 46)%Z (rune_of <$> decode_runes (to_lower k))).

(** [map[string]struct{}] of the normalized keys. *)
Definition wanted_set (keys : list string) : list string := normalizeKey <$> keys.
Definition is_wanted (wanted : list string) (key : string) : bool :=
  bool_decide (normalizeKey key ∈ wanted).

Definition scalarString (v : any) : option string :=
  match v with
  | Str typed =>
    let s := trim_space typed in
    if decide (s = "") then None else Some s
  | Float64 typed =>
    let i := float_to_int64 typed in
    if float_eq typed (float_of_int i) then Some (format_int i) else Some (format_float typed)
  | Bool typed => Some (format_bool typed)
  | JsonNumber c rest => Some (String c rest)
  | _ => None
  end.

Definition sortedKeys (m : list (string * any)) : list string := merge_sort String.le (keys m).

(** The value an object stores directly under a wanted key. *)
Definition direct_scalar (wanted : list string) (entry : string * any) : option string :=
  if is_wanted wanted entry.1 then scalarString entry.2 else None.

(** The nested objects are visited in key order, which is the order the map
    keeps its entries in ([sortedKeys_entries]). *)
Fixpoint findScalar (o : order) (wanted : list string) (node : any) : option string :=
  match node with
  | Map typed =>
    match find_first (direct_scalar wanted) (range_map o typed) with
    | Some s => Some s
    | None => find_first (λ e, findScalar o wanted e.2) typed
    end
  | Slice typed => find_first (findScalar o wanted) typed
  | _ => None
  end.

Definition findString (o : order) (r : option response) (keys : list string) : option string :=
  match r with
  | None => None
  | Some r => findScalar o (wanted_set keys) (doc r)
  end.

Definition statusKeys : list string := ["status"; "Status"; "STATUS"; "result"].
Definition messageKeys : list string :=
  ["message"; "Message"; "MESSAGE"; "reason"; "error"; "errormessage"; "error_message"].

Definition status (o : order) (r : option response) : string :=
  default "" (findString o r statusKeys).

Definition message (o : order) (r : option response) : string :=
  default "" (findString o r messageKeys).

Definition failureHints : list string :=
  ["failed"; "failure"; "error"; "invalid"; "not found"; "denied"; "unable to"].

Definition hasFailureMessage (o : order) (r : option response) : bool :=
  let msg := to_lower (message o r) in
  if decide (msg = "") then false
  else existsb (λ hint, contains msg hint) failureHints.

Definition succeeded (o o' : order) (r : option response) : bool :=
  let status := trim_space (to_lower (status o r)) in
  if decide (status = "") then negb (hasFailureMessage o' r)
  else bool_decide (status ∈ ["success"; "successful"; "ok"; "true"; "200"]).

Fixpoint strings_in (node : any) : list string :=
  match node with
  | Str typed => [typed]
  | Map typed => flat_map (λ e, strings_in e.2) typed
  | Slice typed => flat_map strings_in typed
  | _ => []
  end.

Definition collectStrings (r : option response) : list string :=
  match r with
  | None => []
  | Some r => strings_in (doc r)
  end.

(** *** Records of a listing *)

Definition recordMatches (o : order) (record : list (string * any)) (nameKeys : list string)
    (commonName : string) : bool :=
  existsb (λ e,
    if is_wanted nameKeys e.1 then
      match scalarString e.2 with
      | Some name => equal_fold (trim_space name) commonName
      | None => false
      end
    else false) (range_map o record).

(** The variables [best], [bestValue] and [found] of the walk. *)
Record search := Search { best : string; bestValue : Z; found : bool }.

Definition consider (wantedIDs : list string) (st : search) (entry : string * any) : search :=
  match direct_scalar wantedIDs entry with
  | None => st
  | Some id =>
    match parse_int id with
    | Some numeric =>
      if bestValue st <? numeric then Search id numeric true
      else Search (best st) (bestValue st) true
    | None =>
      if (bestValue st <? 0) && bool_decide (best st = "") then Search id (bestValue st) true
      else Search (best st) (bestValue st) true
    end
  end.

Fixpoint walk_ids (o : order) (wantedIDs wantedNames : list string) (commonName : string)
    (node : any) (st : search) : search :=
  match node with
  | Map typed =>
    let st :=
      if recordMatches o typed wantedNames commonName
      then foldl (consider wantedIDs) st (range_map o typed)
      else st in
    fold_left (λ st e, walk_ids o wantedIDs wantedNames commonName e.2 st) typed st
  | Slice typed =>
    fold_left (λ st item, walk_ids o wantedIDs wantedNames commonName item st) typed st
  | _ => st
  end.

Definition findIDForCommonName (o : order) (r : option response) (commonName : string)
    (idKeys nameKeys : list string) : option string :=
  match r with
  | None => None
  | Some r =>
    if decide (commonName = "") then None
    else
      let st := walk_ids o (wanted_set idKeys) (wanted_set nameKeys) commonName (doc r)
                  (Search "" (-1) false) in
      if found st && bool_decide (best st ≠ "") then Some (best st) else None
  end.

Fixpoint scalars_for (wanted : list string) (node : any) : list string :=
  match node with
  | Map typed =>
    flat_map (λ e,
      match direct_scalar wanted e with Some value => [value] | None => [] end
      ++ scalars_for wanted e.2) typed
  | Slice typed => flat_map (scalars_for wanted) typed
  | _ => []
  end.

Definition collectStringsFor (r : option response) (keys : list string) : list string :=
  match r with
  | None => []
  | Some r => scalars_for (wanted_set keys) (doc r)
  end.
End response.

(** Visiting the keys in sorted order is visiting the entries as the map keeps
    them. *)
Lemma sortedKeys_entries (m : list (string * any)) : map_ok m → sortedKeys m = keys m.
Proof.
  intros Hm. apply (StronglySorted_unique String.le _ _).
  - apply (StronglySorted_merge_sort _).
  - induction Hm as [|k ks Hks IH Hk]; constructor; [done|].
    eapply Forall_impl; [exact Hk|]. intros b Hab. unfold String.le, String.leb. by rewrite Hab.
  - apply merge_sort_Permutation.
Qed.

(** ** Specification: what a document stores where *)

(** [subdoc v w]: [w] is [v] or a value nested in it. *)
Inductive subdoc : any → any → Prop :=
| subdoc_here v : subdoc v v
| subdoc_item l x w : x ∈ l → subdoc x w → subdoc (Slice l) w
| subdoc_entry m k x w : (k, x) ∈ m → subdoc x w → subdoc (Map m) w.

Lemma subdoc_well_formed v w : subdoc v w → well_formed v → well_formed w.
Proof.
  induction 1 as [|l x w Hx _ IH|m k x w Hx _ IH]; [done|..].
  - intros Hl%well_formed_slice. eapply Forall_forall in Hl; [|exact Hx]. auto.
  - intros [_ Hm]%well_formed_map. eapply Forall_forall in Hm; [|exact Hx]. auto.
Qed.

Create HintDb doc.
#[export] Hint Constructors subdoc : doc.

Section response_spec.
Context `{Unicode, Conversions}.
Implicit Types (o : order) (v node : any) (wanted : list string).

(** Some object of the document has a wanted key whose value is the scalar [s]. *)
Definition stores wanted node (s : string) : Prop :=
  ∃ m e, subdoc node (Map m) ∧ e ∈ m ∧ direct_scalar wanted e = Some s.

Lemma stores_item wanted l x s : x ∈ l → stores wanted x s → stores wanted (Slice l) s.
Proof. intros Hx (m & e & ? & ? & ?). exists m, e. eauto with doc. Qed.

Lemma stores_entry wanted m e s : e ∈ m → stores wanted e.2 s → stores wanted (Map m) s.
Proof. destruct e as [k x]. intros Hx (m' & e' & ? & ? & ?). exists m', e'. eauto with doc. Qed.

Lemma stores_inv wanted node s :
  stores wanted node s →
  match node with
  | Map m => (∃ e, e ∈ m ∧ direct_scalar wanted e = Some s) ∨ (∃ e, e ∈ m ∧ stores wanted e.2 s)
  | Slice l => ∃ x, x ∈ l ∧ stores wanted x s
  | _ => False
  end.
Proof.
  intros (m & e & Hsub & He & Hs). remember (Map m) as w eqn:Ew.
  destruct Hsub as [v|l x w Hx Hsub|m' k x w Hx Hsub]; subst.
  - left. eauto.
  - exists x. split; [done|]. exists m, e. eauto.
  - right. exists (k, x). split; [done|]. exists m, e. eauto.
Qed.

Lemma direct_range o wanted m :
  is_Some (find_first (direct_scalar wanted) (range_map o m)) ↔
  ∃ e s, e ∈ m ∧ direct_scalar wanted e = Some s.
Proof.
  rewrite find_first_is_Some. split.
  - intros (e & He & s & Hs). rewrite elem_of_range_map in He. eauto.
  - intros (e & s & He & Hs). exists e. rewrite elem_of_range_map. eauto.
Qed.

Lemma findScalar_sound o wanted node s :
  findScalar o wanted node = Some s → stores wanted node s.
Proof.
  induction node as [|b|z|f|c n|str|l IH|m IH] using any_nested_ind; simpl; try done.
  - intros (x & Hx & Hs)%find_first_Some. eapply Forall_forall in IH; [|done].
    eauto using stores_item.
  - destruct (find_first _ (range_map o m)) as [s'|] eqn:E.
    + intros [= <-]. apply find_first_Some in E as (e & He & Hs).
      rewrite elem_of_range_map in He. exists m, e. eauto with doc.
    + intros (e & He & Hs)%find_first_Some. eapply Forall_forall in IH; [|done].
      eauto using stores_entry.
Qed.

Lemma findScalar_complete o wanted node s :
  stores wanted node s → is_Some (findScalar o wanted node).
Proof.
  revert s. induction node as [|b|z|f|c n|str|l IH|m IH] using any_nested_ind; simpl;
    intros s Hst%stores_inv; simpl in Hst; try done.
  - destruct Hst as (x & Hx & Hst). apply find_first_is_Some. exists x. split; [done|].
    eapply Forall_forall in IH; [|done]. eauto.
  - destruct (find_first (direct_scalar wanted) (range_map o m)) as [s'|] eqn:E; [eauto|].
    destruct Hst as [(e & He & Hs)|(e & He & Hst)].
    + exfalso. rewrite find_first_None in E.
      rewrite (E e) in Hs; [done|]. by rewrite elem_of_range_map.
    + apply find_first_is_Some. exists e. split; [done|].
      eapply Forall_forall in IH; [|done]. eauto.
Qed.

Lemma findScalar_None o wanted node :
  findScalar o wanted node = None ↔ ∀ s, ¬ stores wanted node s.
Proof.
  split.
  - intros E s [s' E']%(findScalar_complete o). congruence.
  - intros Hn. destruct (findScalar o wanted node) as [s|] eqn:E; [|done].
    by apply findScalar_sound, Hn in E.
Qed.

(** At most one scalar under wanted keys in each object. *)
Definition unambiguous wanted node : Prop :=
  ∀ m e e' s s', subdoc node (Map m) → e ∈ m → e' ∈ m →
    direct_scalar wanted e = Some s → direct_scalar wanted e' = Some s' → s = s'.

Lemma unambiguous_item wanted l x : unambiguous wanted (Slice l) → x ∈ l → unambiguous wanted x.
Proof. intros Hu Hx m e e' s s' Hsub. eapply Hu. eauto with doc. Qed.

Lemma unambiguous_entry wanted m e : unambiguous wanted (Map m) → e ∈ m → unambiguous wanted e.2.
Proof. destruct e as [k x]. intros Hu Hx m' e1 e2 s s' Hsub. eapply Hu. eauto with doc. Qed.

Lemma findScalar_deterministic o o' wanted node :
  unambiguous wanted node → findScalar o wanted node = findScalar o' wanted node.
Proof.
  induction node as [|b|z|f|c n|str|l IH|m IH] using any_nested_ind; simpl; intros Hu; try done.
  - apply find_first_ext. intros x Hx. eapply Forall_forall in IH; [|done].
    eauto using unambiguous_item.
  - assert (Hrest : find_first (λ e, findScalar o wanted e.2) m
                    = find_first (λ e, findScalar o' wanted e.2) m).
    { apply find_first_ext. intros e He. eapply Forall_forall in IH; [|done].
      eauto using unambiguous_entry. }
    destruct (find_first (direct_scalar wanted) (range_map o m)) as [s|] eqn:E,
             (find_first (direct_scalar wanted) (range_map o' m)) as [s'|] eqn:E'.
    + apply find_first_Some in E as (e & He & Hs), E' as (e' & He' & Hs').
      rewrite elem_of_range_map in He, He'. f_equal.
      apply (Hu m e e'); auto with doc.
    + apply find_first_Some in E as (e & He & Hs). rewrite elem_of_range_map in He.
      rewrite find_first_None in E'. rewrite (E' e) in Hs; [done|by rewrite elem_of_range_map].
    + apply find_first_Some in E' as (e & He & Hs). rewrite elem_of_range_map in He.
      rewrite find_first_None in E. rewrite (E e) in Hs; [done|by rewrite elem_of_range_map].
    + done.
Qed.

(** *** Collections *)

Lemma scalars_for_spec wanted node s : s ∈ scalars_for wanted node ↔ stores wanted node s.
Proof.
  induction node as [|b|z|f|c n|str|l IH|m IH] using any_nested_ind; simpl;
    try (split; [by intros ?%not_elem_of_nil|by intros ?%stores_inv]).
  - rewrite elem_of_flat_map. rewrite Forall_forall in IH. split.
    + intros (x & Hx & Hs). apply IH in Hs; eauto using stores_item.
    + intros (x & Hx & Hs)%stores_inv. apply IH in Hs; eauto.
  - rewrite elem_of_flat_map. rewrite Forall_forall in IH. split.
    + intros (e & He & [Hs|Hs]%elem_of_app).
      * destruct (direct_scalar wanted e) as [v|] eqn:E; [|by apply not_elem_of_nil in Hs].
        apply list_elem_of_singleton in Hs as ->. exists m, e. eauto with doc.
      * apply IH in Hs; eauto using stores_entry.
    + intros [(e & He & Hs)|(e & He & Hs)]%stores_inv; exists e; (split; [done|]);
        apply elem_of_app.
      * left. rewrite Hs. by left.
      * right. by apply IH.
Qed.

(** *** Listings *)

Lemma scalarString_nonempty v s : scalarString v = Some s → s ≠ "".
Proof.
  destruct v; simpl; try done.
  - intros [= <-]. by destruct b.
  - case_match; intros [= <-]; [apply format_int_nonempty|apply format_float_nonempty].
  - by intros [= <-].
  - case_decide; [done|]. by intros [= <-].
Qed.

Lemma direct_scalar_nonempty wanted e s : direct_scalar wanted e = Some s → s ≠ "".
Proof. unfold direct_scalar. case_match; [apply scalarString_nonempty|done]. Qed.

(** An object that carries the common name under one of the name keys. *)
Definition record_names (wantedNames : list string) (cn : string) (m : list (string * any)) : Prop :=
  ∃ e name, e ∈ m ∧ direct_scalar wantedNames e = Some name ∧
            equal_fold (trim_space name) cn = true.

Lemma recordMatches_spec o m wantedNames cn :
  recordMatches o m wantedNames cn = true ↔ record_names wantedNames cn m.
Proof.
  unfold recordMatches, record_names, direct_scalar. rewrite existsb_exists. split.
  - intros (e & He & Hm). rewrite <- list_elem_of_In, elem_of_range_map in He.
    destruct (is_wanted wantedNames e.1) eqn:E; [|done].
    destruct (scalarString e.2) as [name|] eqn:En; [|done]. exists e, name. by rewrite E.
  - intros (e & name & He & Hs & Hn). exists e.
    rewrite <- list_elem_of_In, elem_of_range_map. split; [done|].
    destruct (is_wanted wantedNames e.1); [|done]. by rewrite Hs.
Qed.

(** [id] is recorded in an object that names [cn]. *)
Definition lists_id (wantedIDs wantedNames : list string) (cn : string) node (id : string) : Prop :=
  ∃ m e, subdoc node (Map m) ∧ record_names wantedNames cn m ∧
         e ∈ m ∧ direct_scalar wantedIDs e = Some id.

(** The entries the walk offers to [consider], in order. *)
Fixpoint listing o (wantedNames : list string) (cn : string) node : list (string * any) :=
  match node with
  | Map m =>
    (if recordMatches o m wantedNames cn then range_map o m else [])
    ++ flat_map (λ e, listing o wantedNames cn e.2) m
  | Slice l => flat_map (listing o wantedNames cn) l
  | _ => []
  end.

Lemma foldl_flat_map {A B C} (f : A → B → A) (g : C → list B) (h : C → A → A) l st :
  (∀ x, x ∈ l → ∀ st, h x st = foldl f st (g x)) →
  fold_left (λ st x, h x st) l st = foldl f st (flat_map g l).
Proof.
  revert st. induction l as [|x l IH]; intros st Hh; simpl; [done|].
  rewrite foldl_app, <- Hh by (by left). apply IH. intros. apply Hh. by right.
Qed.

Lemma walk_ids_listing o wantedIDs wantedNames cn node st :
  walk_ids o wantedIDs wantedNames cn node st
  = foldl (consider wantedIDs) st (listing o wantedNames cn node).
Proof.
  revert st. induction node as [|b|z|f|c n|str|l IH|m IH] using any_nested_ind; simpl; intros st; try done;
    rewrite Forall_forall in IH.
  - by apply (foldl_flat_map _ _ (λ x st, walk_ids o wantedIDs wantedNames cn x st)).
  - rewrite foldl_app.
    rewrite (foldl_flat_map (consider wantedIDs) (λ e, listing o wantedNames cn e.2)
               (λ e st, walk_ids o wantedIDs wantedNames cn e.2 st)) by done.
    by destruct (recordMatches o m wantedNames cn).
Qed.

Lemma elem_of_listing o wantedNames cn node e :
  e ∈ listing o wantedNames cn node ↔
  ∃ m, subdoc node (Map m) ∧ record_names wantedNames cn m ∧ e ∈ m.
Proof.
  induction node as [|b|z|f|c n|str|l IH|m IH] using any_nested_ind; simpl;
    try (split; [by intros ?%not_elem_of_nil|by intros (? & Hs & _); inversion Hs]);
    rewrite Forall_forall in IH.
  - rewrite elem_of_flat_map. split.
    + intros (x & Hx & (m & ? & ? & ?)%IH); [|done]. exists m. eauto with doc.
    + intros (m & Hs & ? & ?). inversion Hs as [|? x ? Hx Hs'|]; subst. exists x.
      split; [done|]. apply IH; eauto.
  - rewrite elem_of_app, elem_of_flat_map. split.
    + intros [Hin|([k x] & Hx & (m' & ? & ? & ?)%IH)]; [..|done].
      * destruct (recordMatches o m wantedNames cn) eqn:E; [|by apply not_elem_of_nil in Hin].
        rewrite elem_of_range_map in Hin. apply recordMatches_spec in E. exists m. eauto with doc.
      * exists m'. eauto with doc.
    + intros (m' & Hs & Hn & He). inversion Hs as [| |? k x ? Hx Hs']; subst.
      * left. apply (recordMatches_spec o) in Hn as ->. by rewrite elem_of_range_map.
      * right. exists (k, x). split; [done|]. apply (IH (k, x)); eauto.
Qed.

(** What the loop variables say about the identifiers seen so far. *)
Definition search_inv (ids : list string) (st : search) : Prop :=
  (found st = true ↔ ids ≠ []) ∧
  ((bestValue st = -1 ∧ (∀ id n, id ∈ ids → parse_int id = Some n → n < 0) ∧
    (best st = "" ∧ (∀ id, id ∈ ids → is_Some (parse_int id))
     ∨ best st ∈ ids ∧ parse_int (best st) = None))
   ∨ (0 ≤ bestValue st ∧ best st ∈ ids ∧ parse_int (best st) = Some (bestValue st) ∧
      ∀ id n, id ∈ ids → parse_int id = Some n → n ≤ bestValue st)).

Lemma consider_inv wantedIDs ids st e :
  search_inv ids st →
  search_inv (ids ++ match direct_scalar wantedIDs e with Some id => [id] | None => [] end)
             (consider wantedIDs st e).
Proof.
  intros Hinv. unfold consider. destruct (direct_scalar wantedIDs e) as [id|] eqn:Eid;
    [|by rewrite app_nil_r].
  apply direct_scalar_nonempty in Eid. destruct Hinv as [_ Hinv].
  assert (Hne : ids ++ [id] ≠ []) by (by destruct ids).
  assert (Hin : ∀ x, x ∈ ids ++ [id] ↔ x ∈ ids ∨ x = id).
  { intros x. by rewrite elem_of_app, list_elem_of_singleton. }
  unfold search_inv. setoid_rewrite Hin.
  destruct (parse_int id) as [n|] eqn:En.
  - destruct (Z.ltb_spec (bestValue st) n); simpl; (split; [done|]).
    + right. destruct Hinv as [(? & Hneg & _)|(? & ? & ? & Hmax)]; split_and!; auto; try lia.
      * intros x k [Hx| ->] Hk; [|simplify_eq; lia]. specialize (Hneg x k Hx Hk). lia.
      * intros x k [Hx| ->] Hk; [|simplify_eq; lia]. specialize (Hmax x k Hx Hk). lia.
    + destruct Hinv as [(Hv & Hneg & Hb)|(? & ? & ? & Hmax)]; [left|right]; split_and!; auto.
      * intros x k [Hx| ->] Hk; [eauto|simplify_eq; lia].
      * destruct Hb as [[? Hall]|[? ?]]; [left|right; auto]. split; [done|].
        intros x [Hx| ->]; eauto.
      * intros x k [Hx| ->] Hk; [eauto|simplify_eq; lia].
  - destruct Hinv as [(Hv & Hneg & Hb)|(? & ? & ? & Hmax)].
    + rewrite Hv. simpl. case_bool_decide as Eb; simpl; (split; [done|]); left; split_and!; auto.
      * intros x k [Hx| ->] Hk; [eauto|congruence].
      * intros x k [Hx| ->] Hk; [eauto|congruence].
      * right. destruct Hb as [[? _]|[? ?]]; [done|auto].
    + destruct (Z.ltb_spec (bestValue st) 0); [lia|]. simpl. split; [done|]. right. split_and!; auto.
      intros x k [Hx| ->] Hk; [eauto|congruence].
Qed.

Definition ids_of (wantedIDs : list string) (es : list (string * any)) : list string :=
  flat_map (λ e, match direct_scalar wantedIDs e with Some id => [id] | None => [] end) es.

Lemma elem_of_ids_of wantedIDs es id :
  id ∈ ids_of wantedIDs es ↔ ∃ e, e ∈ es ∧ direct_scalar wantedIDs e = Some id.
Proof.
  unfold ids_of. rewrite elem_of_flat_map. apply exist_proper. intros e.
  destruct (direct_scalar wantedIDs e) as [x|]; [rewrite list_elem_of_singleton; naive_solver|].
  rewrite elem_of_nil. naive_solver.
Qed.

Lemma consider_fold_inv wantedIDs es ids st :
  search_inv ids st →
  search_inv (ids ++ ids_of wantedIDs es) (foldl (consider wantedIDs) st es).
Proof.
  revert ids st. induction es as [|e es IH]; intros ids st Hinv; simpl; [by rewrite app_nil_r|].
  rewrite app_assoc. by apply IH, consider_inv.
Qed.

Lemma walk_ids_inv o wantedIDs wantedNames cn node :
  search_inv (ids_of wantedIDs (listing o wantedNames cn node))
             (walk_ids o wantedIDs wantedNames cn node (Search "" (-1) false)).
Proof.
  rewrite walk_ids_listing. apply (consider_fold_inv wantedIDs _ []).
  split; [done|]. left. split_and!; [done|by intros ???%not_elem_of_nil|].
  left. split; [done|]. by intros ??%not_elem_of_nil.
Qed.

Lemma elem_of_listed_ids o wantedIDs wantedNames cn node id :
  id ∈ ids_of wantedIDs (listing o wantedNames cn node)
  ↔ lists_id wantedIDs wantedNames cn node id.
Proof.
  rewrite elem_of_ids_of. setoid_rewrite elem_of_listing. unfold lists_id. naive_solver.
Qed.

Lemma findIDForCommonName_sound o r cn idKeys nameKeys id :
  findIDForCommonName o (Some r) cn idKeys nameKeys = Some id →
  lists_id (wanted_set idKeys) (wanted_set nameKeys) cn (doc r) id ∧
  (∀ id' n', lists_id (wanted_set idKeys) (wanted_set nameKeys) cn (doc r) id' →
     parse_int id' = Some n' → 0 ≤ n' →
     ∃ n, parse_int id = Some n ∧ n' ≤ n).
Proof.
  unfold findIDForCommonName. case_decide; [done|].
  pose proof (walk_ids_inv o (wanted_set idKeys) (wanted_set nameKeys) cn (doc r)) as [_ Hinv].
  set (st := walk_ids _ _ _ _ _ _) in *.
  destruct (found st && bool_decide (best st ≠ "")) eqn:E; [|done]. intros [= <-].
  apply andb_true_iff in E as [_ Eb%bool_decide_eq_true].
  setoid_rewrite elem_of_listed_ids in Hinv.
  destruct Hinv as [(_ & Hneg & [[? _]|[Hin _]])|(_ & Hin & Hp & Hmax)]; [done|..];
    (split; [done|]); intros id' n' Hl Hn' Hpos.
  - specialize (Hneg _ _ Hl Hn'). lia.
  - eauto.
Qed.

Lemma findIDForCommonName_None o r cn idKeys nameKeys :
  cn ≠ "" →
  findIDForCommonName o (Some r) cn idKeys nameKeys = None ↔
  ∀ id, lists_id (wanted_set idKeys) (wanted_set nameKeys) cn (doc r) id →
    ∃ n, parse_int id = Some n ∧ n < 0.
Proof.
  intros Hcn. unfold findIDForCommonName. rewrite decide_False by done.
  pose proof (walk_ids_inv o (wanted_set idKeys) (wanted_set nameKeys) cn (doc r)) as [Hf Hinv].
  set (st := walk_ids _ _ _ _ _ _) in *. setoid_rewrite elem_of_listed_ids in Hinv.
  assert (Hbest : ∀ id, lists_id (wanted_set idKeys) (wanted_set nameKeys) cn (doc r) id → id ≠ "").
  { intros id (? & ? & _ & _ & _ & Hd). by eapply direct_scalar_nonempty. }
  assert (Hfound : ∀ id, lists_id (wanted_set idKeys) (wanted_set nameKeys) cn (doc r) id → found st = true).
  { intros id Hid. apply Hf. intros E. apply elem_of_listed_ids with (o:=o) in Hid.
    rewrite E in Hid. by apply not_elem_of_nil in Hid. }
  destruct Hinv as [(_ & Hneg & [[Hb Hall]|[Hin Hp]])|(? & Hin & Hp & Hmax)].
  - rewrite Hb, bool_decide_eq_false_2, andb_false_r by tauto. split; [|done]. intros _ id Hid.
    destruct (Hall id Hid) as [n Hn]. eauto.
  - rewrite (Hfound _ Hin), bool_decide_eq_true_2 by auto. split; [done|].
    intros Hn. destruct (Hn _ Hin) as (n & Hn' & _). congruence.
  - rewrite (Hfound _ Hin), bool_decide_eq_true_2 by auto. split; [done|].
    intros Hn. destruct (Hn _ Hin) as (n & Hn' & ?). simplify_eq. lia.
Qed.

(** A field that is somewhere in the document is found, and is not empty. *)
Lemma findString_reported o r keys s :
  stores (wanted_set keys) (doc r) s → default "" (findString o (Some r) keys) ≠ "".
Proof.
  intros Hs. simpl. destruct (findScalar o (wanted_set keys) (doc r)) as [s'|] eqn:E.
  - apply findScalar_sound in E as (m & e & _ & _ & He). by eapply direct_scalar_nonempty.
  - by destruct (proj1 (findScalar_None o _ _) E s).
Qed.
End response_spec.

(** ** Properties *)

Section response_claims.
Context `{Unicode, Conversions}.

(** C28: a deep search for a field returns a scalar that some object of the
    document stores under one of the wanted names, and finds nothing only when
    no object stores one; this holds for every order the runtime may range
    maps in. *)
Theorem findString_correct o r keys :
  match findString o (Some r) keys with
  | Some s => stores (wanted_set keys) (doc r) s
  | None => ∀ s, ¬ stores (wanted_set keys) (doc r) s
  end.
Proof.
  simpl. destruct (findScalar o (wanted_set keys) (doc r)) as [s|] eqn:E.
  - by eapply findScalar_sound.
  - by apply (findScalar_None o).
Qed.

(** When no object of a document holds two different scalars under the
    wanted names, the order in which the runtime ranges the maps does not
    change what the search returns. *)
Theorem findString_order_independent o o' r keys :
  unambiguous (wanted_set keys) (doc r) →
  findString o (Some r) keys = findString o' (Some r) keys.
Proof. intros Hu. by apply findScalar_deterministic. Qed.

(** C27: the id looked up in a listing belongs to an object that carries the
    requested common name, and no numeric id of such an object is higher; none
    is returned only when every id listed for the name is a negative number. *)
Theorem findIDForCommonName_correct o r cn idKeys nameKeys :
  let listed := lists_id (wanted_set idKeys) (wanted_set nameKeys) cn (doc r) in
  match findIDForCommonName o (Some r) cn idKeys nameKeys with
  | Some id => listed id ∧ ∀ id' n', listed id' → parse_int id' = Some n' → 0 ≤ n' →
                 ∃ n, parse_int id = Some n ∧ n' ≤ n
  | None => cn = "" ∨ ∀ id, listed id → ∃ n, parse_int id = Some n ∧ n < 0
  end.
Proof.
  intros listed. destruct (findIDForCommonName o (Some r) cn idKeys nameKeys) as [id|] eqn:E.
  - by eapply findIDForCommonName_sound.
  - destruct (decide (cn = "")); [by left|]. right. by eapply findIDForCommonName_None.
Qed.

(** C37: a number of magnitude at most 2^53 that the response gives as bare
    JSON is rendered as exactly that integer. *)
Theorem scalarString_integer z :
  Z.abs z ≤ 2 ^ 53 → scalarString (Float64 (float_of_int z)) = Some (format_int z).
Proof.
  intros Hz. pose proof (float_of_int_exact z Hz) as Hr. simpl. unfold float_to_int64.
  rewrite (float_trunc_exact _ _ Hr).
  assert (fits_int64 z = true) as ->.
  { unfold fits_int64, min_int64, max_int64. apply andb_true_iff. rewrite !Z.leb_le. lia. }
  by rewrite (float_eq_represents _ _ _ Hr Hr).
Qed.

(** A document that parses consists of nil, booleans, [float64]s, strings,
    slices and maps with distinct keys only, at every depth.  So the type
    switches of this file are complete: a value has no text exactly when it is
    nil, a slice, a map or a blank string; a number always has one, and the
    [json.Number] case is never taken. *)
Theorem parseResponse_typed raw r v :
  parseResponse raw = Some r → subdoc (doc r) v →
  body r = raw ∧ well_formed v ∧
  (scalarString v = None ↔
   v = Nil ∨ (∃ s, v = Str s ∧ trim_space s = "") ∨ (∃ l, v = Slice l) ∨ ∃ m, v = Map m ∧ NoDup (keys m)).
Proof.
  unfold parseResponse. destruct (json_unmarshal raw) as [d|] eqn:E; [|done]. intros [= <-] Hsub.
  apply json_unmarshal_well_formed, (subdoc_well_formed _ _ Hsub) in E. split; [done|]. split; [done|].
  destruct v as [|b|z|f|c n|s|l|m]; simpl in *.
  - naive_solver.
  - naive_solver.
  - done.
  - split; [by case_match|naive_solver].
  - done.
  - split; [case_decide; naive_solver|]. case_decide; naive_solver.
  - naive_solver.
  - destruct E as [Hok _]. apply map_ok_NoDup in Hok. split; [|done]. intros _. eauto 10.
Qed.

End response_claims.

(** A text copied into an error is cut to its limit plus the marker. *)
Lemma truncate_bound s max : 0 ≤ max → len (truncate s max) ≤ max + len "... (truncated)".
Proof.
  intros Hm. unfold truncate. cbv zeta. destruct (Z.leb_spec (len (trim_space s)) max) as [Hle|Hgt].
  { change (len "... (truncated)") with 15. lia. }
  unfold len in *. rewrite string_app_length, take_bytes_length. lia.
Qed.
