(* ===== verification/Base64.v ===== *)
(** * [encoding/base64]: [StdEncoding] *)

From S2P Require Import Prelude GoStrings.
Local Open Scope Z_scope.

(** The alphabet, by value. *)
Definition b64_char (v : Z) : ascii :=
  to_byte (if v <? 26 then 65 + v
           else if v <? 52 then 71 + v
           else if v <? 62 then v - 4
           else if v =? 62 then 43 else 47).

Definition b64_value (c : ascii) : option Z :=
  let b := byte_of c in
  if in_range 65 90 b then Some (b - 65)
  else if in_range 97 122 b then Some (b - 71)
  else if in_range 48 57 b then Some (b + 4)
  else if b =? 43 then Some 62
  else if b =? 47 then Some 63
  else None.

Definition b64_pad : ascii := to_byte 61.

(** [EncodeToString] *)
Fixpoint b64_encode (s : string) : string :=
  match s with
  | EmptyString => EmptyString
  | String a EmptyString =>
    let x := byte_of a in
    String (b64_char (x / 4)) (String (b64_char (x mod 4 * 16))
      (String b64_pad (String b64_pad EmptyString)))
  | String a (String b EmptyString) =>
    let x := byte_of a in let y := byte_of b in
    String (b64_char (x / 4)) (String (b64_char (x mod 4 * 16 + y / 16))
      (String (b64_char (y mod 16 * 4)) (String b64_pad EmptyString)))
  | String a (String b (String c rest)) =>
    let x := byte_of a in let y := byte_of b in let z := byte_of c in
    String (b64_char (x / 4)) (String (b64_char (x mod 4 * 16 + y / 16))
      (String (b64_char (y mod 16 * 4 + z / 64)) (String (b64_char (z mod 64))
        (b64_encode rest))))
  end.

(** Quads without line breaks. Trailing bits of a padded quad are ignored, as
    the decoder is not [Strict]. *)
Fixpoint b64_decode_quads (s : string) : option string :=
  match s with
  | EmptyString => Some EmptyString
  | String a (String b (String c (String d rest))) =>
    match b64_value a, b64_value b with
    | Some x, Some y =>
      let byte1 := to_byte (x * 4 + y / 16) in
      match b64_value c with
      | Some z =>
        let byte2 := to_byte (y mod 16 * 16 + z / 4) in
        match b64_value d with
        | Some w =>
          let byte3 := to_byte (z mod 4 * 64 + w) in
          (λ tail, String byte1 (String byte2 (String byte3 tail))) <$> b64_decode_quads rest
        | None =>
          if Ascii.eqb d b64_pad && bool_decide (rest = EmptyString)
          then Some (String byte1 (String byte2 EmptyString)) else None
        end
      | None =>
        if Ascii.eqb c b64_pad && Ascii.eqb d b64_pad && bool_decide (rest = EmptyString)
        then Some (String byte1 EmptyString) else None
      end
    | _, _ => None
    end
  | _ => None
  end.

Fixpoint drop_breaks (s : string) : string :=
  match s with
  | EmptyString => EmptyString
  | String c s' =>
    if (byte_of c =? 10) || (byte_of c =? 13) then drop_breaks s' else String c (drop_breaks s')
  end.

(** [DecodeString]: carriage returns and line feeds are skipped. *)
Definition b64_decode (s : string) : option string := b64_decode_quads (drop_breaks s).

(** ** Round trip *)

Lemma b64_char_byte v : 0 ≤ v < 64 →
  byte_of (b64_char v) = (if v <? 26 then 65 + v
           else if v <? 52 then 71 + v
           else if v <? 62 then v - 4
           else if v =? 62 then 43 else 47).
Proof. intros Hv. apply byte_of_to. repeat case_match; lia. Qed.

Lemma b64_value_char v : 0 ≤ v < 64 → b64_value (b64_char v) = Some v.
Proof.
  intros Hv. unfold b64_value. rewrite (b64_char_byte v Hv). unfold in_range.
  destruct (Z.ltb_spec v 26), (Z.ltb_spec v 52), (Z.ltb_spec v 62), (Z.eqb_spec v 62); try lia;
    repeat case_match; bool_prop; try lia; f_equal; lia.
Qed.

Lemma b64_char_not_break v : 0 ≤ v < 64 →
  (byte_of (b64_char v) =? 10) || (byte_of (b64_char v) =? 13) = false.
Proof. intros Hv. rewrite (b64_char_byte v Hv). repeat case_match; lia. Qed.

(** Strong induction three bytes at a time. *)
Lemma triple_ind (P : string → Prop) :
  P "" → (∀ a, P (String a "")) → (∀ a b, P (String a (String b ""))) →
  (∀ a b c s, P s → P (String a (String b (String c s)))) → ∀ s, P s.
Proof.
  intros H0 H1 H2 H3. fix IH 1. intros [|a [|b [|c s]]]; [done|apply H1|apply H2|].
  apply H3, IH.
Qed.

Lemma byte_parts b : 0 ≤ b < 256 →
  0 ≤ b / 4 < 64 ∧ 0 ≤ b mod 4 < 4 ∧ 0 ≤ b / 16 < 16 ∧ 0 ≤ b mod 16 < 16 ∧ 0 ≤ b / 64 < 4 ∧
  0 ≤ b mod 64 < 64 ∧ b = 4 * (b / 4) + b mod 4 ∧ b = 16 * (b / 16) + b mod 16 ∧
  b = 64 * (b / 64) + b mod 64.
Proof. intros Hb. Z.to_euclidean_division_equations. lia. Qed.

Ltac b64_bytes :=
  repeat match goal with
  | a : ascii |- _ =>
    lazymatch goal with
    | _ : byte_of a = 4 * (byte_of a / 4) + _ |- _ => fail
    | _ => destruct (byte_parts (byte_of a) (byte_of_range a)) as (?&?&?&?&?&?&?&?&?)
    end
  end.

Lemma drop_breaks_b64 s : drop_breaks (b64_encode s) = b64_encode s.
Proof.
  induction s as [|a|a b|a b c s IH] using triple_ind; cbn [b64_encode drop_breaks]; [done|..];
    b64_bytes; rewrite ?b64_char_not_break by lia; [done..|].
  by rewrite IH.
Qed.

Lemma to_byte_eq z c : z = byte_of c → to_byte z = c.
Proof. intros ->. apply to_byte_of. Qed.

Lemma div_mod_unique_small a d r : 0 ≤ r < d → (a * d + r) / d = a ∧ (a * d + r) mod d = r.
Proof.
  intros Hr. split; [rewrite Z.div_add_l by lia; rewrite Z.div_small; lia|].
  rewrite Z.add_comm, Z_mod_plus_full. by apply Z.mod_small.
Qed.

Lemma b64_round_trip s : b64_decode (b64_encode s) = Some s.
Proof.
  unfold b64_decode. rewrite drop_breaks_b64.
  induction s as [|a|a b|a b c s IH] using triple_ind; cbn [b64_encode b64_decode_quads]; [done|..];
    b64_bytes.
  - rewrite !b64_value_char by lia. change (b64_value b64_pad) with (@None Z).
    cbn [Ascii.eqb andb]. destruct (div_mod_unique_small (byte_of a mod 4) 16 0) as [E _]; [lia|].
    rewrite Z.add_0_r in E. rewrite E. change (bool_decide _) with true.
    cbv iota. do 2 f_equal. apply to_byte_eq. lia.
  - destruct (div_mod_unique_small (byte_of a mod 4) 16 (byte_of b / 16)) as [E1 E2]; [lia|].
    destruct (div_mod_unique_small (byte_of b mod 16) 4 0) as [E3 _]; [lia|].
    rewrite Z.add_0_r in E3. rewrite !b64_value_char by lia.
    change (b64_value b64_pad) with (@None Z). rewrite E1, E2, E3.
    change (bool_decide _) with true. cbn [Ascii.eqb andb]. do 2 f_equal.
    + apply to_byte_eq. lia.
    + f_equal. apply to_byte_eq. lia.
  - destruct (div_mod_unique_small (byte_of a mod 4) 16 (byte_of b / 16)) as [E1 E2]; [lia|].
    destruct (div_mod_unique_small (byte_of b mod 16) 4 (byte_of c / 64)) as [E3 E4]; [lia|].
    rewrite !b64_value_char by lia. rewrite IH, E1, E2, E3, E4. cbn [fmap option_fmap option_map].
    do 2 f_equal; [apply to_byte_eq; lia|]. f_equal; [apply to_byte_eq; lia|].
    f_equal. apply to_byte_eq. lia.
Qed.

(** [RawURLEncoding.EncodeToString]: the alphabet for URLs, no padding. *)
Fixpoint raw_url (s : string) : string :=
  match s with
  | EmptyString => ""
  | String c s' =>
    let b := byte_of c in
    if b =? 61 then raw_url s'
    else String (if b =? 43 then to_byte 45 else if b =? 47 then to_byte 95 else c) (raw_url s')
  end.

Definition b64_raw_url_encode (s : string) : string := raw_url (b64_encode s).
