(* ===== verification/X509.v ===== *)
(** * Certificates: the interfaces to [crypto/x509] and [encoding/pem]

    ASN.1 and the signature algorithms are not modelled: [X509] is the
    interface to them.  A parsed certificate is the record of the fields the
    program reads. *)

From S2P Require Import Prelude GoStrings GoNet.
Local Open Scope Z_scope.

(** ** Public keys *)

(** [crypto.PublicKey] is an interface; a nil one is [None] where it occurs. *)
Class PublicKeys := {
  public_key : Type;
  (** the dynamic type implements [publicKeyMatcher] *)
  implements_equal : public_key → bool;
  (** its [Equal] method *)
  key_equal : public_key → public_key → bool
}.

(** [matcher.Equal(k)] where [k] may be a nil interface. *)
Definition matches_key `{PublicKeys} (matcher : public_key) (k : option public_key) : bool :=
  match k with Some k => key_equal matcher k | None => false end.

(** ** Records *)

(** The part of [pkix.Name] the program reads. *)
Record name := Name {
  CommonName : string;
  Organization : list string;
  OrganizationalUnit : list string
}.

(** [x509.Certificate]; URIs are kept as what [URL.String] prints, times as
    nanoseconds since the epoch. *)
Record certificate `{PublicKeys} := Certificate {
  Raw : string;
  RawSubject : string;
  RawIssuer : string;
  PublicKey : option public_key;
  Subject : name;
  DNSNames : list string;
  IPAddresses : list string;
  EmailAddresses : list string;
  URIs : list string;
  NotBefore : Z;
  NotAfter : Z
}.

(** [x509.CertificateRequest] *)
Record certificate_request `{PublicKeys} := CertificateRequest {
  csr_Subject : name;
  csr_DNSNames : list string;
  csr_IPAddresses : list string;
  csr_EmailAddresses : list string;
  csr_URIs : list string;
  csr_PublicKey : option public_key
}.

(** ** [crypto/x509] *)

(** Failing operations give the text of their error. *)
Class X509 `{PublicKeys} := {
  x509_ParseCertificate : string → result string certificate;
  x509_ParseCertificateRequest : string → result string certificate_request;
  (** [CheckSignature] of a request: the error text, or [None] for nil *)
  x509_CheckSignature : certificate_request → option string;
  (** [child.CheckSignatureFrom(parent) == nil] *)
  x509_CheckSignatureFrom : certificate → certificate → bool;
  (** A certificate is the parse of its [Raw] bytes. *)
  x509_parse_raw : ∀ der c, x509_ParseCertificate der = Ok c → Raw c = der
}.

(** ** [encoding/pem] *)

Record pem_block := PemBlock {
  block_Type : string;
  block_Bytes : string;
  block_Headers : list (string * string)
}.

(** The block types the program writes. *)
Definition pemCertificateType : string := "CERTIFICATE".
Definition pemPrivateKeyType : string := "PRIVATE KEY".

Class Pem := {
  (** [pem.Decode]: the next block and the remainder, [None] for a nil block *)
  pem_Decode : string → option (pem_block * string);
  (** [pem.Encode] of a block without headers *)
  pem_Encode : string → string → string;
  (** a block takes up input *)
  pem_decode_shorter : ∀ data b rest,
    pem_Decode data = Some (b, rest) → (String.length rest < String.length data)%nat;
  (** nothing is found in an empty document *)
  pem_decode_empty : pem_Decode "" = None;
  (** an encoded block reads back, whatever follows it *)
  pem_decode_encode : ∀ ty der rest,
    ty = pemCertificateType ∨ ty = pemPrivateKeyType →
    pem_Decode (pem_Encode ty der +:+ rest) = Some (PemBlock ty der [], rest)
}.
