(* ===== verification/Pem.v ===== *)
(** * A codec that satisfies the interface to [encoding/pem]

    The text encoding of RFC 7468: a [BEGIN] line, base64 in lines of 64
    columns, an [END] line.  It shows that the laws of [Pem] can hold, and
    serves the samples; the development itself uses only the interface. *)

From S2P Require Import Prelude GoStrings Base64 GoNet X509.
Local Open Scope Z_scope.

Definition newline : string := chr 10.
Definition begin_line (ty : string) : string := "-----BEGIN " +:+ ty +:+ "-----".
Definition end_line (ty : string) : string := "-----END " +:+ ty +:+ "-----".

(** The lines of a text; those of a block are ended by a line break. *)
Definition lines : string → list string := split_byte 10.
Definition unlines (l : list string) : string := join newline l.

(** ** Encoding *)

(** Cut into lines of 64 columns. *)
Fixpoint wrap_lines (room : nat) (s : string) : list string :=
  match s with
  | EmptyString => [""]
  | String c s' =>
    match room with
    | O => "" :: match wrap_lines 63 s' with l :: ls => String c l :: ls | [] => [] end
    | S room => match wrap_lines room s' with l :: ls => String c l :: ls | [] => [] end
    end
  end.

Definition pem_lines (ty der : string) : list string :=
  begin_line ty :: wrap_lines 64 (b64_encode der) ++ [end_line ty].

Definition encode_pem (ty der : string) : string := unlines (pem_lines ty der ++ [""]).

(** ** Decoding *)

(** The type a [BEGIN] line gives. *)
Definition begins (line : string) : option string :=
  if has_prefix line "-----BEGIN " then
    let rest := drop_bytes 11 line in
    let ty := take_bytes (String.length rest - 5) rest in
    if bool_decide (line = begin_line ty) then Some ty else None
  else None.

(** The lines before the end of the block, and those after it. *)
Fixpoint until_end (last : string) (ls : list string) : option (list string * list string) :=
  match ls with
  | [] => None
  | l :: ls =>
    if bool_decide (l = last) then Some ([], ls)
    else match until_end last ls with
         | Some (body, rest) => Some (l :: body, rest)
         | None => None
         end
  end.

Fixpoint scan_pem (ls : list string) : option (pem_block * list string) :=
  match ls with
  | [] => None
  | l :: ls' =>
    match begins l with
    | Some ty =>
      match until_end (end_line ty) ls' with
      | Some (body, rest) =>
        match b64_decode (String.concat "" body) with
        | Some der => Some (PemBlock ty der [], rest)
        | None => scan_pem ls'
        end
      | None => scan_pem ls'
      end
    | None => scan_pem ls'
    end
  end.

Definition decode_pem (data : string) : option (pem_block * string) :=
  match scan_pem (lines data) with
  | Some (b, rest) => Some (b, unlines rest)
  | None => None
  end.

(** ** Lines *)

Lemma lines_not_nil s : lines s ≠ [].
Proof. unfold lines. destruct s as [|c s]; simpl; [done|]. by repeat case_match. Qed.

Lemma lines_app a b : lines (a +:+ newline +:+ b) = lines a ++ lines b.
Proof.
  unfold lines. induction a as [|x a IH]; [done|]. rewrite string_app_cons. simpl. rewrite IH.
  destruct (byte_of x =? 10); [done|]. destruct (split_byte 10 a) eqn:E; [|done].
  by apply lines_not_nil in E.
Qed.

Lemma unlines_cons l ls : ls ≠ [] → unlines (l :: ls) = l +:+ newline +:+ unlines ls.
Proof. by destruct ls. Qed.

Lemma unlines_lines s : unlines (lines s) = s.
Proof.
  unfold lines. induction s as [|c s IH]; [done|]. simpl. destruct (Z.eqb_spec (byte_of c) 10) as [E|E].
  - rewrite unlines_cons, IH by apply lines_not_nil. simpl.
    by rewrite <- (to_byte_of c), E.
  - pose proof (lines_not_nil s) as Hn. unfold lines in Hn.
    destruct (split_byte 10 s) as [|w ws]; [done|]. rewrite <- IH. by destruct ws.
Qed.

(** A line has no line break in it. *)
Definition is_line (s : string) : Prop := lines s = [s].

Lemma lines_unlines ls : ls ≠ [] → Forall is_line ls → lines (unlines ls) = ls.
Proof.
  intros Hne Hls. induction Hls as [|l ls Hl Hls IH]; [done|]. destruct ls as [|l' ls]; [done|].
  rewrite unlines_cons, lines_app, IH, Hl; done.
Qed.

Lemma unlines_app ls ls' :
  ls ≠ [] → ls' ≠ [] → unlines (ls ++ ls') = unlines ls +:+ newline +:+ unlines ls'.
Proof.
  intros Hn Hn'. induction ls as [|l ls IH]; [done|]. destruct ls as [|l' ls].
  - exact (unlines_cons l ls' Hn').
  - rewrite (unlines_cons _ (l' :: ls)) by done. change ((l :: l' :: ls) ++ ls') with (l :: (l' :: ls) ++ ls').
    rewrite unlines_cons, IH by done. by rewrite !string_app_assoc.
Qed.

Lemma unlines_length_suffix (ls ls' : list string) :
  (String.length (unlines ls') ≤ String.length (unlines (ls ++ ls')))%nat.
Proof.
  induction ls as [|l ls IH]; [done|]. simpl app. destruct (decide (ls ++ ls' = [])) as [E|E].
  - apply app_nil in E as [-> ->]. simpl. lia.
  - rewrite unlines_cons, !string_app_length by done. lia.
Qed.

(** ** Base64 lines *)

Definition b64_byte (c : ascii) : Prop := byte_of c ≠ 10 ∧ byte_of c ≠ 45.

Lemma b64_char_ok v : 0 ≤ v < 64 → b64_byte (b64_char v).
Proof. intros Hv. unfold b64_byte. rewrite (b64_char_byte v Hv). repeat case_match; bool_prop; lia. Qed.

Lemma b64_encode_bytes s : Forall b64_byte (bytes_of (b64_encode s)).
Proof.
  assert (b64_byte b64_pad) as Hpad by (split; vm_compute; done).
  induction s as [|a|a b|a b c s IH] using triple_ind; cbn [b64_encode bytes_of]; [done|..];
    b64_bytes; repeat (apply Forall_cons; split); try done; apply b64_char_ok; lia.
Qed.

Lemma is_line_bytes s : Forall (λ c, byte_of c ≠ 10) (bytes_of s) → is_line s.
Proof.
  unfold is_line, lines. induction s as [|c s IH]; intros Hs; [done|].
  simpl in Hs. apply Forall_cons in Hs as [Hc Hs]. simpl. rewrite (proj2 (Z.eqb_neq _ _) Hc).
  by rewrite IH.
Qed.

Lemma wrap_lines_spec room s :
  Forall b64_byte (bytes_of s) →
  wrap_lines room s ≠ [] ∧ String.concat "" (wrap_lines room s) = s ∧
  Forall (λ l, Forall b64_byte (bytes_of l)) (wrap_lines room s).
Proof.
  revert room. induction s as [|c s IH]; intros room Hs; [by repeat constructor|].
  simpl in Hs. apply Forall_cons in Hs as [Hc Hs]. simpl wrap_lines.
  assert (∀ room, let l := match wrap_lines room s with l :: ls => String c l :: ls | [] => [] end in
    l ≠ [] ∧ String.concat "" l = String c s ∧ Forall (λ l, Forall b64_byte (bytes_of l)) l) as Hstep.
  { intros room'. destruct (IH room' Hs) as (Hne & Hc' & Hb). cbv zeta.
    destruct (wrap_lines room' s) as [|l ls]; [done|]. apply Forall_cons in Hb as [Hb Hbs].
    split_and!; [done| |apply Forall_cons; split; [by apply Forall_cons|done]].
    rewrite <- Hc'. by destruct ls. }
  destruct room as [|room]; [|apply Hstep].
  destruct (Hstep 63%nat) as (Hne & Hcc & Hb). cbv zeta in *. split_and!; [done| |].
  - destruct (match wrap_lines 63 s with l :: ls => String c l :: ls | [] => [] end); [done|]. exact Hcc.
  - by apply Forall_cons.
Qed.

(** ** The laws *)

Lemma until_end_app last body rest :
  last ∉ body → until_end last (body ++ last :: rest) = Some (body, rest).
Proof.
  induction body as [|l body IH]; simpl; intros Hb.
  - by rewrite bool_decide_eq_true_2.
  - apply not_elem_of_cons in Hb as [Hne Hb]. by rewrite bool_decide_eq_false_2, IH by congruence.
Qed.

Lemma until_end_rest last ls body rest :
  until_end last ls = Some (body, rest) → ls = body ++ last :: rest.
Proof.
  revert body. induction ls as [|l ls IH]; simpl; intros body Hu; [done|].
  case_bool_decide as E; [by simplify_eq|]. destruct (until_end last ls) as [[b r]|]; [|done].
  simplify_eq. simpl. f_equal. by apply IH.
Qed.

Lemma scan_pem_rest ls b rest :
  scan_pem ls = Some (b, rest) → ∃ front, ls = front ++ end_line (block_Type b) :: rest.
Proof.
  induction ls as [|l ls IH]; simpl; intros Hs; [done|].
  assert (∀ r, scan_pem ls = Some (b, r) → rest = r → ∃ front, l :: ls = front ++ end_line (block_Type b) :: rest)
    as Hnext.
  { intros r Hr ->. destruct (IH Hr) as [front ->]. by exists (l :: front). }
  destruct (begins l) as [ty|]; [|by eapply Hnext].
  destruct (until_end (end_line ty) ls) as [[body r]|] eqn:Eu; [|by eapply Hnext].
  destruct (b64_decode _) as [der|]; [|by eapply Hnext]. simplify_eq. simpl.
  apply until_end_rest in Eu as ->. by exists (l :: body).
Qed.

Lemma decode_pem_shorter data b rest :
  decode_pem data = Some (b, rest) → (String.length rest < String.length data)%nat.
Proof.
  unfold decode_pem. destruct (scan_pem (lines data)) as [[b' ls]|] eqn:E; [|done].
  intros [= -> <-]. apply scan_pem_rest in E as [front E]. rewrite <- (unlines_lines data), E.
  eapply Nat.lt_le_trans; [|apply unlines_length_suffix].
  destruct ls as [|l ls]; [simpl; lia|]. rewrite (unlines_cons _ (l :: ls)), !string_app_length by done.
  change (String.length newline) with 1%nat. lia.
Qed.

Lemma begins_begin_line ty : ty = pemCertificateType ∨ ty = pemPrivateKeyType →
  begins (begin_line ty) = Some ty ∧ is_line (begin_line ty) ∧ is_line (end_line ty).
Proof. by intros [-> | ->]. Qed.

Lemma decode_encode_pem ty der rest :
  ty = pemCertificateType ∨ ty = pemPrivateKeyType →
  decode_pem (encode_pem ty der +:+ rest) = Some (PemBlock ty der [], rest).
Proof.
  intros Hty. destruct (begins_begin_line ty Hty) as (Hb & Hbl & Hel).
  destruct (wrap_lines_spec 64 _ (b64_encode_bytes der)) as (Hne & Hcat & Hbytes).
  assert (encode_pem ty der +:+ rest = unlines (pem_lines ty der ++ lines rest)) as ->.
  { unfold encode_pem. rewrite !unlines_app by (done || apply lines_not_nil).
    rewrite unlines_lines. change (unlines [""]) with "".
    by rewrite !string_app_assoc, string_app_nil_r. }
  assert (Forall is_line (pem_lines ty der)) as Hlines.
  { unfold pem_lines. apply Forall_cons. split; [done|]. apply Forall_app. split; [|by repeat constructor].
    eapply Forall_impl; [exact Hbytes|]. intros l Hl. apply is_line_bytes.
    eapply Forall_impl; [exact Hl|]. by intros c [? _]. }
  assert (lines (unlines (pem_lines ty der ++ lines rest)) = pem_lines ty der ++ lines rest) as Hall.
  { rewrite unlines_app, lines_app, unlines_lines, lines_unlines by (done || apply lines_not_nil). done. }
  unfold decode_pem. rewrite Hall. unfold pem_lines. rewrite <- app_comm_cons, <- app_assoc.
  change ([end_line ty] ++ lines rest) with (end_line ty :: lines rest).
  cbn [scan_pem]. rewrite Hb, until_end_app.
  - by rewrite Hcat, b64_round_trip, unlines_lines.
  - intros Hin. rewrite Forall_forall in Hbytes. apply Hbytes in Hin. unfold end_line in Hin.
    simpl in Hin. apply Forall_cons in Hin as [[_ Hin] _]. by apply Hin.
Qed.

Definition rfc7468 : Pem := {|
  pem_Decode := decode_pem;
  pem_Encode := encode_pem;
  pem_decode_shorter := decode_pem_shorter;
  pem_decode_empty := eq_refl;
  pem_decode_encode := decode_encode_pem |}.
