(* ===== verification/Chain.v ===== *)
(** * [internal/kmp/chain.go]: from certificates to a chain *)

From S2P Require Import Prelude GoStrings GoNet X509 Base64 Errors.
Local Open Scope Z_scope.

Section chain.
Context `{Unicode, PublicKeys, !X509, Pem}.

(** [type Bundle struct] *)
Record Bundle := MkBundle { ChainPEM : string; Leaf : certificate }.

(** ** Reading certificates *)

(** The loop of [parsePEMCertificates]: the certificates before the first
    failure, and that failure. One fuel unit per block. *)
Fixpoint parse_pem_loop (fuel : nat) (certs : list certificate) (rest : string)
  : option (list certificate * option error) :=
  match fuel with
  | O => None
  | S fuel' =>
    match pem_Decode rest with
    | None => Some (certs, None)
    | Some (block, rest) =>
      if bool_decide (block_Type block = pemCertificateType) then
        match x509_ParseCertificate (block_Bytes block) with
        | Err msg => Some (certs, Some (wrap "parsing certificate" (New msg)))
        | Ok cert => parse_pem_loop fuel' (certs ++ [cert]) rest
        end
      else parse_pem_loop fuel' certs rest
    end
  end.

Definition parsePEMCertificates (data : string) : list certificate * option error :=
  default ([], None) (parse_pem_loop (S (String.length data)) [] data).

(** [strings.Map] with -1 for line breaks, tabs and blanks. *)
Definition compact (value : string) : string :=
  strings_map (λ r, if (r =? 10) || (r =? 13) || (r =? 9) || (r =? 32) then -1 else r) value.

Definition parseBase64Certificate (value : string) : option certificate :=
  let compact := compact value in
  if len compact <? 128 then None
  else match b64_decode compact with
  | None => None
  | Some der =>
    match x509_ParseCertificate der with
    | Ok cert => Some cert
    | Err _ => None
    end
  end.

(** The variables [certs], [seen] and [firstErr] of [certificatesFromStrings]. *)
Record collected := Collected {
  certs : list certificate;
  seen : list string;
  firstErr : option error
}.

Definition add (acc : collected) (cert : certificate) : collected :=
  if bool_decide (Raw cert ∈ seen acc) then acc
  else Collected (certs acc ++ [cert]) (Raw cert :: seen acc) (firstErr acc).

Definition collect_value (acc : collected) (value : string) : collected :=
  if contains value "-----BEGIN" then
    let '(parsed, err) := parsePEMCertificates value in
    let acc :=
      match err, firstErr acc with
      | Some _, None => Collected (certs acc) (seen acc) err
      | _, _ => acc
      end in
    foldl add acc parsed
  else
    match parseBase64Certificate value with
    | Some cert => add acc cert
    | None => acc
    end.

Definition certificatesFromStrings (values : list string) : res (list certificate) :=
  let acc := foldl collect_value (Collected [] [] None) values in
  match certs acc, firstErr acc with
  | [], Some err => Err err
  | certs, _ => Ok certs
  end.

(** ** Building the chain *)

Definition findLeaf (certs : list certificate) (csrPublicKey : option public_key)
  : res certificate :=
  let first := match certs with c :: _ => Ok c | [] => Err (New "index out of range") end in
  match csrPublicKey with
  | None => first
  | Some key =>
    if implements_equal key then
      match find_first (λ cert, if matches_key key (PublicKey cert) then Some cert else None) certs with
      | Some cert => Ok cert
      | None => Err (New "none of the returned certificates matches the public key of the request")
      end
    else first
  end.

Definition is_issuer (child candidate : certificate) : bool :=
  bool_decide (RawSubject candidate = RawIssuer child) && x509_CheckSignatureFrom child candidate.

Fixpoint popIssuer (candidates : list certificate) (child : certificate)
  : option certificate * list certificate :=
  match candidates with
  | [] => (None, [])
  | candidate :: rest =>
    if is_issuer child candidate then (Some candidate, rest)
    else let '(issuer, rest) := popIssuer rest child in (issuer, candidate :: rest)
  end.

Definition isSelfSigned (cert : certificate) : bool :=
  bool_decide (RawSubject cert = RawIssuer cert) && x509_CheckSignatureFrom cert cert.

Definition encodeCertificates (certs : list certificate) : string :=
  String.concat "" ((λ cert, pem_Encode pemCertificateType (Raw cert)) <$> certs).

(** The loop of [BuildBundle]; every turn takes a certificate out of
    [remaining], whose length is the fuel. *)
Fixpoint extend_chain (fuel : nat) (chain remaining : list certificate) (current : certificate)
  : list certificate :=
  match fuel, remaining with
  | S fuel', _ :: _ =>
    match popIssuer remaining current with
    | (None, _) => chain
    | (Some issuer, rest) =>
      let chain := chain ++ [issuer] in
      if isSelfSigned issuer then chain
      else extend_chain fuel' chain rest issuer
    end
  | _, _ => chain
  end.

Definition BuildBundle (certs : list certificate) (csrPublicKey : option public_key) : res Bundle :=
  match certs with
  | [] => Err (New "no certificates to build a chain from")
  | _ =>
    match findLeaf certs csrPublicKey with
    | Err err => Err err
    | Ok leaf =>
      let remaining := filter (λ cert, Raw cert ≠ Raw leaf) certs in
      let chain := extend_chain (length remaining) [leaf] remaining leaf in
      Ok (MkBundle (encodeCertificates chain) leaf)
    end
  end.

(** ** Requests *)

Definition ParseCSR (csrPEM : string) : res certificate_request :=
  match pem_Decode csrPEM with
  | None => Err (New "the request is not PEM encoded")
  | Some (block, _) =>
    if bool_decide (block_Type block ≠ "CERTIFICATE REQUEST")
       && bool_decide (block_Type block ≠ "NEW CERTIFICATE REQUEST") then
      Err (New ("expected a CERTIFICATE REQUEST PEM block, got " +:+ quote (block_Type block)))
    else
      match x509_ParseCertificateRequest (block_Bytes block) with
      | Err msg => Err (wrap "parsing certificate request" (New msg))
      | Ok csr =>
        match x509_CheckSignature csr with
        | Some msg => Err (wrap "checking the signature of the certificate request" (New msg))
        | None => Ok csr
        end
      end
  end.
End chain.

(** ** Chains of signatures *)

Section chain_spec.
Context `{Unicode, PublicKeys, !X509, Pem}.
Implicit Types (c child leaf : certificate) (cs path rest : list certificate).

(** [child] names [c] as its issuer and its signature verifies under [c]. *)
Definition issued_by child c : Prop :=
  RawSubject c = RawIssuer child ∧ x509_CheckSignatureFrom child c = true.

(** The certificate belongs to the key of a request, where that key has a type
    that can be compared. *)
Definition for_key (k : option public_key) c : Prop :=
  ∀ key, k = Some key → implements_equal key = true →
    ∃ public, PublicKey c = Some public ∧ key_equal key public = true.

(** [signed_path c path]: every certificate of [path] issued the one before
    it, starting from [c]. *)
Inductive signed_path : certificate → list certificate → Prop :=
| signed_path_nil c : signed_path c []
| signed_path_cons c i path :
    issued_by c i → signed_path i path → signed_path c (i :: path).

(** The last certificate of a chain that starts with [c]. *)
Definition tip c path : certificate := List.last path c.

Lemma is_issuer_spec child c : reflect (issued_by child c) (is_issuer child c).
Proof.
  unfold is_issuer, issued_by. case_bool_decide; [|by constructor; intros []].
  destruct (x509_CheckSignatureFrom child c); constructor; [done|by intros []].
Qed.

Lemma isSelfSigned_is_issuer c : isSelfSigned c = is_issuer c c.
Proof. reflexivity. Qed.

Lemma matches_key_Some key k :
  matches_key key k = true ↔ ∃ public, k = Some public ∧ key_equal key public = true.
Proof. destruct k; naive_solver. Qed.

Lemma popIssuer_Some cs child i rest :
  popIssuer cs child = (Some i, rest) →
  issued_by child i ∧ cs ≡ₚ i :: rest.
Proof.
  revert rest. induction cs as [|x cs IH]; simpl; intros rest; [done|].
  destruct (is_issuer_spec child x); [by intros [= <- <-]|].
  destruct (popIssuer cs child) as [o r]. intros [= -> <-].
  destruct (IH r eq_refl) as [? ->]. split; [done|]. apply Permutation_swap.
Qed.

Lemma popIssuer_None cs child rest :
  popIssuer cs child = (None, rest) →
  rest = cs ∧ Forall (λ c, ¬ issued_by child c) cs.
Proof.
  revert rest. induction cs as [|x cs IH]; simpl; intros rest; [by intros [= <-]|].
  destruct (is_issuer_spec child x); [done|].
  destruct (popIssuer cs child) as [o r]. intros [= -> <-].
  destruct (IH r eq_refl) as [-> ?]. split; [done|]. by constructor.
Qed.

(** Nothing more can be appended: the chain ends in a self-signed issuer, or
    no certificate left over issued its last one. *)
Definition complete c path rest : Prop :=
  (path ≠ [] ∧ issued_by (tip c path) (tip c path))
  ∨ Forall (λ c', ¬ issued_by (tip c path) c') rest.

Lemma tip_cons c i path : tip c (i :: path) = tip i path.
Proof.
  unfold tip. revert c i. induction path as [|x path IH]; intros c i; [done|].
  change (List.last (x :: path) c = List.last (x :: path) i). by rewrite !IH.
Qed.

Lemma extend_chain_spec fuel chain remaining current :
  fuel = length remaining →
  ∃ path rest,
    extend_chain fuel chain remaining current = chain ++ path ∧
    signed_path current path ∧
    path ++ rest ≡ₚ remaining ∧
    complete current path rest.
Proof.
  revert chain remaining current. induction fuel as [|fuel IH]; intros chain remaining current Hf.
  { destruct remaining; [|done]. exists [], []. rewrite app_nil_r.
    split_and!; [done|constructor|done|]. right. constructor. }
  destruct remaining as [|x xs]; [done|].
  change (extend_chain (S fuel) chain (x :: xs) current) with
    (match popIssuer (x :: xs) current with
     | (None, _) => chain
     | (Some issuer, rest) =>
       let chain := chain ++ [issuer] in
       if isSelfSigned issuer then chain else extend_chain fuel chain rest issuer
     end).
  destruct (popIssuer (x :: xs) current) as [[i|] rest] eqn:E; cbv zeta.
  - apply popIssuer_Some in E as [Hi Hp].
    assert (Hlen : fuel = length rest).
    { apply Permutation_length in Hp. simpl in *. lia. }
    rewrite isSelfSigned_is_issuer. destruct (is_issuer_spec i i) as [Es|Es].
    + exists [i], rest. split_and!; [done|constructor; [done|constructor]|by rewrite Hp|].
      left. split; [done|]. by rewrite tip_cons.
    + destruct (IH (chain ++ [i]) rest i Hlen) as (path & rest' & -> & Hs & Hp' & Hc).
      exists (i :: path), rest'. rewrite <- app_assoc. split; [done|].
      split; [by constructor|]. split; [simpl; by rewrite Hp', Hp|].
      unfold complete in *. rewrite tip_cons. destruct Hc as [[_ Hc]|Hc]; [left|right]; auto.
  - apply popIssuer_None in E as [-> Hn]. exists [], (x :: xs). rewrite app_nil_r.
    split_and!; [done|constructor|done|by right].
Qed.

Lemma findLeaf_In cs k leaf : cs ≠ [] → findLeaf cs k = Ok leaf → leaf ∈ cs.
Proof.
  unfold findLeaf. destruct cs as [|x cs]; [done|]. intros _.
  assert (Hfirst : Ok x = @Ok error _ leaf → leaf ∈ x :: cs) by (intros [= <-]; left).
  destruct k as [k|]; [|done]. destruct (implements_equal k); [|done].
  destruct (find_first _ (x :: cs)) as [c|] eqn:E; [|done]. intros [= <-].
  apply find_first_Some in E as (c' & ? & Hc). by destruct (matches_key _ _); simplify_eq.
Qed.

Lemma findLeaf_key cs k leaf : findLeaf cs k = Ok leaf → for_key k leaf.
Proof.
  intros E key -> Hk. revert E. unfold findLeaf. rewrite Hk.
  destruct (find_first _ cs) as [c|] eqn:E; [|done].
  intros [= <-]. apply find_first_Some in E as (c' & ? & Hc).
  destruct (matches_key key (PublicKey c')) eqn:Ek; simplify_eq. by apply matches_key_Some.
Qed.

Lemma findLeaf_Err cs k e :
  cs ≠ [] → findLeaf cs k = Err e →
  ∀ c, c ∈ cs → ¬ for_key k c.
Proof.
  unfold findLeaf. destruct cs as [|x cs]; [done|]. intros _.
  destruct k as [key|]; [|done]. destruct (implements_equal key) eqn:Ei; [|done].
  destruct (find_first _ (x :: cs)) as [c|] eqn:E; [done|]. intros _.
  intros c Hc Hk. rewrite find_first_None in E. specialize (E c Hc).
  by rewrite (proj2 (matches_key_Some _ _) (Hk key eq_refl Ei)) in E.
Qed.

(** What [BuildBundle] promises of a bundle built from [cs]. *)
Record bundle_ok cs (k : option public_key) (b : Bundle) (path : list certificate) : Prop := {
  bundle_encoding : ChainPEM b = encodeCertificates (Leaf b :: path);
  bundle_leaf : Leaf b ∈ cs;
  bundle_key : for_key k (Leaf b);
  bundle_signed : signed_path (Leaf b) path;
  bundle_from_input : ∃ rest,
    path ++ rest ≡ₚ filter (λ c, Raw c ≠ Raw (Leaf b)) cs ∧ complete (Leaf b) path rest
}.

Lemma BuildBundle_bundle_ok cs k b : BuildBundle cs k = Ok b → ∃ path, bundle_ok cs k b path.
Proof.
  unfold BuildBundle. destruct cs as [|x cs]; [done|]. set (all := x :: cs).
  destruct (findLeaf all k) as [leaf|] eqn:E; [|done]. intros [= <-].
  set (remaining := filter _ all).
  destruct (extend_chain_spec _ [leaf] remaining leaf eq_refl) as (path & rest & -> & Hs & Hp & Hc).
  exists path. split; simpl; [done|by eapply findLeaf_In|by eapply findLeaf_key|done|].
  exists rest. by split.
Qed.

(** There is a bundle as soon as one certificate is for the key. *)
Lemma BuildBundle_exists cs k c : c ∈ cs → for_key k c → ∃ b, BuildBundle cs k = Ok b.
Proof.
  intros Hc Hk. unfold BuildBundle. destruct cs as [|x cs]; [by apply elem_of_nil in Hc|].
  destruct (findLeaf (x :: cs) k) as [leaf|e] eqn:E; [eauto|].
  by destruct (findLeaf_Err (x :: cs) k e ltac:(done) E c Hc).
Qed.

Lemma bundle_path_input cs k b path :
  bundle_ok cs k b path → ∀ c, c ∈ path → c ∈ cs ∧ Raw c ≠ Raw (Leaf b).
Proof.
  intros [_ _ _ _ (rest & Hp & _)] c Hc.
  assert (Hin : c ∈ path ++ rest) by (apply elem_of_app; by left).
  rewrite Hp in Hin. by apply list_elem_of_filter in Hin as [? ?].
Qed.

(** ** PEM documents *)

(** The certificate is what parsing its own bytes gives, as for every
    certificate this program obtains. *)
Definition parsed_certificate c : Prop := x509_ParseCertificate (Raw c) = Ok c.

Lemma parse_is_parsed der c : x509_ParseCertificate der = Ok c → parsed_certificate c.
Proof. intros E. unfold parsed_certificate. by rewrite (x509_parse_raw der c E). Qed.

Lemma parse_pem_loop_is_Some fuel cs data :
  (String.length data < fuel)%nat → is_Some (parse_pem_loop fuel cs data).
Proof.
  revert cs data. induction fuel as [|fuel IH]; intros cs data Hf; [lia|]. simpl.
  destruct (pem_Decode data) as [[block rest]|] eqn:E; [|eauto].
  apply pem_decode_shorter in E. case_bool_decide; [|apply IH; lia].
  destruct (x509_ParseCertificate _); [apply IH; lia|eauto].
Qed.

Lemma encodeCertificates_cons c cs :
  encodeCertificates (c :: cs) = pem_Encode pemCertificateType (Raw c) +:+ encodeCertificates cs.
Proof.
  unfold encodeCertificates. destruct cs; [|done]. cbn -[pem_Encode]. by rewrite string_app_nil_r.
Qed.

Lemma pem_encode_nonempty der (rest : string) :
  (String.length rest < String.length (pem_Encode pemCertificateType der +:+ rest))%nat.
Proof. eapply pem_decode_shorter, pem_decode_encode. by left. Qed.

Lemma parse_pem_loop_encode fuel acc cs :
  Forall parsed_certificate cs → (String.length (encodeCertificates cs) < fuel)%nat →
  parse_pem_loop fuel acc (encodeCertificates cs) = Some (acc ++ cs, None).
Proof.
  revert acc cs. induction fuel as [|fuel IH]; intros acc cs Hcs Hf; [lia|].
  destruct cs as [|c cs]; simpl.
  { change (encodeCertificates []) with EmptyString. by rewrite pem_decode_empty, app_nil_r. }
  inversion_clear Hcs as [|? ? Hc Hcs']. rewrite encodeCertificates_cons in *.
  pose proof (pem_encode_nonempty (Raw c) (encodeCertificates cs)).
  rewrite pem_decode_encode by (by left). simpl.
  rewrite Hc, IH by (done || lia). by rewrite <- app_assoc.
Qed.

Lemma parse_encodeCertificates cs :
  Forall parsed_certificate cs → parsePEMCertificates (encodeCertificates cs) = (cs, None).
Proof. intros Hcs. unfold parsePEMCertificates. by rewrite parse_pem_loop_encode by (done || lia). Qed.

Lemma parse_pem_loop_parsed fuel acc data cs err :
  Forall parsed_certificate acc → parse_pem_loop fuel acc data = Some (cs, err) →
  Forall parsed_certificate cs.
Proof.
  revert acc data. induction fuel as [|fuel IH]; intros acc data Hacc; [done|]. simpl.
  destruct (pem_Decode data) as [[block rest]|]; [|by intros [= <- <-]].
  case_bool_decide; [|by apply IH].
  destruct (x509_ParseCertificate _) as [c|] eqn:E; [|by intros [= <- <-]].
  apply IH, Forall_app. split; [done|]. repeat constructor. by eapply parse_is_parsed.
Qed.

Lemma parsePEMCertificates_parsed data cs err :
  parsePEMCertificates data = (cs, err) → Forall parsed_certificate cs.
Proof.
  unfold parsePEMCertificates. destruct (parse_pem_loop _ [] data) as [[cs' err']|] eqn:E; simpl.
  - intros [= <- <-]. by eapply parse_pem_loop_parsed in E.
  - by intros [= <- <-].
Qed.

(** ** Collecting *)

(** [seen] holds exactly the encodings of the certificates kept, which are
    all parsed and pairwise different. *)
Definition collected_ok (acc : collected) : Prop :=
  (∀ raw, raw ∈ seen acc ↔ raw ∈ Raw <$> certs acc) ∧
  NoDup (Raw <$> certs acc) ∧ Forall parsed_certificate (certs acc).

Lemma add_ok acc c : collected_ok acc → parsed_certificate c → collected_ok (add acc c).
Proof.
  intros (Hseen & Hnd & Hp) Hc. unfold add. case_bool_decide as Hin; [done|].
  split_and!; simpl.
  - intros raw. rewrite fmap_app, elem_of_cons, elem_of_app, Hseen. simpl.
    rewrite list_elem_of_singleton. tauto.
  - rewrite fmap_app. apply NoDup_app. split_and!; [done| |apply NoDup_singleton].
    intros raw Hraw ->%list_elem_of_singleton. by apply Hin, Hseen.
  - apply Forall_app. auto.
Qed.

Lemma foldl_add_ok acc cs :
  collected_ok acc → Forall parsed_certificate cs → collected_ok (foldl add acc cs).
Proof.
  intros Hacc Hcs. revert acc Hacc. induction Hcs as [|c cs Hc Hcs IH]; simpl; auto using add_ok.
Qed.

Lemma collect_value_ok acc value : collected_ok acc → collected_ok (collect_value acc value).
Proof.
  intros Hacc. unfold collect_value. destruct (contains value _).
  - destruct (parsePEMCertificates value) as [cs err] eqn:E.
    apply foldl_add_ok; [|by eapply parsePEMCertificates_parsed].
    destruct err, (firstErr acc); done.
  - unfold parseBase64Certificate. destruct (_ <? 128); [done|].
    destruct (b64_decode _) as [der|]; [|done].
    destruct (x509_ParseCertificate der) eqn:E; [|done].
    apply add_ok; [done|]. by eapply parse_is_parsed.
Qed.

Lemma certificatesFromStrings_ok values cs :
  certificatesFromStrings values = Ok cs → NoDup (Raw <$> cs) ∧ Forall parsed_certificate cs.
Proof.
  unfold certificatesFromStrings.
  assert (Hok : collected_ok (foldl collect_value (Collected [] [] None) values)).
  { assert (Hinit : collected_ok (Collected [] [] None)).
    { split_and!; simpl; [done|apply NoDup_nil_2|constructor]. }
    revert Hinit. generalize (Collected [] [] None).
    induction values as [|v values IH]; intros acc Hacc; simpl; auto using collect_value_ok. }
  destruct Hok as (_ & Hnd & Hp). set (acc := foldl _ _ _) in *.
  destruct (certs acc) eqn:Ec, (firstErr acc); intros [= <-]; rewrite ?Ec in *; done.
Qed.
(** A chain of parsed certificates is one. *)
Lemma bundle_parsed certs k b path :
  Forall parsed_certificate certs → bundle_ok certs k b path → Forall parsed_certificate (Leaf b :: path).
Proof.
  rewrite !Forall_forall. intros Hp Hb c [->|Hc]%elem_of_cons.
  - by apply Hp, (bundle_leaf _ _ _ _ Hb).
  - by apply Hp, (bundle_path_input _ _ _ _ Hb).
Qed.
End chain_spec.

(** ** Properties *)

Section chain_claims.
Context `{Unicode, PublicKeys, !X509, Pem}.
Implicit Types (c : certificate) (cs : list certificate).

(** A certificate that a string of the response carries. *)
Definition carried (value : string) c : Prop :=
  if contains value "-----BEGIN" then c ∈ (parsePEMCertificates value).1
  else parseBase64Certificate value = Some c.

(** The encodings kept so far. *)
Definition kept (acc : collected) (raw : string) : Prop := raw ∈ Raw <$> certs acc.

Lemma kept_add acc c raw : collected_ok acc → kept (add acc c) raw ↔ kept acc raw ∨ raw = Raw c.
Proof.
  intros (Hseen & _). unfold add, kept. case_bool_decide as Hin.
  - apply Hseen in Hin. split; [auto|]. by intros [?| ->].
  - simpl. rewrite fmap_app, elem_of_app. simpl. by rewrite list_elem_of_singleton.
Qed.

Lemma kept_foldl_add acc cs raw :
  collected_ok acc → Forall parsed_certificate cs →
  kept (foldl add acc cs) raw ↔ kept acc raw ∨ ∃ c, c ∈ cs ∧ raw = Raw c.
Proof.
  intros Hacc Hcs. revert acc Hacc. induction Hcs as [|c cs Hc Hcs IH]; simpl; intros acc Hacc.
  - setoid_rewrite elem_of_nil. naive_solver.
  - rewrite IH by auto using add_ok. rewrite kept_add by done. setoid_rewrite elem_of_cons. naive_solver.
Qed.

Lemma kept_collect_value acc value raw :
  collected_ok acc →
  kept (collect_value acc value) raw ↔ kept acc raw ∨ ∃ c, carried value c ∧ raw = Raw c.
Proof.
  intros Hacc. unfold collect_value, carried. destruct (contains value _).
  - destruct (parsePEMCertificates value) as [cs err] eqn:E.
    apply parsePEMCertificates_parsed in E.
    rewrite kept_foldl_add; [|by destruct err, (firstErr acc)|done].
    by destruct err, (firstErr acc).
  - destruct (parseBase64Certificate value) as [c|] eqn:E; [|naive_solver].
    rewrite kept_add by done. naive_solver.
Qed.

Lemma kept_all acc values raw :
  collected_ok acc →
  kept (foldl collect_value acc values) raw ↔
  kept acc raw ∨ ∃ value c, value ∈ values ∧ carried value c ∧ raw = Raw c.
Proof.
  revert acc. induction values as [|v values IH]; simpl; intros acc Hacc.
  - setoid_rewrite elem_of_nil. naive_solver.
  - rewrite IH by auto using collect_value_ok. rewrite kept_collect_value by done.
    setoid_rewrite elem_of_cons. naive_solver.
Qed.

(** C22: of the strings of a response, exactly the certificates some string
    carries are collected, each once, and each re-parses from its own bytes; it
    is an error only if no string carries a certificate. *)
Theorem certificatesFromStrings_correct values :
  match certificatesFromStrings values with
  | Ok cs =>
    NoDup (Raw <$> cs) ∧ Forall parsed_certificate cs ∧
    ∀ raw, raw ∈ Raw <$> cs ↔ ∃ value c, value ∈ values ∧ carried value c ∧ raw = Raw c
  | Err _ => ∀ value c, value ∈ values → ¬ carried value c
  end.
Proof.
  assert (collected_ok (Collected [] [] None)) as Hinit.
  { split_and!; simpl; [done|apply NoDup_nil_2|constructor]. }
  pose proof (kept_all (Collected [] [] None) values) as Hk. unfold kept in Hk.
  destruct (certificatesFromStrings values) as [cs|e] eqn:E.
  - pose proof (certificatesFromStrings_ok _ _ E) as [??]. split_and!; [done..|]. intros raw.
    assert (certs (foldl collect_value (Collected [] [] None) values) = cs) as <-.
    { unfold certificatesFromStrings in E. by repeat case_match; simplify_eq. }
    rewrite Hk by done. simpl. rewrite elem_of_nil. naive_solver.
  - intros value c Hv Hc.
    assert (certs (foldl collect_value (Collected [] [] None) values) = []) as Hnil.
    { unfold certificatesFromStrings in E. by repeat case_match; simplify_eq. }
    rewrite Hnil in Hk. apply (elem_of_nil (Raw c)), Hk; eauto 10.
Qed.

(** C21: a bundle starts with a certificate for the key of the request, followed
    by certificates of the input each of which issued the one before it, until
    a self-signed one or until no remaining certificate issued the last; there
    is no bundle only if no certificate is for the key. *)
Theorem BuildBundle_correct cs k :
  match BuildBundle cs k with
  | Ok b =>
    Leaf b ∈ cs ∧ for_key k (Leaf b) ∧
    ∃ path rest, ChainPEM b = encodeCertificates (Leaf b :: path) ∧ signed_path (Leaf b) path ∧
      path ++ rest ≡ₚ filter (λ c, Raw c ≠ Raw (Leaf b)) cs ∧ complete (Leaf b) path rest
  | Err _ => ∀ c, c ∈ cs → ¬ for_key k c
  end.
Proof.
  destruct (BuildBundle cs k) as [b|e] eqn:E.
  - apply BuildBundle_bundle_ok in E as (path & [Henc Hin Hkey Hsig (rest & ? & ?)]). eauto 10.
  - unfold BuildBundle in E. destruct cs as [|c cs]; [by intros ? ?%not_elem_of_nil|].
    destruct (findLeaf (c :: cs) k) as [leaf|e'] eqn:El; [done|]. by eapply findLeaf_Err.
Qed.

(** C23: the chain built from the certificates of a response reads back, without
    error, as its own certificates, leaf first and all different. *)
Theorem ChainPEM_reads_back values cs k b :
  certificatesFromStrings values = Ok cs → BuildBundle cs k = Ok b →
  ∃ path, parsePEMCertificates (ChainPEM b) = (Leaf b :: path, None) ∧
          NoDup (Raw <$> Leaf b :: path).
Proof.
  intros [Hnd Hp]%certificatesFromStrings_ok Hb.
  apply BuildBundle_bundle_ok in Hb as [path Hok]. exists path. pose proof (bundle_path_input _ _ _ _ Hok) as Hin.
  destruct Hok as [-> Hl _ _ (rest & Hperm & _)].
  rewrite Forall_forall in Hp. split.
  - apply parse_encodeCertificates. constructor; [by apply Hp|].
    apply Forall_forall. intros c Hc. by apply Hp, Hin.
  - rewrite fmap_cons. apply NoDup_cons. split.
    + intros (c & Hraw & Hc)%list_elem_of_fmap. by apply Hin in Hc as [_ []].
    + assert (NoDup (Raw <$> path ++ rest)) as Hnd'.
      { rewrite Hperm. eapply sublist_NoDup; [exact Hnd|]. apply fmap_sublist, sublist_filter. }
      rewrite fmap_app in Hnd'. by apply NoDup_app in Hnd' as [? _].
Qed.
End chain_claims.
