(* ===== verification/Verify.v ===== *)
(** * [internal/kmp/verify.go]: the names a certificate must carry *)

From S2P Require Import Prelude GoStrings GoNet X509 Errors.
Local Open Scope Z_scope.

Section verify.
Context `{Unicode, PublicKeys}.

Definition containsFold (values : list string) (want : string) : bool :=
  existsb (λ value, equal_fold value want) values.

(** The loops [for _, issued := range ... { if equal { found = true; break } }]. *)
Definition covers_ip (leaf : certificate) (address : string) : bool :=
  existsb (λ issued, ip_equal issued address) (IPAddresses leaf).

Definition covers_uri (leaf : certificate) (uri : string) : bool :=
  existsb (λ issued, bool_decide (issued = uri)) (URIs leaf).

(** The entries [missing] gets for the names [covered] refuses. *)
Definition report (kind : string) (covered : string → bool) (show : string → string)
    (names : list string) : list string :=
  flat_map (λ name, if covered name then [] else [kind +:+ " " +:+ quote (show name)]) names.

Definition missing_error (missing : list string) : error :=
  mark ErrUnusableResponse
    ("key manager plus returned a certificate that is missing " +:+ join ", " missing
     +:+ ". A Microsoft CA template only keeps the subject and the subject alternative names of a request "
     +:+ "when it is configured to supply them from the request").

Definition common_name_mismatch (requested issued : string) : string :=
  "common name " +:+ quote requested +:+ " (the certificate has " +:+ quote issued +:+ ")".

(** A nil error is [None]. *)
Definition verifyRequestedNames (csr : certificate_request) (leaf : certificate) : option error :=
  let requested := CommonName (csr_Subject csr) in
  let issued := CommonName (Subject leaf) in
  let missing :=
    (if bool_decide (requested ≠ "") && negb (equal_fold requested issued)
     then [common_name_mismatch requested issued] else [])
    ++ report "DNS name" (containsFold (DNSNames leaf)) id (csr_DNSNames csr)
    ++ report "IP address" (covers_ip leaf) ip_string (csr_IPAddresses csr)
    ++ report "email address" (containsFold (EmailAddresses leaf)) id (csr_EmailAddresses csr)
    ++ report "URI" (covers_uri leaf) id (csr_URIs csr) in
  match missing with
  | [] => None
  | _ => Some (missing_error missing)
  end.

(** ** Specification *)

(** Every identity of the request is in the certificate: host names and mail
    addresses up to case, addresses up to their IPv4/IPv6 form. *)
Record covers_request (csr : certificate_request) (leaf : certificate) : Prop := {
  covers_cn : CommonName (csr_Subject csr) = "" ∨
    equal_fold (CommonName (csr_Subject csr)) (CommonName (Subject leaf)) = true;
  covers_dns : ∀ n, n ∈ csr_DNSNames csr → ∃ n', n' ∈ DNSNames leaf ∧ equal_fold n' n = true;
  covers_ips : ∀ a, a ∈ csr_IPAddresses csr → ∃ a', a' ∈ IPAddresses leaf ∧ ip_equal a' a = true;
  covers_emails : ∀ m, m ∈ csr_EmailAddresses csr →
    ∃ m', m' ∈ EmailAddresses leaf ∧ equal_fold m' m = true;
  covers_uris : ∀ u, u ∈ csr_URIs csr → u ∈ URIs leaf
}.

Lemma containsFold_spec values want :
  containsFold values want = true ↔ ∃ v, v ∈ values ∧ equal_fold v want = true.
Proof. unfold containsFold. apply existsb_elem_of. Qed.

Lemma covers_ip_spec leaf a :
  covers_ip leaf a = true ↔ ∃ a', a' ∈ IPAddresses leaf ∧ ip_equal a' a = true.
Proof. unfold covers_ip. apply existsb_elem_of. Qed.

Lemma covers_uri_spec leaf u : covers_uri leaf u = true ↔ u ∈ URIs leaf.
Proof.
  unfold covers_uri. rewrite existsb_elem_of.
  setoid_rewrite bool_decide_eq_true. naive_solver.
Qed.

Lemma report_nil kind covered show names :
  report kind covered show names = [] ↔ ∀ n, n ∈ names → covered n = true.
Proof.
  unfold report. induction names as [|n names IH]; simpl.
  - split; [|done]. by intros _ n ?%not_elem_of_nil.
  - setoid_rewrite elem_of_cons. destruct (covered n) eqn:E; simpl.
    + rewrite IH. naive_solver.
    + split; [done|]. intros Hall. rewrite Hall in E; [done|by left].
Qed.

(** A name that is not covered is named in the report. *)
Lemma report_elem kind covered show names n :
  n ∈ names → covered n = false → (kind +:+ " " +:+ quote (show n)) ∈ report kind covered show names.
Proof.
  intros Hn Hc. unfold report. apply elem_of_flat_map. exists n. rewrite Hc.
  split; [done|]. by left.
Qed.

Lemma common_name_nil requested issued :
  (if bool_decide (requested ≠ "") && negb (equal_fold requested issued)
   then [common_name_mismatch requested issued] else []) = []
  ↔ requested = "" ∨ equal_fold requested issued = true.
Proof.
  destruct (equal_fold requested issued), (decide (requested = "")) as [E|E]; simpl;
    [rewrite andb_false_r; tauto..| |].
  - rewrite bool_decide_eq_false_2 by tauto. tauto.
  - rewrite bool_decide_eq_true_2 by done. naive_solver.
Qed.

Lemma verifyRequestedNames_nil csr leaf :
  verifyRequestedNames csr leaf = None ↔ covers_request csr leaf.
Proof.
  unfold verifyRequestedNames. set (missing := _ ++ _). transitivity (missing = []).
  { by destruct missing. }
  unfold missing. rewrite !app_nil, common_name_nil, !report_nil.
  setoid_rewrite containsFold_spec. setoid_rewrite covers_ip_spec. setoid_rewrite covers_uri_spec.
  split; [intros (?&?&?&?&?); by constructor|intros []; by split_and!].
Qed.

Lemma verifyRequestedNames_error csr leaf e :
  verifyRequestedNames csr leaf = Some e → ∃ missing, e = missing_error missing.
Proof. unfold verifyRequestedNames. case_match; [done|]. intros [= <-]. eauto. Qed.
End verify.

(** ** Properties *)

(** C30: the check passes exactly when the certificate carries every identity the
    request asks for - host names and mail addresses up to case, addresses up to
    their IPv4 or IPv6 form, URIs exactly - and its error is permanent. *)
Theorem verifyRequestedNames_correct `{Unicode, PublicKeys} csr leaf :
  match verifyRequestedNames csr leaf with
  | None => covers_request csr leaf
  | Some e => ¬ covers_request csr leaf ∧ IsPermanent e = true
  end.
Proof.
  pose proof (verifyRequestedNames_nil csr leaf) as Hn.
  destruct (verifyRequestedNames csr leaf) as [e|] eqn:E; [|by apply Hn].
  split; [by intros Hc%Hn|]. apply verifyRequestedNames_error in E as [missing ->]. done.
Qed.
