(* ===== verification/GoHeap.v ===== *)
(** * Pointers and slices: the memory a Go program shares

    A heap maps locations to arrays; a variable a pointer points to is an array
    of one element.  Where the program copies objects or changes them in place,
    its values are pointers and slices into a heap, and a Rocq value is what
    they denote ([view]). *)

From S2P Require Import Prelude.
From stdpp Require Import gmap.
Local Open Scope nat_scope.

Notation loc := nat (only parsing).

(** A type whose values can be the elements of an array of [V]. *)
Class Storable (V A : Type) := {
  inject : A → V;
  project : V → option A;
  project_inject a : project (inject a) = Some a
}.

(** A slice that is not nil: an array, from its start on, how much of it the
    slice holds and how much it may grow into.  The nil slice is [None]. *)
Record array := MkArray { arr_ptr : loc; arr_len : nat; arr_cap : nat }.

Notation heap V := (gmap loc (list V)) (only parsing).

Section memory.
Context {V : Type}.

(** [None] is a panic: a nil pointer or an index out of range. *)
Definition mem (A : Type) : Type := heap V → option (A * heap V).

Definition mem_ret {A} (a : A) : mem A := λ h, Some (a, h).
Definition mem_bind {A B} (m : mem A) (k : A → mem B) : mem B := λ h,
  match m h with Some (a, h) => k a h | None => None end.
Definition panic {A} : mem A := λ _, None.
End memory.
Arguments mem : clear implicits.

Notation "'let%' x := m 'in' k" := (mem_bind m (λ x, k))
  (at level 200, x pattern, m at level 200, k at level 200) : go_scope.
Local Open Scope go_scope.

Section operations.
Context {V : Type}.
Implicit Types (h : heap V).

(** A new array. *)
Definition new_array (vs : list V) : mem V loc := λ h,
  let l := fresh (dom h) in Some (l, <[l := vs]> h).

Definition read_cell (l : loc) (i : nat) : mem V V := λ h,
  match h !! l ≫= (.!! i) with Some v => Some (v, h) | None => None end.

Definition write_cell (l : loc) (i : nat) (v : V) : mem V () := λ h,
  match h !! l with
  | Some vs => if decide (i < length vs) then Some ((), <[l := <[i := v]> vs]> h) else None
  | None => None
  end.

Definition arr_len_of (s : option array) : nat := from_option arr_len 0 s.
Definition arr_cap_of (s : option array) : nat := from_option arr_cap 0 s.
Definition arr_ptr_of (s : option array) : loc := from_option arr_ptr 0 s.

Context {A : Type} `{Storable V A}.

(** [*p] *)
Definition load (l : loc) : mem V A :=
  let% v := read_cell l 0 in
  match project v with Some a => mem_ret a | None => panic end.

(** [new(A)] followed by [*p = a] *)
Definition new (a : A) : mem V loc := new_array [inject a].

(** [s[i]] *)
Definition index (s : option array) (i : nat) : mem V A :=
  if decide (i < arr_len_of s) then
    let% v := read_cell (arr_ptr_of s) i in
    match project v with Some a => mem_ret a | None => panic end
  else panic.

(** [s[i] = a] *)
Definition set_index (s : option array) (i : nat) (a : A) : mem V () :=
  if decide (i < arr_len_of s) then write_cell (arr_ptr_of s) i (inject a) else panic.

(** What a slice holds. *)
Definition elements h (s : option array) : option (list A) :=
  match s with
  | None => Some []
  | Some a =>
    h !! arr_ptr a ≫= λ vs,
      if decide (arr_len a ≤ length vs) then mapM project (take (arr_len a) vs) else None
  end.

Definition range_slice (s : option array) : mem V (list A) := λ h,
  match elements h s with Some vs => Some (vs, h) | None => None end.

(** [make([]A, n)] with the zero value [zero]. *)
Definition make (zero : A) (n : nat) : mem V array :=
  let% l := new_array (replicate n (inject zero)) in mem_ret (MkArray l n n).

(** [append(s, a)]: in place if the capacity allows it, else in a new array of
    the capacity [grow cap needed] the runtime chooses. *)
Definition append (grow : nat → nat → nat) (zero : A) (s : option array) (a : A)
  : mem V (option array) :=
  let n := arr_len_of s in
  if decide (n < arr_cap_of s) then
    let% _ := write_cell (arr_ptr_of s) n (inject a) in
    mem_ret (Some (MkArray (arr_ptr_of s) (S n) (arr_cap_of s)))
  else
    let% vs := range_slice s in
    let cap := grow (arr_cap_of s) (S n) in
    let% l := new_array (inject <$> vs ++ a :: replicate (cap - S n) zero) in
    mem_ret (Some (MkArray l (S n) cap)).
End operations.

(** ** Deep copies *)

Section deep_copies.
Context {V : Type}.
Implicit Types (h : heap V).

Definition same_on (X : gset loc) h h' : Prop := ∀ l, l ∈ X → h' !! l = h !! l.

(** [view] reads what a [T] denotes out of the heap, [footprint] is the memory it
    reads, and [copy] makes another [T] that denotes the same in memory of its
    own. *)
Class DeepCopies {T U} (view : heap V → T → option U) (footprint : heap V → T → gset loc)
    (copy : T → mem V T) : Prop := {
  footprint_dom h t u : view h t = Some u → footprint h t ⊆ dom h;
  view_frame h h' t u :
    view h t = Some u → same_on (footprint h t) h h' →
    view h' t = Some u ∧ footprint h' t = footprint h t;
  copy_fresh h t u :
    view h t = Some u →
    ∃ t' h', copy t h = Some (t', h') ∧ h ⊆ h' ∧ view h' t' = Some u ∧ footprint h' t' ## dom h
}.

Lemma same_on_mono X Y h h' : X ⊆ Y → same_on Y h h' → same_on X h h'.
Proof. intros HX Hs l Hl. by apply Hs, HX. Qed.

Lemma same_on_subseteq X h h' : X ⊆ dom h → h ⊆ h' → same_on X h h'.
Proof.
  intros HX Hh l Hl%HX. apply elem_of_dom in Hl as [vs Hl]. rewrite Hl. by eapply lookup_weaken.
Qed.

(** What is there stays there as the heap grows. *)
Lemma view_grows {T U} (view : heap V → T → option U) fp copy `{!DeepCopies view fp copy} h h' t u :
  view h t = Some u → h ⊆ h' → view h' t = Some u ∧ fp h' t = fp h t.
Proof. intros Hv Hh. eapply view_frame; [done|]. eapply same_on_subseteq; [|done]. by eapply footprint_dom. Qed.

(** The copy [t'] of [t]: both denote [u]; what is done to the memory the copy
    brought leaves the original, and what is done to any other the copy. *)
Definition independent {T U} (view : heap V → T → option U) h h' (t t' : T) (u : U) : Prop :=
  view h' t = Some u ∧ view h' t' = Some u ∧
  (∀ h'', same_on (dom h) h' h'' → view h'' t = Some u) ∧
  (∀ h'', same_on (dom h' ∖ dom h) h' h'' → view h'' t' = Some u).

Lemma copy_independent {T U} (view : heap V → T → option U) fp copy `{!DeepCopies view fp copy} h t u :
  view h t = Some u → ∃ t' h', copy t h = Some (t', h') ∧ independent view h h' t t' u.
Proof.
  intros Hv. destruct (copy_fresh h t u Hv) as (t' & h' & Hc & Hh & Hv' & Hf).
  destruct (view_grows view fp copy h h' t u Hv Hh) as [Hv2 Hfp].
  exists t', h'. split; [done|]. split_and!; [done..| |].
  - intros h'' Hs. apply (view_frame h' h'' t u Hv2). rewrite Hfp.
    eapply same_on_mono; [|done]. by eapply footprint_dom.
  - intros h'' Hs. apply (view_frame h' h'' t' u Hv').
    eapply same_on_mono; [|done]. pose proof (footprint_dom h' t' u Hv'). set_solver.
Qed.

(** *** Without pointers *)

Definition plain_view {A} : heap V → A → option A := λ _ a, Some a.
Definition plain_footprint {A} : heap V → A → gset loc := λ _ _, ∅.

#[export] Instance plain_copies {A} : DeepCopies (@plain_view A) plain_footprint mem_ret.
Proof.
  split; unfold plain_view, plain_footprint.
  - set_solver.
  - done.
  - intros h a _ [= <-]. exists a, h. split_and!; [done..|set_solver].
Qed.

(** *** Pointers: [if in.X != nil { *out = new(A); **out = **in }] *)

Section pointer.
Context {A : Type} `{Storable V A}.

Definition pointer_view h (p : option loc) : option (option A) :=
  match p with
  | None => Some None
  | Some l => vs ← h !! l; v ← vs !! 0; a ← project v; Some (Some a)
  end.

Definition pointer_footprint h (p : option loc) : gset loc :=
  match p with None => ∅ | Some l => {[l]} end.

Definition pointer_copy (p : option loc) : mem V (option loc) :=
  match p with
  | None => mem_ret None
  | Some l => let% a := load (A := A) l in let% l' := new a in mem_ret (Some l')
  end.

Lemma load_spec h l a : pointer_view h (Some l) = Some (Some a) → load l h = Some (a, h).
Proof.
  simpl. unfold load, mem_bind, read_cell. destruct (h !! l) as [vs|]; simpl; [|done].
  destruct (vs !! 0) as [v|]; simpl; [|done]. destruct (project v); simpl; [|done]. by intros [= ->].
Qed.

#[export] Instance pointer_copies : DeepCopies pointer_view pointer_footprint pointer_copy.
Proof.
  split.
  - intros h [l|] u; simpl; [|set_solver]. destruct (h !! l) eqn:E; [|done]. intros _.
    apply singleton_subseteq_l, elem_of_dom. eauto.
  - intros h h' [l|] u; simpl; [|done]. intros Hv Hs. by rewrite Hs by set_solver.
  - intros h [l|] u Hv.
    2:{ exists None, h. split_and!; [done..|simpl; set_solver]. }
    assert (∃ a, u = Some a) as [a ->].
    { revert Hv. simpl. destruct (h !! l) as [vs|]; simpl; [|done].
      destruct (vs !! 0) as [v|]; simpl; [|done]. destruct (project v); simpl; [|done]. intros [= <-]. eauto. }
    exists (Some (fresh (dom h))), (<[fresh (dom h) := [inject a]]> h).
    pose proof (is_fresh (dom h)) as Hf. split_and!.
    + simpl. unfold mem_bind at 1. by rewrite (load_spec _ _ _ Hv).
    + by apply insert_subseteq, not_elem_of_dom.
    + simpl. rewrite lookup_insert_eq. simpl. by rewrite project_inject.
    + simpl. set_solver.
Qed.
End pointer.

(** *** Structs: a copy of the struct with some of its fields copied in turn *)

Section struct.
Context {T1 U1 T2 U2 : Type}.
Context (view1 : heap V → T1 → option U1) (fp1 : heap V → T1 → gset loc) (copy1 : T1 → mem V T1).
Context (view2 : heap V → T2 → option U2) (fp2 : heap V → T2 → gset loc) (copy2 : T2 → mem V T2).

Definition pair_view h (t : T1 * T2) : option (U1 * U2) :=
  u1 ← view1 h t.1; u2 ← view2 h t.2; Some (u1, u2).
Definition pair_footprint h (t : T1 * T2) : gset loc := fp1 h t.1 ∪ fp2 h t.2.
Definition pair_copy (t : T1 * T2) : mem V (T1 * T2) :=
  let% t1 := copy1 t.1 in let% t2 := copy2 t.2 in mem_ret (t1, t2).

#[export] Instance pair_copies `{!DeepCopies view1 fp1 copy1, !DeepCopies view2 fp2 copy2} :
  DeepCopies pair_view pair_footprint pair_copy.
Proof.
  split; unfold pair_view, pair_footprint.
  - intros h [t1 t2] u. simpl. intros (u1 & Hv1 & (u2 & Hv2 & _)%bind_Some)%bind_Some.
    apply footprint_dom in Hv1, Hv2. set_solver.
  - intros h h' [t1 t2] u. simpl. intros (u1 & Hv1 & (u2 & Hv2 & [= <-])%bind_Some)%bind_Some Hs.
    destruct (view_frame h h' t1 u1) as [-> ->]; [done|eapply same_on_mono; [|done]; set_solver|].
    destruct (view_frame h h' t2 u2) as [-> ->]; [done|eapply same_on_mono; [|done]; set_solver|]. done.
  - intros h [t1 t2] u. simpl. intros (u1 & Hv1 & (u2 & Hv2 & [= <-])%bind_Some)%bind_Some.
    destruct (copy_fresh h t1 u1 Hv1) as (t1' & h1 & Hc1 & Hh1 & Hv1' & Hf1).
    destruct (view_grows view2 fp2 copy2 h h1 t2 u2 Hv2 Hh1) as [Hv2' _].
    destruct (copy_fresh h1 t2 u2 Hv2') as (t2' & h2 & Hc2 & Hh2 & Hv2'' & Hf2).
    destruct (view_grows view1 fp1 copy1 h1 h2 t1' u1 Hv1' Hh2) as [Hv1'' Hfp1].
    exists (t1', t2'), h2. unfold pair_copy, mem_bind. simpl. rewrite Hc1, Hc2, Hv1'', Hv2'', Hfp1.
    split_and!; [done|by transitivity h1|done|].
    apply subseteq_dom in Hh1. set_solver.
Qed.
End struct.

(** A struct [S] whose fields with pointers are [fields]: [put] replaces them,
    and [build] makes the struct's value of theirs. *)
Section via.
Context {S W T U : Type} (fields : S → T) (put : S → T → S) (build : S → U → W).
Context (view : heap V → T → option U) (fp : heap V → T → gset loc) (copy : T → mem V T).

Definition struct_view h (s : S) : option W := build s <$> view h (fields s).
Definition struct_footprint h (s : S) : gset loc := fp h (fields s).

(** A function that copies the fields of a struct is a deep copy of it. *)
Lemma struct_copies `{!DeepCopies view fp copy} (struct_copy : S → mem V S) :
  (∀ s t, fields (put s t) = t) → (∀ s t u, build (put s t) u = build s u) →
  (∀ s h, struct_copy s h = mem_bind (copy (fields s)) (λ t, mem_ret (put s t)) h) →
  DeepCopies struct_view struct_footprint struct_copy.
Proof.
  intros Hfields Hbuild Hcopy. split; unfold struct_view, struct_footprint.
  - intros h s w (u & Hv & ->)%fmap_Some. by eapply footprint_dom.
  - intros h h' s w (u & Hv & ->)%fmap_Some Hs.
    by destruct (view_frame h h' (fields s) u Hv Hs) as [-> ->].
  - intros h s w (u & Hv & ->)%fmap_Some.
    destruct (copy_fresh h (fields s) u Hv) as (t' & h' & Hc & Hh & Hv' & Hf).
    exists (put s t'), h'. rewrite Hcopy, Hfields, Hv'. unfold mem_bind. rewrite Hc. simpl.
    by rewrite Hbuild.
Qed.
End via.
End deep_copies.

(** *** Slices *)

Section slices.
Context {V A : Type} `{Storable V A}.
Implicit Types (h : heap V) (s : option array).

Lemma mapM_project_inject (xs : list A) : mapM project (inject <$> xs) = Some xs.
Proof. apply mapM_Some, Forall2_fmap_l, Forall_Forall2_diag, Forall_true, project_inject. Qed.

Lemma insert_middle {X} (l1 l2 : list X) x y : <[length l1 := y]> (l1 ++ x :: l2) = l1 ++ y :: l2.
Proof. by rewrite (insert_app_r_alt _ _ _ _ (le_n _)), Nat.sub_diag. Qed.

Lemma elements_length h s xs : elements h s = Some xs → length xs = arr_len_of s.
Proof.
  destruct s as [a|]; simpl; [|by intros [= <-]]. destruct (h !! arr_ptr a) as [vs|]; simpl; [|done].
  case_decide; [|done]. intros Hm%mapM_Some%Forall2_length. rewrite length_take in Hm. lia.
Qed.

Lemma index_spec h s xs i x : elements h s = Some xs → xs !! i = Some x → index s i h = Some (x, h).
Proof.
  intros He Hi. pose proof (elements_length _ _ _ He) as Hlen. pose proof (lookup_lt_Some _ _ _ Hi) as Hlt.
  unfold index. rewrite decide_True by lia. destruct s as [a|]; simpl in *; [|lia].
  unfold mem_bind, read_cell. destruct (h !! arr_ptr a) as [vs|]; simpl in *; [|done].
  case_decide; [|done]. apply mapM_Some in He.
  destruct (Forall2_lookup_r _ _ _ _ _ He Hi) as (v & Hv & Hp).
  apply lookup_take_Some in Hv as [-> _]. simpl. by rewrite Hp.
Qed.

Lemma set_index_spec h a vs i x :
  h !! arr_ptr a = Some vs → i < arr_len a → i < length vs →
  set_index (Some a) i x h = Some ((), <[arr_ptr a := <[i := inject x]> vs]> h).
Proof.
  intros Hl Hi Hvs. unfold set_index, write_cell. simpl. by rewrite decide_True, Hl, decide_True.
Qed.

(** The memory a slice is in, and a slice whose array is of its element type
    and has room for what its capacity promises. *)
Definition slice_memory s : gset loc := match s with Some a => {[arr_ptr a]} | None => ∅ end.

Definition slice_ok h s : Prop :=
  match s with
  | Some a => ∃ ys : list A, h !! arr_ptr a = Some (inject <$> ys) ∧ arr_len a ≤ arr_cap a ≤ length ys
  | None => True
  end.

Lemma slice_ok_elements h a ys :
  h !! arr_ptr a = Some (inject <$> ys) → arr_len a ≤ length ys →
  elements h (Some a) = Some (take (arr_len a) ys).
Proof.
  intros Hl Hlen. simpl. rewrite Hl. simpl. rewrite decide_True by (by rewrite length_fmap).
  by rewrite <- fmap_take, mapM_project_inject.
Qed.

Lemma same_on_insert (X : gset loc) h l vs : l ∉ X → same_on X h (<[l := vs]> h).
Proof. intros Hl k Hk. apply lookup_insert_ne. by intros ->. Qed.

(** [s[i] = x] *)
Lemma set_index_ok h s xs i x :
  slice_ok h s → elements h s = Some xs → i < length xs →
  ∃ h', set_index s i x h = Some ((), h') ∧ elements h' s = Some (<[i := x]> xs) ∧
    slice_ok h' s ∧ dom h' = dom h ∧ same_on (dom h ∖ slice_memory s) h h'.
Proof.
  destruct s as [a|]; [|by intros _ [= <-] ?%Nat.nlt_0_r]. intros (ys & Hl & Hlen & Hcap) He Hi.
  rewrite (slice_ok_elements _ _ ys) in He by (done || lia). injection He as <-.
  rewrite length_take in Hi.
  exists (<[arr_ptr a := <[i := inject x]> (inject <$> ys)]> h).
  assert (Hl' : <[arr_ptr a := <[i := inject x]> (inject <$> ys)]> h !! arr_ptr a = Some (inject <$> <[i := x]> ys))
    by (rewrite lookup_insert_eq; f_equal; by rewrite list_fmap_insert).
  split_and!.
  - apply set_index_spec; [done|lia|rewrite length_fmap; lia].
  - rewrite (slice_ok_elements _ _ (<[i := x]> ys)) by (done || (rewrite length_insert; lia)).
    f_equal. by rewrite take_insert_lt by lia.
  - exists (<[i := x]> ys). rewrite length_insert. done.
  - rewrite dom_insert_L. assert (arr_ptr a ∈ dom h) by (apply elem_of_dom; eauto). set_solver.
  - apply same_on_insert. simpl. set_solver.
Qed.

Lemma append_ok (grow : nat → nat → nat) (zero : A) h s xs x :
  (∀ cap needed, needed ≤ grow cap needed) → slice_ok h s → elements h s = Some xs →
  ∃ s' h', append grow zero s x h = Some (s', h') ∧ elements h' s' = Some (xs ++ [x]) ∧
    slice_ok h' s' ∧ dom h ⊆ dom h' ∧ same_on (dom h ∖ slice_memory s) h h'.
Proof.
  intros Hgrow Hok He. pose proof (elements_length _ _ _ He) as Hxs. unfold append.
  case_decide as Hroom.
  - destruct s as [a|]; simpl in *; [|lia]. destruct Hok as (ys & Hl & Hlen & Hcap).
    pose proof (slice_ok_elements h a ys Hl ltac:(lia)) as He'. simpl in He'. rewrite He in He'. injection He' as ->.
    unfold mem_bind, write_cell. rewrite Hl, decide_True by (rewrite length_fmap; lia).
    set (ys' := <[arr_len a := x]> ys). rewrite <- list_fmap_insert. fold ys'.
    eexists _, (<[arr_ptr a := inject <$> ys']> h). split; [reflexivity|].
    assert (Hl' : <[arr_ptr a := inject <$> ys']> h !! arr_ptr a = Some (inject <$> ys')) by apply lookup_insert_eq.
    split_and!.
    + rewrite (slice_ok_elements _ _ ys') by (simpl; unfold ys'; rewrite ?length_insert; (done || lia)).
      simpl. f_equal. erewrite take_S_r by (apply list_lookup_insert_eq; lia).
      unfold ys'. by rewrite take_insert_ge by lia.
    + exists ys'. simpl. split; [done|]. unfold ys'. rewrite length_insert. lia.
    + rewrite dom_insert_L. set_solver.
    + apply same_on_insert. simpl. set_solver.
  - unfold mem_bind, range_slice. rewrite He. unfold new_array, mem_ret.
    set (ys := xs ++ x :: replicate _ zero). set (l := fresh (dom h)). pose proof (is_fresh (dom h)) as Hf. fold l in Hf.
    eexists _, (<[l := inject <$> ys]> h). split; [reflexivity|].
    set (n := arr_len_of s) in *. specialize (Hgrow (arr_cap_of s) (S n)).
    assert (length ys = grow (arr_cap_of s) (S n)) as Hys
      by (unfold ys; rewrite length_app; simpl; rewrite length_replicate; lia).
    assert (Hl' : <[l := inject <$> ys]> h !! l = Some (inject <$> ys)) by apply lookup_insert_eq.
    split_and!.
    + rewrite (slice_ok_elements _ _ ys) by (simpl; (done || lia)). simpl. f_equal. unfold ys.
      rewrite cons_middle, app_assoc. apply take_app_length'. rewrite length_app. simpl. lia.
    + exists ys. simpl. split; [done|lia].
    + rewrite dom_insert_L. set_solver.
    + apply same_on_insert. set_solver.
Qed.
(** A slice without room for more is copied, and what was there stays. *)
Lemma append_full (grow : nat → nat → nat) (zero : A) h s xs x :
  (∀ cap needed, needed ≤ grow cap needed) → arr_cap_of s ≤ arr_len_of s → elements h s = Some xs →
  ∃ s' h', append grow zero s x h = Some (s', h') ∧ h ⊆ h' ∧ elements h' s' = Some (xs ++ [x]) ∧
    arr_len_of s' = S (arr_len_of s) ∧ arr_cap_of s' = grow (arr_cap_of s) (S (arr_len_of s)).
Proof.
  intros Hgrow Hfull He. pose proof (elements_length _ _ _ He) as Hxs. unfold append.
  rewrite decide_False by lia. unfold mem_bind, range_slice. rewrite He. unfold new_array, mem_ret.
  set (ys := xs ++ x :: replicate _ zero). set (l := fresh (dom h)). pose proof (is_fresh (dom h)) as Hf. fold l in Hf.
  eexists _, (<[l := inject <$> ys]> h). split_and!; [reflexivity| | |done..].
  - by apply insert_subseteq, not_elem_of_dom.
  - specialize (Hgrow (arr_cap_of s) (S (arr_len_of s))). simpl. rewrite lookup_insert_eq. simpl.
    rewrite decide_True by (unfold ys; rewrite length_fmap, length_app; simpl; rewrite length_replicate; lia).
    rewrite <- fmap_take, mapM_project_inject. f_equal. unfold ys.
    rewrite cons_middle, app_assoc. apply take_app_length'. rewrite length_app. simpl. lia.
Qed.

Lemma elements_grows h h' s (xs : list A) : elements h s = Some xs → h ⊆ h' → elements h' s = Some xs.
Proof.
  destruct s as [a|]; simpl; [|done]. intros He Hh. destruct (h !! arr_ptr a) as [vs|] eqn:E; [|done].
  by rewrite (lookup_weaken _ _ _ _ E Hh).
Qed.
End slices.

(** [make] and a loop that copies the elements one by one. *)
Section items.
Context {V T U : Type} `{Storable V T}.
Context (view : heap V → T → option U) (fp : heap V → T → gset loc) (copy : T → mem V T).
Implicit Types (h : heap V) (s : option array).

Definition items_view h s : option (list U) := elements h s ≫= mapM (view h).

Definition items_footprint h s : gset loc :=
  match s with
  | None => ∅
  | Some a => {[arr_ptr a]} ∪ ⋃ (fp h <$> default [] (elements h s))
  end.

(** The loop over the indices of the slice, from [i] on: each element is copied
    into the element of [out] at its index. *)
Fixpoint copy_items (n i : nat) s (out : array) : mem V () :=
  match n with
  | O => mem_ret ()
  | S n =>
    let% x := index s i in
    let% y := copy x in
    let% _ := set_index (Some out) i y in
    copy_items n (S i) s out
  end.

Definition items_copy (zero : T) s : mem V (option array) :=
  match s with
  | None => mem_ret None
  | Some a =>
    let% out := make zero (arr_len a) in
    let% _ := copy_items (arr_len a) 0 s out in
    mem_ret (Some out)
  end.

Context `{!DeepCopies view fp copy}.

(** The elements copied so far, [ys], denote what they should, apart from the
    memory that was there and from the array they are in. *)
Definition copied h0 h (out : loc) (ys : list T) (us : list U) : Prop :=
  Forall2 (λ y u, view h y = Some u ∧ fp h y ## dom h0 ∧ out ∉ fp h y) ys us.

Lemma copied_frame h0 h h' out ys us :
  copied h0 h out ys us → (∀ l, l ≠ out → l ∈ dom h → h' !! l = h !! l) → copied h0 h' out ys us.
Proof.
  intros Hc Hs. eapply Forall2_impl; [exact Hc|]. intros y u (Hv & Hf & Ho).
  destruct (view_frame h h' y u Hv) as [? ->]; [|done].
  intros l Hl. apply Hs; [by intros ->|]. by apply (footprint_dom h y u Hv).
Qed.

Lemma copy_items_spec h0 s out ts2 :
  arr_ptr out ∉ dom h0 →
  ∀ ts1 us1 us2 h ys rest,
    elements h0 s = Some (ts1 ++ ts2) → Forall2 (λ t u, view h0 t = Some u) ts2 us2 →
    h0 ⊆ h → length ys = length ts1 → length rest = length ts2 →
    arr_len out = length (ts1 ++ ts2) → h !! arr_ptr out = Some ((inject <$> ys) ++ rest) →
    copied h0 h (arr_ptr out) ys us1 →
    ∃ h' ys', copy_items (length ts2) (length ts1) s out h = Some ((), h') ∧ h0 ⊆ h' ∧
      h' !! arr_ptr out = Some (inject <$> ys') ∧ copied h0 h' (arr_ptr out) ys' (us1 ++ us2) ∧
      length ys' = length (ts1 ++ ts2).
Proof.
  intros Hout. induction ts2 as [|t ts2 IH]; intros ts1 us1 us2 h ys rest He Hus Hh Hys Hrest Hlen Hl Hc.
  { inversion Hus; subst. destruct rest; [|done]. exists h, ys. rewrite !app_nil_r in *. simpl.
    by split_and!. }
  inversion Hus as [|? u ? us2' Hv Hus']; subst. destruct rest as [|r rest]; [done|]. simpl.
  assert (elements h s = Some (ts1 ++ t :: ts2)) as Heh.
  { revert He. destruct s as [a|]; simpl; [|done]. destruct (h0 !! arr_ptr a) as [vs|] eqn:E; simpl; [|done].
    by rewrite (lookup_weaken _ _ _ _ E Hh). }
  unfold mem_bind at 1. rewrite (index_spec _ _ _ _ t Heh) by (by apply list_lookup_middle).
  destruct (view_grows view fp copy h0 h t u Hv Hh) as [Hvh _].
  destruct (copy_fresh h t u Hvh) as (y & h1 & Hy & Hh1 & Hvy & Hfy).
  unfold mem_bind at 1. rewrite Hy. unfold mem_bind at 1.
  rewrite (set_index_spec _ _ _ _ _ (lookup_weaken _ _ _ _ Hl Hh1));
    [|rewrite Hlen, length_app; simpl; lia|rewrite length_app, length_fmap; simpl; lia].
  rewrite <- Hys, <- (length_fmap inject ys), insert_middle, length_fmap, Hys.
  set (h2 := <[arr_ptr out := _]> h1).
  assert (arr_ptr out ∈ dom h) as Hod by (apply elem_of_dom; eauto).
  assert (Hkeep : ∀ l, l ≠ arr_ptr out → l ∈ dom h1 → h2 !! l = h1 !! l)
    by (intros l Hne _; by apply lookup_insert_ne).
  replace (S (length ts1)) with (length (ts1 ++ [t])) by (rewrite length_app; simpl; lia).
  destruct (IH (ts1 ++ [t]) (us1 ++ [u]) us2' h2 (ys ++ [y]) rest) as (h' & ys' & Hrun & ? & ? & Hc' & Hlen').
  - by rewrite <- app_assoc.
  - done.
  - apply insert_subseteq_r; [by apply not_elem_of_dom|by transitivity h].
  - rewrite !length_app. simpl. lia.
  - simpl in *. lia.
  - by rewrite <- app_assoc.
  - unfold h2. rewrite lookup_insert_eq, fmap_app, <- app_assoc. done.
  - apply Forall2_app.
    + eapply copied_frame; [|exact Hkeep]. eapply copied_frame; [exact Hc|]. intros l _ [vs Hvs]%elem_of_dom.
      rewrite Hvs. by eapply lookup_weaken.
    + constructor; [|done]. apply subseteq_dom in Hh.
      destruct (view_frame h1 h2 y u Hvy) as [? ->].
      * intros l Hl'. apply Hkeep; [set_solver|by apply (footprint_dom h1 y u Hvy)].
      * split_and!; [done|set_solver|set_solver].
  - exists h', ys'. rewrite <- app_assoc in Hc', Hlen'. by split_and!.
Qed.

Lemma elements_frame h h' a : h' !! arr_ptr a = h !! arr_ptr a → elements h' (Some a) = elements h (Some a) (A := T).
Proof. simpl. by intros ->. Qed.

Lemma items_fp_elem h a xs x l :
  elements h (Some a) = Some xs → x ∈ xs → l ∈ fp h x → l ∈ items_footprint h (Some a).
Proof.
  intros He Hx Hl. unfold items_footprint. rewrite He. apply elem_of_union_r, elem_of_union_list.
  exists (fp h x). split; [|done]. apply list_elem_of_fmap. eauto.
Qed.

Lemma items_view_inv h a us :
  items_view h (Some a) = Some us →
  ∃ xs, elements h (Some a) = Some xs ∧ Forall2 (λ t u, view h t = Some u) xs us.
Proof. intros (xs & He & Hm%mapM_Some)%bind_Some. eauto. Qed.

Lemma items_footprint_dom h s us : items_view h s = Some us → items_footprint h s ⊆ dom h.
Proof.
  revert us. destruct s as [a|]; intros us; [|simpl; set_solver]. intros (xs & He & Hm)%items_view_inv.
  unfold items_footprint. rewrite He. apply union_subseteq. split.
  + simpl in He. destruct (h !! arr_ptr a) eqn:E; [|done].
    apply singleton_subseteq_l, elem_of_dom. eauto.
  + intros l (X & (x & -> & Hx)%list_elem_of_fmap & Hl)%elem_of_union_list.
    apply list_elem_of_lookup in Hx as [i Hi]. destruct (Forall2_lookup_l _ _ _ _ _ Hm Hi) as (u & _ & Hv).
    by apply (footprint_dom h x u Hv).
Qed.

Lemma items_view_frame h h' s us :
  items_view h s = Some us → same_on (items_footprint h s) h h' →
  items_view h' s = Some us ∧ items_footprint h' s = items_footprint h s.
Proof.
  destruct s as [a|]; [|done]. intros (xs & He & Hm)%items_view_inv Hs.
  assert (elements h' (Some a) = Some xs) as He'.
  { rewrite <- He. apply elements_frame, Hs. unfold items_footprint. set_solver. }
  assert (Forall2 (λ x u, view h' x = Some u ∧ fp h' x = fp h x) xs us) as Hm'.
  { apply Forall2_same_length_lookup_2; [by eapply Forall2_length|]. intros i x u Hx Hu.
    apply view_frame; [by eapply Forall2_lookup_lr in Hm|]. intros l Hl. apply Hs.
    eapply items_fp_elem; [done| |done]. by eapply list_elem_of_lookup_2. }
  split.
  + unfold items_view. rewrite He'. apply mapM_Some. eapply Forall2_impl; [exact Hm'|]. by intros ?? [? _].
  + unfold items_footprint. rewrite He', He. simpl. do 2 f_equal.
    apply list_eq_Forall2, Forall2_fmap. clear -Hm'.
    induction Hm' as [|x u xs us [_ ?] ? IH]; constructor; auto.
Qed.

Lemma items_copy_fresh zero h s us :
  items_view h s = Some us →
  ∃ s' h', items_copy zero s h = Some (s', h') ∧ h ⊆ h' ∧ items_view h' s' = Some us ∧ items_footprint h' s' ## dom h.
Proof.
  destruct s as [a|].
  2:{ intros [= <-]. exists None, h. split_and!; [done..|set_solver]. }
  intros (xs & He & Hm)%items_view_inv. pose proof (elements_length _ _ _ He) as Hlen. simpl in Hlen.
  set (l := fresh (dom h)). pose proof (is_fresh (dom h)) as Hf.
  set (h1 := <[l := replicate (arr_len a) (inject zero)]> h).
  destruct (copy_items_spec h (Some a) (MkArray l (arr_len a) (arr_len a)) xs Hf [] [] us h1 []
              (replicate (arr_len a) (inject zero))) as (h' & ys & Hrun & Hh & Hl & Hc & Hys); try done.
  + apply insert_subseteq_r; [by apply not_elem_of_dom|done].
  + by rewrite length_replicate.
  + apply lookup_insert_eq.
  + constructor.
  + exists (Some (MkArray l (arr_len a) (arr_len a))), h'.
    simpl in Hrun, Hc, Hl, Hys. rewrite Hlen in Hrun.
    assert (elements h' (Some (MkArray l (arr_len a) (arr_len a))) = Some ys) as Hel.
    { simpl. rewrite Hl. simpl. rewrite decide_True by (rewrite length_fmap; lia).
      rewrite take_ge by (rewrite length_fmap; lia). apply mapM_project_inject. }
    split_and!; [|done| |].
    * unfold items_copy, make, mem_bind, new_array, mem_ret. fold l h1. by rewrite Hrun.
    * unfold items_view. rewrite Hel. apply mapM_Some. eapply Forall2_impl; [exact Hc|]. by intros ?? [? _].
    * unfold items_footprint. rewrite Hel. simpl. apply disjoint_union_l. split; [set_solver|].
      intros k (X & (y & -> & Hy)%list_elem_of_fmap & Hk)%elem_of_union_list.
      apply list_elem_of_lookup in Hy as [i Hi].
      destruct (Forall2_lookup_l _ _ _ _ _ Hc Hi) as (u & _ & _ & Hd & _). by apply Hd.
Qed.

#[export] Instance items_copies zero : DeepCopies items_view items_footprint (items_copy zero).
Proof.
  split; [exact items_footprint_dom|exact items_view_frame|exact (items_copy_fresh zero)].
Qed.
End items.

(** *** Slices without pointers: [make] and [copy] *)

Section copy_slice.
Context {V A : Type} `{Storable V A}.

(** The built-in [copy]. *)
Definition copy_into (out : array) (s : option array) : mem V () :=
  let% xs := range_slice s in
  λ h,
  match h !! arr_ptr out with
  | Some vs =>
    let n := length xs `min` arr_len out in
    Some ((), <[arr_ptr out := (inject <$> take n xs) ++ drop n vs]> h)
  | None => None
  end.

Definition slice_copy (zero : A) (s : option array) : mem V (option array) :=
  match s with
  | None => mem_ret None
  | Some a =>
    let% out := make zero (arr_len a) in
    let% _ := copy_into out s in
    mem_ret (Some out)
  end.

Definition slice_view : heap V → option array → option (list A) := items_view plain_view.
Definition slice_footprint : heap V → option array → gset loc := items_footprint (@plain_footprint V A).

Lemma copy_into_spec h l n s xs vs :
  elements h s = Some xs → h !! l = Some vs → length vs = length xs → n = length xs →
  copy_into (MkArray l n n) s h = Some ((), <[l := inject <$> xs]> h).
Proof.
  intros He Hl Hvs ->. unfold copy_into, mem_bind, range_slice. rewrite He. simpl. rewrite Hl.
  by rewrite Nat.min_id, take_ge, drop_ge, app_nil_r by lia.
Qed.

Lemma slice_view_elements h s : slice_view h s = elements h s.
Proof.
  unfold slice_view, items_view. destruct (elements h s) as [xs|]; [|done]. simpl.
  apply mapM_Some, Forall_Forall2_diag. by apply Forall_true.
Qed.

#[export] Instance slice_copies zero : DeepCopies slice_view slice_footprint (slice_copy zero).
Proof.
  pose proof (items_copies plain_view (@plain_footprint V A) mem_ret zero) as Hitems.
  split; [apply Hitems|apply Hitems|]. intros h s xs. rewrite slice_view_elements. intros He.
  destruct s as [a|].
  2:{ injection He as <-. exists None, h. split_and!; [done..|unfold slice_footprint; simpl; set_solver]. }
  pose proof (elements_length _ _ _ He) as Hlen. simpl in Hlen.
  set (l := fresh (dom h)). pose proof (is_fresh (dom h)) as Hf. fold l in Hf.
  set (h1 := <[l := replicate (arr_len a) (inject zero)]> h).
  assert (h ⊆ h1) as Hh by (apply insert_subseteq; by apply not_elem_of_dom).
  assert (elements h1 (Some a) = Some xs) as He1.
  { destruct (h !! arr_ptr a) as [vs|] eqn:E; [|by simpl in He; rewrite E in He].
    rewrite <- He. apply elements_frame. rewrite E. by eapply lookup_weaken. }
  exists (Some (MkArray l (arr_len a) (arr_len a))), (<[l := inject <$> xs]> h1).
  split_and!.
  - unfold slice_copy, make, mem_bind, new_array, mem_ret. fold l h1.
    rewrite (copy_into_spec _ _ _ _ _ _ He1 (lookup_insert_eq _ _ _)); [done|by rewrite length_replicate|done].
  - apply insert_subseteq_r; [by apply not_elem_of_dom|done].
  - rewrite slice_view_elements. simpl. rewrite lookup_insert_eq. simpl.
    rewrite decide_True by (rewrite length_fmap; lia).
    rewrite take_ge by (rewrite length_fmap; lia). apply mapM_project_inject.
  - intros k Hk Hd. unfold slice_footprint, items_footprint in Hk. apply elem_of_union in Hk as [->%elem_of_singleton|Hk]; [done|].
    apply elem_of_union_list in Hk as (X & (x & -> & _)%list_elem_of_fmap & Hk). set_solver.
Qed.
End copy_slice.
