(* ===== verification/Api.v ===== *)
(** * [api/v1alpha1]: the custom resources

    Of the object metadata, the name, the namespace, the generation and the
    deletion timestamp are kept, which is what the controllers read. *)

From S2P Require Import Prelude GoStrings GoAny.
Local Open Scope Z_scope.

Definition AuthSecretTokenKey : string := "authtoken".
Definition AuthSecretCABundleKey : string := "ca.crt".
Definition KMPCertificateConditionReady : string := "Ready".
Definition KeyStorePasswordSecretKey : string := "keystore-password".

(** [types.NamespacedName] *)
Record NamespacedName := MkName { Namespace : string; ObjName : string }.

Definition name_text (n : NamespacedName) : string := Namespace n +:+ "/" +:+ ObjName n.

(** ** Issuers *)

Record SigningSpec := MkSigningSpec {
  sig_SignType : string;
  sig_ServerName : string;
  sig_CAName : string;
  sig_TemplateName : string;
  sig_AgentName : string;
  sig_AgentResponseTimeoutSeconds : option Z;
  sig_RootCertificateCommonName : string;
  sig_RootCertificateSerialNumber : string;
  sig_ValidityDays : option Z;
  sig_IsIntermediate : option bool;
  sig_Email : string;
  sig_CSRLookupOperation : string
}.

Record IssuerSpec := MkIssuerSpec {
  spec_URL : string;
  AuthSecretName : string;
  Signing : SigningSpec;
  spec_InsecureSkipTLSVerify : bool;
  RequestTimeout : option Z
}.

Record KMPIssuer := MkKMPIssuer { iss_Name : NamespacedName; iss_Spec : IssuerSpec }.
Record KMPClusterIssuer := MkKMPClusterIssuer { ciss_Name : string; ciss_Spec : IssuerSpec }.

(** What [GetIssuerTypeIdentifier] returns. *)
Definition KMPIssuer_GetIssuerTypeIdentifier : string := "kmpissuers.kmp.cert-manager.io".
Definition KMPClusterIssuer_GetIssuerTypeIdentifier : string := "kmpclusterissuers.kmp.cert-manager.io".

(** ** Certificates *)

Record IssuerReference := MkIssuerReference { ref_Name : string; ref_Kind : string }.

Record CertificateSubject := MkCertificateSubject {
  sub_Organization : string;
  sub_OrganizationalUnit : string;
  sub_Locality : string;
  sub_Province : string;
  sub_Country : string
}.

Record PrivateKeySpec := MkPrivateKeySpec {
  pk_Algorithm : string;
  pk_Size : option Z;
  pk_SignatureAlgorithm : string;
  pk_StoreType : string
}.

Record SecretKeySelector := MkSecretKeySelector { sel_Name : string; sel_Key : string }.

Record KMPCertificateSpec := MkKMPCertificateSpec {
  SecretName : string;
  IssuerRef : IssuerReference;
  cert_CommonName : string;
  cert_DNSNames : list string;
  cert_IPAddresses : list string;
  cert_Subject : CertificateSubject;
  cert_PrivateKey : PrivateKeySpec;
  cert_ValidityDays : option Z;
  cert_ValidityType : string;
  RenewBefore : option Z;
  KeyStorePasswordSecretRef : option SecretKeySelector
}.

(** [metav1.Condition]; the status is [True], [False] or [Unknown]. *)
Record Condition := MkCondition {
  cond_Type : string;
  cond_Status : string;
  cond_Reason : string;
  cond_Message : string;
  cond_ObservedGeneration : Z;
  cond_LastTransitionTime : Z
}.

#[export] Instance Condition_eq_dec : EqDecision Condition.
Proof. solve_decision. Defined.

Record KMPCertificateStatus := MkKMPCertificateStatus {
  Conditions : list Condition;
  st_SerialNumber : string;
  st_CSRID : string;
  st_NotBefore : option Z;
  st_NotAfter : option Z;
  st_RenewalTime : option Z
}.

#[export] Instance KMPCertificateStatus_eq_dec : EqDecision KMPCertificateStatus.
Proof. solve_decision. Defined.

Record KMPCertificate := MkKMPCertificate {
  cert_Name : NamespacedName;
  cert_Generation : Z;
  cert_DeletionTimestamp : option Z;
  cert_Spec : KMPCertificateSpec;
  cert_Status : KMPCertificateStatus
}.

Definition with_status (c : KMPCertificate) (st : KMPCertificateStatus) : KMPCertificate :=
  MkKMPCertificate (cert_Name c) (cert_Generation c) (cert_DeletionTimestamp c) (cert_Spec c) st.

(** ** Registration *)

(** The types of the group, which [addKnownTypes] registers. *)
Inductive kind :=
| KMPCertificateKind | KMPCertificateListKind
| KMPClusterIssuerKind | KMPClusterIssuerListKind
| KMPIssuerKind | KMPIssuerListKind.

#[export] Instance kind_eq_dec : EqDecision kind.
Proof. solve_decision. Defined.

Record GroupVersion := MkGroupVersion { gv_Group : string; gv_Version : string }.

Definition SchemeGroupVersion : GroupVersion := MkGroupVersion "kmp.cert-manager.io" "v1alpha1".

(** A scheme: the types it knows, by group and version.  Registration also adds
    the types every group has ([metav1.AddToGroupVersion]). *)
Notation scheme := (list (GroupVersion * kind)) (only parsing).

Definition addKnownTypes (known : scheme) : scheme :=
  known ++ (pair SchemeGroupVersion <$>
    [KMPCertificateKind; KMPCertificateListKind; KMPClusterIssuerKind; KMPClusterIssuerListKind;
     KMPIssuerKind; KMPIssuerListKind]).

(** [secret.Data[key]] of a [map[string][]byte]; a missing key is empty. *)
Notation secret_data := (list (string * string)).
Definition data_get (key : string) (data : secret_data) : string := default "" (map_get key data).

(** [metav1.OwnerReference]: the API group, the kind and the name of an owner, and
    whether it is the controller. *)
Record OwnerReference := MkOwnerReference {
  owner_Group : string;
  owner_Kind : string;
  owner_Name : string;
  owner_Controller : bool
}.

#[export] Instance OwnerReference_eq_dec : EqDecision OwnerReference.
Proof. solve_decision. Defined.

(** [corev1.Secret]: its type, its data and its owner references. *)
Record Secret := MkSecret {
  sec_Type : string;
  sec_Data : secret_data;
  sec_Owners : list OwnerReference
}.

(** The reference names the resource. *)
Definition refers_to (c : KMPCertificate) (o : OwnerReference) : Prop :=
  owner_Group o = gv_Group SchemeGroupVersion ∧ owner_Kind o = "KMPCertificate" ∧ owner_Name o = ObjName (cert_Name c).

#[export] Instance refers_to_dec c o : Decision (refers_to c o).
Proof. unfold refers_to. apply _. Defined.

(** The Secret is controlled by the resource; by some other object. *)
Definition controlled_by (c : KMPCertificate) (s : Secret) : Prop :=
  ∃ o, o ∈ sec_Owners s ∧ owner_Controller o = true ∧ refers_to c o.
Definition controlled_by_other (c : KMPCertificate) (s : Secret) : Prop :=
  ∃ o, o ∈ sec_Owners s ∧ owner_Controller o = true ∧ ¬ refers_to c o.
