(* ===== verification/DeepCopy.v ===== *)
(** * [api/v1alpha1/zz_generated.deepcopy.go]: the resources in memory

    The structs of the API with the pointers and slices Go gives them, each with
    its generated [DeepCopyInto], and what they denote: the records of Api.v
    where the controllers have one.  [metav1.ObjectMeta], [metav1.ListMeta] and
    issuer-lib's [IssuerStatus] bring their own deep copies. *)

From S2P Require Import Prelude GoStrings GoAny Api GoHeap.
From stdpp Require Import gmap.
Local Open Scope go_scope.

(** ** The structs *)

Record TypeMeta := MkTypeMeta { tm_Kind : string; tm_APIVersion : string }.

(** The types of other packages; issuer-lib keeps the conditions of an issuer. *)
Class MetaTypes := {
  ObjectMeta : Type;
  ListMeta : Type;
  IssuerStatus : Type;
  IssuerStatus_Conditions : IssuerStatus → option array
}.

Record pSigningSpec := MkpSigningSpec {
  psig_SignType : string;
  psig_ServerName : string;
  psig_CAName : string;
  psig_TemplateName : string;
  psig_AgentName : string;
  psig_AgentResponseTimeoutSeconds : option loc;
  psig_RootCertificateCommonName : string;
  psig_RootCertificateSerialNumber : string;
  psig_ValidityDays : option loc;
  psig_IsIntermediate : option loc;
  psig_Email : string;
  psig_CSRLookupOperation : string
}.

Record pIssuerSpec := MkpIssuerSpec {
  pspec_URL : string;
  pspec_AuthSecretName : string;
  pspec_Signing : pSigningSpec;
  pspec_InsecureSkipTLSVerify : bool;
  pspec_RequestTimeout : option loc
}.

Record pPrivateKeySpec := MkpPrivateKeySpec {
  ppk_Algorithm : string;
  ppk_Size : option loc;
  ppk_SignatureAlgorithm : string;
  ppk_StoreType : string
}.

Record pKMPCertificateSpec := MkpKMPCertificateSpec {
  pcert_SecretName : string;
  pcert_IssuerRef : IssuerReference;
  pcert_CommonName : string;
  pcert_DNSNames : option array;
  pcert_IPAddresses : option array;
  pcert_Subject : CertificateSubject;
  pcert_PrivateKey : pPrivateKeySpec;
  pcert_ValidityDays : option loc;
  pcert_ValidityType : string;
  pcert_RenewBefore : option loc;
  pcert_KeyStorePasswordSecretRef : option loc
}.

Record pKMPCertificateStatus := MkpKMPCertificateStatus {
  pst_Conditions : option array;
  pst_SerialNumber : string;
  pst_CSRID : string;
  pst_NotBefore : option loc;
  pst_NotAfter : option loc;
  pst_RenewalTime : option loc
}.

(** An object of the API: [Status] is the issuers' or the certificates'. *)
Record object (M Spec Status : Type) := MkObject {
  obj_TypeMeta : TypeMeta;
  obj_ObjectMeta : M;
  obj_Spec : Spec;
  obj_Status : Status
}.
Arguments MkObject {M Spec Status}.
Arguments obj_TypeMeta {M Spec Status}.
Arguments obj_ObjectMeta {M Spec Status}.
Arguments obj_Spec {M Spec Status}.
Arguments obj_Status {M Spec Status}.

(** A list of objects; its items are in an array. *)
Record object_list (L Items : Type) := MkObjectList {
  list_TypeMeta : TypeMeta;
  list_ListMeta : L;
  list_Items : Items
}.
Arguments MkObjectList {L Items}.
Arguments list_TypeMeta {L Items}.
Arguments list_ListMeta {L Items}.
Arguments list_Items {L Items}.

Section values.
Context `{MetaTypes}.

Definition pKMPIssuer : Type := object ObjectMeta pIssuerSpec IssuerStatus.
Definition pKMPCertificate : Type := object ObjectMeta pKMPCertificateSpec pKMPCertificateStatus.
Definition pList : Type := object_list ListMeta (option array).

(** The conditions issuer-lib reads: the slice itself, not a copy. *)
Definition KMPIssuer_GetConditions (vi : pKMPIssuer) : option array := IssuerStatus_Conditions (obj_Status vi).
Definition KMPClusterIssuer_GetConditions (vi : pKMPIssuer) : option array :=
  IssuerStatus_Conditions (obj_Status vi).

(** What the variables and array elements of these types hold; the two kinds of
    issuer have the same fields. *)
Inductive value :=
| VInt32 (z : Z)
| VBool (b : bool)
| VDuration (z : Z)
| VTime (z : Z)
| VString (s : string)
| VSelector (s : SecretKeySelector)
| VCondition (c : Condition)
| VIssuer (i : pKMPIssuer)
| VClusterIssuer (i : pKMPIssuer)
| VCertificate (c : pKMPCertificate).

Definition int32_cell : Storable value Z.
Proof. by refine {| inject := VInt32; project v := match v with VInt32 z => Some z | _ => None end |}. Defined.
Definition duration_cell : Storable value Z.
Proof. by refine {| inject := VDuration; project v := match v with VDuration z => Some z | _ => None end |}. Defined.
Definition time_cell : Storable value Z.
Proof. by refine {| inject := VTime; project v := match v with VTime z => Some z | _ => None end |}. Defined.
#[export] Instance bool_cell : Storable value bool.
Proof. by refine {| inject := VBool; project v := match v with VBool z => Some z | _ => None end |}. Defined.
#[export] Instance string_cell : Storable value string.
Proof. by refine {| inject := VString; project v := match v with VString z => Some z | _ => None end |}. Defined.
#[export] Instance selector_cell : Storable value SecretKeySelector.
Proof. by refine {| inject := VSelector; project v := match v with VSelector z => Some z | _ => None end |}. Defined.
#[export] Instance condition_cell : Storable value Condition.
Proof. by refine {| inject := VCondition; project v := match v with VCondition z => Some z | _ => None end |}. Defined.
Definition issuer_cell : Storable value pKMPIssuer.
Proof. by refine {| inject := VIssuer; project v := match v with VIssuer z => Some z | _ => None end |}. Defined.
Definition cluster_issuer_cell : Storable value pKMPIssuer.
Proof. by refine {| inject := VClusterIssuer; project v := match v with VClusterIssuer z => Some z | _ => None end |}. Defined.
#[export] Instance certificate_cell : Storable value pKMPCertificate.
Proof. by refine {| inject := VCertificate; project v := match v with VCertificate z => Some z | _ => None end |}. Defined.
End values.

(** The deep copies of other packages. *)
Class MetaCopies `{MetaTypes} := {
  ObjectMeta_value : Type;
  ObjectMeta_view : heap value → ObjectMeta → option ObjectMeta_value;
  ObjectMeta_footprint : heap value → ObjectMeta → gset loc;
  ObjectMeta_DeepCopyInto : ObjectMeta → mem value ObjectMeta;
  #[global] ObjectMeta_copies :: DeepCopies ObjectMeta_view ObjectMeta_footprint ObjectMeta_DeepCopyInto;
  ListMeta_value : Type;
  ListMeta_view : heap value → ListMeta → option ListMeta_value;
  ListMeta_footprint : heap value → ListMeta → gset loc;
  ListMeta_DeepCopyInto : ListMeta → mem value ListMeta;
  #[global] ListMeta_copies :: DeepCopies ListMeta_view ListMeta_footprint ListMeta_DeepCopyInto;
  IssuerStatus_value : Type;
  IssuerStatus_view : heap value → IssuerStatus → option IssuerStatus_value;
  IssuerStatus_footprint : heap value → IssuerStatus → gset loc;
  IssuerStatus_DeepCopyInto : IssuerStatus → mem value IssuerStatus;
  #[global] IssuerStatus_copies ::
    DeepCopies IssuerStatus_view IssuerStatus_footprint IssuerStatus_DeepCopyInto;
  (** the zero values *)
  zero_ObjectMeta : ObjectMeta;
  zero_IssuerStatus : IssuerStatus
}.

(** [func (in *T) DeepCopy() *T]: nil for nil, else a new [T] copied into. *)
Definition deep_copy_of {V T} (into : T → mem V T) (p : option T) : mem V (option T) :=
  match p with
  | None => mem_ret None
  | Some src => let% out := into src in mem_ret (Some out)
  end.

Section deepcopy.
Context `{MetaCopies}.

(** ** Specs and statuses *)

Definition copy_int32 : option loc → mem value (option loc) := @pointer_copy _ _ int32_cell.
Definition copy_duration : option loc → mem value (option loc) := @pointer_copy _ _ duration_cell.
Definition copy_time : option loc → mem value (option loc) := @pointer_copy _ _ time_cell.
Definition copy_bool : option loc → mem value (option loc) := pointer_copy (A := bool).
Definition copy_selector : option loc → mem value (option loc) := pointer_copy (A := SecretKeySelector).
Definition copy_strings : option array → mem value (option array) := slice_copy (A := string) "".

Definition put_signing (s : pSigningSpec) (t : option loc * (option loc * option loc)) : pSigningSpec :=
  MkpSigningSpec (psig_SignType s) (psig_ServerName s) (psig_CAName s) (psig_TemplateName s)
    (psig_AgentName s) t.1 (psig_RootCertificateCommonName s) (psig_RootCertificateSerialNumber s)
    t.2.1 t.2.2 (psig_Email s) (psig_CSRLookupOperation s).

Definition SigningSpec_DeepCopyInto (src : pSigningSpec) : mem value pSigningSpec :=
  let% timeout := copy_int32 (psig_AgentResponseTimeoutSeconds src) in
  let% days := copy_int32 (psig_ValidityDays src) in
  let% intermediate := copy_bool (psig_IsIntermediate src) in
  mem_ret (put_signing src (timeout, (days, intermediate))).

Definition put_issuer_spec (s : pIssuerSpec) (t : pSigningSpec * option loc) : pIssuerSpec :=
  MkpIssuerSpec (pspec_URL s) (pspec_AuthSecretName s) t.1 (pspec_InsecureSkipTLSVerify s) t.2.

Definition IssuerSpec_DeepCopyInto (src : pIssuerSpec) : mem value pIssuerSpec :=
  let% signing := SigningSpec_DeepCopyInto (pspec_Signing src) in
  let% timeout := copy_duration (pspec_RequestTimeout src) in
  mem_ret (put_issuer_spec src (signing, timeout)).

Definition CertificateSubject_DeepCopyInto (src : CertificateSubject) : mem value CertificateSubject :=
  mem_ret src.
Definition IssuerReference_DeepCopyInto (src : IssuerReference) : mem value IssuerReference :=
  mem_ret src.
Definition SecretKeySelector_DeepCopyInto (src : SecretKeySelector) : mem value SecretKeySelector :=
  mem_ret src.

Definition put_private_key (s : pPrivateKeySpec) (size : option loc) : pPrivateKeySpec :=
  MkpPrivateKeySpec (ppk_Algorithm s) size (ppk_SignatureAlgorithm s) (ppk_StoreType s).

Definition PrivateKeySpec_DeepCopyInto (src : pPrivateKeySpec) : mem value pPrivateKeySpec :=
  let% size := copy_int32 (ppk_Size src) in
  mem_ret (put_private_key src size).

Definition put_certificate_spec (s : pKMPCertificateSpec)
    (t : option array * (option array * (pPrivateKeySpec * (option loc * (option loc * option loc)))))
  : pKMPCertificateSpec :=
  let '(dns, (ips, (key, (days, (renew, ref))))) := t in
  MkpKMPCertificateSpec (pcert_SecretName s) (pcert_IssuerRef s) (pcert_CommonName s) dns ips
    (pcert_Subject s) key days (pcert_ValidityType s) renew ref.

Definition KMPCertificateSpec_DeepCopyInto (src : pKMPCertificateSpec) : mem value pKMPCertificateSpec :=
  let% dns := copy_strings (pcert_DNSNames src) in
  let% ips := copy_strings (pcert_IPAddresses src) in
  let% key := PrivateKeySpec_DeepCopyInto (pcert_PrivateKey src) in
  let% days := copy_int32 (pcert_ValidityDays src) in
  let% renew := copy_duration (pcert_RenewBefore src) in
  let% ref := copy_selector (pcert_KeyStorePasswordSecretRef src) in
  mem_ret (put_certificate_spec src (dns, (ips, (key, (days, (renew, ref)))))).

Definition zero_condition : Condition := MkCondition "" "" "" "" 0 0.

(** The loop over the conditions; [Condition.DeepCopyInto] copies the struct. *)
Definition copy_conditions : option array → mem value (option array) :=
  items_copy (T := Condition) mem_ret zero_condition.

Definition put_certificate_status (s : pKMPCertificateStatus)
    (t : option array * (option loc * (option loc * option loc))) : pKMPCertificateStatus :=
  let '(conditions, (before, (after, renewal))) := t in
  MkpKMPCertificateStatus conditions (pst_SerialNumber s) (pst_CSRID s) before after renewal.

Definition KMPCertificateStatus_DeepCopyInto (src : pKMPCertificateStatus)
  : mem value pKMPCertificateStatus :=
  let% conditions := copy_conditions (pst_Conditions src) in
  let% before := copy_time (pst_NotBefore src) in
  let% after := copy_time (pst_NotAfter src) in
  let% renewal := copy_time (pst_RenewalTime src) in
  mem_ret (put_certificate_status src (conditions, (before, (after, renewal)))).

(** ** Objects and lists *)

Definition put_object {M Spec Status} (o : object M Spec Status) (t : M * (Spec * Status))
  : object M Spec Status :=
  MkObject (obj_TypeMeta o) t.1 t.2.1 t.2.2.

Definition KMPIssuer_DeepCopyInto (src : pKMPIssuer) : mem value pKMPIssuer :=
  let% meta := ObjectMeta_DeepCopyInto (obj_ObjectMeta src) in
  let% spec := IssuerSpec_DeepCopyInto (obj_Spec src) in
  let% status := IssuerStatus_DeepCopyInto (obj_Status src) in
  mem_ret (put_object src (meta, (spec, status))).

Definition KMPClusterIssuer_DeepCopyInto (src : pKMPIssuer) : mem value pKMPIssuer :=
  let% meta := ObjectMeta_DeepCopyInto (obj_ObjectMeta src) in
  let% spec := IssuerSpec_DeepCopyInto (obj_Spec src) in
  let% status := IssuerStatus_DeepCopyInto (obj_Status src) in
  mem_ret (put_object src (meta, (spec, status))).

Definition KMPCertificate_DeepCopyInto (src : pKMPCertificate) : mem value pKMPCertificate :=
  let% meta := ObjectMeta_DeepCopyInto (obj_ObjectMeta src) in
  let% spec := KMPCertificateSpec_DeepCopyInto (obj_Spec src) in
  let% status := KMPCertificateStatus_DeepCopyInto (obj_Status src) in
  mem_ret (put_object src (meta, (spec, status))).

Definition put_list (l : pList) (t : ListMeta * option array) : pList :=
  MkObjectList (list_TypeMeta l) t.1 t.2.

(** The zero values [make] fills arrays with. *)
Definition zero_issuer : pKMPIssuer :=
  MkObject (MkTypeMeta "" "") zero_ObjectMeta
    (MkpIssuerSpec "" "" (MkpSigningSpec "" "" "" "" "" None "" "" None None "" "") false None)
    zero_IssuerStatus.
Definition zero_certificate : pKMPCertificate :=
  MkObject (MkTypeMeta "" "") zero_ObjectMeta
    (MkpKMPCertificateSpec "" (MkIssuerReference "" "") "" None None (MkCertificateSubject "" "" "" "" "")
       (MkpPrivateKeySpec "" None "" "") None "" None None)
    (MkpKMPCertificateStatus None "" "" None None None).

Definition KMPIssuerList_DeepCopyInto (src : pList) : mem value pList :=
  let% meta := ListMeta_DeepCopyInto (list_ListMeta src) in
  let% items := @items_copy _ _ issuer_cell KMPIssuer_DeepCopyInto zero_issuer (list_Items src) in
  mem_ret (put_list src (meta, items)).

Definition KMPClusterIssuerList_DeepCopyInto (src : pList) : mem value pList :=
  let% meta := ListMeta_DeepCopyInto (list_ListMeta src) in
  let% items := @items_copy _ _ cluster_issuer_cell KMPClusterIssuer_DeepCopyInto zero_issuer (list_Items src) in
  mem_ret (put_list src (meta, items)).

Definition KMPCertificateList_DeepCopyInto (src : pList) : mem value pList :=
  let% meta := ListMeta_DeepCopyInto (list_ListMeta src) in
  let% items := items_copy KMPCertificate_DeepCopyInto zero_certificate (list_Items src) in
  mem_ret (put_list src (meta, items)).

(** ** [DeepCopy] and [DeepCopyObject] *)

Definition SigningSpec_DeepCopy := deep_copy_of SigningSpec_DeepCopyInto.
Definition IssuerSpec_DeepCopy := deep_copy_of IssuerSpec_DeepCopyInto.
Definition CertificateSubject_DeepCopy := deep_copy_of CertificateSubject_DeepCopyInto.
Definition IssuerReference_DeepCopy := deep_copy_of IssuerReference_DeepCopyInto.
Definition SecretKeySelector_DeepCopy := deep_copy_of SecretKeySelector_DeepCopyInto.
Definition PrivateKeySpec_DeepCopy := deep_copy_of PrivateKeySpec_DeepCopyInto.
Definition KMPCertificateSpec_DeepCopy := deep_copy_of KMPCertificateSpec_DeepCopyInto.
Definition KMPCertificateStatus_DeepCopy := deep_copy_of KMPCertificateStatus_DeepCopyInto.
Definition KMPIssuer_DeepCopy := deep_copy_of KMPIssuer_DeepCopyInto.
Definition KMPClusterIssuer_DeepCopy := deep_copy_of KMPClusterIssuer_DeepCopyInto.
Definition KMPCertificate_DeepCopy := deep_copy_of KMPCertificate_DeepCopyInto.
Definition KMPIssuerList_DeepCopy := deep_copy_of KMPIssuerList_DeepCopyInto.
Definition KMPClusterIssuerList_DeepCopy := deep_copy_of KMPClusterIssuerList_DeepCopyInto.
Definition KMPCertificateList_DeepCopy := deep_copy_of KMPCertificateList_DeepCopyInto.

(** [runtime.Object]: the interface holds a dynamic type and a pointer of it. A
    nil interface is [None]; an interface that holds a nil pointer is not. *)
Inductive runtime_object :=
| KMPIssuerObject (p : option pKMPIssuer)
| KMPClusterIssuerObject (p : option pKMPIssuer)
| KMPCertificateObject (p : option pKMPCertificate)
| KMPIssuerListObject (p : option pList)
| KMPClusterIssuerListObject (p : option pList)
| KMPCertificateListObject (p : option pList).

(** [if c := in.DeepCopy(); c != nil { return c }; return nil] *)
Definition copy_object {T} (copy : option T → mem value (option T)) (wrap : option T → runtime_object)
    (p : option T) : mem value (option runtime_object) :=
  let% c := copy p in
  match c with
  | Some _ => mem_ret (Some (wrap c))
  | None => mem_ret None
  end.

Definition KMPIssuer_DeepCopyObject := copy_object KMPIssuer_DeepCopy KMPIssuerObject.
Definition KMPClusterIssuer_DeepCopyObject :=
  copy_object KMPClusterIssuer_DeepCopy KMPClusterIssuerObject.
Definition KMPCertificate_DeepCopyObject := copy_object KMPCertificate_DeepCopy KMPCertificateObject.
Definition KMPIssuerList_DeepCopyObject := copy_object KMPIssuerList_DeepCopy KMPIssuerListObject.
Definition KMPClusterIssuerList_DeepCopyObject :=
  copy_object KMPClusterIssuerList_DeepCopy KMPClusterIssuerListObject.
Definition KMPCertificateList_DeepCopyObject :=
  copy_object KMPCertificateList_DeepCopy KMPCertificateListObject.

(** The interface's method. *)
Definition DeepCopyObject (o : runtime_object) : mem value (option runtime_object) :=
  match o with
  | KMPIssuerObject p => KMPIssuer_DeepCopyObject p
  | KMPClusterIssuerObject p => KMPClusterIssuer_DeepCopyObject p
  | KMPCertificateObject p => KMPCertificate_DeepCopyObject p
  | KMPIssuerListObject p => KMPIssuerList_DeepCopyObject p
  | KMPClusterIssuerListObject p => KMPClusterIssuerList_DeepCopyObject p
  | KMPCertificateListObject p => KMPCertificateList_DeepCopyObject p
  end.
End deepcopy.

(** ** What the structs denote *)

Section views.
Context `{MetaCopies}.

Definition int32_view : heap value → option loc → option (option Z) := @pointer_view _ _ int32_cell.
Definition duration_view : heap value → option loc → option (option Z) := @pointer_view _ _ duration_cell.
Definition time_view : heap value → option loc → option (option Z) := @pointer_view _ _ time_cell.
Definition bool_view : heap value → option loc → option (option bool) := pointer_view.
Definition selector_view : heap value → option loc → option (option SecretKeySelector) := pointer_view.
Definition strings_view : heap value → option array → option (list string) := slice_view.
Definition conditions_view : heap value → option array → option (list Condition) := items_view plain_view.
Definition pointer_fp : heap value → option loc → gset loc := pointer_footprint.
Definition strings_fp : heap value → option array → gset loc := slice_footprint (A := string).
Definition conditions_fp : heap value → option array → gset loc :=
  items_footprint (T := Condition) plain_footprint.

#[local] Instance int32_copies : DeepCopies int32_view pointer_fp copy_int32.
Proof. apply pointer_copies. Qed.
#[local] Instance duration_copies : DeepCopies duration_view pointer_fp copy_duration.
Proof. apply pointer_copies. Qed.
#[local] Instance time_copies : DeepCopies time_view pointer_fp copy_time.
Proof. apply pointer_copies. Qed.
#[local] Instance bool_copies : DeepCopies bool_view pointer_fp copy_bool.
Proof. apply pointer_copies. Qed.
#[local] Instance selector_copies : DeepCopies selector_view pointer_fp copy_selector.
Proof. apply pointer_copies. Qed.
#[local] Instance strings_copies : DeepCopies strings_view strings_fp copy_strings.
Proof. apply slice_copies. Qed.
#[export] Instance conditions_copies : DeepCopies conditions_view conditions_fp copy_conditions.
Proof. apply items_copies, plain_copies. Qed.

(** The copy of nested pairs copies their parts. *)
Ltac deep_copies := repeat first [eapply pair_copies | solve [apply _]].

(** A [DeepCopyInto] follows the fields with pointers in order. *)
Tactic Notation "copies_fields" constr(put) reference(into) :=
  match goal with |- DeepCopies ?v ?f ?c =>
    let v := eval red in v in let f := eval red in f in change (DeepCopies v f c) end;
  match goal with
  | |- DeepCopies (struct_view ?fields ?build ?view) (struct_footprint _ ?fp) _ =>
    let E := fresh in
    eassert (DeepCopies view fp _) as E by deep_copies;
    apply (struct_copies fields put build view fp _ (DeepCopies0 := E));
    [by intros; repeat match goal with t : prod _ _ |- _ => destruct t end
    |by intros; repeat match goal with t : prod _ _ |- _ => destruct t end
    |intros s h; unfold into, pair_copy, mem_bind, mem_ret; simpl; repeat (case_match; simplify_eq/=); done]
  end.

Definition signing_fields (s : pSigningSpec) :=
  (psig_AgentResponseTimeoutSeconds s, (psig_ValidityDays s, psig_IsIntermediate s)).
Definition signing_of (s : pSigningSpec) (u : option Z * (option Z * option bool)) : SigningSpec :=
  MkSigningSpec (psig_SignType s) (psig_ServerName s) (psig_CAName s) (psig_TemplateName s)
    (psig_AgentName s) u.1 (psig_RootCertificateCommonName s) (psig_RootCertificateSerialNumber s)
    u.2.1 u.2.2 (psig_Email s) (psig_CSRLookupOperation s).
Definition SigningSpec_view :=
  struct_view signing_fields signing_of (pair_view int32_view (pair_view int32_view bool_view)).
Definition SigningSpec_fp :=
  struct_footprint signing_fields (pair_footprint pointer_fp (pair_footprint pointer_fp pointer_fp)).
#[export] Instance SigningSpec_copies : DeepCopies SigningSpec_view SigningSpec_fp SigningSpec_DeepCopyInto.
Proof. copies_fields put_signing SigningSpec_DeepCopyInto. Qed.

Definition issuer_fields (s : pIssuerSpec) := (pspec_Signing s, pspec_RequestTimeout s).
Definition issuer_of (s : pIssuerSpec) (u : SigningSpec * option Z) : IssuerSpec :=
  MkIssuerSpec (pspec_URL s) (pspec_AuthSecretName s) u.1 (pspec_InsecureSkipTLSVerify s) u.2.
Definition IssuerSpec_view := struct_view issuer_fields issuer_of (pair_view SigningSpec_view duration_view).
Definition IssuerSpec_fp := struct_footprint issuer_fields (pair_footprint SigningSpec_fp pointer_fp).
#[export] Instance IssuerSpec_copies : DeepCopies IssuerSpec_view IssuerSpec_fp IssuerSpec_DeepCopyInto.
Proof. copies_fields put_issuer_spec IssuerSpec_DeepCopyInto. Qed.

Definition private_key_of (s : pPrivateKeySpec) (size : option Z) : PrivateKeySpec :=
  MkPrivateKeySpec (ppk_Algorithm s) size (ppk_SignatureAlgorithm s) (ppk_StoreType s).
Definition PrivateKeySpec_view := struct_view ppk_Size private_key_of int32_view.
Definition PrivateKeySpec_fp := struct_footprint ppk_Size pointer_fp.
#[export] Instance PrivateKeySpec_copies :
  DeepCopies PrivateKeySpec_view PrivateKeySpec_fp PrivateKeySpec_DeepCopyInto.
Proof. copies_fields put_private_key PrivateKeySpec_DeepCopyInto. Qed.

Definition certificate_fields (s : pKMPCertificateSpec) :=
  (pcert_DNSNames s, (pcert_IPAddresses s, (pcert_PrivateKey s,
    (pcert_ValidityDays s, (pcert_RenewBefore s, pcert_KeyStorePasswordSecretRef s))))).
Definition certificate_of (s : pKMPCertificateSpec)
    (u : list string * (list string * (PrivateKeySpec * (option Z * (option Z * option SecretKeySelector)))))
  : KMPCertificateSpec :=
  let '(dns, (ips, (key, (days, (renew, ref))))) := u in
  MkKMPCertificateSpec (pcert_SecretName s) (pcert_IssuerRef s) (pcert_CommonName s) dns ips
    (pcert_Subject s) key days (pcert_ValidityType s) renew ref.
Definition KMPCertificateSpec_view :=
  struct_view certificate_fields certificate_of
    (pair_view strings_view (pair_view strings_view (pair_view PrivateKeySpec_view
      (pair_view int32_view (pair_view duration_view selector_view))))).
Definition KMPCertificateSpec_fp :=
  struct_footprint certificate_fields
    (pair_footprint strings_fp (pair_footprint strings_fp (pair_footprint PrivateKeySpec_fp
      (pair_footprint pointer_fp (pair_footprint pointer_fp pointer_fp))))).
#[export] Instance KMPCertificateSpec_copies :
  DeepCopies KMPCertificateSpec_view KMPCertificateSpec_fp KMPCertificateSpec_DeepCopyInto.
Proof. copies_fields put_certificate_spec KMPCertificateSpec_DeepCopyInto. Qed.

Definition status_fields (s : pKMPCertificateStatus) :=
  (pst_Conditions s, (pst_NotBefore s, (pst_NotAfter s, pst_RenewalTime s))).
Definition status_of (s : pKMPCertificateStatus)
    (u : list Condition * (option Z * (option Z * option Z))) : KMPCertificateStatus :=
  let '(conditions, (before, (after, renewal))) := u in
  MkKMPCertificateStatus conditions (pst_SerialNumber s) (pst_CSRID s) before after renewal.
Definition KMPCertificateStatus_view :=
  struct_view status_fields status_of
    (pair_view conditions_view (pair_view time_view (pair_view time_view time_view))).
Definition KMPCertificateStatus_fp :=
  struct_footprint status_fields
    (pair_footprint conditions_fp (pair_footprint pointer_fp (pair_footprint pointer_fp pointer_fp))).
#[export] Instance KMPCertificateStatus_copies :
  DeepCopies KMPCertificateStatus_view KMPCertificateStatus_fp KMPCertificateStatus_DeepCopyInto.
Proof. copies_fields put_certificate_status KMPCertificateStatus_DeepCopyInto. Qed.

(** *** Objects and lists *)

Definition object_fields {M Spec Status} (o : object M Spec Status) : M * (Spec * Status) :=
  (obj_ObjectMeta o, (obj_Spec o, obj_Status o)).
Definition object_of {M Spec Status M' Spec' Status'} (o : object M Spec Status)
    (u : M' * (Spec' * Status')) : object M' Spec' Status' :=
  MkObject (obj_TypeMeta o) u.1 u.2.1 u.2.2.
Definition list_fields (l : pList) := (list_ListMeta l, list_Items l).
Definition list_of {L U} (l : pList) (u : L * U) : object_list L U :=
  MkObjectList (list_TypeMeta l) u.1 u.2.

Definition KMPIssuer_view :=
  struct_view (S := pKMPIssuer) object_fields object_of
    (pair_view ObjectMeta_view (pair_view IssuerSpec_view IssuerStatus_view)).
Definition KMPIssuer_fp :=
  struct_footprint (S := pKMPIssuer) object_fields
    (pair_footprint ObjectMeta_footprint (pair_footprint IssuerSpec_fp IssuerStatus_footprint)).
#[export] Instance KMPIssuer_copies : DeepCopies KMPIssuer_view KMPIssuer_fp KMPIssuer_DeepCopyInto.
Proof. copies_fields (@put_object ObjectMeta pIssuerSpec IssuerStatus) KMPIssuer_DeepCopyInto. Qed.
#[export] Instance KMPClusterIssuer_copies :
  DeepCopies KMPIssuer_view KMPIssuer_fp KMPClusterIssuer_DeepCopyInto.
Proof. apply KMPIssuer_copies. Qed.

Definition KMPCertificate_view :=
  struct_view (S := pKMPCertificate) object_fields object_of
    (pair_view ObjectMeta_view (pair_view KMPCertificateSpec_view KMPCertificateStatus_view)).
Definition KMPCertificate_fp :=
  struct_footprint (S := pKMPCertificate) object_fields
    (pair_footprint ObjectMeta_footprint (pair_footprint KMPCertificateSpec_fp KMPCertificateStatus_fp)).
#[export] Instance KMPCertificate_copies :
  DeepCopies KMPCertificate_view KMPCertificate_fp KMPCertificate_DeepCopyInto.
Proof.
  copies_fields (@put_object ObjectMeta pKMPCertificateSpec pKMPCertificateStatus) KMPCertificate_DeepCopyInto.
Qed.

#[local] Instance KMPIssuer_items_copies :
  DeepCopies (@items_view _ _ _ issuer_cell KMPIssuer_view) (@items_footprint _ _ issuer_cell KMPIssuer_fp)
    (@items_copy _ _ issuer_cell KMPIssuer_DeepCopyInto zero_issuer).
Proof. apply items_copies, KMPIssuer_copies. Qed.
Definition KMPIssuerList_view :=
  struct_view list_fields list_of (pair_view ListMeta_view (@items_view _ _ _ issuer_cell KMPIssuer_view)).
Definition KMPIssuerList_fp :=
  struct_footprint list_fields
    (pair_footprint ListMeta_footprint (@items_footprint _ _ issuer_cell KMPIssuer_fp)).
#[export] Instance KMPIssuerList_copies :
  DeepCopies KMPIssuerList_view KMPIssuerList_fp KMPIssuerList_DeepCopyInto.
Proof. copies_fields put_list KMPIssuerList_DeepCopyInto. Qed.

#[local] Instance KMPClusterIssuer_items_copies :
  DeepCopies (@items_view _ _ _ cluster_issuer_cell KMPIssuer_view) (@items_footprint _ _ cluster_issuer_cell KMPIssuer_fp)
    (@items_copy _ _ cluster_issuer_cell KMPClusterIssuer_DeepCopyInto zero_issuer).
Proof. apply items_copies, KMPClusterIssuer_copies. Qed.
Definition KMPClusterIssuerList_view :=
  struct_view list_fields list_of (pair_view ListMeta_view (@items_view _ _ _ cluster_issuer_cell KMPIssuer_view)).
Definition KMPClusterIssuerList_fp :=
  struct_footprint list_fields
    (pair_footprint ListMeta_footprint (@items_footprint _ _ cluster_issuer_cell KMPIssuer_fp)).
#[export] Instance KMPClusterIssuerList_copies :
  DeepCopies KMPClusterIssuerList_view KMPClusterIssuerList_fp KMPClusterIssuerList_DeepCopyInto.
Proof. copies_fields put_list KMPClusterIssuerList_DeepCopyInto. Qed.

#[local] Instance KMPCertificate_items_copies :
  DeepCopies (@items_view _ _ _ certificate_cell KMPCertificate_view) (@items_footprint _ _ certificate_cell KMPCertificate_fp)
    (@items_copy _ _ certificate_cell KMPCertificate_DeepCopyInto zero_certificate).
Proof. apply items_copies, KMPCertificate_copies. Qed.
Definition KMPCertificateList_view :=
  struct_view list_fields list_of (pair_view ListMeta_view (@items_view _ _ _ certificate_cell KMPCertificate_view)).
Definition KMPCertificateList_fp :=
  struct_footprint list_fields
    (pair_footprint ListMeta_footprint (@items_footprint _ _ certificate_cell KMPCertificate_fp)).
#[export] Instance KMPCertificateList_copies :
  DeepCopies KMPCertificateList_view KMPCertificateList_fp KMPCertificateList_DeepCopyInto.
Proof. copies_fields put_list KMPCertificateList_DeepCopyInto. Qed.

(** *** [runtime.Object] *)

(** What an object denotes, by its dynamic type; [None] for a nil pointer. *)
Inductive object_value :=
| IssuerValue (u : option (object ObjectMeta_value IssuerSpec IssuerStatus_value))
| ClusterIssuerValue (u : option (object ObjectMeta_value IssuerSpec IssuerStatus_value))
| CertificateValue (u : option (object ObjectMeta_value KMPCertificateSpec KMPCertificateStatus))
| IssuersValue
    (u : option (object_list ListMeta_value (list (object ObjectMeta_value IssuerSpec IssuerStatus_value))))
| ClusterIssuersValue
    (u : option (object_list ListMeta_value (list (object ObjectMeta_value IssuerSpec IssuerStatus_value))))
| CertificatesValue
    (u : option (object_list ListMeta_value
                   (list (object ObjectMeta_value KMPCertificateSpec KMPCertificateStatus)))).

Definition nilable_view {T U} (view : heap value → T → option U) (h : heap value) (p : option T)
  : option (option U) :=
  match p with None => Some None | Some t => Some <$> view h t end.

Definition object_view (h : heap value) (o : runtime_object) : option object_value :=
  match o with
  | KMPIssuerObject p => IssuerValue <$> nilable_view KMPIssuer_view h p
  | KMPClusterIssuerObject p => ClusterIssuerValue <$> nilable_view KMPIssuer_view h p
  | KMPCertificateObject p => CertificateValue <$> nilable_view KMPCertificate_view h p
  | KMPIssuerListObject p => IssuersValue <$> nilable_view KMPIssuerList_view h p
  | KMPClusterIssuerListObject p => ClusterIssuersValue <$> nilable_view KMPClusterIssuerList_view h p
  | KMPCertificateListObject p => CertificatesValue <$> nilable_view KMPCertificateList_view h p
  end.

Definition holds_nil (o : runtime_object) : Prop :=
  match o with
  | KMPIssuerObject p | KMPClusterIssuerObject p => p = None
  | KMPCertificateObject p => p = None
  | KMPIssuerListObject p | KMPClusterIssuerListObject p | KMPCertificateListObject p => p = None
  end.

Definition copies_object (h : heap value) (o : runtime_object) (v : object_value)
    (r : option (option runtime_object * heap value)) : Prop :=
  match r with
  | Some (None, h') => holds_nil o ∧ h' = h
  | Some (Some o', h') => ¬ holds_nil o ∧ independent object_view h h' o o' v
  | None => False
  end.

(** The method of a type copies like the type. *)
Lemma copy_object_copies {T U} (view : heap value → T → option U) fp into `{!DeepCopies view fp into}
    (wrap : option T → runtime_object) (value_of : option U → object_value) h p v :
  (∀ h p, object_view h (wrap p) = value_of <$> nilable_view view h p) →
  (∀ p, holds_nil (wrap p) ↔ p = None) →
  object_view h (wrap p) = Some v →
  copies_object h (wrap p) v (copy_object (deep_copy_of into) wrap p h).
Proof.
  intros Hview Hnil. rewrite Hview. destruct p as [t|]; simpl.
  2:{ intros _. cbn. split; [by apply Hnil|done]. }
  intros (u & Hu & ->)%fmap_Some. apply fmap_Some in Hu as (u' & Hu & ->).
  destruct (copy_independent view fp into h t u' Hu) as (t' & h' & Hc & Hv1 & Hv2 & Hold & Hnew).
  unfold copy_object, deep_copy_of, mem_bind, mem_ret. rewrite Hc. simpl.
  split; [by rewrite Hnil|]. split_and!; intros; rewrite Hview; simpl.
  - by rewrite Hv1.
  - by rewrite Hv2.
  - by rewrite Hold.
  - by rewrite Hnew.
Qed.

(** C20: [DeepCopyObject] of any resource or list of the API never panics on one that is in memory:
    a nil pointer copies to a nil interface (not to an interface that holds a nil pointer), and any
    other object to one of the same type that denotes the same and shares no memory with it:
    whatever is later written to the memory of the one, the other keeps its value. *)
Theorem DeepCopyObject_independent h o v :
  object_view h o = Some v → copies_object h o v (DeepCopyObject o h).
Proof.
  destruct o as [p|p|p|p|p|p]; simpl; intros Hv.
  - by eapply (copy_object_copies KMPIssuer_view KMPIssuer_fp KMPIssuer_DeepCopyInto KMPIssuerObject IssuerValue).
  - by eapply (copy_object_copies KMPIssuer_view KMPIssuer_fp KMPClusterIssuer_DeepCopyInto
                 KMPClusterIssuerObject ClusterIssuerValue).
  - by eapply (copy_object_copies KMPCertificate_view KMPCertificate_fp KMPCertificate_DeepCopyInto
                 KMPCertificateObject CertificateValue).
  - by eapply (copy_object_copies KMPIssuerList_view KMPIssuerList_fp KMPIssuerList_DeepCopyInto
                 KMPIssuerListObject IssuersValue).
  - by eapply (copy_object_copies KMPClusterIssuerList_view KMPClusterIssuerList_fp
                 KMPClusterIssuerList_DeepCopyInto KMPClusterIssuerListObject ClusterIssuersValue).
  - by eapply (copy_object_copies KMPCertificateList_view KMPCertificateList_fp KMPCertificateList_DeepCopyInto
                 KMPCertificateListObject CertificatesValue).
Qed.
End views.
