(* ===== verification/World.v ===== *)
(** * The world the program runs in

    Code with effects is a function of the [world]: the clock, everything
    outside the process, and the log of what it did so far.  [Env] says how the
    outside answers; nothing is assumed of its answers. *)

From S2P Require Import Prelude GoStrings GoAny GoHttp Errors Api.
Local Open Scope go_scope.
Local Open Scope Z_scope.

(** ** Redirects *)

(** [redirectBehavior] of a request that can be sent again: the method of the next
    request, and whether the body goes along. *)
Definition redirect_behavior (method : string) (status : Z) : option (string * bool) :=
  if (status =? 301) || (status =? 302) || (status =? 303) then
    Some (if bool_decide (method = "GET" ∨ method = "HEAD") then method else "GET", false)
  else if (status =? 307) || (status =? 308) then Some (method, true)
  else None.

(** [strings.Replace(s, old, new, 1)] *)
Definition replace_first (old new s : string) : string :=
  match index_of s old with
  | Some n => take_bytes n s +:+ new +:+ drop_bytes (n + String.length old) s
  | None => s
  end.

(** [refererForURL] of a request without a [Referer] of its own. *)
Definition referer (last next : url) : string :=
  if bool_decide (Scheme last = "https" ∧ Scheme next = "http") then ""
  else match User last with
  | Some i => replace_first (userinfo_String i +:+ "@") "" (url_String last)
  | None => url_String last
  end.

(** [stripPassword] *)
Definition strip_password (u : url) : string :=
  match User u with
  | Some (Userinfo name (Some _) as i) =>
    replace_first (userinfo_String i +:+ "@") (name +:+ ":***@") (url_String u)
  | _ => url_String u
  end.

(** The text of the [url.Error] of a request. *)
Definition do_error `{Unicode} (ireq : http_request) (u msg : string) : string :=
  match Method ireq with
  | EmptyString => "Get"
  | String c rest => String c (ascii_to_lower rest)
  end +:+ " " +:+ quote u +:+ ": " +:+ msg.

Definition is_body_header (k : string) : bool :=
  bool_decide (k ∈ ["Content-Encoding"; "Content-Language"; "Content-Location"; "Content-Type"]).

(** The request a redirect of [last] to [u] leads to.  Of the headers of the
    first request the client withholds those about a body that is not sent, and
    from a foreign host [Authorization], [Cookie] and the like, of which the
    program sets none. *)
Definition redirected (ireq last : http_request) (method : string) (with_body : bool) (u : url) : http_request :=
  let header := if with_body then Header ireq else filter (λ e, is_body_header e.1 = false) (Header ireq) in
  let from := referer (URL last) u in
  HttpRequest method u (if bool_decide (from ≠ "") then header_set "Referer" from header else header)
    (if with_body then req_Body ireq else None).

(** ** The outside *)

(** [http.RoundTripper]: one supplied by a test, or the default transport with
    its TLS configuration, whose root pool is the DER of its certificates. *)
Inductive round_tripper :=
| CustomTransport (id : nat)
| TLSTransport (InsecureSkipVerify : bool) (RootCAs : option (list string)).

Record http_client := HttpClient { Transport : round_tripper; Timeout : Z }.

(** A [context.Context]: when it is done, if ever, and what [Err] returns then. *)
Record context := Context { done_at : option Z; ctx_err : sentinel }.

(** What [Client.Do] and reading the body to its end come to: the text of the
    error, or a status and the bytes of the body, with the error that ends
    them if it is not [io.EOF]. *)
Inductive http_outcome :=
| TransportError (msg : string)
| Reply (status : Z) (body : string) (read_error : option string).

(** What a server makes of one request, and the [Location] header of its answer;
    none is empty. *)
Record hop := Hop { hop_outcome : http_outcome; Location : string }.

(** What [Client.Do] of a request comes to: the answers that redirected it, each
    with its status and where it led, and the outcome in the end. *)
Record exchange := Exchange { redirects : list (Z * url); outcome_of :> http_outcome }.

(** What the program has done to the outside, in order: requests handed to the
    HTTP client with what they came to; Secrets it stored, with the one it found
    in their place and the error if that failed; status updates; Kubernetes
    events. *)
Inductive event :=
| Sent (req : http_request) (result : exchange)
| SecretWritten (name : NamespacedName) (found : option Secret) (secret : Secret) (failure : option string)
| StatusWritten (certificate : KMPCertificate) (failure : option string)
| Recorded (event_type reason message : string).

(** The requests on the wire for a request and the redirects of its exchange. *)
Fixpoint wire_from (ireq req : http_request) (with_body : bool) (rs : list (Z * url)) : list http_request :=
  req ::
  match rs with
  | [] => []
  | (status, u) :: rs =>
    match redirect_behavior (Method req) status with
    | Some (method, keeps_body) =>
      let with_body := with_body && keeps_body in
      wire_from ireq (redirected ireq req method with_body u) with_body rs
    | None => []
    end
  end.

Definition wire (req : http_request) (result : exchange) : list http_request :=
  wire_from req req true (redirects result).

Definition is_sent (e : event) : Prop := match e with Sent _ _ => True | _ => False end.

Class Env := {
  outside : Type;
  (** one request and its answer, given when to give up, if ever, and the time;
      its duration in nanoseconds *)
  round_trip : round_tripper → option Z → context → http_request → Z → outside → hop * N * outside;
  (** [URL.Parse]: where a reference leads from a URL, or the text of its error *)
  url_reference : url → string → result string url;
  (** the text [url.Parse] fails with *)
  url_error : string → string;
  (** the text [json.Unmarshal] fails with *)
  json_error : string → string;
  (** choices of the runtime and of the random source, one after the other *)
  map_order_at : nat → order;
  random_at : nat → string;
  timer_delay_at : nat → N;
  timer_first_at : nat → bool
}.

(** Times are nanoseconds since the epoch, durations nanoseconds. *)
Definition Second : Z := 1000000000.
Definition Minute : Z := 60 * Second.
Definition Hour : Z := 60 * Minute.

Section world.
Context `{Env}.

Record world := World {
  w_now : Z;
  w_outside : outside;
  w_tick : nat;                  (** choices made so far *)
  w_log : list event             (** what it has done so far *)
}.

Definition io (A : Type) : Type := world → A * world.

Definition io_ret {A} (a : A) : io A := λ w, (a, w).
Definition io_bind {A B} (m : io A) (k : A → io B) : io B := λ w, let '(a, w) := m w in k a w.
End world.

Notation "'let!' x := m 'in' k" := (io_bind m (λ x, k))
  (at level 200, x pattern, m at level 200, k at level 200) : go_scope.

(** [if err != nil { return nil, err }] *)
Notation "'try!' x := m 'in' k" :=
  (io_bind m (λ r, match r with Ok x => k | Err e => io_ret (Err e) end))
  (at level 200, x pattern, m at level 200, k at level 200) : go_scope.

(** [if err != nil { return nil, f(err) }] *)
Notation "'try!' x := m 'else' f 'in' k" :=
  (io_bind m (λ r, match r with Ok x => k | Err e => io_ret (Err (f e)) end))
  (at level 200, x pattern, m at level 200, f at level 200, k at level 200) : go_scope.

Section operations.
Context `{Env}.

(** [time.Now()] *)
Definition time_now : io Z := λ w, (w_now w, w).

(** The next choice of a stream. *)
Definition next {A} (stream : nat → A) : io A := λ w,
  (stream (w_tick w), World (w_now w) (w_outside w) (S (w_tick w)) (w_log w)).

End operations.

Section client.
Context `{Unicode, Env}.

(** [Client.do] from the request [req] on, which stems from [ireq]: redirects are
    followed, for the client of the program has no [CheckRedirect], while some
    are [hops]; the body is sent along as long as no redirect dropped it. *)
Fixpoint follow (hops : nat) (t : round_tripper) (deadline : option Z) (ctx : context) (ireq req : http_request)
    (with_body : bool) (now : Z) (out : outside) : exchange * N * outside :=
  let '(answer, elapsed, out) := round_trip t deadline ctx req now out in
  let last := (Exchange [] (hop_outcome answer), elapsed, out) in
  match hop_outcome answer with
  | TransportError _ => last
  | Reply status _ _ =>
    match redirect_behavior (Method req) status with
    | None => last
    | Some (method, keeps_body) =>
      if bool_decide (Location answer = "") then last
      else
        let failed u msg := (Exchange [] (TransportError (do_error ireq u msg)), elapsed, out) in
        match url_reference (URL req) (Location answer) with
        | Err msg =>
          failed (strip_password (URL req)) ("failed to parse Location header " +:+ quote (Location answer) +:+ ": " +:+ msg)
        | Ok u =>
          match hops with
          | O => failed (Location answer) "stopped after 10 redirects"
          | S hops =>
            let with_body := with_body && keeps_body in
            let '(rest, elapsed', out) :=
              follow hops t deadline ctx ireq (redirected ireq req method with_body u) with_body
                (now + Z.of_N elapsed) out in
            (Exchange ((status, u) :: redirects rest) rest, (elapsed + elapsed')%N, out)
          end
        end
    end
  end.

(** Ten requests at most. *)
Definition max_redirects : nat := 9.

(** [Client.deadline] *)
Definition deadline (c : http_client) (now : Z) : option Z :=
  if 0 <? Timeout c then Some (now + Timeout c) else None.

(** [httpClient.Do(req)] with the whole body. *)
Definition http_Do (c : http_client) (ctx : context) (req : http_request) : io exchange := λ w,
  let '(result, elapsed, out) :=
    follow max_redirects (Transport c) (deadline c (w_now w)) ctx req req true (w_now w) (w_outside w) in
  (result, World (w_now w + Z.of_N elapsed) out (w_tick w) (w_log w ++ [Sent req result])).

End client.

Section waiting.
Context `{Env}.

(** [select { case <-ctx.Done(): false; case <-time.After(d): true }]. The
    timer fires some time after [d]; when both are ready at the same instant
    the runtime picks one. *)
Definition wait_or_done (ctx : context) (d : Z) : io bool :=
  let! delay := next timer_delay_at in
  let! timer_first := next timer_first_at in
  λ w,
  let fires := w_now w + Z.max 0 d + Z.of_N delay in
  let advance t := World t (w_outside w) (w_tick w) (w_log w) in
  match done_at ctx with
  | Some d =>
    let ready := Z.max (w_now w) d in
    if ready <? fires then (false, advance ready)
    else if (ready =? fires) && negb timer_first then (false, advance ready)
    else (true, advance fires)
  | None => (true, advance fires)
  end.
End waiting.

(** ** What is exchanged *)

Section wire.
Context `{Unicode, Env}.

(** Requests that are sent one after the other. *)
Fixpoint sends (t : round_tripper) (deadline : option Z) (ctx : context) (reqs : list http_request) (now : Z)
    (out : outside) : N * outside :=
  match reqs with
  | [] => (0%N, out)
  | req :: reqs =>
    let '(_, elapsed, out) := round_trip t deadline ctx req now out in
    let '(elapsed', out) := sends t deadline ctx reqs (now + Z.of_N elapsed) out in
    ((elapsed + elapsed')%N, out)
  end.

Lemma follow_wire hops t deadline ctx ireq req with_body now out :
  let '(result, elapsed, out') := follow hops t deadline ctx ireq req with_body now out in
  sends t deadline ctx (wire_from ireq req with_body (redirects result)) now out = (elapsed, out') ∧
  (length (redirects result) ≤ hops)%nat.
Proof.
  revert req with_body now out. induction hops as [|hops IH]; intros req with_body now out; simpl;
    destruct (round_trip t deadline ctx req now out) as [[h e] out1] eqn:E; cbv zeta;
    destruct (hop_outcome h) as [msg|status body err]; simpl; rewrite ?E; simpl; rewrite ?N.add_0_r; try (split; [done|lia]);
    destruct (redirect_behavior (Method req) status) as [[method keeps]|] eqn:Er; simpl; rewrite ?E; simpl; rewrite ?N.add_0_r; try (split; [done|lia]);
    case_bool_decide; simpl; rewrite ?E; simpl; rewrite ?N.add_0_r; try (split; [done|lia]);
    destruct (url_reference (URL req) (Location h)) as [u|msg]; simpl; rewrite ?E; simpl; rewrite ?N.add_0_r; try (split; [done|lia]).
  specialize (IH (redirected ireq req method (with_body && keeps) u) (with_body && keeps) (now + Z.of_N e) out1).
  destruct (follow hops _ _ _ _ _ _ _ _) as [[r e'] out2]. simpl. rewrite E, Er. simpl.
  destruct IH as [-> ?]. split; [done|lia].
Qed.

(** A call exchanges what is on the wire for its result, at most ten requests. *)
Lemma http_Do_wire c ctx req w :
  let result := (http_Do c ctx req w).1 in
  (sends (Transport c) (deadline c (w_now w)) ctx (wire req result) (w_now w) (w_outside w)).2
    = w_outside (http_Do c ctx req w).2 ∧
  (length (redirects result) ≤ 9)%nat.
Proof.
  unfold http_Do, wire. pose proof (follow_wire max_redirects (Transport c) (deadline c (w_now w)) ctx req req true
    (w_now w) (w_outside w)) as Hw.
  destruct (follow _ _ _ _ _ _ _ _ _) as [[r e] out]. destruct Hw as [Hs Hl]. simpl. by rewrite Hs.
Qed.
End wire.

(** A request on the wire is the program's own or one an answer redirected it
    to, and carries the headers of the first but for those about a body. *)
Lemma wire_from_spec ireq req with_body rs r :
  r ∈ wire_from ireq req with_body rs →
  r = req ∨ (∃ status, (status, URL r) ∈ rs) ∧
    ∀ k, is_body_header k = false → k ≠ "Referer" → map_get k (Header r) = map_get k (Header ireq).
Proof.
  revert req with_body. induction rs as [|[status u] rs IH]; intros req with_body; simpl.
  { intros ->%list_elem_of_singleton. by left. }
  intros [->|Hr]%elem_of_cons; [by left|]. right.
  destruct (redirect_behavior (Method req) status) as [[method keeps]|]; [|by apply not_elem_of_nil in Hr].
  apply IH in Hr as [->|[(status' & Hin) Hk]].
  - split; [exists status; by left|]. intros k Hb Hne. unfold redirected. cbv zeta. cbn [Header].
    assert (map_get k (if with_body && keeps then Header ireq else filter (λ e, is_body_header e.1 = false) (Header ireq))
            = map_get k (Header ireq)) as Hget.
    { destruct (with_body && keeps); [done|]. by apply (map_get_filter (λ k, is_body_header k = false)). }
    case_bool_decide; [|done]. unfold header_set. by rewrite map_get_set_ne.
  - split; [exists status'; by right|done].
Qed.

(** ** Reasoning about a run *)

(** [run m w Q]: from [w], [m] only adds to the log and lets time pass, and what
    it returns, the world it leaves and what it adds satisfy [Q]. *)
Definition run `{Env} {A} (m : io A) (w : world) (Q : A → world → list event → Prop) : Prop :=
  ∃ reqs, w_log (m w).2 = w_log w ++ reqs ∧ w_now w ≤ w_now (m w).2 ∧ Q (m w).1 (m w).2 reqs.

Section run.
Context `{Env}.

Lemma run_ret {A} (a : A) w (Q : A → world → list event → Prop) :
  Q a w [] → run (io_ret a) w Q.
Proof. intros HQ. exists []. simpl. rewrite app_nil_r. auto with lia. Qed.

Lemma run_bind {A B} (m : io A) (k : A → io B) w (Q : B → world → list event → Prop) :
  run m w (λ a w' reqs, run (k a) w' (λ b w'' reqs', Q b w'' (reqs ++ reqs'))) →
  run (io_bind m k) w Q.
Proof.
  unfold run, io_bind. destruct (m w) as [a w']. simpl.
  intros (reqs & Hl & Ht & reqs' & Hl' & Ht' & HQ). exists (reqs ++ reqs').
  rewrite Hl', Hl, app_assoc. split_and!; [done|lia|done].
Qed.

Lemma run_conseq {A} (m : io A) w (Q Q' : A → world → list event → Prop) :
  run m w Q → (∀ a w' reqs, w_now w ≤ w_now w' → Q a w' reqs → Q' a w' reqs) → run m w Q'.
Proof. intros (reqs & ? & ? & ?) HQ. exists reqs. eauto. Qed.

(** Time passes. *)
Lemma run_later {A} (m : io A) w (Q : A → world → list event → Prop) :
  run m w (λ a w' reqs, w_now w ≤ w_now w' → Q a w' reqs) → run m w Q.
Proof. intros Hm. eapply run_conseq; [exact Hm|]. auto. Qed.

Lemma run_try {A B E} (m : io (result E A)) (f : E → E) (k : A → io (result E B)) w
    (Q : result E B → world → list event → Prop) :
  run m w (λ r w' reqs,
    match r with
    | Ok a => run (k a) w' (λ b w'' reqs', Q b w'' (reqs ++ reqs'))
    | Err e => Q (Err (f e)) w' reqs
    end) →
  run (io_bind m (λ r, match r with Ok a => k a | Err e => io_ret (Err (f e)) end)) w Q.
Proof.
  intros Hm. apply run_bind. eapply run_conseq; [exact Hm|]. intros [a|e] w' reqs _ HQ; [done|].
  apply run_ret. by rewrite app_nil_r.
Qed.

Lemma run_next {A} (s : nat → A) w (Q : A → world → list event → Prop) :
  (∀ a w', w_now w' = w_now w → Q a w' []) → run (next s) w Q.
Proof. intros HQ. exists []. simpl. rewrite app_nil_r. split_and!; auto with lia. Qed.

Lemma run_now w (Q : Z → world → list event → Prop) :
  Q (w_now w) w [] → run time_now w Q.
Proof. intros HQ. exists []. simpl. rewrite app_nil_r. auto with lia. Qed.

Lemma run_http `{Unicode} c ctx req w (Q : exchange → world → list event → Prop) :
  (∀ o w', w_now w ≤ w_now w' → Q o w' [Sent req o]) → run (http_Do c ctx req) w Q.
Proof.
  intros HQ. unfold run, http_Do. destruct (follow _ _ _ _ _ _ _ _ _) as [[o d] out]. simpl.
  exists [Sent req o]. split_and!; [done|lia|]. apply HQ. simpl. lia.
Qed.

(** The context is done at the time [t]. *)
Definition cancelled (ctx : context) (t : Z) : Prop := ∃ d, done_at ctx = Some d ∧ d ≤ t.

(** When the timer wins, at least [d] has passed; otherwise the context is
    done. *)
Lemma run_wait ctx d w (Q : bool → world → list event → Prop) :
  (∀ b w', w_now w ≤ w_now w' → (b = true → w_now w + d ≤ w_now w') →
     (b = false → cancelled ctx (w_now w')) → Q b w' []) →
  run (wait_or_done ctx d) w Q.
Proof.
  intros HQ. exists []. rewrite app_nil_r. unfold wait_or_done, io_bind, next, cancelled in *. simpl.
  destruct (done_at ctx) as [t|] eqn:E; [|simpl; split_and!; [done|lia|apply HQ; simpl; [lia..|done]]].
  case_match; [|case_match]; simpl; bool_prop;
    (split_and!; [done|lia|apply HQ; simpl; [lia|(done || lia)|(done || (intros _; eexists; split; [done|lia]))]]).
Qed.

(** A computation whose result is known, and the world it leaves. *)
Lemma run_value {A} (m : io A) w (Q : A → world → list event → Prop) :
  run m w Q → run m w (λ a w' xs, a = (m w).1 ∧ Q a w' xs).
Proof. intros (xs & ? & ? & ?). by exists xs. Qed.

Lemma run_known {A} (m : io A) w (Q : A → world → list event → Prop) :
  run m w Q → run m w (λ a w' xs, a = (m w).1 ∧ w' = (m w).2 ∧ Q a w' xs).
Proof. intros (xs & ? & ? & ?). by exists xs. Qed.

Lemma run_log {A} (m : io A) w (Q : A → world → list event → Prop) :
  run m w Q → ∃ reqs, w_log (m w).2 = w_log w ++ reqs ∧ Q (m w).1 (m w).2 reqs.
Proof. intros (reqs & ? & _ & ?). eauto. Qed.
End run.

(** Take one step of a program under [run]. *)
Ltac run_step :=
  match goal with
  | |- run (io_ret _) _ _ => apply run_ret
  | |- run (@io_bind _ (result _ _) (result _ _) _ _) _ _ => apply run_try
  | |- run (io_bind _ _) _ _ => apply run_bind
  | |- run (next _) _ _ => apply run_next; intros ? ? ?
  | |- run time_now _ _ => apply run_now
  | |- run (http_Do _ _ _) _ _ => apply run_http; intros ? ? ?
  end.
