(* ===== verification/Client.v ===== *)
(** * [internal/kmp/client.go] and [internal/kmp/create.go]: the API client *)

From S2P Require Import Prelude GoStrings GoFloat GoAny Json JsonCodec GoHttp Errors Response GoNet X509 Chain World.
Local Open Scope go_scope.
Local Open Scope Z_scope.

(** ** Constants *)

Definition apiBasePath : string := "/api/pki/restapi".
Definition authTokenHeader : string := "AUTHTOKEN".
Definition inputDataParam : string := "INPUT_DATA".
Definition defaultTimeout : Z := 30 * Second.
Definition maxResponseBytes : Z := Z.shiftl 8 20.

Definition opImportCSR : string := "importCSR".
Definition opSignCSR : string := "signCSR".
Definition opGetCertificate : string := "getCertificate".
Definition opCreateCSR : string := "createCSR".
Definition opExportCSR : string := "exportCSR".

Definition FileTypePrivateKey : string := "PrivateKey".

Definition csrIDKeys : list string :=
  ["CSR_ID"; "csrId"; "csrID"; "csrid"; "certificateRequestId"; "id"].
Definition commonNameKeys : list string :=
  ["commonName"; "common_name"; "CNAME"; "cn"; "subjectCommonName"].
Definition serialNumberKeys : list string :=
  ["serialNumber"; "serial_number"; "serialNo"; "serial"].
Definition certificateIDKeys : list string :=
  ["Certificate_ID"; "certificateId"; "certificateID"; "certId"].

(** ** Data *)

Record Config := MkConfig {
  BaseURL : string;
  AuthToken : string;
  CABundle : string;
  InsecureSkipTLSVerify : bool;
  cfg_Timeout : Z;
  UserAgent : string;
  cfg_Transport : option round_tripper
}.

Record Client := MkClient {
  baseURL : url;
  authToken : string;
  httpClient : http_client;
  userAgent : string
}.

(** [kmp.CSR] *)
Record CSR := MkCSR { stored_ID : string; stored_CommonName : string; stored_Response : string }.

Record SignRequest := MkSignRequest {
  CSRID : string;
  SignType : string;
  ServerName : string;
  CAName : string;
  TemplateName : string;
  AgentName : string;
  AgentResponseTimeoutSeconds : option Z;
  RootCertificateCommonName : string;
  RootCertificateSerialNumber : string;
  ValidityDays : option Z;
  IsIntermediate : option bool
}.

Record SignResult := MkSignResult {
  CertificateID : string;
  res_CommonName : string;
  SerialNumber : string
}.

Record CreateCSRRequest := MkCreateCSRRequest {
  create_CommonName : string;
  create_AltNames : list string;
  create_Organization : string;
  create_OrganizationalUnit : string;
  create_Location : string;
  create_State : string;
  create_Country : string;
  create_Password : string;
  create_KeyAlgorithm : string;
  create_KeyLength : Z;
  create_SignatureAlgorithm : string;
  create_StoreType : string;
  create_ValidityType : string;
  create_ValidityDays : option Z
}.

(** ** Rendering requests *)

(** [details[k] = v] when the condition holds. *)
Definition set_if (b : bool) (k : string) (v : any) (m : list (string * any)) : list (string * any) :=
  if b then map_set k v m else m.

(** [if p != nil { details[k] = f of the pointee }] *)
Definition set_opt {A} (k : string) (f : A → any) (o : option A) (m : list (string * any))
  : list (string * any) :=
  match o with Some a => map_set k (f a) m | None => m end.

Definition nonempty (s : string) : bool := bool_decide (s ≠ "").

Definition SignRequest_details (r : SignRequest) : list (string * any) :=
  let details := map_of [("CSR_ID", Str (CSRID r))] in
  let signType := if nonempty (SignType r) then SignType r else "MSCA" in
  let details := map_set "signType" (Str signType) details in
  if bool_decide (signType = "signWithRoot") then
    let details := map_set "rootCertificateCommonName" (Str (RootCertificateCommonName r)) details in
    let details := set_if (nonempty (RootCertificateSerialNumber r)) "rootCertificateSerialNumber"
                     (Str (RootCertificateSerialNumber r)) details in
    let details := set_opt "Validity" (λ d, Str (format_int d)) (ValidityDays r) details in
    set_opt "isIntermediate" Bool (IsIntermediate r) details
  else
    let details := map_set "serverName" (Str (ServerName r)) details in
    let details := map_set "caName" (Str (CAName r)) details in
    let details := map_set "templateName" (Str (TemplateName r)) details in
    if bool_decide (signType = "MSCAusingAgent") then
      let details := map_set "agentName" (Str (AgentName r)) details in
      set_opt "agentResponseTimeout" Int32 (AgentResponseTimeoutSeconds r) details
    else details.

(** The map literal [optional] of [CreateCSRRequest.details]. *)
Definition create_optional (r : CreateCSRRequest) : list (string * string) :=
  [("ALT_NAMES", join "," (create_AltNames r));
   ("ORG", create_Organization r);
   ("ORGUNIT", create_OrganizationalUnit r);
   ("LOCATION", create_Location r);
   ("STATE", create_State r);
   ("COUNTRY", create_Country r);
   ("PASSWORD", create_Password r);
   ("ALG", create_KeyAlgorithm r);
   ("SIGALG", create_SignatureAlgorithm r);
   ("StoreType", create_StoreType r)].

(** The loop over [optional] ranges a map in some order, but sets every key at
    most once (see [create_details_in]). *)
Definition CreateCSRRequest_details (r : CreateCSRRequest) : list (string * any) :=
  let details := map_of [("CNAME", Str (create_CommonName r))] in
  let details :=
    foldl (λ m e, set_if (nonempty e.2) e.1 (Str e.2) m) details (create_optional r) in
  let details := set_if (0 <? create_KeyLength r) "LEN" (Str (format_int (create_KeyLength r))) details in
  let details := set_if (nonempty (create_ValidityType r)) "VALIDITY_TYPE"
                   (Str (create_ValidityType r)) details in
  set_opt "VALIDITY" (λ d, Str (format_int d)) (create_ValidityDays r) details.

Section client.
Context `{Unicode, Conversions, Env, PublicKeys, !X509, Pem}.
Implicit Types (c : Client) (ctx : context).

Definition envelope (details : list (string * any)) : any :=
  Map [("operation", Map [("Details", Map details)])].

Definition inputData (details : list (string * any)) : res string :=
  match json_marshal (envelope details) with
  | Some encoded => Ok encoded
  | None => Err (Wrapped "encoding INPUT_DATA" (New "json: unsupported type"))
  end.

(** ** Construction *)

(** [CertPool.AppendCertsFromPEM]: the certificates added. *)
Fixpoint append_certs (fuel : nat) (roots : list string) (data : string) : list string :=
  match fuel with
  | O => roots
  | S fuel' =>
    match pem_Decode data with
    | None => roots
    | Some (block, rest) =>
      if bool_decide (block_Type block = pemCertificateType) && bool_decide (block_Headers block = [])
      then
        match x509_ParseCertificate (block_Bytes block) with
        | Ok cert => append_certs fuel' (roots ++ [Raw cert]) rest
        | Err _ => append_certs fuel' roots rest
        end
      else append_certs fuel' roots rest
    end
  end.

Definition AppendCertsFromPEM (data : string) : list string :=
  append_certs (S (String.length data)) [] data.

(** [tls.Config] and the transport around it. *)
Definition tls_transport (cfg : Config) : res round_tripper :=
  if bool_decide (CABundle cfg = "") then Ok (TLSTransport (InsecureSkipTLSVerify cfg) None)
  else match AppendCertsFromPEM (CABundle cfg) with
  | [] => Err (New "no certificates found in the configured CA bundle")
  | roots => Ok (TLSTransport (InsecureSkipTLSVerify cfg) (Some roots))
  end.

Definition NewClient (cfg : Config) : res Client :=
  if bool_decide (trim_space (BaseURL cfg) = "") then Err (New "key manager plus URL is empty")
  else
    match url_Parse (trim_space (BaseURL cfg)) with
    | None => Err (wrap "parsing key manager plus URL" (New (url_error (trim_space (BaseURL cfg)))))
    | Some parsed =>
      if bool_decide (Scheme parsed ∉ ["http"; "https"]) then
        Err (New ("key manager plus URL " +:+ quote (BaseURL cfg) +:+ " must use http or https"))
      else if bool_decide (Host parsed = "") then
        Err (New ("key manager plus URL " +:+ quote (BaseURL cfg) +:+ " has no host"))
      else if bool_decide (trim_space (AuthToken cfg) = "") then
        Err (New "key manager plus auth token is empty")
      else
        try transport :=
          match cfg_Transport cfg with Some t => Ok t | None => tls_transport cfg end in
        let timeout := if cfg_Timeout cfg <=? 0 then defaultTimeout else cfg_Timeout cfg in
        Ok (MkClient parsed (trim_space (AuthToken cfg)) (HttpClient transport timeout) (UserAgent cfg))
    end.

(** ** One exchange *)

Definition endpoint c (op : string) : url :=
  let u := baseURL c in
  Url (Scheme u) (Opaque u) (User u) (Host u) (path_join [Path u; apiBasePath; op]) (RawPath u) (OmitHost u)
    (ForceQuery u) "" (Fragment u) (RawFragment u).

(** The endpoint with the query of a request. *)
Definition target c (op : string) (query : values) : url :=
  let e := endpoint c op in
  match query with
  | [] => e
  | _ => Url (Scheme e) (Opaque e) (User e) (Host e) (Path e) (RawPath e) (OmitHost e) (ForceQuery e)
           (query_encode query) (Fragment e) (RawFragment e)
  end.

(** The error [http.NewRequestWithContext] returns for a URL. *)
Definition request_error (u : url) : option string :=
  match request_URL u with Some _ => None | None => Some (url_error (url_String u)) end.

(** The request [do] builds; no body is [None]. *)
Definition build_request c (method op : string) (query : values) (body : option string)
    (contentType : string) : http_request :=
  let e := match request_URL (target c op query) with Some u => u | None => target c op query end in
  let header := header_set authTokenHeader (authToken c) [] in
  let header := header_set "Accept" "application/json" header in
  let header := if nonempty contentType then header_set "Content-Type" contentType header else header in
  let header := if nonempty (userAgent c) then header_set "User-Agent" (userAgent c) header else header in
  HttpRequest method e header body.

(** [io.ReadAll(io.LimitReader(r, n))]: at most [n] bytes. *)
Fixpoint limit_read (n : Z) (s : string) : string :=
  match s with
  | EmptyString => ""
  | String b s' => if n <=? 0 then "" else String b (limit_read (n - 1) s')
  end.

(** The limit hides an error that comes after it. *)
Definition read_body (op : string) (status : Z) (body : string) (read_error : option string)
  : res (Z * string) :=
  match read_error with
  | Some msg =>
    if len body <? maxResponseBytes
    then Err (KmpErr (KmpError op status "" "" "" false (Some (wrap "reading response" (New msg)))))
    else Ok (status, limit_read maxResponseBytes body)
  | None => Ok (status, limit_read maxResponseBytes body)
  end.

(** The error of a request that cannot be built. *)
Definition building_error (op msg : string) : error :=
  KmpErr (KmpError op 0 "" "" "" true (Some (wrap "building request" (New msg)))).

(** The status and body of an exchange. *)
Definition received (op : string) (outcome : http_outcome) : res (Z * string) :=
  match outcome with
  | TransportError msg => Err (KmpErr (KmpError op 0 "" "" "" false (Some (New msg))))
  | Reply status body read_error => read_body op status body read_error
  end.

Definition do c ctx (method op : string) (query : values) (body : option string)
    (contentType : string) : io (res (Z * string)) :=
  let req := build_request c method op query body contentType in
  match request_error (target c op query) with
  | Some msg => io_ret (Err (building_error op msg))
  | None =>
    let! outcome := http_Do (httpClient c) ctx req in
    io_ret (received op outcome)
  end.

Definition status_ok (code : Z) : bool := negb ((code <? 200) || (299 <? code)).

(** The error for a status outside 2xx. *)
Definition status_error (o o' : order) (op : string) (code : Z) (raw : string) : error :=
  let parsed := parseResponse raw in
  KmpErr (KmpError op code (status o parsed) (message o' parsed)
            (truncate raw maxRecordedBody) (permanentStatus code) None).

(** The error for a document that reports failure. *)
Definition failure_error (o o' : order) (op : string) (code : Z) (parsed : response) : error :=
  KmpErr (KmpError op code (status o (Some parsed)) (message o' (Some parsed))
            (truncatedBody (Some parsed)) true None).

Definition decode_error (raw : string) : error :=
  wrap "decoding response body as JSON" (New (json_error raw)).

(** What [call] makes of an answer; [o1] to [o4] are the orders in which the
    maps of the document are ranged. *)
Definition interpret (o1 o2 o3 o4 : order) (op : string) (code : Z) (raw : string) : res response :=
  if negb (status_ok code) then Err (status_error o1 o2 op code raw)
  else match parseResponse raw with
  | None =>
    Err (KmpErr (KmpError op code "" "" (truncate raw maxRecordedBody) true (Some (decode_error raw))))
  | Some parsed =>
    if negb (succeeded o1 o2 (Some parsed)) then Err (failure_error o3 o4 op code parsed)
    else Ok parsed
  end.

Definition call c ctx (method op : string) (query : values) (body : option string)
    (contentType : string) : io (res response) :=
  try! (code, raw) := do c ctx method op query body contentType in
  let! o1 := next map_order_at in
  let! o2 := next map_order_at in
  let! o3 := next map_order_at in
  let! o4 := next map_order_at in
  io_ret (interpret o1 o2 o3 o4 op code raw).

Definition interpret_raw (o1 o2 o3 o4 : order) (op : string) (code : Z) (raw : string) : res string :=
  if negb (status_ok code) then Err (status_error o1 o2 op code raw)
  else
    let accepted :=
      if nonempty raw then Ok raw
      else Err (KmpErr (KmpError op code "" "" "" false (Some (New "the response is empty")))) in
    match parseResponse raw with
    | Some parsed =>
      if negb (succeeded o1 o2 (Some parsed)) then Err (failure_error o3 o4 op code parsed)
      else accepted
    | None => accepted
    end.

Definition callRaw c ctx (method op : string) (query : values) : io (res string) :=
  try! (code, raw) := do c ctx method op query None "" in
  let! o1 := next map_order_at in
  let! o2 := next map_order_at in
  let! o3 := next map_order_at in
  let! o4 := next map_order_at in
  io_ret (interpret_raw o1 o2 o3 o4 op code raw).

(** ** Operations *)

(** An error raised before anything is sent. *)
Definition refuse (op msg : string) : error :=
  KmpErr (KmpError op 0 "" "" "" true (Some (New msg))).

(** [inputData] wrapped as every operation wraps it. *)
Definition encode (op : string) (details : list (string * any)) : res string :=
  match inputData details with
  | Ok encoded => Ok encoded
  | Err e => Err (KmpErr (KmpError op 0 "" "" "" true (Some e)))
  end.

Definition input_query (encodedInput : string) : values := [(inputDataParam, [encodedInput])].

(** The multipart body of [ImportCSR]. *)
Definition import_parts (csrPEM encodedInput : string) : list (string * string) :=
  [(form_file_header "CSR" "request.csr", csrPEM); (form_field_header inputDataParam, encodedInput)].

Definition import_details (email : string) : list (string * any) :=
  set_if (nonempty email) "Email" (Str email) [].

(** The record [ImportCSR] makes of the response. *)
Definition imported_in (o1 o2 : order) (parsed : response) : CSR :=
  MkCSR (default "" (findString o1 (Some parsed) csrIDKeys))
    (default "" (findString o2 (Some parsed) commonNameKeys)) (truncatedBody (Some parsed)).

Definition ImportCSR c ctx (csrPEM email : string) : io (res CSR) :=
  if bool_decide (csrPEM = "") then io_ret (Err (refuse opImportCSR "CSR is empty"))
  else
    try! encodedInput := io_ret (encode opImportCSR (import_details email)) in
    let! boundary := next random_at in
    let body := multipart_body boundary (import_parts csrPEM encodedInput) in
    try! parsed := call c ctx "POST" opImportCSR [] (Some body) (FormDataContentType boundary) in
    let! o1 := next map_order_at in
    let! o2 := next map_order_at in
    io_ret (Ok (imported_in o1 o2 parsed)).

Definition lookup_details (commonName : string) : list (string * any) :=
  map_of [("common_name", Str commonName); ("CNAME", Str commonName)].

(** The id [FindCSRID] takes out of a listing. *)
Definition id_in_listing (o : order) (parsed : response) (commonName : string) : option string :=
  match findIDForCommonName o (Some parsed) commonName csrIDKeys commonNameKeys with
  | Some id => Some id
  | None =>
    match collectStringsFor (Some parsed) csrIDKeys, collectStringsFor (Some parsed) commonNameKeys with
    | [id], [] => Some id
    | _, _ => None
    end
  end.

Definition no_id_error (o : order) (operation commonName : string) (parsed : response) : error :=
  KmpErr (KmpError operation 0 "" (message o (Some parsed)) (truncatedBody (Some parsed)) false
            (Some (New ("no CSR id for common name " +:+ quote commonName +:+ " in the response")))).

Definition found_in (o1 o2 : order) (operation commonName : string) (parsed : response) : res string :=
  match id_in_listing o1 parsed commonName with
  | Some id => Ok id
  | None => Err (no_id_error o2 operation commonName parsed)
  end.

Definition FindCSRID c ctx (operation commonName : string) : io (res string) :=
  if bool_decide (operation = "") then
    io_ret (Err (refuse "findCSRID" "no CSR lookup operation is configured"))
  else if bool_decide (commonName = "") then
    io_ret (Err (refuse operation "the request has no common name to look up"))
  else
    try! encodedInput := io_ret (encode operation (lookup_details commonName)) in
    try! parsed := call c ctx "GET" operation (input_query encodedInput) None "" in
    let! o1 := next map_order_at in
    let! o2 := next map_order_at in
    io_ret (found_in o1 o2 operation commonName parsed).

Definition no_certificate_identified (o : order) (parsed : response) : error :=
  KmpErr (KmpError opSignCSR 0 "" (message o (Some parsed)) (truncatedBody (Some parsed)) true
            (Some (New "the response identifies no signed certificate"))).

(** What [SignCSR] makes of the response. *)
Definition signed_in (o1 o2 o3 o4 : order) (parsed : response) : res SignResult :=
  let result := MkSignResult (default "" (findString o1 (Some parsed) certificateIDKeys))
                  (default "" (findString o2 (Some parsed) commonNameKeys))
                  (default "" (findString o3 (Some parsed) serialNumberKeys)) in
  if bool_decide (res_CommonName result = "") && bool_decide (SerialNumber result = "")
     && bool_decide (CertificateID result = "")
  then Err (no_certificate_identified o4 parsed)
  else Ok result.

Definition SignCSR c ctx (req : SignRequest) : io (res SignResult) :=
  if bool_decide (CSRID req = "") then io_ret (Err (refuse opSignCSR "CSR id is empty"))
  else
    try! encodedInput := io_ret (encode opSignCSR (SignRequest_details req)) in
    try! parsed := call c ctx "POST" opSignCSR (input_query encodedInput) None "" in
    let! o1 := next map_order_at in
    let! o2 := next map_order_at in
    let! o3 := next map_order_at in
    let! o4 := next map_order_at in
    io_ret (signed_in o1 o2 o3 o4 parsed).

Definition certificate_details (commonName serialNumber : string) : list (string * any) :=
  set_if (nonempty serialNumber) "serial_number" (Str serialNumber)
    (set_if (nonempty commonName) "common_name" (Str commonName) []).

Definition no_certificate_error (o : order) (parsed : response) : error :=
  KmpErr (KmpError opGetCertificate 0 "" (message o (Some parsed)) (truncatedBody (Some parsed)) false
            (Some (New "the response carries no certificate"))).

Definition bad_certificate_error (parsed : response) (e : error) : error :=
  KmpErr (KmpError opGetCertificate 0 "" "" (truncatedBody (Some parsed)) true (Some e)).

Definition certificates_in (o : order) (parsed : response) : res (list certificate) :=
  match certificatesFromStrings (collectStrings (Some parsed)) with
  | Err e => Err (bad_certificate_error parsed e)
  | Ok [] => Err (no_certificate_error o parsed)
  | Ok certs => Ok certs
  end.

Definition GetCertificate c ctx (commonName serialNumber : string) : io (res (list certificate)) :=
  if bool_decide (commonName = "") && bool_decide (serialNumber = "") then
    io_ret (Err (refuse opGetCertificate "neither common name nor serial number is known"))
  else
    try! encodedInput := io_ret (encode opGetCertificate (certificate_details commonName serialNumber)) in
    try! parsed := call c ctx "GET" opGetCertificate (input_query encodedInput) None "" in
    let! o := next map_order_at in
    io_ret (certificates_in o parsed).

(** What [Ping] makes of the error of the probe; [None] is success. *)
Definition ping_verdict (err : error) : option error :=
  if IsAuthFailure err then Some err
  else
    match errors_as_kmp err with
    | Some kmpErr =>
      let answered := (200 <=? StatusCode kmpErr) && (StatusCode kmpErr <=? 299) in
      let no_certificate :=
        match Underlying kmpErr with
        | Some cause => bool_decide (Op kmpErr = opGetCertificate)
                        && contains (error_text cause) "no certificate"
        | None => false
        end in
      if answered && no_certificate then None
      else if answered && nonempty (APIStatus kmpErr) then None
      else Some err
    | None => Some err
    end.

Definition Ping c ctx : io (option error) :=
  let! r := GetCertificate c ctx "kmp-issuer-connectivity-probe.invalid" "" in
  match r with
  | Ok _ => io_ret None
  | Err err => io_ret (ping_verdict err)
  end.

(** The record [CreateCSR] makes of the response. *)
Definition created_in (o1 o2 : order) (req : CreateCSRRequest) (parsed : response) : CSR :=
  let commonName := default "" (findString o2 (Some parsed) commonNameKeys) in
  MkCSR (default "" (findString o1 (Some parsed) csrIDKeys))
    (if nonempty commonName then commonName else create_CommonName req) (truncatedBody (Some parsed)).

Definition CreateCSR c ctx (req : CreateCSRRequest) : io (res CSR) :=
  if bool_decide (trim_space (create_CommonName req) = "") then
    io_ret (Err (refuse opCreateCSR "the request has no common name"))
  else
    try! encodedInput := io_ret (encode opCreateCSR (CreateCSRRequest_details req)) in
    try! parsed := call c ctx "POST" opCreateCSR (input_query encodedInput) None "" in
    let! o1 := next map_order_at in
    let! o2 := next map_order_at in
    io_ret (Ok (created_in o1 o2 req parsed)).

Definition export_details (csrID fileType : string) : list (string * any) :=
  map_of [("CSR_ID", Str csrID); ("fileType", Str fileType)].

Definition ExportCSR c ctx (csrID fileType : string) : io (res string) :=
  if bool_decide (csrID = "") then io_ret (Err (refuse opExportCSR "no CSR id to export"))
  else
    let fileType := if nonempty fileType then fileType else FileTypePrivateKey in
    try! encodedInput := io_ret (encode opExportCSR (export_details csrID fileType)) in
    callRaw c ctx "GET" opExportCSR (input_query encodedInput).
End client.

(** ** Encoding never fails *)

(** The dynamic types the details of an operation hold. *)
Definition is_scalar (v : any) : Prop :=
  match v with Nil | Bool _ | Int32 _ | Str _ => True | _ => False end.

Definition flat (m : list (string * any)) : Prop := Forall (λ e, is_scalar e.2) m.

Create HintDb flat.

Lemma flat_map_set k v m : is_scalar v → flat m → flat (map_set k v m).
Proof.
  intros Hv Hm. apply Forall_forall. intros [k' v'] He.
  apply elem_of_map_set in He as [[-> ->]|He]; [done|]. by eapply Forall_forall in Hm.
Qed.

Lemma flat_set_if b k v m : is_scalar v → flat m → flat (set_if b k v m).
Proof. destruct b; simpl; auto using flat_map_set. Qed.

Lemma flat_set_opt {A} k (f : A → any) o m : (∀ a, is_scalar (f a)) → flat m → flat (set_opt k f o m).
Proof. destruct o; simpl; auto using flat_map_set. Qed.

Lemma flat_nil : flat [].
Proof. constructor. Qed.

Lemma flat_map_of l : Forall (λ e, is_scalar e.2) l → flat (map_of l).
Proof.
  assert (∀ m, flat m → Forall (λ e, is_scalar e.2) l →
               flat (foldl (λ m e, map_set e.1 e.2 m) m l)) as Hfold; [|intros; apply Hfold; auto using flat_nil].
  induction l as [|[k v] l IH]; simpl; intros m Hm Hl; [done|]. inversion_clear Hl.
  apply IH; auto using flat_map_set.
Qed.

#[export] Hint Resolve flat_map_of flat_map_set flat_set_if flat_set_opt flat_nil : flat.
#[export] Hint Extern 1 (is_scalar _) => exact I : flat.
#[export] Hint Constructors Forall : flat.
#[export] Hint Extern 1 (∀ _, is_scalar _) => (intros; exact I) : flat.

Lemma SignRequest_details_flat r : flat (SignRequest_details r).
Proof. unfold SignRequest_details. repeat case_match; auto 10 with flat. Qed.

Lemma lookup_details_flat cn : flat (lookup_details cn).
Proof. unfold lookup_details. auto 10 with flat. Qed.

Lemma create_details_flat r : flat (CreateCSRRequest_details r).
Proof.
  unfold CreateCSRRequest_details.
  assert (∀ l m, flat m → flat (foldl (λ m e, set_if (nonempty e.2) e.1 (Str e.2) m) m l)) as Hfold.
  { induction l as [|e l IH]; simpl; auto with flat. }
  auto 10 with flat.
Qed.

Lemma import_details_flat email : flat (import_details email).
Proof. unfold import_details. auto with flat. Qed.

Lemma certificate_details_flat cn sn : flat (certificate_details cn sn).
Proof. unfold certificate_details. auto with flat. Qed.

Lemma export_details_flat id ty : flat (export_details id ty).
Proof. unfold export_details. auto 10 with flat. Qed.

#[export] Hint Resolve SignRequest_details_flat lookup_details_flat create_details_flat
  import_details_flat certificate_details_flat export_details_flat : flat.

(** The INPUT_DATA document of some details. *)
Definition input_document (details : list (string * any)) : string :=
  default "" (json_marshal (envelope details)).

Lemma encode_flat op m : flat m → encode op m = Ok (input_document m).
Proof.
  intros Hm. unfold encode, inputData, input_document, envelope.
  assert (is_Some (json_marshal (Map [("operation", Map [("Details", Map m)])]))) as [s ->]; [|done].
  do 2 (apply json_marshal_map; intros e ->%list_elem_of_singleton).
  apply json_marshal_map. intros [k v] He. eapply Forall_forall in Hm; [|done].
  destruct v; try done; by eexists.
Qed.

(** ** What the server reads *)

(** Details the server can read back: distinct ASCII keys, fields [json.Marshal]
    encodes. *)
Definition sendable (m : list (string * any)) : Prop :=
  map_ok m ∧ Forall (λ e, is_ascii e.1 = true ∧ encodable 0 e.2) m.

Create HintDb sendable.

Lemma sendable_nil : sendable [].
Proof. split; constructor. Qed.

Lemma sendable_set k v m : is_ascii k = true → encodable 0 v → sendable m → sendable (map_set k v m).
Proof.
  intros Hk Hv [Hok Hm]. split; [by apply map_set_ok|]. apply Forall_forall. intros [k' v'] He.
  apply elem_of_map_set in He as [[-> ->]|He]; [done|]. by eapply Forall_forall in Hm.
Qed.

Lemma sendable_set_if b k v m :
  is_ascii k = true → encodable 0 v → sendable m → sendable (set_if b k v m).
Proof. destruct b; simpl; auto using sendable_set. Qed.

Lemma sendable_set_opt {A} k (f : A → any) o m :
  is_ascii k = true → (∀ a, o = Some a → encodable 0 (f a)) → sendable m → sendable (set_opt k f o m).
Proof. destruct o; simpl; auto using sendable_set. Qed.

Lemma sendable_assign (l : list (string * any)) m :
  Forall (λ e, is_ascii e.1 = true ∧ encodable 0 e.2) l → sendable m →
  sendable (foldl (λ m e, map_set e.1 e.2 m) m l).
Proof.
  intros Hl. revert m. induction Hl as [|e l [? ?] Hl IH]; simpl; intros m Hm; [done|].
  apply IH. by apply sendable_set.
Qed.

Lemma sendable_assign_if (l : list (string * string)) m :
  Forall (λ e, is_ascii e.1 = true) l → sendable m →
  sendable (foldl (λ m e, set_if (nonempty e.2) e.1 (Str e.2) m) m l).
Proof.
  intros Hl. revert m. induction Hl as [|e l ? Hl IH]; simpl; intros m Hm; [done|].
  apply IH. by apply sendable_set_if; [|constructor|].
Qed.

#[export] Hint Resolve sendable_set sendable_set_if sendable_set_opt sendable_assign sendable_assign_if
  sendable_nil : sendable.
#[export] Hint Constructors encodable Forall : sendable.
#[export] Hint Extern 1 (is_ascii _ = true) => reflexivity : sendable.
#[export] Hint Extern 1 (Forall _ (create_optional _)) => repeat constructor : sendable.

(** The details of the operations; the timeout of an agent is an [int32]. *)
Inductive operation_details : list (string * any) → Prop :=
| importing_details email : operation_details (import_details email)
| listing_details cn : operation_details (lookup_details cn)
| signing_details r :
    (∀ t, AgentResponseTimeoutSeconds r = Some t → fits_int32 t = true) →
    operation_details (SignRequest_details r)
| fetching_details cn sn : operation_details (certificate_details cn sn)
| creating_details r : operation_details (CreateCSRRequest_details r)
| exporting_details id ty : operation_details (export_details id ty).

Lemma operation_details_sendable m : operation_details m → sendable m.
Proof.
  destruct 1; unfold import_details, lookup_details, certificate_details, CreateCSRRequest_details,
    export_details, SignRequest_details, map_of; cbv zeta; repeat case_match; eauto 12 with sendable.
Qed.

(** The document the server finds in [INPUT_DATA]. *)
Definition received_document (details : list (string * any)) : any :=
  envelope (map (λ e, (e.1, decoded e.2)) details).

Lemma sendable_reads_back details :
  sendable details →
  ∃ text, inputData details = Ok text ∧ json_unmarshal text = Some (received_document details).
Proof.
  intros [Hok Hm]. destruct (marshal_unmarshal 3 (envelope details)) as (text & Ht & Hu); [|done|].
  - assert (∀ k (v : any), map_ok [(k, v)]) as Hone by (intros; repeat constructor).
    unfold envelope. apply encodable_map; [done|]. constructor; [|done]. split; [done|]. simpl.
    apply encodable_map; [done|]. constructor; [|done]. split; [done|]. simpl.
    by apply encodable_map.
  - exists text. unfold inputData. by rewrite Ht.
Qed.

(** ** What a run of an operation does *)

Section client_runs.
Context `{Unicode, Conversions, Env, PublicKeys, !X509, Pem}.
Implicit Types (c : Client) (ctx : context).

(** A request that cannot be built has the URL it cannot be built for. *)
Lemma unbuilt_URL c method op q b ct msg :
  request_error (target c op q) = Some msg → request_error (URL (build_request c method op q b ct)) = Some msg.
Proof.
  intros E. unfold build_request. cbn [URL]. destruct (request_URL (target c op q)) eqn:Eu; [|done].
  unfold request_error in E. by rewrite Eu in E.
Qed.

(** From the outcome of an exchange to the document [call] returns. *)
Definition receive (o1 o2 o3 o4 : order) (op : string) (outcome : http_outcome) : res response :=
  match received op outcome with
  | Ok (code, raw) => interpret o1 o2 o3 o4 op code raw
  | Err e => Err e
  end.

(** [call] with a request: no exchange when it cannot be built, else one. *)
Inductive called (op : string) (req : http_request) : res response → list event → Prop :=
| called_unbuilt msg :
    request_error (URL req) = Some msg → called op req (Err (building_error op msg)) []
| called_answered o1 o2 o3 o4 (outcome : exchange) r :
    r = receive o1 o2 o3 o4 op outcome → called op req r [Sent req outcome].

(** An operation: a call whose document is then read by [f]. *)
Inductive operation {A} (op : string) (req : http_request) (f : response → res A → Prop)
  : res A → list event → Prop :=
| operation_failed e xs : called op req (Err e) xs → operation op req f (Err e) xs
| operation_answered p r xs : called op req (Ok p) xs → f p r → operation op req f r xs.

Definition plain_request c (method op : string) (details : list (string * any)) : http_request :=
  build_request c method op (input_query (input_document details)) None "".

Definition import_request c (boundary csrPEM email : string) : http_request :=
  build_request c "POST" opImportCSR []
    (Some (multipart_body boundary (import_parts csrPEM (input_document (import_details email)))))
    (FormDataContentType boundary).

Lemma run_call c ctx method op q b ct w (Q : res response → world → list event → Prop) :
  (∀ r w' xs, called op (build_request c method op q b ct) r xs → Q r w' xs) →
  run (call c ctx method op q b ct) w Q.
Proof.
  intros HQ. unfold call. run_step. unfold do. destruct (request_error _) eqn:E.
  - run_step. apply HQ. constructor. by apply unbuilt_URL.
  - do 3 run_step. simpl. destruct (received op o) as [[code raw]|e] eqn:Er.
    + repeat run_step. apply HQ. eapply called_answered. unfold receive. by rewrite Er.
    + apply HQ. apply (called_answered _ _ key_order key_order key_order key_order).
      unfold receive. by rewrite Er.
Qed.

Lemma run_plain {A} c ctx method op m (k : response → io (res A)) f w
    (Q : res A → world → list event → Prop) :
  flat m →
  (∀ p w, run (k p) w (λ r _ xs, xs = [] ∧ f p r)) →
  (∀ r w' xs, operation op (plain_request c method op m) f r xs → Q r w' xs) →
  run (try! encodedInput := io_ret (encode op m) in
       try! parsed := call c ctx method op (input_query encodedInput) None "" in k parsed) w Q.
Proof.
  intros Hm Hk HQ. do 2 run_step. rewrite encode_flat by done. simpl. run_step.
  apply run_call. intros [p|e] w' xs Hc; [|apply HQ; by constructor].
  eapply run_conseq; [apply Hk|]. intros r w'' xs' _ [-> Hf]. rewrite app_nil_r.
  apply HQ. by eapply operation_answered.
Qed.

Lemma run_SignCSR c ctx req w (Q : res SignResult → world → list event → Prop) :
  CSRID req ≠ "" →
  (∀ r w' xs, operation opSignCSR (plain_request c "POST" opSignCSR (SignRequest_details req))
     (λ p r, ∃ o1 o2 o3 o4, r = signed_in o1 o2 o3 o4 p) r xs → Q r w' xs) →
  run (SignCSR c ctx req) w Q.
Proof.
  intros Hid HQ. unfold SignCSR. rewrite bool_decide_eq_false_2 by done.
  eapply run_plain; [auto with flat| |exact HQ]. intros p w0. repeat run_step. simpl. eauto 10.
Qed.

Lemma run_GetCertificate c ctx cn sn w (Q : res (list certificate) → world → list event → Prop) :
  cn ≠ "" ∨ sn ≠ "" →
  (∀ r w' xs, operation opGetCertificate
     (plain_request c "GET" opGetCertificate (certificate_details cn sn))
     (λ p r, ∃ o, r = certificates_in o p) r xs → Q r w' xs) →
  run (GetCertificate c ctx cn sn) w Q.
Proof.
  intros Hid HQ. unfold GetCertificate. rewrite <- bool_decide_and, bool_decide_eq_false_2 by tauto.
  eapply run_plain; [auto with flat| |exact HQ]. intros p w0. repeat run_step. simpl. eauto.
Qed.

Lemma run_FindCSRID c ctx op cn w (Q : res string → world → list event → Prop) :
  op ≠ "" → cn ≠ "" →
  (∀ r w' xs, operation op (plain_request c "GET" op (lookup_details cn))
     (λ p r, ∃ o1 o2, r = found_in o1 o2 op cn p) r xs → Q r w' xs) →
  run (FindCSRID c ctx op cn) w Q.
Proof.
  intros Hop Hcn HQ. unfold FindCSRID. rewrite !bool_decide_eq_false_2 by done.
  eapply run_plain; [auto with flat| |exact HQ]. intros p w0. repeat run_step. simpl. eauto.
Qed.

Lemma run_CreateCSR c ctx req w (Q : res CSR → world → list event → Prop) :
  trim_space (create_CommonName req) ≠ "" →
  (∀ r w' xs, operation opCreateCSR (plain_request c "POST" opCreateCSR (CreateCSRRequest_details req))
     (λ p r, ∃ o1 o2, r = Ok (created_in o1 o2 req p)) r xs → Q r w' xs) →
  run (CreateCSR c ctx req) w Q.
Proof.
  intros Hcn HQ. unfold CreateCSR. rewrite bool_decide_eq_false_2 by done.
  eapply run_plain; [auto with flat| |exact HQ]. intros p w0. repeat run_step. simpl. eauto.
Qed.

Lemma run_ImportCSR c ctx csrPEM email w (Q : res CSR → world → list event → Prop) :
  csrPEM ≠ "" →
  (∀ r w' xs boundary, operation opImportCSR (import_request c boundary csrPEM email)
     (λ p r, ∃ o1 o2, r = Ok (imported_in o1 o2 p)) r xs → Q r w' xs) →
  run (ImportCSR c ctx csrPEM email) w Q.
Proof.
  intros Hpem HQ. unfold ImportCSR. rewrite bool_decide_eq_false_2 by done.
  do 2 run_step. rewrite encode_flat by auto with flat. simpl. do 3 run_step.
  apply run_call. intros [p|e] w1 xs Hc; simpl; [|eapply HQ; by constructor].
  repeat run_step. simpl. rewrite app_nil_r. eapply HQ, operation_answered; eauto.
Qed.

(** What [callRaw] returns for an outcome. *)
Definition receive_raw (o1 o2 o3 o4 : order) (op : string) (outcome : http_outcome) : res string :=
  match received op outcome with
  | Ok (code, raw) => interpret_raw o1 o2 o3 o4 op code raw
  | Err e => Err e
  end.

Inductive called_raw (op : string) (req : http_request) : res string → list event → Prop :=
| called_raw_unbuilt msg :
    request_error (URL req) = Some msg → called_raw op req (Err (building_error op msg)) []
| called_raw_answered o1 o2 o3 o4 (outcome : exchange) r :
    r = receive_raw o1 o2 o3 o4 op outcome → called_raw op req r [Sent req outcome].

Definition export_request c (csrID fileType : string) : http_request :=
  plain_request c "GET" opExportCSR
    (export_details csrID (if nonempty fileType then fileType else FileTypePrivateKey)).

Lemma run_ExportCSR c ctx csrID fileType w (Q : res string → world → list event → Prop) :
  csrID ≠ "" →
  (∀ r w' xs, called_raw opExportCSR (export_request c csrID fileType) r xs → Q r w' xs) →
  run (ExportCSR c ctx csrID fileType) w Q.
Proof.
  intros Hid HQ. unfold ExportCSR. rewrite bool_decide_eq_false_2 by done.
  do 2 run_step. rewrite encode_flat by auto with flat. simpl. unfold callRaw. run_step. unfold do.
  destruct (request_error _) eqn:E.
  - run_step. simpl. apply HQ. constructor. by apply unbuilt_URL.
  - do 3 run_step. simpl. destruct (received opExportCSR o) as [[code raw]|e] eqn:Er.
    + repeat run_step. apply HQ. eapply called_raw_answered. unfold receive_raw. by rewrite Er.
    + apply HQ. apply (called_raw_answered _ _ key_order key_order key_order key_order).
      unfold receive_raw. by rewrite Er.
Qed.

(** ** Classification of failures *)

(** [kmp.Error] of an operation whose cause, if any, is foreign: [IsPermanent]
    reads its flag. *)
Definition plain_failure (op : string) (permanent : bool) (e : error) : Prop :=
  ∃ k, e = KmpErr k ∧ Op k = op ∧ Permanent k = permanent ∧
    ∀ cause, Underlying k = Some cause →
      errors_is cause ErrInvalidConfig = false ∧ errors_is cause ErrUnusableResponse = false.

Lemma plain_failure_IsPermanent op b e : plain_failure op b e → IsPermanent e = b.
Proof. intros (k & -> & _ & <- & Hc). by apply IsPermanent_kmp. Qed.

(** A complete answer: a status, and a body read up to the limit. *)
Definition complete_answer (outcome : http_outcome) (code : Z) (raw : string) : Prop :=
  ∃ body read_error, outcome = Reply code body read_error ∧ raw = limit_read maxResponseBytes body ∧
    (read_error = None ∨ maxResponseBytes ≤ len body).

Lemma received_Ok op outcome code raw :
  received op outcome = Ok (code, raw) ↔ complete_answer outcome code raw.
Proof.
  unfold complete_answer. destruct outcome as [msg|status body read_error]; simpl.
  - split; [done|]. by intros (? & ? & ? & _).
  - unfold read_body. destruct read_error as [msg|].
    + destruct (Z.ltb_spec (len body) maxResponseBytes); split.
      * done.
      * intros (? & ? & [= <- <- <-] & _ & [?|?]); [done|lia].
      * intros [= <- <-]. eauto 10.
      * by intros (? & ? & [= <- <- <-] & -> & _).
    + split; [intros [= <- <-]; eauto 10|]. by intros (? & ? & [= <- <- <-] & -> & _).
Qed.

Lemma received_Err op outcome e : received op outcome = Err e → plain_failure op false e.
Proof.
  destruct outcome as [msg|status body [msg|]]; simpl; unfold read_body; try case_match;
    intros [= <-]; eexists; split_and!; try done; by intros ? [= <-].
Qed.

Lemma interpret_Err o1 o2 o3 o4 op code raw e :
  interpret o1 o2 o3 o4 op code raw = Err e →
  plain_failure op (if status_ok code then true else permanentStatus code) e.
Proof.
  unfold interpret. destruct (status_ok code) eqn:E; simpl.
  - case_match; [case_match|]; intros [= <-]; eexists; split_and!; try done; by intros ? [= <-].
  - intros [= <-]; eexists; split_and!; done.
Qed.

(** A usable document: 2xx, valid JSON, no failure reported. *)
Lemma interpret_Ok o1 o2 o3 o4 op code raw p :
  interpret o1 o2 o3 o4 op code raw = Ok p ↔
  200 ≤ code ≤ 299 ∧ parseResponse raw = Some p ∧ succeeded o1 o2 (Some p) = true.
Proof.
  unfold interpret, status_ok. destruct (Z.ltb_spec code 200), (Z.ltb_spec 299 code); simpl;
    try (split; [done|lia]).
  destruct (parseResponse raw) as [d|]; [|split; [done|naive_solver]].
  destruct (succeeded o1 o2 (Some d)) eqn:E; simpl; split; try done.
  - by intros [= <-].
  - by intros (_ & [= ->] & _).
  - intros (_ & [= ->] & Hs). congruence.
Qed.

Lemma receive_Ok o1 o2 o3 o4 op outcome p :
  receive o1 o2 o3 o4 op outcome = Ok p ↔
  ∃ code raw, complete_answer outcome code raw ∧ 200 ≤ code ≤ 299 ∧
    parseResponse raw = Some p ∧ succeeded o1 o2 (Some p) = true.
Proof.
  unfold receive. setoid_rewrite <- (received_Ok op).
  destruct (received op outcome) as [[code raw]|e].
  - rewrite interpret_Ok. naive_solver.
  - naive_solver.
Qed.

Lemma receive_Err o1 o2 o3 o4 op outcome e :
  receive o1 o2 o3 o4 op outcome = Err e →
  ∃ b, plain_failure op b e ∧
    (b = true ↔ ∃ code raw, complete_answer outcome code raw ∧
       (200 ≤ code ≤ 299 ∨ permanentStatus code = true)).
Proof.
  unfold receive. setoid_rewrite <- (received_Ok op).
  destruct (received op outcome) as [[code raw]|e'] eqn:Er.
  - intros He%interpret_Err. eexists. split; [done|]. unfold status_ok.
    destruct (Z.ltb_spec code 200), (Z.ltb_spec 299 code); simpl;
      (split; [intros; exists code, raw; (tauto || (split; [done|lia]))|]);
      intros (? & ? & [= <- <-] & [?|?]); (done || lia).
  - intros [= <-]. exists false. split; [by eapply received_Err|]. naive_solver.
Qed.

(** A usable answer in every order of the maps: complete, 2xx, a document that
    reports no failure. *)
Definition answers (P : response → Prop) (outcome : http_outcome) : Prop :=
  ∃ code raw p, complete_answer outcome code raw ∧ 200 ≤ code ≤ 299 ∧
    parseResponse raw = Some p ∧ (∀ o1 o2, succeeded o1 o2 (Some p) = true) ∧ P p.

(** A request that can be built and is answered is read out of the answer. *)
Lemma operation_answers {A} op req (f : response → res A → Prop) (P : response → Prop) r xs :
  operation op req f r xs → request_error (URL req) = None →
  (∀ o, Sent req o ∈ xs → answers P o) → ∃ p, P p ∧ f p r.
Proof.
  intros Hop Hbuilt Hans.
  assert (∀ rc, called op req rc xs → ∃ p, P p ∧ rc = Ok p) as Hcall.
  { intros rc. inversion 1 as [msg Hm|o1 o2 o3 o4 outcome r' Hr]; subst; [congruence|].
    destruct (Hans outcome) as (code & raw & p & ? & ? & ? & ? & ?); [by left|].
    exists p. split; [done|]. apply receive_Ok. eauto 10. }
  destruct Hop as [e xs Hc|p r xs Hc Hf]; apply Hcall in Hc as (p' & ? & ?); simplify_eq. eauto.
Qed.

(** A file, of which nothing in a JSON document reports failure. *)
Definition answers_file (P : string → Prop) (outcome : http_outcome) : Prop :=
  ∃ code raw, complete_answer outcome code raw ∧ 200 ≤ code ≤ 299 ∧ raw ≠ "" ∧
    (∀ p o1 o2, parseResponse raw = Some p → succeeded o1 o2 (Some p) = true) ∧ P raw.

Lemma called_raw_answers op req (P : string → Prop) r xs :
  called_raw op req r xs → request_error (URL req) = None →
  (∀ o, Sent req o ∈ xs → answers_file P o) → ∃ raw, r = Ok raw ∧ P raw.
Proof.
  intros Hc Hbuilt Hans. destruct Hc as [msg Hm|o1 o2 o3 o4 outcome r ->]; [congruence|].
  destruct (Hans outcome) as (code & raw & Ha & Hcode & Hne & Hok & HP); [by left|].
  exists raw. split; [|done]. unfold receive_raw.
  rewrite (proj2 (received_Ok op outcome code raw) Ha). unfold interpret_raw, status_ok, nonempty.
  rewrite (proj2 (Z.ltb_ge code 200)), (proj2 (Z.ltb_ge 299 code)), bool_decide_eq_true_2 by (done || lia).
  destruct (parseResponse raw) as [p|] eqn:E; [|done]. by rewrite (Hok p o1 o2 eq_refl).
Qed.

Lemma called_Err op req e xs :
  called op req (Err e) xs → ∃ b, plain_failure op b e.
Proof.
  inversion 1 as [msg Hm|o1 o2 o3 o4 outcome r Hr]; subst.
  - exists true, (KmpError op 0 "" "" "" true (Some (wrap "building request" (New msg)))).
    split_and!; [done..|]. by intros ? [= <-].
  - symmetry in Hr. apply receive_Err in Hr as (b & ? & _). eauto.
Qed.
End client_runs.

(** ** Where requests go *)

(** The path of an endpoint below a base path starts at the root. *)
Lemma path_clean_rooted p : has_prefix p "/" = true → ∃ q, path_clean p = String "/" q.
Proof. intros Hp. unfold path_clean. rewrite Hp. by eexists. Qed.

Lemma endpoint_rooted c op :
  rooted (Path (baseURL c)) → ∃ p, Path (endpoint c op) = String "/" p.
Proof.
  intros Hr. unfold endpoint. cbn [Path]. unfold path_join.
  destruct Hr as [->|[p ->]].
  - rewrite filter_cons_False, filter_cons_True by (done || tauto). apply path_clean_rooted.
    by destruct (filter _ [op]).
  - rewrite !filter_cons_True by done. apply path_clean_rooted. apply (rooted_prefix _).
Qed.

(** The URL of a client built from a configuration. *)
Lemma target_http c op q : http_url (baseURL c) → http_url (target c op q) ∧ Path (target c op q) ≠ "".
Proof.
  intros [Hs Ho Hh Hg Hp Hr Ha Hq]. destruct (endpoint_rooted c op Hp) as [p Ep].
  assert (Path (target c op q) = String "/" p) as E by by destruct q.
  split; [|by rewrite E]. constructor; try (by destruct q).
  - right. by rewrite E.
  - rewrite E. right. by exists p.
  - destruct q as [|e q]; [constructor|]. apply query_encode_bytes.
Qed.

Section targets.
Context `{Env}.

(** The request is one for the target, at the host without an empty port. *)
Lemma build_request_URL c method op q b ct :
  http_url (baseURL c) →
  request_error (URL (build_request c method op q b ct)) = None ∧
  let u := URL (build_request c method op q b ct) in
  Scheme u = Scheme (baseURL c) ∧ User u = User (baseURL c) ∧ Host u = drop_empty_port (Host (baseURL c)) ∧
  Path u = Path (endpoint c op) ∧ RawQuery u = query_encode q ∧ Fragment u = Fragment (baseURL c).
Proof.
  intros Hc. destruct (target_http c op q Hc) as [Ht Hne].
  destruct (request_URL_http _ Ht) as (raw & rawf & force & _ & E).
  pose proof (request_URL_again _ _ Ht Hne E) as Hv. unfold build_request. cbn [URL]. rewrite E. split.
  - unfold request_error. by destruct (request_URL_http _ Hv) as (? & ? & ? & _ & ->).
  - cbn [Scheme User Host Path RawQuery Fragment]. by destruct q.
Qed.

End targets.

(** The operations of the API, and the one an issuer may configure to list its
    requests, if any. *)
Definition known_operation (lookup op : string) : Prop :=
  op ∈ [opImportCSR; opSignCSR; opGetCertificate; opCreateCSR; opExportCSR] ∨ op = lookup ∧ lookup ≠ "".

Lemma known_of_api lookup op :
  op ∈ [opImportCSR; opSignCSR; opGetCertificate; opCreateCSR; opExportCSR] → known_operation lookup op.
Proof. by left. Qed.
#[export] Hint Extern 1 (known_operation _ _) => apply known_of_api; set_solver : kmp.

(** The event is a request that carries the token of the client, to a known
    operation of its server. *)
Definition addressed (c : Client) (lookup : string) (e : event) : Prop :=
  match e with
  | Sent req _ =>
    (http_url (baseURL c) →
     Scheme (URL req) = Scheme (baseURL c) ∧ Host (URL req) = drop_empty_port (Host (baseURL c)) ∧
     ∃ op, known_operation lookup op ∧ Path (URL req) = path_join [Path (baseURL c); apiBasePath; op]) ∧
    map_get "Authtoken" (Header req) = Some (authToken c)
  | _ => False
  end.

Lemma addressed_lookup c lookup e : addressed c "" e → addressed c lookup e.
Proof.
  destruct e as [req o| | |]; try done. intros [Hu Ht]. split; [|done]. intros Hb.
  destruct (Hu Hb) as (? & ? & op & [?|[_ ?]] & ?); [|done]. split_and!; [done..|]. exists op. split; [by left|done].
Qed.

Lemma build_request_addressed c lookup method op q b ct o :
  known_operation lookup op → addressed c lookup (Sent (build_request c method op q b ct) o).
Proof.
  intros Hop. split.
  - intros Hc. destruct (target_http c op q Hc) as [Ht _].
    destruct (request_URL_http _ Ht) as (raw & rawf & force & _ & E). unfold build_request. cbn [URL]. rewrite E.
    cbn [Scheme Host Path]. destruct q; (split_and!; [done..|by exists op]).
  - unfold build_request. cbv zeta. cbn [Header]. repeat case_match; unfold header_set;
      rewrite ?map_get_set_ne by done; apply map_get_set_eq.
Qed.

Section addressed.
Context `{Unicode, Conversions, Env, PublicKeys, !X509, Pem}.
Context (lookup : string).

Lemma called_addressed c op method q b ct r xs :
  known_operation lookup op → called op (build_request c method op q b ct) r xs → Forall (addressed c lookup) xs.
Proof. inversion 2; subst; [constructor|by apply Forall_singleton, build_request_addressed]. Qed.

Lemma operation_addressed {A} c op method q b ct (f : response → res A → Prop) r xs :
  known_operation lookup op → operation op (build_request c method op q b ct) f r xs → Forall (addressed c lookup) xs.
Proof. inversion 2; subst; by eapply called_addressed. Qed.

Lemma called_raw_addressed c op method q b ct r xs :
  known_operation lookup op → called_raw op (build_request c method op q b ct) r xs → Forall (addressed c lookup) xs.
Proof. inversion 2; subst; [constructor|by apply Forall_singleton, build_request_addressed]. Qed.

Lemma plain_addressed {A} c op method m (f : response → res A → Prop) r xs :
  known_operation lookup op → operation op (plain_request c method op m) f r xs → Forall (addressed c lookup) xs.
Proof. apply operation_addressed. Qed.

Lemma import_addressed {A} c boundary pem email (f : response → res A → Prop) r xs :
  operation opImportCSR (import_request c boundary pem email) f r xs → Forall (addressed c lookup) xs.
Proof. apply operation_addressed. auto with kmp. Qed.
End addressed.

Section lengths.
Context `{Unicode, Conversions, Env, PublicKeys, !X509, Pem}.

(** A call sends at most one request, and one exactly if it got an answer. *)
Lemma operation_length {A} op req (f : response → res A → Prop) r xs :
  operation op req f r xs →
  (length xs ≤ 1)%nat ∧ Forall (λ e, ∃ o, e = Sent req o) xs ∧ (∀ a, r = Ok a → ∃ o, xs = [Sent req o]).
Proof.
  assert (∀ rc ys, called op req rc ys → (length ys ≤ 1)%nat ∧ Forall (λ e, ∃ o, e = Sent req o) ys ∧
            (∀ p, rc = Ok p → ∃ o, ys = [Sent req o])) as Hcall.
  { intros rc ys. inversion 1; subst; simpl; split_and!; try lia; try done; eauto.
    }
  inversion 1 as [e ys Hc|p r' ys Hc Hf]; subst; apply Hcall in Hc as (? & ? & Hok).
  - split_and!; [done..|]. done.
  - split_and!; [done..|]. intros a ->. by apply (Hok p).
Qed.
Lemma operation_Ok {A} op req (f : response → res A → Prop) a xs :
  operation op req f (Ok a) xs → ∃ o, xs = [Sent req o].
Proof. intros (_ & _ & Hok)%operation_length. by apply (Hok a). Qed.
End lengths.
#[export] Hint Resolve plain_addressed import_addressed called_raw_addressed : kmp.

(** ** Paths *)

Lemma split_slash_app a b : split_slash (a +:+ "/" +:+ b) = split_slash a ++ split_slash b.
Proof.
  induction a as [|x a IH]; [done|]. rewrite string_app_cons. simpl. rewrite IH.
  destruct (byte_of x =? 47); [done|]. destruct (split_slash a) eqn:E; [|done].
  by destruct a as [|y a]; simpl in E; repeat case_match.
Qed.

(** A path element that [path.Clean] keeps as it is. *)
Definition plain_element (e : string) : Prop := split_slash e = [e] ∧ e ∉ [""; "."; ".."].

Lemma clean_step_plain rooted out e : plain_element e → clean_step rooted out e = e :: out.
Proof.
  intros [_ He]. unfold clean_step. rewrite !bool_decide_eq_false_2; [done|..]; set_solver.
Qed.

Lemma join_app (l l' : list string) :
  l ≠ [] → l' ≠ [] → join "/" (l ++ l') = join "/" l +:+ "/" +:+ join "/" l'.
Proof.
  intros Hl Hl'. unfold join. induction l as [|x l IH]; [done|].
  destruct l as [|y l]; [by destruct l'|].
  change ((x :: y :: l) ++ l') with (x :: (y :: l) ++ l').
  change (String.concat "/" (x :: (y :: l) ++ l')) with (x +:+ "/" +:+ String.concat "/" ((y :: l) ++ l')).
  rewrite IH by done. change (String.concat "/" (x :: y :: l)) with (x +:+ "/" +:+ String.concat "/" (y :: l)).
  by rewrite !string_app_assoc.
Qed.

Lemma has_prefix_app p s t : has_prefix s p = true → has_prefix (s +:+ t) p = true.
Proof.
  revert s. induction p as [|c p IH]; intros s Hs; [by destruct (s +:+ t)|].
  destruct s as [|d s]; [done|]. rewrite string_app_cons. simpl in *.
  apply andb_true_iff in Hs as [-> Hs]. by rewrite IH.
Qed.

(** The path below which an API is: the configured one as [path.Clean] leaves it,
    without the slash it ends in if it is the root. *)
Definition base_path (p : string) : string :=
  if bool_decide (p = "") || bool_decide (path_clean p = "/") then "" else path_clean p.

Lemma clean_nonempty rooted elems out :
  "" ∉ out → "" ∉ foldl (clean_step rooted) out elems.
Proof.
  revert out. induction elems as [|e elems IH]; intros out Hout; [done|]. simpl. apply IH. unfold clean_step.
  assert (∀ x l, x ≠ "" → "" ∉ l → "" ∉ x :: l) as Hcons by (intros x l Hx Hl; rewrite not_elem_of_cons; by split).
  case_bool_decide as E1; [done|]. case_bool_decide as E2; [|apply Hcons; [intros ->; by apply E1; left|done]].
  destruct out as [|x out]; [destruct rooted; [done|by apply Hcons]|].
  apply not_elem_of_cons in Hout as Hx. case_bool_decide; [by apply Hcons|tauto].
Qed.

Lemma join_slash_nonempty l : "" ∉ l → l ≠ [] → "/" +:+ join "/" l ≠ "/".
Proof.
  intros Hl Hne E. destruct l as [|x l]; [done|]. injection E as E. destruct x as [|b x]; [set_solver|].
  by destruct l.
Qed.

(** A rooted path followed by elements that are kept. *)
Lemma path_clean_below p op :
  rooted p → plain_element op →
  path_clean (p +:+ apiBasePath +:+ "/" +:+ op) = base_path p +:+ apiBasePath +:+ "/" +:+ op.
Proof.
  intros Hroot Hop. assert (Hq : has_prefix (p +:+ apiBasePath +:+ "/" +:+ op) "/" = true).
  { destruct Hroot as [->|[p' ->]]; [apply (rooted_prefix _)|]. apply has_prefix_app, rooted_prefix. }
  unfold path_clean at 1. rewrite Hq.
  change (apiBasePath +:+ "/" +:+ op) with ("/" +:+ "api" +:+ "/" +:+ "pki" +:+ "/" +:+ "restapi" +:+ "/" +:+ op).
  rewrite !split_slash_app, (proj1 Hop), foldl_app. set (l := foldl (clean_step true) [] (split_slash p)).
  cbn [app split_slash foldl byte_of]. simpl foldl.
  rewrite !clean_step_plain by (done || (split; [done|set_solver])).
  change (op :: "restapi" :: "pki" :: "api" :: l) with ([op; "restapi"; "pki"; "api"] ++ l). rewrite rev_app_distr.
  change (rev [op; "restapi"; "pki"; "api"]) with ["api"; "pki"; "restapi"; op].
  assert (Hbase : base_path p = if decide (rev l = []) then "" else "/" +:+ join "/" (rev l)).
  { unfold base_path. destruct (decide (p = "")) as [->|Hp]; [done|]. rewrite (bool_decide_eq_false_2 (p = "")) by done.
    destruct Hroot as [?|[p' Hroot]]; [done|]. assert (path_clean p = "/" +:+ join "/" (rev l)) as ->.
    { assert (has_prefix p "/" = true) as Hpre by (rewrite Hroot; apply rooted_prefix).
      unfold path_clean. by rewrite Hpre. }
    destruct (decide (rev l = [])) as [E|E]; [by rewrite E|]. simpl orb. rewrite bool_decide_eq_false_2; [done|]. apply join_slash_nonempty; [|done].
    intros Hin. apply (clean_nonempty true (split_slash p) []); [set_solver|]. fold l.
    by apply list_elem_of_In, in_rev, list_elem_of_In. }
  rewrite Hbase. case_decide as E; [by rewrite E|]. by rewrite join_app, <- !string_app_assoc by done.
Qed.

Lemma endpoint_Path c op :
  rooted (Path (baseURL c)) → plain_element op →
  Path (endpoint c op) = base_path (Path (baseURL c)) +:+ apiBasePath +:+ "/" +:+ op.
Proof.
  intros Hroot Hop. unfold endpoint. cbn [Path]. set (p := Path (baseURL c)) in *.
  assert (op ≠ "") as Hne by (destruct Hop; set_solver). rewrite <- path_clean_below by done.
  unfold path_join. destruct (decide (p = "")) as [E|E].
  - rewrite E. by rewrite filter_cons_False, !filter_cons_True, filter_nil by (done || tauto).
  - rewrite !filter_cons_True, filter_nil by done.
    change (join "/" [p; apiBasePath; op]) with (p +:+ "/" +:+ apiBasePath +:+ "/" +:+ op).
    unfold path_clean. destruct Hroot as [?|[p' Hroot]]; [done|]. rewrite Hroot, !string_app_cons, !rooted_prefix.
    rewrite <- !string_app_cons, <- Hroot.
    change (apiBasePath +:+ "/" +:+ op) with ("/" +:+ "api" +:+ "/" +:+ "pki" +:+ "/" +:+ "restapi" +:+ "/" +:+ op).
    rewrite !split_slash_app, !foldl_app. by cbn [split_slash app foldl].
Qed.

(** ** Built clients *)

Section built_clients.
Context `{Unicode, Conversions, Env, PublicKeys, !X509, Pem}.

Lemma NewClient_Ok cfg c :
  NewClient cfg = Ok c →
  url_Parse (trim_space (BaseURL cfg)) = Some (baseURL c) ∧
  (Scheme (baseURL c) = "http" ∨ Scheme (baseURL c) = "https") ∧ Host (baseURL c) ≠ "" ∧
  authToken c = trim_space (AuthToken cfg) ∧ authToken c ≠ "" ∧
  0 < Timeout (httpClient c) ∧ userAgent c = UserAgent cfg.
Proof.
  unfold NewClient. case_bool_decide as E1; [done|].
  destruct (url_Parse _) as [u|]; [|done].
  case_bool_decide as E2; [done|]. case_bool_decide as E3; [done|]. case_bool_decide as E4; [done|].
  destruct (match cfg_Transport cfg with Some t => Ok t | None => tls_transport cfg end); [|done].
  simpl. intros [= <-]. simpl.
  split_and!; [done|set_solver|done..| |done].
  unfold defaultTimeout, Second. destruct (Z.leb_spec (cfg_Timeout cfg) 0); lia.
Qed.

(** The URL it has, if that has no zone. *)
Lemma NewClient_http cfg c : NewClient cfg = Ok c → unzoned (Host (baseURL c)) → http_url (baseURL c).
Proof.
  intros (Hp & Hs & Hh & _)%NewClient_Ok Hz. eapply url_Parse_http; [done| |done..]. set_solver.
Qed.

End built_clients.

(** ** Properties *)

Section client_claims.
Context `{Unicode, Conversions, Env, PublicKeys, !X509, Pem}.

(** C25: an operation accepts a completely received 2xx answer whose body is JSON
    and reports no failure, and nothing else.  Any other outcome is an error that
    names the operation and carries the status of a complete answer; it is
    permanent exactly when the answer was complete and the status is 2xx or one
    of 4xx other than 408 and 429: transport and read failures, server errors and
    throttling are retried. *)
Theorem receive_classified o1 o2 o3 o4 op outcome :
  (∀ p, receive o1 o2 o3 o4 op outcome = Ok p ↔
     ∃ code raw, complete_answer outcome code raw ∧ 200 ≤ code ≤ 299 ∧
       parseResponse raw = Some p ∧ succeeded o1 o2 (Some p) = true) ∧
  (∀ e, receive o1 o2 o3 o4 op outcome = Err e →
     (∃ k, e = KmpErr k ∧ Op k = op ∧ ∀ code raw, complete_answer outcome code raw → StatusCode k = code) ∧
     (IsPermanent e = true ↔
      ∃ code raw, complete_answer outcome code raw ∧
        (200 ≤ code ≤ 299 ∨ 400 ≤ code < 500 ∧ code ≠ 408 ∧ code ≠ 429))).
Proof.
  split; [intros p; apply receive_Ok|]. intros e E. pose proof E as (b & Hf & Hb)%receive_Err.
  rewrite (plain_failure_IsPermanent _ _ _ Hf), Hb.
  split; [destruct Hf as (k & -> & ? & _); exists k; split_and!; [done..|]|by setoid_rewrite permanentStatus_spec].
  intros code raw Ha. apply (received_Ok op) in Ha. unfold receive in E. rewrite Ha in E.
  unfold interpret, status_error, failure_error in E. repeat case_match; try discriminate E; injection E as E; by rewrite <- E.
Qed.

(** C26: the id [FindCSRID] takes out of a listing is either one listed for the
    requested common name, or the only id of a document that names no common
    name at all; otherwise it reports a failure that is retried. *)
Theorem FindCSRID_never_guesses o1 o2 op cn p :
  let ids := wanted_set csrIDKeys in
  let names := wanted_set commonNameKeys in
  match found_in o1 o2 op cn p with
  | Ok id =>
    lists_id ids names cn (doc p) id ∨
    (∀ id', stores ids (doc p) id' ↔ id' = id) ∧ ∀ name, ¬ stores names (doc p) name
  | Err e => IsPermanent e = false
  end.
Proof.
  intros ids names. unfold found_in, id_in_listing.
  destruct (findIDForCommonName _ _ _ _ _) as [id|] eqn:E.
  { left. by eapply findIDForCommonName_sound. }
  destruct (collectStringsFor (Some p) csrIDKeys) as [|id [|? ?]] eqn:Ei; try done.
  destruct (collectStringsFor (Some p) commonNameKeys) eqn:En; [|done].
  change (scalars_for ids (doc p) = [id]) in Ei. change (scalars_for names (doc p) = []) in En.
  right. split; intros x; rewrite <- scalars_for_spec.
  - by rewrite Ei, list_elem_of_singleton.
  - rewrite En. apply not_elem_of_nil.
Qed.
End client_claims.

(** The sign type [SignRequest.details] sends. *)
Definition sent_sign_type (r : SignRequest) : string := if nonempty (SignType r) then SignType r else "MSCA".

(** What the details of a signCSR request hold under each key, by sign type. *)
Definition sign_field (r : SignRequest) (key : string) : option any :=
  let ty := sent_sign_type r in
  let root := bool_decide (ty = "signWithRoot") in
  let agent := bool_decide (ty = "MSCAusingAgent") in
  let when (b : bool) (v : option any) := if b then v else None in
  if bool_decide (key = "CSR_ID") then Some (Str (CSRID r))
  else if bool_decide (key = "signType") then Some (Str ty)
  else if bool_decide (key = "serverName") then when (negb root) (Some (Str (ServerName r)))
  else if bool_decide (key = "caName") then when (negb root) (Some (Str (CAName r)))
  else if bool_decide (key = "templateName") then when (negb root) (Some (Str (TemplateName r)))
  else if bool_decide (key = "agentName") then when agent (Some (Str (AgentName r)))
  else if bool_decide (key = "agentResponseTimeout") then
    when agent (Int32 <$> AgentResponseTimeoutSeconds r)
  else if bool_decide (key = "rootCertificateCommonName") then
    when root (Some (Str (RootCertificateCommonName r)))
  else if bool_decide (key = "rootCertificateSerialNumber") then
    when (root && nonempty (RootCertificateSerialNumber r)) (Some (Str (RootCertificateSerialNumber r)))
  else if bool_decide (key = "Validity") then
    when root ((λ d, Str (format_int d)) <$> ValidityDays r)
  else if bool_decide (key = "isIntermediate") then when root (Bool <$> IsIntermediate r)
  else None.

Lemma map_get_set {V} k (v : V) k' m :
  map_get k (map_set k' v m) = if bool_decide (k = k') then Some v else map_get k m.
Proof. case_bool_decide; [subst; apply map_get_set_eq|by apply map_get_set_ne]. Qed.

Lemma map_get_set_if b k v k' m :
  map_get k (set_if b k' v m) = if bool_decide (k = k') && b then Some v else map_get k m.
Proof. destruct b; simpl; [|by rewrite andb_false_r]. by rewrite map_get_set, andb_true_r. Qed.

Lemma map_get_set_opt {A} k (f : A → any) (o : option A) k' m :
  map_get k (set_opt k' f o m) =
  if bool_decide (k = k') then match o with Some a => Some (f a) | None => map_get k m end
  else map_get k m.
Proof. destruct o; simpl; [apply map_get_set|by destruct (bool_decide _)]. Qed.

(** Look up a key in a map built by assignments, by cases on the key. *)
Ltac by_key key :=
  rewrite ?map_get_set_opt, ?map_get_set_if, ?map_get_set;
  repeat match goal with
  | |- context [bool_decide (key = ?k)] =>
      destruct (decide (key = k)) as [->|?];
      [repeat first [rewrite bool_decide_eq_true_2 by done | rewrite bool_decide_eq_false_2 by done];
       cbn [andb negb]; try done
      |rewrite !(bool_decide_eq_false_2 (key = k)) by done; cbn [andb negb]]
  end.

(** The details of a signCSR request hold, for every key, exactly the field
      that applies to the sign type: the CSR id and the sign type always, the
      Microsoft CA fields unless a root signs, the agent fields only through an
      agent, the root certificate, validity and intermediate flag only for a
      root. *)
Theorem SignRequest_details_fields r key :
  map_get key (SignRequest_details r) = sign_field r key.
Proof.
  unfold SignRequest_details, sign_field, map_of, sent_sign_type. cbv zeta.
  set (ty := if nonempty (SignType r) then SignType r else "MSCA").
  assert (Hexcl : bool_decide (ty = "signWithRoot") = true → bool_decide (ty = "MSCAusingAgent") = false).
  { intros ->%bool_decide_eq_true. by apply bool_decide_eq_false. }
  destruct (bool_decide (ty = "signWithRoot")), (bool_decide (ty = "MSCAusingAgent"));
    try (by specialize (Hexcl eq_refl)); cbn [foldl fst snd];
    by_key key; try done;
    try (by destruct (ValidityDays r)); try (by destruct (IsIntermediate r));
    try (by destruct (AgentResponseTimeoutSeconds r)); by destruct (nonempty _).
Qed.

(** What [CreateCSRRequest.details] holds under each key: every field that was
    set, under its own key. *)
Definition create_field (r : CreateCSRRequest) (key : string) : option any :=
  let text (v : string) := if nonempty v then Some (Str v) else None in
  if bool_decide (key = "CNAME") then Some (Str (create_CommonName r))
  else if bool_decide (key = "LEN") then
    if 0 <? create_KeyLength r then Some (Str (format_int (create_KeyLength r))) else None
  else if bool_decide (key = "VALIDITY_TYPE") then text (create_ValidityType r)
  else if bool_decide (key = "VALIDITY") then
    (λ d, Str (format_int d)) <$> create_ValidityDays r
  else if bool_decide (key = "ALT_NAMES") then text (join "," (create_AltNames r))
  else if bool_decide (key = "ORG") then text (create_Organization r)
  else if bool_decide (key = "ORGUNIT") then text (create_OrganizationalUnit r)
  else if bool_decide (key = "LOCATION") then text (create_Location r)
  else if bool_decide (key = "STATE") then text (create_State r)
  else if bool_decide (key = "COUNTRY") then text (create_Country r)
  else if bool_decide (key = "PASSWORD") then text (create_Password r)
  else if bool_decide (key = "ALG") then text (create_KeyAlgorithm r)
  else if bool_decide (key = "SIGALG") then text (create_SignatureAlgorithm r)
  else if bool_decide (key = "StoreType") then text (create_StoreType r)
  else None.

Lemma create_optional_field r key :
  key ∉ ["CNAME"; "LEN"; "VALIDITY_TYPE"; "VALIDITY"] →
  (map_get key (create_optional r) ≫= λ v, if nonempty v then Some (Str v) else None) = create_field r key.
Proof.
  intros Hkey. unfold create_field. cbv zeta. rewrite !(bool_decide_eq_false_2 (key = _)) by set_solver.
  unfold create_optional. cbn [map_get].
  repeat match goal with
  | |- context [decide (key = ?k)] =>
    destruct (decide (key = k)) as [->|?]; [by rewrite ?bool_decide_eq_true_2 by done|];
    rewrite (bool_decide_eq_false_2 (key = k)) by done
  end.
  done.
Qed.

(** [CreateCSRRequest.details] with the optional fields set in some order. *)
Definition create_details_in (l : list (string * string)) (r : CreateCSRRequest) : list (string * any) :=
  let details := map_of [("CNAME", Str (create_CommonName r))] in
  let details := foldl (λ m e, set_if (nonempty e.2) e.1 (Str e.2) m) details l in
  let details := set_if (0 <? create_KeyLength r) "LEN" (Str (format_int (create_KeyLength r))) details in
  let details := set_if (nonempty (create_ValidityType r)) "VALIDITY_TYPE"
                   (Str (create_ValidityType r)) details in
  set_opt "VALIDITY" (λ d, Str (format_int d)) (create_ValidityDays r) details.

(** Assignments of the non-empty entries of a list with distinct keys. *)
Lemma map_get_assign key (l : list (string * string)) m :
  NoDup (keys l) →
  map_get key (foldl (λ m e, set_if (nonempty e.2) e.1 (Str e.2) m) m l) =
  match map_get key l with
  | Some v => if nonempty v then Some (Str v) else map_get key m
  | None => map_get key m
  end.
Proof.
  revert m. induction l as [|[k v] l IH]; simpl; intros m Hnd; [done|].
  apply NoDup_cons in Hnd as [Hk Hnd]. rewrite IH, map_get_set_if by done. simpl.
  destruct (decide (key = k)) as [->|Hne].
  - rewrite bool_decide_eq_true_2 by done. destruct (map_get k l) as [v'|] eqn:E.
    + apply map_get_Some in E. destruct Hk. apply list_elem_of_fmap. by exists (k, v').
    + simpl. by destruct (nonempty v).
  - by rewrite bool_decide_eq_false_2.
Qed.

Lemma map_set_if_ok b k (v : any) m : map_ok m → map_ok (set_if b k v m).
Proof. destruct b; simpl; auto using map_set_ok. Qed.

Lemma map_set_opt_ok {A} k (f : A → any) o m : map_ok m → map_ok (set_opt k f o m).
Proof. destruct o; simpl; auto using map_set_ok. Qed.

Lemma create_details_in_ok l r : map_ok (create_details_in l r).
Proof.
  unfold create_details_in. apply map_set_opt_ok, map_set_if_ok, map_set_if_ok.
  assert (∀ m, map_ok m → map_ok (foldl (λ m e, set_if (nonempty e.2) e.1 (Str e.2) m) m l)) as Hfold.
  { induction l as [|e l IH]; simpl; auto using map_set_if_ok. }
  apply Hfold, map_of_ok.
Qed.

Lemma create_optional_keys r : NoDup (keys (create_optional r)).
Proof. unfold keys. simpl. apply (bool_decide_unpack _). by vm_compute. Qed.

Lemma create_details_in_get l r key :
  l ≡ₚ create_optional r → map_get key (create_details_in l r) = create_field r key.
Proof.
  intros Hl. assert (NoDup (keys l)) as Hnd.
  { unfold keys. rewrite Hl. apply create_optional_keys. }
  unfold create_details_in, map_of. cbv zeta.
  rewrite map_get_set_opt, !map_get_set_if, map_get_assign by done.
  rewrite (map_get_perm _ _ _ Hnd Hl). cbn [foldl fst snd]. rewrite map_get_set.
  destruct (decide (key ∈ ["CNAME"; "LEN"; "VALIDITY_TYPE"; "VALIDITY"])) as [Hin|Hkey].
  - rewrite !elem_of_cons, elem_of_nil in Hin. unfold create_field. cbv zeta.
    destruct Hin as [->|[->|[->|[->|[]]]]]; simpl; [done|by destruct (0 <? create_KeyLength r)|by destruct (nonempty _)|
      by destruct (create_ValidityDays r)].
  - rewrite <- create_optional_field by done. rewrite !(bool_decide_eq_false_2 (key = _)) by set_solver. cbn [andb].
    by destruct (map_get key (create_optional r)) as [v|]; simpl; [destruct (nonempty v)|].
Qed.

(** In whatever order the runtime ranges the optional fields of a createCSR
    request, its details are the same: each field that was set, under its own
    key, and no other. *)
Theorem CreateCSRRequest_details_fields l r :
  l ≡ₚ create_optional r →
  create_details_in l r = CreateCSRRequest_details r ∧
  ∀ key, map_get key (CreateCSRRequest_details r) = create_field r key.
Proof.
  intros Hl. assert (CreateCSRRequest_details r = create_details_in (create_optional r) r) as -> by done.
  split; [|intros key; by apply create_details_in_get].
  apply map_ok_ext; [apply create_details_in_ok..|]. intros key.
  by rewrite !create_details_in_get.
Qed.

(** The calls of the API, by what they are about. *)
Inductive api_call_of :=
| Importing (email : string)
| Listing (commonName : string)
| SigningStored (r : SignRequest)
| Fetching (commonName serialNumber : string)
| Creating (r : CreateCSRRequest)
| Exporting (csrID fileType : string).

(** The details the program sends for them. *)
Definition details_of (a : api_call_of) : list (string * any) :=
  match a with
  | Importing email => import_details email
  | Listing cn => lookup_details cn
  | SigningStored r => SignRequest_details r
  | Fetching cn sn => certificate_details cn sn
  | Creating r => CreateCSRRequest_details r
  | Exporting id ty => export_details id (if nonempty ty then ty else FileTypePrivateKey)
  end.

(** What Key Manager Plus is to find under each key. *)
Definition field_of (a : api_call_of) (key : string) : option any :=
  let text (v : string) := if bool_decide (v = "") then None else Some (Str v) in
  match a with
  | Importing email => if bool_decide (key = "Email") then text email else None
  | Listing cn => if bool_decide (key = "common_name" ∨ key = "CNAME") then Some (Str cn) else None
  | SigningStored r => sign_field r key
  | Fetching cn sn =>
    if bool_decide (key = "common_name") then text cn
    else if bool_decide (key = "serial_number") then text sn else None
  | Creating r => create_field r key
  | Exporting id ty =>
    if bool_decide (key = "CSR_ID") then Some (Str id)
    else if bool_decide (key = "fileType") then Some (Str (if bool_decide (ty = "") then "PrivateKey" else ty)) else None
  end.

Lemma details_of_fields a key : map_get key (details_of a) = field_of a key.
Proof.
  destruct a as [email|cn|r|cn sn|r|id ty]; cbn [details_of field_of]; [| |apply SignRequest_details_fields| | |].
  - unfold import_details. rewrite map_get_set_if. unfold nonempty. repeat case_bool_decide; naive_solver.
  - unfold lookup_details, map_of. cbn [foldl fst snd]. rewrite !map_get_set. simpl. repeat case_bool_decide; naive_solver.
  - unfold certificate_details, nonempty. rewrite !map_get_set_if. repeat case_bool_decide; naive_solver.
  - by destruct (CreateCSRRequest_details_fields (create_optional r) r) as [_ Hget].
  - unfold export_details, map_of, nonempty. cbn [foldl fst snd]. rewrite !map_get_set. simpl. repeat case_bool_decide; naive_solver.
Qed.

Lemma map_get_decoded key details :
  map_get key (map (λ e, (e.1, decoded e.2)) details) = decoded <$> map_get key details.
Proof. induction details as [|[k v] details IH]; simpl; [done|]. by destruct (decide (key = k)). Qed.

(** An agent's timeout is an [int32]. *)
Definition sane_call (a : api_call_of) : Prop :=
  match a with
  | SigningStored r => ∀ t, AgentResponseTimeoutSeconds r = Some t → fits_int32 t = true
  | _ => True
  end.

Lemma details_of_operation a : sane_call a → operation_details (details_of a).
Proof. destruct a; simpl; intros; by constructor. Qed.


Section reach_claims.
Context `{Unicode, Conversions, Env, PublicKeys, !X509, Pem}.

End reach_claims.

(** An operation name with [..] elements, which the issuer may configure for
      the CSR lookup, leaves the API: the path is no longer below its base. *)
Lemma endpoint_escapes c :
  Path (baseURL c) = "" → Path (endpoint c "../../../admin") = "/admin".
Proof. intros Hp. unfold endpoint. simpl. rewrite Hp. vm_compute. reflexivity. Qed.

(** The request of [Ping]. *)
Definition probe_request (c : Client) : http_request :=
  plain_request c "GET" opGetCertificate (certificate_details "kmp-issuer-connectivity-probe.invalid" "").

Section ping_claims.
Context `{Unicode, Conversions, Env, PublicKeys, !X509, Pem}.

Lemma ping_verdict_unanswered k :
  StatusCode k = 0 → ping_verdict (KmpErr k) = Some (KmpErr k).
Proof. intros Hk. unfold ping_verdict. case_match; [done|]. simpl. by rewrite Hk. Qed.

(** The status an error of an operation carries is that of the answer. *)
Lemma receive_status o1 o2 o3 o4 op outcome k :
  receive o1 o2 o3 o4 op outcome = Err (KmpErr k) → StatusCode k ≠ 0 →
  ∃ body read_error, outcome = Reply (StatusCode k) body read_error.
Proof.
  unfold receive. destruct outcome as [msg|code body read_error]; simpl; [by intros [= <-]|].
  assert (∀ k', k' = k → StatusCode k' = code →
            ∃ body' read_error', Reply code body read_error = Reply (StatusCode k) body' read_error')
    as Hreply by (intros ? -> ->; eauto).
  destruct (read_body op code body read_error) as [[code' raw]|e] eqn:Er.
  - assert (code' = code) as -> by (unfold read_body in Er; repeat case_match; by simplify_eq).
    unfold interpret, status_error, failure_error. repeat case_match; intros [= E] _; by apply (Hreply _ E).
  - unfold read_body in Er. repeat case_match; simplify_eq; intros [= E] _; by apply (Hreply _ E).
Qed.

(** The failures of the probe that [Ping] tolerates: an answer with a 2xx status
    that does not reject the credentials, and gives a status of its own or has no
    certificate. *)
Definition tolerated (e : error) : Prop :=
  IsAuthFailure e = false ∧ ∃ k, errors_as_kmp e = Some k ∧ 200 ≤ StatusCode k ≤ 299 ∧
    (APIStatus k ≠ "" ∨
     Op k = "getCertificate" ∧ ∃ cause, Underlying k = Some cause ∧ contains (error_text cause) "no certificate" = true).

Lemma ping_verdict_spec e :
  (ping_verdict e = None ∨ ping_verdict e = Some e) ∧ (ping_verdict e = None ↔ tolerated e).
Proof.
  unfold ping_verdict, tolerated. destruct (IsAuthFailure e); [split; [by right|split; [done|by intros [? _]]]|].
  destruct (errors_as_kmp e) as [k|]; [|split; [by right|split; [done|by intros (_ & k & ? & _)]]]. cbv zeta.
  change "getCertificate" with opGetCertificate. unfold nonempty.
  destruct ((200 <=? StatusCode k) && (StatusCode k <=? 299)) eqn:E; cbn [andb].
  2:{ split; [by right|]. split; [done|]. intros (_ & k' & [= <-] & ? & _). lia. }
  assert (200 ≤ StatusCode k ≤ 299) by lia. destruct (Underlying k) as [cause|] eqn:Eu.
  - set (missing := bool_decide (Op k = opGetCertificate) && contains (error_text cause) "no certificate").
    assert (missing = true ↔ Op k = opGetCertificate ∧ contains (error_text cause) "no certificate" = true) as Hm
      by (unfold missing; rewrite andb_true_iff, bool_decide_eq_true; done).
    destruct missing; [|case_bool_decide]; (split; [by auto|]); naive_solver.
  - cbn [andb]. case_bool_decide; (split; [by auto|]); naive_solver.
Qed.

(** C36: [Ping] sends one request, unless that cannot be built, and what it
    returns is settled by the answer.  A usable document passes if a certificate
    is read out of it; one without any, which the comment of [Ping] means to
    accept, is a failure, for the error that stands for it carries no status
    code.  Any other answer passes exactly if it is [tolerated], for which its
    status has to be 2xx; otherwise the error of the probe itself is reported. *)
Theorem Ping_needs_answer c ctx w :
  run (Ping c ctx) w (λ r _ xs,
    (∃ msg, request_error (URL (probe_request c)) = Some msg ∧ xs = [] ∧
       r = Some (building_error "getCertificate" msg)) ∨
    ∃ o1 o2 o3 o4 o5 result, xs = [Sent (probe_request c) result] ∧
      match receive o1 o2 o3 o4 "getCertificate" result with
      | Ok p => r = match certificates_in o5 p with Ok _ => None | Err e => Some e end
      | Err e =>
        (r = None ∨ r = Some e) ∧ (r = None ↔ tolerated e) ∧
        (r = None → ∃ code body read_error, outcome_of result = Reply code body read_error ∧ 200 ≤ code ≤ 299)
      end).
Proof.
  unfold Ping. apply run_bind, run_GetCertificate; [by left|]. intros r w1 xs Hop. fold (probe_request c) in Hop.
  destruct Hop as [e xs Hc|p r xs Hc (o & Hr)]; inversion Hc as [msg Hm|o1 o2 o3 o4 result r' Hrec]; subst.
  - run_step. left. exists msg. by rewrite app_nil_r.
  - run_step. rewrite app_nil_r. right. exists o1, o2, o3, o4, key_order, result. split; [done|].
    change "getCertificate" with opGetCertificate. rewrite <- Hrec. symmetry in Hrec.
    pose proof (ping_verdict_spec e) as [Hv Htol]. split; [exact Hv|]. split; [exact Htol|].
    intros (_ & k' & Hk' & Hk & _)%Htol. apply receive_Err in Hrec as Hf. destruct Hf as (b & (k & -> & _) & _).
    injection Hk' as ->. destruct (receive_status _ _ _ _ _ _ _ Hrec) as (body & err & Ho); [lia|]. by exists (StatusCode k'), body, err.
  - assert (Hgoal : match certificates_in o p with Ok _ => None | Err e => ping_verdict e end
                    = match certificates_in o p with Ok _ => None | Err e => Some e end).
    { destruct (certificates_in o p) as [certs|e] eqn:Ec; [done|]. unfold certificates_in in Ec.
      repeat case_match; simplify_eq; by apply ping_verdict_unanswered. }
    destruct (certificates_in o p) as [certs|e] eqn:Ec; run_step; rewrite app_nil_r; right;
      exists o1, o2, o3, o4, o, result; (split; [done|]); change "getCertificate" with opGetCertificate;
      rewrite <- Hrec, Ec; [done|exact Hgoal].
Qed.
End ping_claims.
