(* ===== verification/Signer.v ===== *)
(** * [internal/kmp/signer.go]: the signing workflow *)

From S2P Require Import Prelude GoStrings GoFloat GoAny GoHttp Errors Response GoNet X509 Chain Verify World Client.
Local Open Scope go_scope.
Local Open Scope Z_scope.

(** ** Options *)

Definition SignTypeMSCA : string := "MSCA".
Definition SignTypeMSCAUsingAgent : string := "MSCAusingAgent".
Definition SignTypeWithRoot : string := "signWithRoot".

Record SigningOptions := MkSigningOptions {
  opt_SignType : string;
  opt_ServerName : string;
  opt_CAName : string;
  opt_TemplateName : string;
  opt_AgentName : string;
  opt_AgentResponseTimeoutSeconds : option Z;
  opt_RootCertificateCommonName : string;
  opt_RootCertificateSerialNumber : string;
  opt_ValidityDays : option Z;
  opt_IsIntermediate : option bool;
  opt_Email : string;
  opt_CSRLookupOperation : string
}.

Definition defaultPollInterval : Z := 2 * Second.
Definition defaultPollTimeout : Z := 60 * Second.

Record Signer := MkSigner {
  client : Client;
  opts : SigningOptions;
  PollInterval : Z;
  PollTimeout : Z
}.

(** The requests of a signer: to the operations of the API, or to the one its
    options name for looking up a request. *)
Definition sent_by (s : Signer) : event → Prop := addressed (client s) (opt_CSRLookupOperation (opts s)).

(** [kmp.Request] *)
Record Request := MkRequest { CSRPEM : string; Duration : Z; IsCA : bool }.

Definition signType (o : SigningOptions) : string :=
  if bool_decide (opt_SignType o = "") then SignTypeMSCA else opt_SignType o.

Definition Microsecond : Z := 1000.

(** [time.Duration.Hours] *)
Definition Duration_Hours (d : Z) : float64 :=
  float_add (float_of_int (Z.quot d Hour)) (float_div (float_of_int (Z.rem d Hour)) (float_of_int Hour)).

Section signer.
Context `{Unicode, Conversions, Env, PublicKeys, !X509, Pem}.
Implicit Types (o : SigningOptions) (s : Signer) (ctx : context).

(** The list [requireMSCAFields] builds, and how [%v] prints it. *)
Definition missing_MSCA_fields o : list string :=
  (if bool_decide (opt_ServerName o = "") then ["signing.serverName"] else [])
  ++ (if bool_decide (opt_CAName o = "") then ["signing.caName"] else [])
  ++ (if bool_decide (opt_TemplateName o = "") then ["signing.templateName"] else []).

Definition show_strings (l : list string) : string := "[" +:+ join " " l +:+ "]".

Definition requireMSCAFields o : option error :=
  match missing_MSCA_fields o with
  | [] => None
  | missing =>
    Some (mark ErrInvalidConfig ("signType " +:+ signType o +:+ " requires " +:+ show_strings missing))
  end.

Definition requires (field signType : string) : error :=
  mark ErrInvalidConfig ("signType " +:+ signType +:+ " requires " +:+ field).

Definition Validate o : option error :=
  if bool_decide (signType o = SignTypeMSCA) then requireMSCAFields o
  else if bool_decide (signType o = SignTypeMSCAUsingAgent) then
    match requireMSCAFields o with
    | Some err => Some err
    | None =>
      if bool_decide (opt_AgentName o = "")
      then Some (requires "signing.agentName" SignTypeMSCAUsingAgent)
      else None
    end
  else if bool_decide (signType o = SignTypeWithRoot) then
    if bool_decide (opt_RootCertificateCommonName o = "")
    then Some (requires "signing.rootCertificateCommonName" SignTypeWithRoot)
    else None
  else Some (mark ErrInvalidConfig
               ("unknown signType " +:+ quote (opt_SignType o) +:+ ", expected one of "
                +:+ SignTypeMSCA +:+ ", " +:+ SignTypeMSCAUsingAgent +:+ ", " +:+ SignTypeWithRoot)).

Definition NewSigner (client : option Client) o : res Signer :=
  match client with
  | None => Err (mark ErrInvalidConfig "no key manager plus client")
  | Some client =>
    match Validate o with
    | Some err => Err err
    | None => Ok (MkSigner client o 0 0)
    end
  end.

(** [int32(math.Ceil(d.Hours() / 24))], raised to 1 *)
Definition days_for (d : Z) : Z :=
  let days := integral_to_int32 (float_ceil (float_div (Duration_Hours d) (float_of_int 24))) in
  if days <? 1 then 1 else days.

Definition signRequest s (csrID : string) (req : Request) : SignRequest :=
  let o := opts s in
  let signReq validity intermediate :=
    MkSignRequest csrID (signType o) (opt_ServerName o) (opt_CAName o) (opt_TemplateName o)
      (opt_AgentName o) (opt_AgentResponseTimeoutSeconds o) (opt_RootCertificateCommonName o)
      (opt_RootCertificateSerialNumber o) validity intermediate in
  if bool_decide (signType o ≠ SignTypeWithRoot) then signReq (opt_ValidityDays o) (opt_IsIntermediate o)
  else
    let validity :=
      match opt_ValidityDays o with
      | Some days => Some days
      | None => if 0 <? Duration req then Some (days_for (Duration req)) else None
      end in
    let intermediate :=
      match opt_IsIntermediate o with
      | Some b => Some b
      | None => if IsCA req then Some true else None
      end in
    signReq validity intermediate.

Definition csrCommonName (csr : certificate_request) : string :=
  if nonempty (CommonName (csr_Subject csr)) then CommonName (csr_Subject csr)
  else match csr_DNSNames csr with
  | name :: _ => name
  | [] => ""
  end.

Lemma signRequest_CSRID s id req : CSRID (signRequest s id req) = id.
Proof. unfold signRequest. by case_bool_decide. Qed.

(** ** Effects *)

Definition no_id_reported (stored : CSR) : error :=
  mark ErrInvalidConfig
    ("key manager plus accepted the request but reported no CSR id, "
     +:+ "which signCSR needs. Set signing.csrLookupOperation to the operation that lists CSRs on this "
     +:+ "build so the id can be looked up by common name. The import response was: "
     +:+ stored_Response stored).

Definition resolveCSRID s ctx (stored : CSR) (fallbackCommonName : string) : io (res string) :=
  if nonempty (stored_ID stored) then io_ret (Ok (stored_ID stored))
  else
    let commonName :=
      if nonempty (stored_CommonName stored) then stored_CommonName stored else fallbackCommonName in
    if bool_decide (opt_CSRLookupOperation (opts s) = "") then io_ret (Err (no_id_reported stored))
    else
      try! id := FindCSRID (client s) ctx (opt_CSRLookupOperation (opts s)) commonName
        else wrap "looking up the id of the imported certificate signing request" in
      io_ret (Ok id).

(** The loop of [fetchCertificate]; [None] when the fuel is used up. *)
Fixpoint fetch_loop (fuel : nat) c ctx (commonName serialNumber : string) (interval deadline : Z)
  : io (option (res (list certificate))) :=
  match fuel with
  | O => io_ret None
  | S fuel' =>
    let! r := GetCertificate c ctx commonName serialNumber in
    match r with
    | Ok certs => io_ret (Some (Ok certs))
    | Err err =>
      let! now := time_now in
      if IsPermanent err || (deadline <? now + interval) then io_ret (Some (Err err))
      else
        let! fired := wait_or_done ctx interval in
        if fired then fetch_loop fuel' c ctx commonName serialNumber interval deadline
        else io_ret (Some (Err (Joined err (Sentinel (ctx_err ctx)))))
    end
  end.

Definition poll_interval s : Z := if PollInterval s <=? 0 then defaultPollInterval else PollInterval s.
Definition poll_timeout s : Z := if PollTimeout s <=? 0 then defaultPollTimeout else PollTimeout s.

(** Another turn is taken only while a further interval fits before the
    deadline ([fetchCertificate_returns]). *)
Definition max_polls s : nat := S (Z.to_nat (poll_timeout s / poll_interval s)).

Definition fetchCertificate s ctx (commonName serialNumber : string)
  : io (option (res (list certificate))) :=
  let! now := time_now in
  let deadline := now + poll_timeout s in
  fetch_loop (max_polls s) (client s) ctx commonName serialNumber (poll_interval s) deadline.

(** [fetchCertificate] as its callers use it. *)
Definition fetched (r : option (res (list certificate))) : res (list certificate) :=
  default (Err (New "fetchCertificate did not return")) r.

Definition nothing_to_fetch : error :=
  mark ErrInvalidConfig
    ("key manager plus signed the request but returned neither a common name nor a serial number "
     +:+ "to fetch it with").

(** The chain and the checks at the end of [Sign]. *)
Definition assemble (csr : certificate_request) (certs : list certificate) : res Bundle :=
  match BuildBundle certs (csr_PublicKey csr) with
  | Err err => Err (mark ErrUnusableResponse ("assembling the certificate chain: " +:+ error_text err))
  | Ok bundle =>
    match verifyRequestedNames csr (Leaf bundle) with
    | Some err => Err err
    | None => Ok bundle
    end
  end.

(** The name [Sign] fetches the certificate by. *)
Definition fetch_name (result : SignResult) (stored : CSR) (csr : certificate_request) : string :=
  if nonempty (res_CommonName result) then res_CommonName result
  else if nonempty (stored_CommonName stored) then stored_CommonName stored
  else CommonName (csr_Subject csr).

Definition Sign s ctx (req : Request) : io (res Bundle) :=
  match ParseCSR (CSRPEM req) with
  | Err err => io_ret (Err (mark ErrInvalidConfig (error_text err)))
  | Ok csr =>
    try! stored := ImportCSR (client s) ctx (CSRPEM req) (opt_Email (opts s))
      else wrap "importing the certificate signing request" in
    try! csrID := resolveCSRID s ctx stored (csrCommonName csr) in
    try! result := SignCSR (client s) ctx (signRequest s csrID req)
      else wrap "signing the certificate signing request" in
    let commonName := fetch_name result stored csr in
    if bool_decide (commonName = "") && bool_decide (SerialNumber result = "")
    then io_ret (Err nothing_to_fetch)
    else
      let! r := fetchCertificate s ctx commonName (SerialNumber result) in
      match fetched r with
      | Err err => io_ret (Err (wrap "fetching the signed certificate" err))
      | Ok certs => io_ret (assemble csr certs)
      end
  end.
End signer.

(** ** Validity in days *)

Definition Day : Z := 24 * Hour.

Section days.
Context `{Conversions}.

Lemma Duration_Hours_between d lo hi :
  0 < d ≤ max_int64 → 0 ≤ lo → lo * Hour ≤ d ≤ hi * Hour → hi < 2 ^ 53 →
  between (Duration_Hours d) lo hi.
Proof.
  intros Hd Hlo Hb Hhi. unfold Duration_Hours, max_int64 in *.
  rewrite Z.quot_div_nonneg, Z.rem_mod_nonneg by (done || lia).
  set (h := d / Hour). set (r := d mod Hour).
  assert (0 < Hour < 2 ^ 53) as HH by done.
  pose proof (Z.div_mod d Hour ltac:(lia)) as Hdm. pose proof (Z.mod_pos_bound d Hour ltac:(lia)) as Hr.
  fold h r in Hdm, Hr. assert (0 ≤ h ≤ d) as [Hh0 Hh1] by (split; [apply Z.div_pos|]; nia).
  assert (h < 2 ^ 53) by nia.
  assert (∃ x y, 0 ≤ x ≤ y ∧ y ≤ 1 ∧ 0 < h + y ∧ x * Hour ≤ r ≤ y * Hour ∧ lo ≤ h + x ∧ h + y ≤ hi)
    as (x & y & Hxy & Hy & Hpos & Hrb & Hlo' & Hhi').
  { destruct (Z.eq_dec r 0); [exists 0, 0|exists 0, 1]; nia. }
  pose proof (float_of_int_exact Hour ltac:(done)) as Hden.
  pose proof (float_of_int_between h ltac:(lia)) as Bh.
  assert (between (float_of_int r) (x * Hour) (y * Hour)) as Br.
  { eapply between_weaken; [apply float_of_int_between|..]; lia. }
  destruct (Z.eq_dec y 0) as [->|Hy0].
  - assert (represents (float_div (float_of_int r) (float_of_int Hour)) 0) as Hz.
    { apply (float_div_exact _ _ 0 Hour); [|done|lia|done].
      replace r with (0 * Hour) by lia. by apply float_of_int_exact. }
    assert (x = 0) as -> by lia.
    eapply between_weaken; [apply (float_add_between _ _ h h 0 0)| |]; [done| |lia..].
    unfold between. unfold represents in Hz. by rewrite Hz.
  - eapply between_weaken; [apply (float_add_between _ _ h h x y)| |]; [done| |lia..].
    apply (float_div_between _ _ Hour); [done..|lia|lia|lia].
Qed.

(** The days asked for are the duration rounded to a neighbouring whole
    number of days, whatever the rounding of the floating point division. *)
Lemma days_for_between d lo hi :
  0 < d ≤ max_int64 → 0 ≤ lo → lo * Day ≤ d ≤ hi * Day → hi ≤ 200000 →
  Z.max 1 lo ≤ days_for d ≤ hi.
Proof.
  intros Hd Hlo Hb Hhi. assert (Day = 24 * Hour) as HDay by done. assert (0 < Day) by done.
  assert (0 < hi) by nia.
  pose proof (Duration_Hours_between d (lo * 24) (hi * 24) Hd ltac:(lia) ltac:(lia) ltac:(lia)) as Bh.
  pose proof (float_of_int_exact 24 ltac:(done)) as H24.
  pose proof (float_div_between _ _ 24 lo hi Bh H24 ltac:(done) Hlo ltac:(lia)) as [Hl Hh]%float_ceil_between.
  unfold days_for, integral_to_int32, fits_int32.
  generalize dependent (float_ceil (float_div (Duration_Hours d) (float_of_int 24))). intros n Hl Hh.
  rewrite (proj2 (Z.leb_le _ _)), (proj2 (Z.leb_le n _)) by lia.
  cbn [andb]. destruct (Z.ltb_spec n 1); lia.
Qed.

(** The hours are exact but for the last of 31 binary places. *)
Lemma Duration_Hours_at_least d :
  0 < d ≤ max_int64 → at_least (Duration_Hours d) 31 (d / Hour * 2 ^ 31 + d mod Hour * 2 ^ 31 / Hour).
Proof.
  intros Hd. unfold Duration_Hours, max_int64 in *. rewrite Z.quot_div_nonneg, Z.rem_mod_nonneg by (done || lia).
  set (h := d / Hour). set (r := d mod Hour). assert (0 < Hour < 2 ^ 53) as HH by done.
  pose proof (Z.div_mod d Hour ltac:(lia)) as Hdm. pose proof (Z.mod_pos_bound d Hour ltac:(lia)) as Hr.
  fold h r in Hdm, Hr. assert (0 ≤ h ≤ 2562048) as Hh by (unfold Hour, Minute, Second in *; nia).
  pose proof (float_of_int_exact h ltac:(lia)) as Eh. pose proof (float_of_int_exact r ltac:(lia)) as Er.
  pose proof (float_of_int_exact Hour ltac:(done)) as EH.
  pose proof (Z.mul_div_le (r * 2 ^ 31) Hour ltac:(lia)). assert (0 ≤ r * 2 ^ 31 / Hour) by (apply Z.div_pos; lia).
  assert (between (float_div (float_of_int r) (float_of_int Hour)) 0 1) as [_ Hfrac].
  { apply (float_div_between _ _ Hour); [|done|lia|lia|lia]. unfold between. unfold represents in Er. rewrite Er.
    pose proof (f_den_pos (float_of_int r)). split; [lia|]. apply Z.mul_le_mono_nonneg_r; lia. }
  apply (float_add_at_least _ _ _ _ 31 2562049); [lia|nia|lia|done| | |].
  - unfold represents in Eh. rewrite Eh. pose proof (f_den_pos (float_of_int h)).
    set (f := float_of_int h) in *. set (g := float_div _ _) in *. pose proof (f_den_pos g).
    assert (f_num g * f_den f ≤ f_den g * f_den f) by (apply Z.mul_le_mono_nonneg_r; lia).
    assert (h * (f_den f * f_den g) ≤ 2562048 * (f_den f * f_den g)) by (apply Z.mul_le_mono_nonneg_r; lia). lia.
  - by apply at_least_int.
  - apply (float_div_at_least _ _ Hour 0 31 r _ 1); [lia|lia|done|lia|done|lia|done| | |lia].
    + unfold represents in Er. rewrite Er. pose proof (f_den_pos (float_of_int r)). apply Z.mul_le_mono_nonneg_r; lia.
    + rewrite <- (Z.mul_1_r r) at 2. change 1 with (2 ^ 0). by apply at_least_int.
Qed.

(** A duration two microseconds over a number of days is rounded up. *)
Lemma days_for_up d k : 0 < d ≤ max_int64 → 0 ≤ k → k * Day + 2000 ≤ d → k + 1 ≤ days_for d.
Proof.
  intros Hd Hk Hle. pose proof (Duration_Hours_at_least d Hd) as Hx.
  assert (Day = 24 * Hour) as HDay by done. assert (Hour = 3600000000000) as HHour by done.
  pose proof (Z.div_mod d Hour ltac:(lia)) as Hdm. pose proof (Z.mod_pos_bound d Hour ltac:(lia)) as Hr.
  set (h := d / Hour) in *. set (r := d mod Hour) in *. unfold max_int64 in *.
  assert (24 * k ≤ h) by nia.
  pose proof (Duration_Hours_between d 0 (106753 * 24) Hd ltac:(lia) ltac:(lia) ltac:(lia)) as Bh.
  pose proof (float_of_int_exact 24 ltac:(done)) as H24.
  pose proof (float_div_between _ _ 24 0 106753 Bh H24 ltac:(done) ltac:(lia) ltac:(lia)) as [Hl Hh]%float_ceil_between.
  assert (at_least (float_div (Duration_Hours d) (float_of_int 24)) 36 (k * 2 ^ 36 + 1)) as Hq.
  { apply (float_div_at_least _ _ 24 31 36 (h * 2 ^ 31 + r * 2 ^ 31 / Hour) _ 106753);
      [lia|lia|lia|lia|done|lia|done|by destruct Bh|done|].
    assert (0 ≤ r * 2 ^ 31 / Hour) by (apply Z.div_pos; lia).
    destruct (Z.eq_dec h (24 * k)) as [E|E]; [|lia].
    assert (1 ≤ r * 2 ^ 31 / Hour) by (apply Z.div_le_lower_bound; lia). lia. }
  apply (float_ceil_at_least _ _ _ k) in Hq; [|lia..]. unfold days_for, integral_to_int32, fits_int32.
  generalize dependent (float_ceil (float_div (Duration_Hours d) (float_of_int 24))). intros n _ Hn Hq.
  rewrite (proj2 (Z.leb_le _ _)), (proj2 (Z.leb_le n _)) by lia. cbn [andb]. destruct (Z.ltb_spec n 1); lia.
Qed.
End days.

(** ** Polling *)

Section polling.
Context `{Unicode, Conversions, Env, PublicKeys, !X509, Pem}.
Implicit Types (c : Client) (s : Signer) (ctx : context).

(** One [getCertificate]. *)
Definition got c (cn sn : string) : res (list certificate) → list event → Prop :=
  operation opGetCertificate (plain_request c "GET" opGetCertificate (certificate_details cn sn))
    (λ p r, ∃ o, r = certificates_in o p).

(** What it returns was read out of the answer. *)
Lemma got_parsed c cn sn certs xs : got c cn sn (Ok certs) xs → Forall parsed_certificate certs.
Proof.
  inversion 1 as [e ys Hc|p r ys Hc [o Hr]]; subst. unfold certificates_in in Hr.
  destruct (certificatesFromStrings _) as [[|c' cs]|] eqn:E; [done| |done]. injection Hr as ->.
  by apply certificatesFromStrings_ok in E as [_ ?].
Qed.

(** No further interval fits between [t1] and the deadline that the poll
    timeout sets at [t0]. *)
Definition exhausted s (t0 t1 : Z) : Prop := t0 + poll_timeout s < t1 + poll_interval s.

(** [polling n r xs]: the [n]-th answer decides [r]: it is the first that is not
    a failure, or a permanent one, or it leaves no time for another at [t1]. *)
Inductive polling s ctx (t0 t1 : Z) (cn sn : string)
  : nat → res (list certificate) → list event → Prop :=
| polling_found certs xs :
    got (client s) cn sn (Ok certs) xs → polling s ctx t0 t1 cn sn 1 (Ok certs) xs
| polling_failed e xs :
    got (client s) cn sn (Err e) xs → IsPermanent e = true → polling s ctx t0 t1 cn sn 1 (Err e) xs
| polling_exhausted e xs :
    got (client s) cn sn (Err e) xs → exhausted s t0 t1 → polling s ctx t0 t1 cn sn 1 (Err e) xs
| polling_cancelled e xs :
    got (client s) cn sn (Err e) xs → IsPermanent e = false → cancelled ctx t1 →
    polling s ctx t0 t1 cn sn 1 (Err (Joined e (Sentinel (ctx_err ctx)))) xs
| polling_again n e r xs ys :
    got (client s) cn sn (Err e) xs → IsPermanent e = false → polling s ctx t0 t1 cn sn n r ys →
    polling s ctx t0 t1 cn sn (S n) r (xs ++ ys).

Lemma poll_interval_pos s : 0 < poll_interval s.
Proof. unfold poll_interval, defaultPollInterval, Second. destruct (Z.leb_spec (PollInterval s) 0); lia. Qed.

Lemma poll_timeout_pos s : 0 < poll_timeout s.
Proof. unfold poll_timeout, defaultPollTimeout, Second. destruct (Z.leb_spec (PollTimeout s) 0); lia. Qed.

(** After [k] turns at least [k] intervals have passed, so the turns left are
    those that fit before the deadline. *)
Lemma run_fetch_loop s ctx cn sn start t0 fuel k w :
  let interval := poll_interval s in
  let turns := poll_timeout s / interval in
  cn ≠ "" ∨ sn ≠ "" → t0 ≤ start →
  fuel = S (Z.to_nat (turns - k)) → 0 ≤ k ≤ turns → start + k * interval ≤ w_now w →
  run (fetch_loop fuel (client s) ctx cn sn interval (start + poll_timeout s)) w
    (λ r w' xs, ∃ n a, r = Some a ∧ polling s ctx t0 (w_now w') cn sn n a xs ∧ (n ≤ fuel)%nat).
Proof.
  intros interval turns Hid Ht0. pose proof (poll_interval_pos s) as Hi. fold interval in Hi.
  revert k w. induction fuel as [|fuel IH]; intros k w Hf Hk Hw; [done|].
  simpl. apply run_bind, (run_conseq _ _ (λ r _ xs, got (client s) cn sn r xs)).
  { by apply run_GetCertificate. }
  intros [certs|e] w1 xs Hw1 Hg.
  { run_step. rewrite app_nil_r. exists 1%nat, (Ok certs). split_and!; [done|by constructor|lia]. }
  do 2 run_step. destruct (IsPermanent e || _) eqn:Estop; simpl.
  { run_step. rewrite app_nil_r. exists 1%nat, (Err e). split_and!; [done| |lia].
    apply orb_true_iff in Estop as [?|Ht%Z.ltb_lt]; [by apply polling_failed|].
    apply polling_exhausted; [done|]. unfold exhausted. fold interval. lia. }
  apply orb_false_iff in Estop as [Ep Et%Z.ltb_ge].
  apply run_bind, run_wait. intros [] w2 _ Hfired Hdone.
  - specialize (Hfired eq_refl).
    assert (k + 1 ≤ turns) by (apply Z.div_le_lower_bound; lia).
    eapply (run_conseq _ _ _ _ (IH (k + 1) w2 ltac:(lia) ltac:(lia) ltac:(lia))).
    intros r w3 ys _ (n & a & -> & Hp & Hn). exists (S n), a.
    split_and!; [done|by eapply polling_again|lia].
  - run_step. rewrite !app_nil_r. exists 1%nat, (Err (Joined e (Sentinel (ctx_err ctx)))).
    split_and!; [done|by apply polling_cancelled; auto|lia].
Qed.

Lemma run_fetchCertificate s ctx cn sn t0 w :
  cn ≠ "" ∨ sn ≠ "" → t0 ≤ w_now w →
  run (fetchCertificate s ctx cn sn) w (λ r w' xs,
    ∃ n a, r = Some a ∧ polling s ctx t0 (w_now w') cn sn n a xs ∧ (n ≤ max_polls s)%nat).
Proof.
  intros Hid Ht0. unfold fetchCertificate. do 2 run_step. cbv zeta.
  pose proof (poll_interval_pos s). pose proof (poll_timeout_pos s).
  assert (0 ≤ poll_timeout s / poll_interval s) by (apply Z.div_pos; lia).
  apply (run_fetch_loop _ _ _ _ _ _ _ 0); try done; try lia.
  unfold max_polls. by rewrite Z.sub_0_r.
Qed.
End polling.

(** ** The steps of a workflow *)

Section resolution.
Context `{Unicode, Conversions, Env, PublicKeys, !X509, Pem}.
Context (s : Signer) (ctx : context).

Definition lookup_name (stored : CSR) (fallback : string) : string :=
  if nonempty (stored_CommonName stored) then stored_CommonName stored else fallback.

(** The lookup; without a name nothing is sent. *)
Definition looks_up (cn : string) (r : res string) (xs : list event) : Prop :=
  let op := opt_CSRLookupOperation (opts s) in
  (cn = "" ∧ xs = [] ∧ r = Err (refuse op "the request has no common name to look up"))
  ∨ cn ≠ "" ∧ operation op (plain_request (client s) "GET" op (lookup_details cn))
                (λ p r, ∃ o1 o2, r = found_in o1 o2 op cn p) r xs.

Definition signs (sr : SignRequest) : res SignResult → list event → Prop :=
  operation opSignCSR (plain_request (client s) "POST" opSignCSR (SignRequest_details sr))
    (λ p r, ∃ o1 o2 o3 o4, r = signed_in o1 o2 o3 o4 p).

(** An id that a lookup found is not empty. *)
Lemma found_in_nonempty o1 o2 op cn p id : found_in o1 o2 op cn p = Ok id → id ≠ "".
Proof.
  unfold found_in, id_in_listing.
  destruct (findIDForCommonName _ _ _ _ _) as [id'|] eqn:E.
  - intros [= <-]. apply findIDForCommonName_sound in E as [(m & e & _ & _ & _ & He) _].
    by eapply direct_scalar_nonempty.
  - destruct (collectStringsFor (Some p) csrIDKeys) as [|id' [|? ?]] eqn:Ei; try done.
    destruct (collectStringsFor (Some p) commonNameKeys); [|done]. intros [= <-].
    assert (id' ∈ scalars_for (wanted_set csrIDKeys) (doc p)) as Hin.
    { change (scalars_for (wanted_set csrIDKeys) (doc p) = [id']) in Ei. rewrite Ei. by left. }
    apply scalars_for_spec in Hin as (m & e & _ & _ & He). by eapply direct_scalar_nonempty.
Qed.

Lemma looks_up_nonempty cn id xs : looks_up cn (Ok id) xs → id ≠ "".
Proof.
  intros [(_ & _ & ?)|[_ Hop]]; [done|]. inversion Hop as [|p r xs' Hc (o1 & o2 & Hf)]; subst.
  by eapply found_in_nonempty.
Qed.

(** How the id of a stored request is found. *)
Inductive resolves (stored : CSR) (fallback : string) : res string → list event → Prop :=
| resolves_reported :
    stored_ID stored ≠ "" → resolves stored fallback (Ok (stored_ID stored)) []
| resolves_unreported :
    stored_ID stored = "" → opt_CSRLookupOperation (opts s) = "" →
    resolves stored fallback (Err (no_id_reported stored)) []
| resolves_lookup id xs :
    stored_ID stored = "" → opt_CSRLookupOperation (opts s) ≠ "" →
    looks_up (lookup_name stored fallback) (Ok id) xs → resolves stored fallback (Ok id) xs
| resolves_lookup_fails e xs :
    stored_ID stored = "" → opt_CSRLookupOperation (opts s) ≠ "" →
    looks_up (lookup_name stored fallback) (Err e) xs →
    resolves stored fallback
      (Err (wrap "looking up the id of the imported certificate signing request" e)) xs.

Lemma resolves_nonempty stored fallback id xs : resolves stored fallback (Ok id) xs → id ≠ "".
Proof. inversion 1; subst; [done|]. by eapply looks_up_nonempty. Qed.

Lemma run_resolveCSRID stored fallback w (Q : res string → world → list event → Prop) :
  (∀ r w' xs, resolves stored fallback r xs → Q r w' xs) →
  run (resolveCSRID s ctx stored fallback) w Q.
Proof.
  intros HQ. unfold resolveCSRID, nonempty. case_bool_decide as Eid.
  { run_step. by apply HQ, resolves_reported. }
  case_bool_decide as Eop.
  { run_step. by apply HQ, resolves_unreported. }
  cbv zeta. run_step. change (if bool_decide _ then _ else _) with (lookup_name stored fallback).
  assert (∀ r w' xs, looks_up (lookup_name stored fallback) r xs →
    match r with
    | Ok a => run (io_ret (Ok a)) w' (λ b w'' ys, Q b w'' (xs ++ ys))
    | Err e => Q (Err (wrap "looking up the id of the imported certificate signing request" e)) w' xs
    end) as Hl.
  { intros [id|e] w' xs Hl; [|by apply HQ, resolves_lookup_fails].
    run_step. rewrite app_nil_r. by apply HQ, resolves_lookup. }
  destruct (decide (lookup_name stored fallback = "")) as [E|E].
  - unfold FindCSRID. rewrite bool_decide_eq_false_2, bool_decide_eq_true_2 by done.
    run_step. apply (Hl (Err _)). by left.
  - apply run_FindCSRID; [done..|]. intros r w' xs Hop. apply Hl. by right.
Qed.
End resolution.

(** ** The signing workflow as a state machine *)

Section workflow.
Context `{Unicode, Conversions, Env, PublicKeys, !X509, Pem}.
Implicit Types (s : Signer) (ctx : context).

Inductive phase :=
| Begun
| Imported (stored : CSR)
| Identified (stored : CSR) (id : string)
| Signed (stored : CSR) (result : SignResult)
| Fetched (certs : list certificate)
| Finished (r : res Bundle).

Section machine.
Context (s : Signer) (ctx : context) (req : Request) (csr : certificate_request).

Section relation.
Context (t0 t1 : Z).

Definition imports : res CSR → list event → Prop := λ r xs, ∃ boundary,
  operation opImportCSR (import_request (client s) boundary (CSRPEM req) (opt_Email (opts s)))
    (λ p r, ∃ o1 o2, r = Ok (imported_in o1 o2 p)) r xs.

(** The run starts at [t0] and ends at [t1]. *)
Inductive step : phase → list event → phase → Prop :=
| step_import stored xs : imports (Ok stored) xs → step Begun xs (Imported stored)
| step_import_fails e xs :
    imports (Err e) xs →
    step Begun xs (Finished (Err (wrap "importing the certificate signing request" e)))
| step_resolve stored id xs :
    resolves s stored (csrCommonName csr) (Ok id) xs → step (Imported stored) xs (Identified stored id)
| step_resolve_fails stored e xs :
    resolves s stored (csrCommonName csr) (Err e) xs → step (Imported stored) xs (Finished (Err e))
| step_sign stored id result xs :
    signs s (signRequest s id req) (Ok result) xs →
    step (Identified stored id) xs (Signed stored result)
| step_sign_fails stored id e xs :
    signs s (signRequest s id req) (Err e) xs →
    step (Identified stored id) xs
      (Finished (Err (wrap "signing the certificate signing request" e)))
| step_unfetchable stored result :
    fetch_name result stored csr = "" → SerialNumber result = "" →
    step (Signed stored result) [] (Finished (Err nothing_to_fetch))
| step_fetch stored result n certs xs :
    (n ≤ max_polls s)%nat →
    polling s ctx t0 t1 (fetch_name result stored csr) (SerialNumber result) n (Ok certs) xs →
    step (Signed stored result) xs (Fetched certs)
| step_fetch_fails stored result n e xs :
    (n ≤ max_polls s)%nat →
    polling s ctx t0 t1 (fetch_name result stored csr) (SerialNumber result) n (Err e) xs →
    step (Signed stored result) xs (Finished (Err (wrap "fetching the signed certificate" e)))
| step_assemble certs : step (Fetched certs) [] (Finished (assemble csr certs)).

Inductive steps : phase → list event → phase → Prop :=
| steps_refl p : steps p [] p
| steps_step p xs q ys r : step p xs q → steps q ys r → steps p (xs ++ ys) r.

Lemma steps_one p xs q : step p xs q → steps p xs q.
Proof. intros Hs. rewrite <- (app_nil_r xs). by eapply steps_step, steps_refl. Qed.
End relation.

(** Go on from the phase a step leads to. *)
Lemma run_from t0 p xs q (k : io (res Bundle)) w :
  (∀ t1, step t0 t1 p xs q) → run k w (λ r w' ys, steps t0 (w_now w') q ys (Finished r)) →
  run k w (λ r w' ys, steps t0 (w_now w') p (xs ++ ys) (Finished r)).
Proof. intros Hs Hk. eapply run_conseq; [exact Hk|]. intros r w' ys _ Hy. by eapply steps_step. Qed.

Definition fetch_and_assemble (stored : CSR) (result : SignResult) : io (res Bundle) :=
  let commonName := fetch_name result stored csr in
  if bool_decide (commonName = "") && bool_decide (SerialNumber result = "")
  then io_ret (Err nothing_to_fetch)
  else
    let! r := fetchCertificate s ctx commonName (SerialNumber result) in
    match fetched r with
    | Err err => io_ret (Err (wrap "fetching the signed certificate" err))
    | Ok certs => io_ret (assemble csr certs)
    end.

Lemma run_signed t0 stored result w :
  t0 ≤ w_now w →
  run (fetch_and_assemble stored result) w
    (λ r w' xs, steps t0 (w_now w') (Signed stored result) xs (Finished r)).
Proof.
  intros Ht0. unfold fetch_and_assemble. cbv zeta. rewrite <- bool_decide_and. case_bool_decide as E.
  { run_step. apply steps_one, step_unfetchable; tauto. }
  apply run_bind. eapply run_conseq; [apply run_fetchCertificate; [by apply not_and_l|exact Ht0]|].
  intros r w1 xs _ (n & [certs|e] & -> & Hp & Hn); simpl; run_step.
  - eapply steps_step; [by eapply step_fetch|]. apply steps_one, step_assemble.
  - rewrite app_nil_r. apply steps_one. by eapply step_fetch_fails.
Qed.

(** Every run of [Sign] on a well-formed request is a path of the machine. *)
Lemma run_Sign w :
  ParseCSR (CSRPEM req) = Ok csr →
  run (Sign s ctx req) w (λ r w' xs, steps (w_now w) (w_now w') Begun xs (Finished r)).
Proof.
  intros Hcsr. unfold Sign. rewrite Hcsr.
  assert (CSRPEM req ≠ "") as Hpem.
  { intros Heq. rewrite Heq in Hcsr. unfold ParseCSR in Hcsr. by rewrite pem_decode_empty in Hcsr. }
  run_step. apply run_later, run_ImportCSR; [done|]. intros [stored|e] w1 xs b Himp Hw1.
  2:{ apply steps_one, step_import_fails. by exists b. }
  apply run_from with (q := Imported stored); [intros t1; apply step_import; by exists b|].
  run_step. apply run_later, run_resolveCSRID.
  intros [id|e] w2 ys Hres Hw2; [|by apply steps_one, step_resolve_fails].
  apply run_from with (q := Identified stored id); [intros t1; by apply step_resolve|].
  apply resolves_nonempty in Hres.
  run_step. apply run_later, run_SignCSR; [by rewrite signRequest_CSRID|].
  intros [result|e] w3 zs Hsign Hw3.
  - apply run_from with (q := Signed stored result); [intros t1; by apply step_sign|].
    apply run_signed. lia.
  - apply steps_one. by apply step_sign_fails.
Qed.
End machine.
End workflow.

(** ** The shape of a run *)

Section shape.
Context `{Unicode, Conversions, Env, PublicKeys, !X509, Pem}.
Implicit Types (c : Client) (s : Signer) (ctx : context).

Lemma polling_spec s ctx t0 t1 cn sn n r xs :
  polling s ctx t0 t1 cn sn n r xs →
  (length xs ≤ n)%nat ∧ Forall (sent_by s) xs ∧
  ∀ certs, r = Ok certs → ∃ ys zs, xs = ys ++ zs ∧ got (client s) cn sn (Ok certs) zs.
Proof.
  induction 1 as [certs xs Hg|e xs Hg|e xs Hg|e xs Hg|n e r xs ys Hg _ _ (IHl & IHa & IH)];
    pose proof (operation_length _ _ _ _ _ Hg) as [Hlen _];
    (assert (Forall (sent_by s) xs) as Ha by (eapply plain_addressed; [|exact Hg]; auto with kmp)); split_and!; try done.
  - intros certs' [= <-]. by exists [], xs.
  - rewrite length_app. lia.
  - by apply Forall_app.
  - intros certs Hr. destruct (IH certs Hr) as (ys1 & zs & -> & ?). exists (xs ++ ys1), zs.
    by rewrite app_assoc.
Qed.

Lemma polling_later s ctx t0 t1 t2 cn sn n r xs :
  polling s ctx t0 t1 cn sn n r xs → t1 ≤ t2 → polling s ctx t0 t2 cn sn n r xs.
Proof.
  intros Hp Ht. induction Hp as [| |e xs Hg He|e xs Hg He (d & ? & ?)|].
  - by apply polling_found.
  - by apply polling_failed.
  - apply polling_exhausted; [done|]. unfold exhausted in *. lia.
  - apply polling_cancelled; [done..|]. exists d. split; [done|lia].
  - by eapply polling_again.
Qed.

(** Fetching fails for good only for a reason. *)
Lemma polling_Err s ctx t0 t1 cn sn n r xs e :
  polling s ctx t0 t1 cn sn n r xs → r = Err e →
  IsPermanent e = true ∨ exhausted s t0 t1 ∨ cancelled ctx t1.
Proof. induction 1; intros Hr; simplify_eq; auto. Qed.

Lemma got_nonempty c cn sn certs xs : got c cn sn (Ok certs) xs → ∃ o, xs = [Sent (plain_request c "GET" opGetCertificate (certificate_details cn sn)) o].
Proof. intros Hg. apply operation_length in Hg as (_ & _ & Hok). by eapply Hok. Qed.

Section run_shape.
Context (s : Signer) (ctx : context) (req : Request) (csr : certificate_request).

(** A request that signs the stored CSR under some id. *)
Definition signing (e : event) : Prop := ∃ id o, id ≠ "" ∧
  e = Sent (plain_request (client s) "POST" opSignCSR (SignRequest_details (signRequest s id req))) o.

Definition importing (e : event) : Prop := ∃ boundary o,
  e = Sent (import_request (client s) boundary (CSRPEM req) (opt_Email (opts s))) o.

(** A request that looks an id up, by the operation the options name. *)
Definition looking_up (e : event) : Prop := ∃ cn o, cn ≠ "" ∧ opt_CSRLookupOperation (opts s) ≠ "" ∧
  e = Sent (plain_request (client s) "GET" (opt_CSRLookupOperation (opts s)) (lookup_details cn)) o.

(** A request for the certificate with this name and serial number. *)
Definition fetching (cn sn : string) (e : event) : Prop := ∃ o,
  e = Sent (plain_request (client s) "GET" opGetCertificate (certificate_details cn sn)) o.

(** What may follow, phase by phase. *)
Definition fetch_shape (xs : list event) : Prop :=
  (length xs ≤ max_polls s)%nat ∧ ∃ cn sn, Forall (fetching cn sn) xs.
Definition sign_shape (xs : list event) : Prop := ∃ ss ps, xs = ss ++ ps ∧
  (length ss ≤ 1)%nat ∧ Forall signing ss ∧ fetch_shape ps ∧ (ps ≠ [] → ss ≠ []).
Definition resolve_shape (xs : list event) : Prop := ∃ ls ys, xs = ls ++ ys ∧
  (length ls ≤ 1)%nat ∧ Forall looking_up ls ∧ sign_shape ys.
Definition sign_run_shape (xs : list event) : Prop := ∃ ms ys, xs = ms ++ ys ∧
  (length ms ≤ 1)%nat ∧ Forall importing ms ∧ resolve_shape ys ∧ (ys ≠ [] → ms ≠ []).

Definition phase_shape (p : phase) (xs : list event) : Prop :=
  match p with
  | Begun => sign_run_shape xs
  | Imported _ => resolve_shape xs
  | Identified _ id => id ≠ "" → sign_shape xs
  | Signed _ _ => fetch_shape xs
  | Fetched _ | Finished _ => xs = []
  end.

Lemma fetch_shape_nil : fetch_shape [].
Proof. split; [simpl; lia|]. by exists "", "". Qed.

Lemma sign_shape_nil : sign_shape [].
Proof. exists [], []. split_and!; simpl; [done|lia|constructor|apply fetch_shape_nil|done]. Qed.

Lemma resolve_shape_nil : resolve_shape [].
Proof. exists [], []. split_and!; simpl; [done|lia|constructor|apply sign_shape_nil]. Qed.

Lemma phase_shape_nil p : phase_shape p [].
Proof.
  destruct p; simpl; auto using sign_shape_nil, resolve_shape_nil, fetch_shape_nil.
  exists [], []. split_and!; simpl; [done|lia|constructor|apply resolve_shape_nil|done].
Qed.

Lemma imports_spec r xs :
  imports s req r xs → (length xs ≤ 1)%nat ∧ Forall importing xs ∧ (∀ a, r = Ok a → xs ≠ []) ∧
    Forall (sent_by s) xs.
Proof.
  intros [b Hop]. assert (Forall (sent_by s) xs) by (by eapply import_addressed).
  apply operation_length in Hop as (Hl & Hf & Hok). split_and!; [done| | |done].
  - eapply Forall_impl; [exact Hf|]. intros e [o ->]. by exists b, o.
  - intros a ->. by destruct (Hok a eq_refl) as [o ->].
Qed.

Lemma looks_up_spec cn r xs :
  opt_CSRLookupOperation (opts s) ≠ "" → looks_up s cn r xs →
  (length xs ≤ 1)%nat ∧ Forall looking_up xs ∧ Forall (sent_by s) xs.
Proof.
  intros Hne [(_ & -> & _)|[Hcn Hop]]; [simpl; auto|].
  assert (Forall (sent_by s) xs) by (eapply plain_addressed; [|exact Hop]; by right).
  apply operation_length in Hop as (Hl & Hf & _). split_and!; [done| |done].
  eapply Forall_impl; [exact Hf|]. intros e [o ->]. by exists cn, o.
Qed.

Lemma resolves_spec stored fb r xs :
  resolves s stored fb r xs → (length xs ≤ 1)%nat ∧ Forall looking_up xs ∧ Forall (sent_by s) xs.
Proof. inversion 1; subst; simpl; auto; by eapply looks_up_spec. Qed.

Lemma polling_fetching t0 t1 cn sn n r xs : polling s ctx t0 t1 cn sn n r xs → Forall (fetching cn sn) xs.
Proof.
  assert (∀ r' ys, got (client s) cn sn r' ys → Forall (fetching cn sn) ys) as Hgot
    by (by intros r' ys (_ & ? & _)%operation_length).
  induction 1; [eauto..|]. apply Forall_app. eauto.
Qed.

Lemma polling_shape t0 t1 cn sn n r xs :
  (n ≤ max_polls s)%nat → polling s ctx t0 t1 cn sn n r xs → fetch_shape xs.
Proof.
  intros Hn Hp. split; [apply polling_spec in Hp as [? _]; lia|]. exists cn, sn. by eapply polling_fetching.
Qed.

Lemma signs_spec id r xs :
  signs s (signRequest s id req) r xs → id ≠ "" →
  (length xs ≤ 1)%nat ∧ Forall signing xs ∧ (∀ a, r = Ok a → xs ≠ []).
Proof.
  intros Hop Hid. apply operation_length in Hop as (Hl & Hf & Hok). split_and!; [done| |].
  - eapply Forall_impl; [exact Hf|]. intros e [o ->]. by exists id, o.
  - intros a ->. by destruct (Hok a eq_refl) as [o ->].
Qed.

(** One step puts its requests in front of what the next phase allows. *)
Lemma step_shape t0 t1 p xs q ys : step s ctx req csr t0 t1 p xs q → phase_shape q ys → phase_shape p (xs ++ ys).
Proof.
  destruct 1 as [stored xs Hi|e xs Hi|stored id xs Hr|stored e xs Hr|stored id result xs Hs|
    stored id e xs Hs|stored result|stored result n certs xs Hn Hp|stored result n e xs Hn Hp|certs];
    simpl; intros Hys.
  - apply imports_spec in Hi as (? & ? & Hne & _). exists xs, ys. split_and!; [done..|]. eauto.
  - apply imports_spec in Hi as (? & ? & _). exists xs, ys. subst.
    split_and!; [done..|apply resolve_shape_nil|done].
  - pose proof (resolves_nonempty _ _ _ _ _ Hr). apply resolves_spec in Hr as (? & ? & _). exists xs, ys. auto.
  - apply resolves_spec in Hr as (? & ? & _). exists xs, ys. subst. split_and!; [done..|apply sign_shape_nil].
  - intros Hid. destruct (signs_spec _ _ _ Hs Hid) as (? & ? & Hne). exists xs, ys. split_and!; [done..|]. eauto.
  - intros Hid. destruct (signs_spec _ _ _ Hs Hid) as (? & ? & _). exists xs, ys. subst.
    split_and!; [done..|apply fetch_shape_nil|done].
  - subst. apply fetch_shape_nil.
  - subst. rewrite app_nil_r. by eapply polling_shape.
  - subst. rewrite app_nil_r. by eapply polling_shape.
  - by subst.
Qed.

Lemma steps_shape t0 t1 p xs q : steps s ctx req csr t0 t1 p xs q → phase_shape p xs.
Proof. induction 1; eauto using phase_shape_nil, step_shape. Qed.
End run_shape.
End shape.

Section outcome.
Context `{Unicode, Conversions, Env, PublicKeys, !X509, Pem}.
Context (s : Signer) (ctx : context) (req : Request) (csr : certificate_request) (t0 t1 : Z).

Lemma step_addressed p xs q : step s ctx req csr t0 t1 p xs q → Forall (sent_by s) xs.
Proof.
  destruct 1 as [? xs Hi|? xs Hi|? ? xs Hr|? ? xs Hr|? ? ? xs Hs|? ? ? xs Hs| |
    ? ? n ? xs _ Hp|? ? n ? xs _ Hp| ]; try constructor.
  1-2: by apply imports_spec in Hi as (_ & _ & _ & ?).
  1-2: by apply resolves_spec in Hr as (_ & _ & ?).
  1-2: eapply plain_addressed; [|exact Hs]; auto with kmp.
  1-2: by apply polling_spec in Hp as (_ & ? & _).
Qed.

Lemma steps_addressed p xs q : steps s ctx req csr t0 t1 p xs q → Forall (sent_by s) xs.
Proof. induction 1; [constructor|]. apply Forall_app. eauto using step_addressed. Qed.

(** A run that ends with a bundle fetched its certificates last. *)
Lemma steps_success p xs q b :
  steps s ctx req csr t0 t1 p xs q → q = Finished (Ok b) →
  match p with
  | Finished r => r = Ok b
  | Fetched certs => assemble csr certs = Ok b
  | _ => ∃ certs cn sn ys zs, assemble csr certs = Ok b ∧ xs = ys ++ zs ∧
           got (client s) cn sn (Ok certs) zs
  end.
Proof.
  induction 1 as [p|p xs q ys r Hs Hst IH]; [by intros ->|]. intros Hq. specialize (IH Hq).
  apply steps_shape in Hst.
  destruct Hs as [| | | | | | |stored result n certs xs _ Hp| |]; try done;
    try (destruct IH as (certs & cn & sn & ys1 & zs & ? & -> & ?); exists certs, cn, sn, (xs ++ ys1), zs;
         by rewrite app_assoc).
  apply polling_spec in Hp as (_ & _ & Hok). destruct (Hok certs eq_refl) as (ys1 & zs & -> & Hg).
  exists certs, (fetch_name result stored csr), (SerialNumber result), ys1, zs.
  simpl in Hst. subst. by rewrite app_nil_r.
Qed.

Lemma assemble_Ok certs b :
  assemble csr certs = Ok b →
  (∃ path, bundle_ok certs (csr_PublicKey csr) b path) ∧ covers_request csr (Leaf b).
Proof.
  unfold assemble. destruct (BuildBundle _ _) as [b'|] eqn:Eb; [|done].
  destruct (verifyRequestedNames csr (Leaf b')) eqn:Ev; [done|]. intros [= <-].
  split; [by apply BuildBundle_bundle_ok|by apply verifyRequestedNames_nil].
Qed.
End outcome.

Section sign_outcome.
Context `{Unicode, Conversions, Env, PublicKeys, !X509, Pem}.

(** A bundle that fulfils a request. *)
Definition fulfils (csrPEM : string) (b : Bundle) : Prop :=
  ∃ csr certs path, ParseCSR csrPEM = Ok csr ∧
    bundle_ok certs (csr_PublicKey csr) b path ∧ covers_request csr (Leaf b).

Lemma run_Sign_outcome s ctx req w :
  run (Sign s ctx req) w (λ r _ xs,
    Forall (sent_by s) xs ∧
    match r with
    | Ok b =>
      ∃ csr certs path cn sn ys zs, ParseCSR (CSRPEM req) = Ok csr ∧
        bundle_ok certs (csr_PublicKey csr) b path ∧ covers_request csr (Leaf b) ∧
        xs = ys ++ zs ∧ got (client s) cn sn (Ok certs) zs
    | Err _ => True
    end).
Proof.
  destruct (ParseCSR (CSRPEM req)) as [csr|e] eqn:E.
  - eapply run_conseq; [by eapply run_Sign|]. intros r w' xs _ Hst.
    split; [exact (steps_addressed _ _ _ _ _ _ _ _ _ Hst)|]. destruct r as [b|e]; [|done].
    eapply steps_success in Hst as (certs & cn & sn & ys & zs & Ha & -> & Hg); [|done].
    apply assemble_Ok in Ha as [[path ?] ?]. eauto 15.
  - unfold Sign. rewrite E. by run_step.
Qed.
End sign_outcome.

(** ** When the server cooperates *)

(** The document holds a field under one of the names. *)
Definition reports `{Conversions, Unicode} (keys : list string) (p : response) : Prop :=
  ∃ v, stores (wanted_set keys) (doc p) v.

Section publication.
Context `{Unicode, Conversions, Env, PublicKeys, !X509, Pem}.
Context (s : Signer) (ctx : context) (P : list certificate → Prop).

(** The document carries certificates of which [P] holds, or none yet. *)
Definition publishing (p : response) : Prop :=
  ∃ certs, certificatesFromStrings (collectStrings (Some p)) = Ok certs ∧ (certs = [] ∨ P certs).

Definition publishing_fetches (e : event) : Prop :=
  ∀ cn sn o, e = Sent (plain_request (client s) "GET" opGetCertificate (certificate_details cn sn)) o →
    answers publishing o.

(** Requests to the configured server can be built (see [NewClient_http]). *)
Definition buildable : Prop := http_url (baseURL (client s)).

Context (Hbuilt : buildable).

Lemma built method op q b ct : request_error (URL (build_request (client s) method op q b ct)) = None.
Proof. by apply build_request_URL. Qed.

Lemma got_published cn sn r xs :
  got (client s) cn sn r xs → Forall publishing_fetches xs →
  match r with Ok certs => P certs | Err e => IsPermanent e = false end.
Proof.
  intros Hg Hco. rewrite Forall_forall in Hco.
  eapply (operation_answers _ _ _ publishing) in Hg as (p & (certs & Hp & Hcerts) & o & ->); [|apply built|].
  - unfold certificates_in. rewrite Hp. destruct certs as [|c certs]; [|by destruct Hcerts].
    unfold no_certificate_error. by rewrite IsPermanent_kmp by (by intros c [= <-]).
  - intros o Ho%Hco. by eapply Ho.
Qed.

Lemma polling_published t0 t1 cn sn n r xs :
  polling s ctx t0 t1 cn sn n r xs → Forall publishing_fetches xs →
  match r with Ok certs => P certs | Err _ => exhausted s t0 t1 ∨ cancelled ctx t1 end.
Proof.
  induction 1 as [certs xs Hg|e xs Hg He|e xs Hg He|e xs Hg _ He|n e r xs ys Hg _ _ IH]; intros Hco.
  - by apply (got_published _ _ _ _ Hg).
  - pose proof (got_published _ _ _ _ Hg Hco). simpl in *. congruence.
  - by left.
  - by right.
  - apply Forall_app in Hco as [_ ?]. by apply IH.
Qed.
End publication.

Section cooperation.
Context `{Unicode, Conversions, Env, PublicKeys, !X509, Pem}.
Context (s : Signer) (ctx : context) (req : Request) (csr : certificate_request).

(** One certificate is for the key of the request, and no such certificate
    lacks a name. *)
Definition publishes (certs : list certificate) : Prop :=
  (∃ c, c ∈ certs ∧ for_key (csr_PublicKey csr) c) ∧
  ∀ c, c ∈ certs → for_key (csr_PublicKey csr) c → covers_request csr c.

(** The answers to an import, a signCSR and a getCertificate. *)
Definition cooperates (e : event) : Prop :=
  (∀ b o, e = Sent (import_request (client s) b (CSRPEM req) (opt_Email (opts s))) o →
     answers (reports csrIDKeys) o) ∧
  (∀ id o, e = Sent (plain_request (client s) "POST" opSignCSR (SignRequest_details (signRequest s id req))) o →
     answers (reports commonNameKeys) o) ∧
  publishing_fetches s publishes e.

Lemma publishes_assemble certs : publishes certs → ∃ b, assemble csr certs = Ok b.
Proof.
  intros [(c & Hc & Hk) Hcovers]. destruct (BuildBundle_exists _ _ _ Hc Hk) as [b Hb].
  exists b. unfold assemble. rewrite Hb. apply BuildBundle_bundle_ok in Hb as (path & [_ Hin Hkey _ _]).
  by rewrite (proj2 (verifyRequestedNames_nil _ _) (Hcovers _ Hin Hkey)).
Qed.

Context (Hbuilt : buildable s).

(** What holds phase by phase. *)
Definition on_course (t0 t1 : Z) (p : phase) : Prop :=
  match p with
  | Begun | Identified _ _ => True
  | Imported stored => stored_ID stored ≠ ""
  | Signed _ result => res_CommonName result ≠ ""
  | Fetched certs => publishes certs
  | Finished (Ok _) => True
  | Finished (Err _) => exhausted s t0 t1 ∨ cancelled ctx t1
  end.

Lemma cooperates_fetches xs : Forall cooperates xs → Forall (publishing_fetches s publishes) xs.
Proof. intros Hco. eapply Forall_impl; [exact Hco|]. by intros e (_ & _ & ?). Qed.

Lemma imports_cooperates r xs :
  imports s req r xs → Forall cooperates xs → ∃ stored, r = Ok stored ∧ stored_ID stored ≠ "".
Proof.
  intros [b Hop] Hco. rewrite Forall_forall in Hco.
  eapply (operation_answers _ _ _ (reports csrIDKeys)) in Hop as (p & (v & Hv) & o1 & o2 & ->); [|by apply built|].
  - eexists. split; [done|]. by eapply findString_reported.
  - intros o Ho%Hco. by eapply Ho.
Qed.

Lemma signs_cooperates id r xs :
  signs s (signRequest s id req) r xs → Forall cooperates xs →
  ∃ result, r = Ok result ∧ res_CommonName result ≠ "".
Proof.
  intros Hop Hco. rewrite Forall_forall in Hco.
  eapply (operation_answers _ _ _ (reports commonNameKeys)) in Hop as (p & (v & Hv) & o1 & o2 & o3 & o4 & ->); [|by apply built|].
  - pose proof (findString_reported o2 p commonNameKeys v Hv) as Hcn. unfold signed_in.
    simpl res_CommonName. rewrite bool_decide_eq_false_2 by done. simpl. eauto.
  - intros o Ho%Hco. by eapply Ho.
Qed.

Lemma step_on_course t0 t1 p xs q :
  step s ctx req csr t0 t1 p xs q → on_course t0 t1 p → Forall cooperates xs → on_course t0 t1 q.
Proof.
  destruct 1 as [stored xs Hi|e xs Hi|stored id xs Hr|stored e xs Hr|stored id result xs Hs|
    stored id e xs Hs|stored result Hcn|stored result n certs xs Hn Hp|stored result n e xs Hn Hp|certs];
    simpl; intros Hcur Hco.
  - destruct (imports_cooperates _ _ Hi Hco) as (stored' & [= ->] & ?). done.
  - destruct (imports_cooperates _ _ Hi Hco) as (stored' & ? & _). done.
  - done.
  - by inversion Hr.
  - destruct (signs_cooperates _ _ _ Hs Hco) as (result' & [= ->] & ?). done.
  - destruct (signs_cooperates _ _ _ Hs Hco) as (result' & ? & _). done.
  - unfold fetch_name, nonempty in Hcn. by rewrite bool_decide_eq_true_2 in Hcn.
  - by apply (polling_published s ctx publishes Hbuilt _ _ _ _ _ _ _ Hp), cooperates_fetches.
  - by apply (polling_published s ctx publishes Hbuilt _ _ _ _ _ _ _ Hp), cooperates_fetches.
  - by destruct (publishes_assemble certs Hcur) as [b ->].
Qed.

Lemma steps_on_course t0 t1 p xs q :
  steps s ctx req csr t0 t1 p xs q → on_course t0 t1 p → Forall cooperates xs → on_course t0 t1 q.
Proof. induction 1; [done|]. rewrite Forall_app. intros ? [? ?]. eauto using step_on_course. Qed.
End cooperation.

(** ** Properties *)

(** What each sign type needs. *)
Definition complete_options (o : SigningOptions) : Prop :=
  let msca := opt_ServerName o ≠ "" ∧ opt_CAName o ≠ "" ∧ opt_TemplateName o ≠ "" in
  signType o = SignTypeMSCA ∧ msca
  ∨ signType o = SignTypeMSCAUsingAgent ∧ msca ∧ opt_AgentName o ≠ ""
  ∨ signType o = SignTypeWithRoot ∧ opt_RootCertificateCommonName o ≠ "".

Section signer_claims.
Context `{Unicode, Conversions, Env, PublicKeys, !X509, Pem}.

Lemma requireMSCAFields_None o :
  requireMSCAFields o = None ↔ opt_ServerName o ≠ "" ∧ opt_CAName o ≠ "" ∧ opt_TemplateName o ≠ "".
Proof.
  unfold requireMSCAFields, missing_MSCA_fields. repeat case_bool_decide; simpl; naive_solver.
Qed.

Lemma Validate_None o : Validate o = None ↔ complete_options o.
Proof.
  unfold Validate, complete_options. cbv zeta. rewrite <- requireMSCAFields_None.
  destruct (decide (signType o = SignTypeMSCA)) as [E|E1].
  { rewrite bool_decide_eq_true_2, E by done. naive_solver. }
  rewrite bool_decide_eq_false_2 by done.
  destruct (decide (signType o = SignTypeMSCAUsingAgent)) as [E|E2].
  { rewrite bool_decide_eq_true_2, E by done.
    destruct (requireMSCAFields o); [naive_solver|]. case_bool_decide; naive_solver. }
  rewrite bool_decide_eq_false_2 by done.
  destruct (decide (signType o = SignTypeWithRoot)) as [E|E3].
  { rewrite bool_decide_eq_true_2, E by done. case_bool_decide; naive_solver. }
  rewrite bool_decide_eq_false_2 by done. naive_solver.
Qed.

(** C34: for a root signed request without a pinned validity, the validity sent
    is the requested duration rounded up to whole days, at least one: a whole
    number of days is sent exactly, and otherwise the days sent are fewer than
    one more than asked for and fall short of the duration by less than two
    microseconds, which is all the floating point division may lose over the
    whole range of a duration. *)
Theorem signRequest_validity s id req :
  signType (opts s) = SignTypeWithRoot → opt_ValidityDays (opts s) = None →
  0 < Duration req ≤ max_int64 →
  ∃ days, ValidityDays (signRequest s id req) = Some days ∧ 1 ≤ days ≤ 106752 ∧
    (days - 1) * Day < Duration req < days * Day + 2 * Microsecond ∧
    (Duration req mod Day = 0 → days * Day = Duration req).
Proof.
  intros Hroot Hnone Hd. exists (days_for (Duration req)).
  unfold signRequest. rewrite bool_decide_eq_false_2 by tauto. simpl. rewrite Hnone.
  rewrite (proj2 (Z.ltb_lt _ _)) by lia. split; [done|].
  set (d := Duration req) in *. assert (Day = 86400000000000) as HDay by done. assert (Microsecond = 1000) as HMicro by done.
  pose proof (Z.div_mod d Day ltac:(done)) as Hdm. pose proof (Z.mod_pos_bound d Day ltac:(done)) as Hm.
  unfold max_int64 in Hd. assert (d < days_for d * Day + 2 * Microsecond).
  { destruct (Z.lt_ge_cases d (days_for d * Day + 2 * Microsecond)) as [?|Hge]; [done|].
    assert (1 ≤ days_for d).
    { unfold days_for. cbv zeta. destruct (Z.ltb_spec (integral_to_int32 (float_ceil (float_div (Duration_Hours d)
        (float_of_int 24)))) 1); lia. }
    assert (days_for d + 1 ≤ days_for d) by (apply days_for_up; [done|lia|lia]). lia. }
  destruct (Z.eq_dec (d mod Day) 0) as [E|E].
  - pose proof (days_for_between d (d / Day) (d / Day) Hd ltac:(lia) ltac:(lia) ltac:(lia)). lia.
  - pose proof (days_for_between d (d / Day) (d / Day + 1) Hd ltac:(lia) ltac:(lia) ltac:(lia)). lia.
Qed.

(** C29: fetching the signed certificate always returns, whatever the server
    answers and however long it takes: it polls at most once more than there
    are poll intervals in the poll timeout.  What it returns is what the last
    poll found; it fails only if the last failure is permanent, no further
    interval fits before the deadline, or the context is done. *)
Theorem fetchCertificate_returns s ctx cn sn w :
  run (fetchCertificate s ctx cn sn) w (λ r w' xs,
    (length xs ≤ S (Z.to_nat (poll_timeout s / poll_interval s)))%nat ∧
    Forall (sent_by s) xs ∧
    match r with
    | Some (Ok certs) => ∃ ys zs, xs = ys ++ zs ∧ got (client s) cn sn (Ok certs) zs
    | Some (Err e) =>
      IsPermanent e = true ∨ w_now w + poll_timeout s < w_now w' + poll_interval s ∨ cancelled ctx (w_now w')
    | None => False
    end).
Proof.
  destruct (decide (cn = "" ∧ sn = "")) as [[-> ->]|Hid%not_and_l].
  - unfold fetchCertificate. do 2 run_step. cbv zeta. unfold max_polls. simpl fetch_loop.
    apply run_bind. unfold GetCertificate. rewrite !bool_decide_eq_true_2 by done. cbn [andb].
    do 3 run_step. simpl. run_step. simpl. split_and!; [lia|constructor|by left].
  - eapply run_conseq; [by apply run_fetchCertificate|].
    intros r w' xs _ (n & a & -> & Hp & Hn).
    pose proof (polling_spec _ _ _ _ _ _ _ _ _ Hp) as (Hl & Ha & Hok).
    split_and!; [unfold max_polls in Hn; lia|done|].
    destruct a as [certs|e]; [by apply Hok|]. by eapply polling_Err.
Qed.

(** C11: every run of [Sign] is a path of the signing state machine from its
    start to the result it returns, with exactly the requests of the steps
    taken; a malformed request is refused for good before anything is sent. *)
Theorem Sign_refines_workflow s ctx req w :
  run (Sign s ctx req) w (λ r w' xs,
    match ParseCSR (CSRPEM req) with
    | Ok csr => steps s ctx req csr (w_now w) (w_now w') Begun xs (Finished r)
    | Err e => xs = [] ∧ r = Err (mark ErrInvalidConfig (error_text e))
    end).
Proof.
  destruct (ParseCSR (CSRPEM req)) as [csr|e] eqn:E; [by apply run_Sign|].
  unfold Sign. rewrite E. by run_step.
Qed.

(** C13: [Sign] issues a certificate whenever it can: with a readable CSR, if Key
    Manager Plus accepts what it is sent, reports the id of the stored CSR and
    the name of the signed certificate, and publishes a certificate for the key
    that carries the requested names, sooner or later, then [Sign] returns a
    bundle, unless the poll timeout passes or the context is done first. *)
Theorem Sign_completes s ctx req csr w :
  ParseCSR (CSRPEM req) = Ok csr →
  buildable s →
  run (Sign s ctx req) w (λ r w' xs,
    Forall (cooperates s req csr) xs →
    (∃ b, r = Ok b) ∨ w_now w + poll_timeout s < w_now w' + poll_interval s ∨ cancelled ctx (w_now w')).
Proof.
  intros Hcsr Hbuilt. eapply run_conseq; [by eapply run_Sign|]. intros r w' xs _ Hst Hco.
  pose proof (steps_on_course s ctx req csr Hbuilt _ _ _ _ _ Hst I Hco) as Hr.
  destruct r; [eauto|by right].
Qed.

(** C12: [Sign] sends at most one import, of the CSR it was given; then at most one
    lookup, by the operation the options name; then at most one signCSR, which
    names a non-empty CSR id; then a bounded number of fetches, all for the same
    certificate; and nothing else.  Nothing is sent unless the CSR was imported
    first, nothing is fetched unless signCSR was sent, and every request goes to
    the configured server with its token. *)
Theorem Sign_signs_at_most_once s ctx req w :
  run (Sign s ctx req) w (λ _ _ xs,
    Forall (sent_by s) xs ∧
    ∃ imports lookups signs fetches cn sn, xs = imports ++ lookups ++ signs ++ fetches ∧
      (length imports ≤ 1)%nat ∧ (length lookups ≤ 1)%nat ∧ (length signs ≤ 1)%nat ∧
      (length fetches ≤ max_polls s)%nat ∧
      Forall (importing s req) imports ∧ Forall (looking_up s) lookups ∧
      Forall (signing s req) signs ∧ Forall (fetching s cn sn) fetches ∧
      (lookups ++ signs ++ fetches ≠ [] → imports ≠ []) ∧ (fetches ≠ [] → signs ≠ [])).
Proof.
  destruct (ParseCSR (CSRPEM req)) as [csr|e] eqn:E.
  - eapply run_conseq; [by eapply run_Sign|]. intros r w' xs _ Hst.
    split; [exact (steps_addressed _ _ _ _ _ _ _ _ _ Hst)|]. apply steps_shape in Hst.
    destruct Hst as (ms & ys & -> & ? & ? & (ls & zs & -> & ? & ? & ss & ps & -> & ? & ? & [? (cn & sn & ?)] & ?) & ?).
    exists ms, ls, ss, ps, cn, sn. by split_and!.
  - unfold Sign. rewrite E. run_step. split; [constructor|]. exists [], [], [], [], "", "".
    split_and!; simpl; try done; try lia; constructor.
Qed.

(** A bundle [Sign] returns is built from the certificates of its last
    request, a getCertificate: it starts with one for the public key of the
    request, each further certificate issued the one before it, and the leaf
    carries every name the request asked for. *)
Theorem Sign_success s ctx req w :
  run (Sign s ctx req) w (λ r _ xs,
    match r with
    | Ok b =>
      ∃ csr certs path cn sn ys zs, ParseCSR (CSRPEM req) = Ok csr ∧
        bundle_ok certs (csr_PublicKey csr) b path ∧ covers_request csr (Leaf b) ∧
        xs = ys ++ zs ∧ got (client s) cn sn (Ok certs) zs
    | Err _ => True
    end).
Proof.
  eapply run_conseq; [apply run_Sign_outcome|]. intros [b|e] w' xs _ [_ Hr]; [|done].
  destruct Hr as (csr & certs & path & cn & sn & ys & zs & Hr). by exists csr, certs, path, cn, sn, ys, zs.
Qed.

(** C38: the id of an imported request may depend on chance.  Under whichever of
    the keys an id is looked for the answer to importCSR holds something at its
    top level, there is an order in which the runtime may range the map that
    makes that the id of the request: it is what [resolveCSRID] hands on, to be
    signed, without asking further.  So with two such keys, as [CSR_ID] and
    [id] are, the same answer can have either request signed. *)
Theorem import_id_depends_on_order parsed fields e id :
  doc parsed = Map fields → map_ok fields → e ∈ fields → direct_scalar (wanted_set csrIDKeys) e = Some id →
  ∃ o, ∀ o' s ctx fallback w,
    run (resolveCSRID s ctx (imported_in o o' parsed) fallback) w (λ r _ xs, r = Ok id ∧ xs = []).
Proof.
  intros Hdoc Hok He Hid. apply elem_of_Permutation in He as [rest Hperm].
  exists (order_of (keys (e :: rest))). intros o' s ctx fallback w.
  assert (stored_ID (imported_in (order_of (keys (e :: rest))) o' parsed) = id) as Hstored.
  { unfold imported_in, findString. rewrite Hdoc. cbn [stored_ID findScalar].
    rewrite (range_map_complete fields (e :: rest)) by (done || by symmetry). cbn [find_first]. by rewrite Hid. }
  unfold resolveCSRID. rewrite Hstored. unfold nonempty.
  rewrite bool_decide_eq_true_2 by (by eapply direct_scalar_nonempty). by run_step.
Qed.
End signer_claims.
