(* ===== verification/PrivateKey.v ===== *)
(** * [internal/kmp/privatekey.go]: reading an exported private key *)

From S2P Require Import Prelude GoStrings GoFloat GoAny Json Errors Response GoNet Base64 X509 Chain.
Local Open Scope Z_scope.

(** ** [crypto/x509] on private keys *)

(** [crypto.PrivateKey] and its encodings, behind an interface as [X509] is.
    Parsers give [None] for a non-nil error, which the program does not look
    at. *)
Class PrivateKeys `{PublicKeys} := {
  private_key : Type;
  (** [Public()], for the types that have it *)
  public_of : private_key → option public_key;
  x509_ParsePKCS8PrivateKey : string → option private_key;
  x509_ParsePKCS1PrivateKey : string → option private_key;
  x509_ParseECPrivateKey : string → option private_key;
  x509_MarshalPKCS8PrivateKey : private_key → result string string;
  x509_DecryptPEMBlock : pem_block → string → result string string;
  (** what was marshalled parses back *)
  pkcs8_round_trip : ∀ k der,
    x509_MarshalPKCS8PrivateKey k = Ok der → x509_ParsePKCS8PrivateKey der = Some k
}.

(** [x509.IsEncryptedPEMBlock] *)
Definition x509_IsEncryptedPEMBlock (b : pem_block) : bool :=
  bool_decide ("DEK-Info" ∈ keys (block_Headers b)).

(** [jksMagic] *)
Definition jksMagic : string := chr 254 +:+ chr 237 +:+ chr 254 +:+ chr 237.

(** Go strings indexed by bytes. *)
Definition is_text_byte (b : Z) : bool :=
  (b =? 10) || (b =? 13) || (b =? 9) || ((32 <=? b) && (b <? 127)).

Definition isMostlyText (data : string) : bool :=
  let limit := Z.min (len data) 512 in
  let printable :=
    Z.of_nat (length (filter (λ c, is_text_byte (byte_of c) = true) (bytes_of (take_bytes 512 data)))) in
  limit * 9 <=? printable * 10.

Definition isKeyStore (data : string) : bool :=
  if (4 <=? len data) && has_prefix data jksMagic then true
  else
    (2 <? len data) && (match data with String c _ => byte_of c =? 48 | EmptyString => false end)
    && negb (isMostlyText data).

Section privatekey.
Context `{Unicode, PublicKeys, !PrivateKeys, Pem}.

Record PrivateKey := MkPrivateKey { Key : private_key; PEM : string }.

Definition parseDERPrivateKey (der : string) : res private_key :=
  match x509_ParsePKCS8PrivateKey der with
  | Some key => Ok key
  | None =>
    match x509_ParsePKCS1PrivateKey der with
    | Some key => Ok key
    | None =>
      match x509_ParseECPrivateKey der with
      | Some key => Ok key
      | None => Err (New "the key is not in PKCS#8, PKCS#1 or SEC 1 form")
      end
    end
  end.

(** The body of the loop of [parsePEMPrivateKey] for a private key block. *)
Definition read_key_block (block : pem_block) (password : string) : res private_key :=
  let der :=
    if x509_IsEncryptedPEMBlock block then
      if bool_decide (password = "")
      then Err (New "the exported private key is encrypted but no password is configured")
      else match x509_DecryptPEMBlock block password with
           | Ok decrypted => Ok decrypted
           | Err msg => Err (wrap "decrypting the exported private key" (New msg))
           end
    else if bool_decide (block_Type block = "ENCRYPTED PRIVATE KEY")
    then Err (New ("the exported private key uses PKCS#8 encryption, which this controller "
                   +:+ "cannot decrypt: configure Key Manager Plus to export the key unencrypted"))
    else Ok (block_Bytes block) in
  match der with
  | Err err => Err err
  | Ok der =>
    match parseDERPrivateKey der with
    | Ok key => Ok key
    | Err err => Err (wrap "parsing the exported private key" err)
    end
  end.

(** One fuel unit per block. *)
Fixpoint parse_key_loop (fuel : nat) (rest password : string) : option (res private_key) :=
  match fuel with
  | O => None
  | S fuel' =>
    match pem_Decode rest with
    | None => Some (Err (Sentinel errNoPrivateKey))
    | Some (block, rest) =>
      if contains (block_Type block) "PRIVATE KEY" then Some (read_key_block block password)
      else parse_key_loop fuel' rest password
    end
  end.

Definition parsePEMPrivateKey (data password : string) : res private_key :=
  default (Err (Sentinel errNoPrivateKey)) (parse_key_loop (S (String.length data)) data password).

Definition parsePrivateKeyCandidate (candidate password : string) : res private_key :=
  if contains candidate "-----BEGIN" then parsePEMPrivateKey candidate password
  else
    let compact := compact candidate in
    if len compact <? 64 then Err (Sentinel errNoPrivateKey)
    else
      match b64_decode compact with
      | None => Err (Sentinel errNoPrivateKey)
      | Some der =>
        match parseDERPrivateKey der with
        | Ok key => Ok key
        | Err _ => Err (Sentinel errNoPrivateKey)
        end
      end.

(** [err == errNoPrivateKey] *)
Definition is_no_private_key (e : error) : bool :=
  match e with Sentinel s => bool_decide (s = errNoPrivateKey) | _ => false end.

(** [MarshalPKCS8PrivateKey] and [pem.EncodeToMemory] *)
Definition encode_key (key : private_key) : res PrivateKey :=
  match x509_MarshalPKCS8PrivateKey key with
  | Err msg => Err (wrap "re-encoding the exported private key" (New msg))
  | Ok encoded => Ok (MkPrivateKey key (pem_Encode pemPrivateKeyType encoded))
  end.

(** The loop over the candidates: what it returns, or the variable [firstErr]
    when it runs to its end. *)
Fixpoint try_candidates (candidates : list string) (password : string) (firstErr : option error)
  : res PrivateKey + option error :=
  match candidates with
  | [] => inr firstErr
  | candidate :: candidates =>
    match parsePrivateKeyCandidate candidate password with
    | Ok key => inl (encode_key key)
    | Err err =>
      let firstErr :=
        match firstErr with
        | None => if is_no_private_key err then None else Some err
        | Some _ => firstErr
        end in
      try_candidates candidates password firstErr
    end
  end.

Definition key_store_error : error :=
  New ("the export is a key store, which this controller cannot open: "
       +:+ "ask Key Manager Plus for the PrivateKey file type instead of KeyStore").

Definition candidates (data : string) : list string :=
  data :: match parseResponse data with
          | Some parsed => collectStrings (Some parsed)
          | None => []
          end.

Definition ParseExportedPrivateKey (data password : string) : res PrivateKey :=
  if bool_decide (data = "") then Err (New "the export is empty")
  else
    match try_candidates (candidates data) password None with
    | inl r => r
    | inr (Some err) => Err err
    | inr None =>
      if isKeyStore data then Err key_store_error
      else Err (New "no private key found in the export")
    end.

Definition MatchesCertificate (k : PrivateKey) (cert : certificate) : bool :=
  match public_of (Key k) with
  | None => false
  | Some public =>
    match PublicKey cert with
    | Some matcher => implements_equal matcher && key_equal matcher public
    | None => false
    end
  end.

(** ** Specification *)

Lemma parse_key_loop_is_Some fuel data password :
  (String.length data < fuel)%nat → is_Some (parse_key_loop fuel data password).
Proof.
  revert data. induction fuel as [|fuel IH]; intros data Hf; [lia|]. simpl.
  destruct (pem_Decode data) as [[block rest]|] eqn:E; [|eauto].
  apply pem_decode_shorter in E. case_match; [eauto|]. apply IH. lia.
Qed.

(** [candidate] carries [key]: as a PEM document or as base64. *)
Definition carries (candidate password : string) (key : private_key) : Prop :=
  parsePrivateKeyCandidate candidate password = Ok key.

Lemma try_candidates_Ok cs password e k :
  try_candidates cs password e = inl (Ok k) →
  ∃ pre c post, cs = pre ++ c :: post ∧ carries c password (Key k) ∧ encode_key (Key k) = Ok k ∧
    ∀ c' key, c' ∈ pre → ¬ carries c' password key.
Proof.
  revert e. induction cs as [|c cs IH]; simpl; intros e; [done|].
  destruct (parsePrivateKeyCandidate c password) as [key|err] eqn:E.
  - unfold encode_key at 1. destruct (x509_MarshalPKCS8PrivateKey key) as [enc|] eqn:Em; [|done].
    intros [= <-]. exists [], c, cs. unfold encode_key. simpl. rewrite Em.
    split_and!; try done. by intros ?? ?%not_elem_of_nil.
  - intros (pre & c' & post & -> & ? & ? & Hpre)%IH. exists (c :: pre), c', post.
    split_and!; try done. intros c'' key [-> |Hin]%elem_of_cons; [|by apply Hpre].
    unfold carries. congruence.
Qed.

Lemma try_candidates_inr cs password e e' :
  try_candidates cs password e = inr e' →
  (∀ c key, c ∈ cs → ¬ carries c password key) ∧
  (e' = None ↔ e = None ∧ ∀ c, c ∈ cs → parsePrivateKeyCandidate c password = Err (Sentinel errNoPrivateKey)).
Proof.
  revert e. induction cs as [|c cs IH]; simpl; intros e.
  - intros [= ->]. split; [by intros ?? ?%not_elem_of_nil|].
    split; [|tauto]. intros ->. split; [done|]. by intros ? ?%not_elem_of_nil.
  - destruct (parsePrivateKeyCandidate c password) as [key|err] eqn:E; [done|].
    intros [Hnone Hiff]%IH. split.
    + intros c' key [-> |Hin]%elem_of_cons; [unfold carries; congruence|by apply Hnone].
    + rewrite Hiff. setoid_rewrite elem_of_cons. split.
      * intros [He Hall]. destruct e; [done|]. split; [done|]. intros c' [-> |?]; [|auto].
        destruct err as [|s| | | | |]; simpl in He; try done. case_bool_decide; [by subst|done].
      * intros [-> Hall]. split; [|auto]. rewrite (Hall c) in E by auto. by simplify_eq.
Qed.
Lemma encode_key_reads_back key k password :
  encode_key key = Ok k → Key k = key ∧ parsePEMPrivateKey (PEM k) password = Ok key.
Proof.
  unfold encode_key. destruct (x509_MarshalPKCS8PrivateKey key) as [der|] eqn:E; [|done].
  intros [= <-]. split; [done|]. simpl. unfold parsePEMPrivateKey. simpl.
  rewrite <- (string_app_nil_r (pem_Encode _ der)), pem_decode_encode by (by right).
  change (contains (block_Type (PemBlock pemPrivateKeyType der [])) "PRIVATE KEY") with true. cbv iota.
  unfold read_key_block. simpl. unfold parseDERPrivateKey. by rewrite (pkcs8_round_trip _ _ E).
Qed.

Lemma ParseExportedPrivateKey_Ok data password k :
  ParseExportedPrivateKey data password = Ok k →
  (∃ pre c post, candidates data = pre ++ c :: post ∧ carries c password (Key k) ∧
     ∀ c' key, c' ∈ pre → ¬ carries c' password key) ∧
  ∀ password', parsePEMPrivateKey (PEM k) password' = Ok (Key k).
Proof.
  unfold ParseExportedPrivateKey. case_bool_decide; [done|].
  destruct (try_candidates _ _ _) as [[k'|]|[|]] eqn:E; [|done..|by case_match].
  intros [= ->]. apply try_candidates_Ok in E as (pre & c & post & ? & ? & Henc & ?).
  split; [eauto 10|]. intros password'. by eapply encode_key_reads_back.
Qed.

(** The certificate certifies the public half of the key. *)
Definition certifies (c : certificate) (key : private_key) : Prop :=
  ∃ public certified, public_of key = Some public ∧ PublicKey c = Some certified ∧
    implements_equal certified = true ∧ key_equal certified public = true.

Lemma MatchesCertificate_spec k c : MatchesCertificate k c = true ↔ certifies c (Key k).
Proof.
  unfold MatchesCertificate, certifies. split.
  - destruct (public_of (Key k)) as [public|]; [|done].
    destruct (PublicKey c) as [certified|]; [|done]. intros [? ?]%andb_true_iff. by exists public, certified.
  - intros (public & certified & -> & -> & -> & ->). done.
Qed.
End privatekey.

(** ** Properties *)

Section privatekey_claims.
Context `{Unicode, PublicKeys, !PrivateKeys, Pem}.

(** C31: the key read out of an export is the one its first candidate that
    carries a key holds, the candidates being the export itself and the strings
    of the JSON document it may be; its PEM block, which goes into the Secret,
    is not encrypted and reads back as that key.  There is no key only if the
    export is empty, no candidate carries one, or it cannot be re-encoded. *)
Theorem ParseExportedPrivateKey_correct data password :
  match ParseExportedPrivateKey data password with
  | Ok k =>
    (∃ pre c post, candidates data = pre ++ c :: post ∧ carries c password (Key k) ∧
       ∀ c' key, c' ∈ pre → ¬ carries c' password key) ∧
    ∀ password', parsePEMPrivateKey (PEM k) password' = Ok (Key k)
  | Err _ =>
    data = "" ∨ (∀ c key, c ∈ candidates data → ¬ carries c password key) ∨
    ∃ c key msg, c ∈ candidates data ∧ carries c password key ∧
                 x509_MarshalPKCS8PrivateKey key = Err msg
  end.
Proof.
  destruct (ParseExportedPrivateKey data password) as [k|e'] eqn:Hr; [by apply ParseExportedPrivateKey_Ok|].
  revert Hr. unfold ParseExportedPrivateKey. case_bool_decide as Ed; [by left|].
  destruct (try_candidates _ _ _) as [[k|e]|e] eqn:E; [done|intros _|intros _].
  - right. right. revert E. generalize (@None error). generalize (candidates data).
    intros cs. induction cs as [|c cs IH]; simpl; intros e0; [done|].
    destruct (parsePrivateKeyCandidate c password) as [key|err] eqn:Ec.
    + unfold encode_key. destruct (x509_MarshalPKCS8PrivateKey key) as [|msg] eqn:Em; [done|].
      intros _. exists c, key, msg. split_and!; [by left|done|done].
    + intros (c' & key & msg & ? & ? & ?)%IH. exists c', key, msg. split_and!; [by right|done|done].
  - apply try_candidates_inr in E as [Hnone _].
    destruct e as [err|]; [auto|]. destruct (isKeyStore data); auto.
Qed.
End privatekey_claims.
