(* ===== verification/Provision.v ===== *)
(** * [internal/kmp/provision.go]: the escrowed-key workflow *)

From S2P Require Import Prelude GoStrings GoFloat GoAny GoHttp Errors Response GoNet X509 Chain Verify World Client Signer PrivateKey.
Local Open Scope go_scope.
Local Open Scope Z_scope.

Record ProvisionRequest := MkProvisionRequest {
  prov_CommonName : string;
  prov_AltNames : list string;
  prov_Organization : string;
  prov_OrganizationalUnit : string;
  prov_Location : string;
  prov_State : string;
  prov_Country : string;
  prov_KeyAlgorithm : string;
  prov_KeyLength : Z;
  prov_SignatureAlgorithm : string;
  prov_StoreType : string;
  prov_ValidityType : string;
  prov_ValidityDays : option Z;
  prov_Password : string;
  prov_ExportFileType : string
}.

Section provision.
Context `{Unicode, Conversions, Env, PublicKeys, !X509, !PrivateKeys, Pem}.
Implicit Types (s : Signer) (ctx : context) (req : ProvisionRequest).

Record ProvisionedCertificate := MkProvisionedCertificate {
  pc_Bundle : Bundle;
  pc_PrivateKeyPEM : string;
  pc_CSRID : string;
  pc_SerialNumber : string
}.

Definition create_request req : CreateCSRRequest :=
  MkCreateCSRRequest (prov_CommonName req) (prov_AltNames req) (prov_Organization req)
    (prov_OrganizationalUnit req) (prov_Location req) (prov_State req) (prov_Country req)
    (prov_Password req) (prov_KeyAlgorithm req) (prov_KeyLength req) (prov_SignatureAlgorithm req)
    (prov_StoreType req) (prov_ValidityType req) (prov_ValidityDays req).

(** What one alternative name adds to [missing]. *)
Definition missing_alt_name (leaf : certificate) (name : string) : list string :=
  let name := trim_space name in
  if bool_decide (name = "") then []
  else match ParseIP name with
  | Some ip => if covers_ip leaf ip then [] else ["IP address " +:+ quote name]
  | None => if containsFold (DNSNames leaf) name then [] else ["DNS name " +:+ quote name]
  end.

Definition verifyProvisionedNames req (leaf : certificate) : option error :=
  let issued := CommonName (Subject leaf) in
  let missing :=
    (if equal_fold (prov_CommonName req) issued then []
     else [common_name_mismatch (prov_CommonName req) issued])
    ++ flat_map (missing_alt_name leaf) (prov_AltNames req) in
  match missing with
  | [] => None
  | _ => Some (missing_error missing)
  end.

(** The checks at the end of [Provision]. *)
Definition pair req (certs : list certificate) (exported csrID serial : string)
  : res ProvisionedCertificate :=
  match ParseExportedPrivateKey exported (prov_Password req) with
  | Err err => Err (mark ErrUnusableResponse ("reading the exported private key: " +:+ error_text err))
  | Ok privateKey =>
    match BuildBundle certs (public_of (Key privateKey)) with
    | Err err => Err (mark ErrUnusableResponse ("assembling the certificate chain: " +:+ error_text err))
    | Ok bundle =>
      if negb (MatchesCertificate privateKey (Leaf bundle)) then
        Err (mark ErrUnusableResponse "the exported private key does not belong to the issued certificate")
      else match verifyProvisionedNames req (Leaf bundle) with
      | Some err => Err err
      | None => Ok (MkProvisionedCertificate bundle (PEM privateKey) csrID serial)
      end
    end
  end.

Definition no_common_name : error := mark ErrInvalidConfig "the request has no common name".
Definition no_password : error :=
  mark ErrInvalidConfig "no password to protect the key Key Manager Plus generates".

Definition Provision s ctx req : io (res ProvisionedCertificate) :=
  if bool_decide (trim_space (prov_CommonName req) = "") then io_ret (Err no_common_name)
  else if bool_decide (prov_Password req = "") then io_ret (Err no_password)
  else
    try! stored := CreateCSR (client s) ctx (create_request req)
      else wrap "creating the certificate signing request" in
    try! csrID := resolveCSRID s ctx stored (prov_CommonName req) in
    try! result := SignCSR (client s) ctx (signRequest s csrID (MkRequest "" 0 false))
      else wrap "signing the certificate signing request" in
    let commonName :=
      if nonempty (res_CommonName result) then res_CommonName result else prov_CommonName req in
    let! r := fetchCertificate s ctx commonName (SerialNumber result) in
    match fetched r with
    | Err err => io_ret (Err (wrap "fetching the signed certificate" err))
    | Ok certs =>
      try! exported := ExportCSR (client s) ctx csrID (prov_ExportFileType req)
        else wrap "exporting the private key" in
      io_ret (pair req certs exported csrID (SerialNumber result))
    end.

(** ** The names *)

(** The certificate carries what was asked for. *)
Definition covers_alt_name (leaf : certificate) (name : string) : Prop :=
  let name := trim_space name in
  name = "" ∨
  match ParseIP name with
  | Some ip => ∃ a, a ∈ IPAddresses leaf ∧ ip_equal a ip = true
  | None => ∃ n, n ∈ DNSNames leaf ∧ equal_fold n name = true
  end.

Record provisioned_names req (leaf : certificate) : Prop := {
  provisioned_cn : equal_fold (prov_CommonName req) (CommonName (Subject leaf)) = true;
  provisioned_alt : ∀ n, n ∈ prov_AltNames req → covers_alt_name leaf n
}.

Lemma missing_alt_name_nil leaf name : missing_alt_name leaf name = [] ↔ covers_alt_name leaf name.
Proof.
  unfold missing_alt_name, covers_alt_name. case_bool_decide as E; [tauto|].
  destruct (ParseIP (trim_space name)) as [ip|].
  - rewrite <- covers_ip_spec. destruct (covers_ip leaf ip); naive_solver.
  - rewrite <- containsFold_spec. destruct (containsFold _ _); naive_solver.
Qed.

Lemma verifyProvisionedNames_nil req leaf :
  verifyProvisionedNames req leaf = None ↔ provisioned_names req leaf.
Proof.
  unfold verifyProvisionedNames. set (missing := _ ++ _). transitivity (missing = []).
  { by destruct missing. }
  unfold missing. rewrite app_nil, flat_map_nil. setoid_rewrite missing_alt_name_nil.
  destruct (equal_fold _ _) eqn:E; split.
  - intros [_ ?]. by constructor.
  - by intros [_ ?].
  - by intros [? _].
  - intros [? _]. congruence.
Qed.

(** ** The pair *)

(** What [Provision] promises of what it returns. *)
Record provisioned req (certs : list certificate) (exported : string) (pc : ProvisionedCertificate)
    (key : private_key) (path : list certificate) : Prop := {
  provisioned_key : ParseExportedPrivateKey exported (prov_Password req)
                    = Ok (MkPrivateKey key (pc_PrivateKeyPEM pc));
  provisioned_readable : ∀ password, parsePEMPrivateKey (pc_PrivateKeyPEM pc) password = Ok key;
  provisioned_match : certifies (Leaf (pc_Bundle pc)) key;
  provisioned_bundle : bundle_ok certs (public_of key) (pc_Bundle pc) path;
  provisioned_identity : provisioned_names req (Leaf (pc_Bundle pc))
}.

Lemma pair_Ok req certs exported csrID serial pc :
  pair req certs exported csrID serial = Ok pc →
  pc_CSRID pc = csrID ∧ pc_SerialNumber pc = serial ∧
  ∃ key path, provisioned req certs exported pc key path.
Proof.
  unfold pair. destruct (ParseExportedPrivateKey _ _) as [[key pem]|] eqn:Ek; [|done]. simpl.
  destruct (BuildBundle _ _) as [b|] eqn:Eb; [|done].
  destruct (MatchesCertificate _ _) eqn:Em; [|done]. simpl.
  destruct (verifyProvisionedNames _ _) eqn:En; [done|]. intros [= <-].
  apply BuildBundle_bundle_ok in Eb as [path Hb]. split_and!; [done..|].
  exists key, path. constructor; simpl; try done.
  - intros password. by apply (ParseExportedPrivateKey_Ok _ _ _ Ek).
  - by apply MatchesCertificate_spec in Em.
  - by apply verifyProvisionedNames_nil.
Qed.

(** Every failure of the checks is permanent. *)
Lemma pair_Err req certs exported csrID serial e :
  pair req certs exported csrID serial = Err e → IsPermanent e = true.
Proof.
  unfold pair, verifyProvisionedNames. intros H'. repeat case_match; by simplify_eq.
Qed.
End provision.

(** ** The order of the calls *)

Section provisioning.
Context `{Unicode, Conversions, Env, PublicKeys, !X509, !PrivateKeys, Pem}.
Context (s : Signer) (ctx : context) (req : ProvisionRequest).

(** The run starts at [t0] and ends at [t1]. *)
Section relation.
Context (t0 t1 : Z).

Definition creates : res CSR → list event → Prop :=
  operation opCreateCSR
    (plain_request (client s) "POST" opCreateCSR (CreateCSRRequest_details (create_request req)))
    (λ p r, ∃ o1 o2, r = Ok (created_in o1 o2 (create_request req) p)).

Definition exports (csrID : string) : res string → list event → Prop :=
  called_raw opExportCSR (export_request (client s) csrID (prov_ExportFileType req)).

Definition provision_sign_request (csrID : string) : SignRequest :=
  signRequest s csrID (MkRequest "" 0 false).

Definition provision_fetch_name (result : SignResult) : string :=
  if nonempty (res_CommonName result) then res_CommonName result else prov_CommonName req.

Definition fetches (result : SignResult) (r : res (list certificate)) (xs : list event) : Prop :=
  ∃ n, (n ≤ max_polls s)%nat ∧
    polling s ctx t0 t1 (provision_fetch_name result) (SerialNumber result) n r xs.

(** Where the workflow stops, and the exchanges up to there. *)
Inductive provisioning : res ProvisionedCertificate → list event → Prop :=
| prov_create_fails e xs :
    creates (Err e) xs →
    provisioning (Err (wrap "creating the certificate signing request" e)) xs
| prov_resolve_fails stored e xs ys :
    creates (Ok stored) xs → resolves s stored (prov_CommonName req) (Err e) ys →
    provisioning (Err e) (xs ++ ys)
| prov_sign_fails stored id e xs ys zs :
    creates (Ok stored) xs → resolves s stored (prov_CommonName req) (Ok id) ys →
    signs s (provision_sign_request id) (Err e) zs →
    provisioning (Err (wrap "signing the certificate signing request" e)) (xs ++ ys ++ zs)
| prov_fetch_fails stored id result e xs ys zs us :
    creates (Ok stored) xs → resolves s stored (prov_CommonName req) (Ok id) ys →
    signs s (provision_sign_request id) (Ok result) zs → fetches result (Err e) us →
    provisioning (Err (wrap "fetching the signed certificate" e)) (xs ++ ys ++ zs ++ us)
| prov_export_fails stored id result certs e xs ys zs us vs :
    creates (Ok stored) xs → resolves s stored (prov_CommonName req) (Ok id) ys →
    signs s (provision_sign_request id) (Ok result) zs → fetches result (Ok certs) us →
    exports id (Err e) vs →
    provisioning (Err (wrap "exporting the private key" e)) (xs ++ ys ++ zs ++ us ++ vs)
| prov_paired stored id result certs exported xs ys zs us vs :
    creates (Ok stored) xs → resolves s stored (prov_CommonName req) (Ok id) ys →
    signs s (provision_sign_request id) (Ok result) zs → fetches result (Ok certs) us →
    exports id (Ok exported) vs →
    provisioning (pair req certs exported id (SerialNumber result)) (xs ++ ys ++ zs ++ us ++ vs).
End relation.

Lemma trim_space_empty : trim_space "" = "".
Proof. reflexivity. Qed.

Lemma run_Provision w :
  trim_space (prov_CommonName req) ≠ "" → prov_Password req ≠ "" →
  run (Provision s ctx req) w (λ r w' xs, provisioning (w_now w) (w_now w') r xs).
Proof.
  intros Hcn Hpw. unfold Provision. rewrite !bool_decide_eq_false_2 by done.
  assert (prov_CommonName req ≠ "") as Hname.
  { intros E. rewrite E in Hcn. by rewrite trim_space_empty in Hcn. }
  run_step. apply run_later, run_CreateCSR; [done|]. intros [stored|e] w1 xs Hc Hw1; [|by apply prov_create_fails].
  run_step. apply run_later, run_resolveCSRID. intros [id|e] w2 ys Hr Hw2; [|by eapply prov_resolve_fails].
  pose proof (resolves_nonempty _ _ _ _ _ Hr) as Hid.
  run_step. apply run_later, run_SignCSR; [by rewrite signRequest_CSRID|].
  intros [result|e] w3 zs Hs Hw3; [|by eapply prov_sign_fails]. cbv zeta.
  apply run_bind. eapply run_conseq.
  { apply (run_fetchCertificate _ _ _ _ (w_now w)); [left; unfold nonempty; by case_bool_decide|lia]. }
  intros r w4 us _ (n & [certs|e] & -> & Hp & Hn); simpl; run_step.
  2:{ rewrite app_nil_r. eapply prov_fetch_fails; [done..|]. by exists n. }
  apply run_later, run_ExportCSR; [done|]. intros [exported|e] w5 vs He Hw5.
  - run_step. rewrite app_nil_r. eapply prov_paired; [done..| |done].
    exists n. split; [done|]. by eapply polling_later.
  - eapply prov_export_fails; [done..| |done]. exists n. split; [done|]. by eapply polling_later.
Qed.
End provisioning.

Section provision_outcome.
Context `{Unicode, Conversions, Env, PublicKeys, !X509, !PrivateKeys, Pem}.
Context (s : Signer) (ctx : context) (req : ProvisionRequest) (t0 t1 : Z).

(** A pair [Provision] may hand out for a request. *)
Definition issued_for (pc : ProvisionedCertificate) : Prop :=
  pc_CSRID pc ≠ "" ∧ ∃ certs exported key path,
    Forall parsed_certificate certs ∧ provisioned req certs exported pc key path.

Lemma fetches_parsed result certs xs : fetches s ctx req t0 t1 result (Ok certs) xs → Forall parsed_certificate certs.
Proof.
  intros (n & _ & Hp). apply polling_spec in Hp as (_ & _ & Hgot).
  destruct (Hgot certs eq_refl) as (ys & zs & _ & Hg). by eapply got_parsed.
Qed.

Lemma exports_addressed id r xs : exports s req id r xs → Forall (sent_by s) xs.
Proof.
  intros Hx. unfold exports, export_request, plain_request in Hx.
  eapply called_raw_addressed; [|exact Hx]. auto with kmp.
Qed.

Lemma fetches_addressed result r xs : fetches s ctx req t0 t1 result r xs → Forall (sent_by s) xs.
Proof. intros (n & _ & Hp). by apply polling_spec in Hp as (_ & ? & _). Qed.

Lemma provisioning_addressed r xs : provisioning s ctx req t0 t1 r xs → Forall (sent_by s) xs.
Proof.
  destruct 1; rewrite ?Forall_app; split_and?;
    solve [eapply plain_addressed; [|eassumption]; auto with kmp | by eapply resolves_spec
          | by eapply fetches_addressed | by eapply exports_addressed].
Qed.

Lemma provisioning_issued r xs pc : provisioning s ctx req t0 t1 r xs → r = Ok pc → issued_for pc.
Proof.
  destruct 1 as [| | | | |stored id result certs exported xs ys zs us vs _ Hr _ Hf _]; try done.
  intros (Hid & _ & key & path & Hp)%pair_Ok.
  split; [|exists certs, exported, key, path; split; [by eapply fetches_parsed|done]].
  rewrite Hid. by eapply resolves_nonempty.
Qed.

End provision_outcome.

(** ** What the answer to an export holds *)

Section sources.
Context `{Unicode, Conversions, Env, PublicKeys, !X509, !PrivateKeys, Pem}.

(** The body of a successful answer, as far as it is read. *)
Definition delivers (outcome : http_outcome) (body : string) : Prop :=
  ∃ code raw read_error,
    outcome = Reply code raw read_error ∧ status_ok code = true ∧ body = limit_read maxResponseBytes raw.

Lemma receive_raw_delivers o1 o2 o3 o4 op outcome body :
  receive_raw o1 o2 o3 o4 op outcome = Ok body → delivers outcome body.
Proof.
  unfold receive_raw, received, read_body, interpret_raw. destruct outcome as [|code raw read_error]; [done|].
  assert (∀ b : string, (if negb (status_ok code) then Err (status_error o1 o2 op code b)
     else let accepted := if nonempty b then Ok b else Err (KmpErr (KmpError op code "" "" "" false
                                                       (Some (New "the response is empty")))) in
          match parseResponse b with
          | Some parsed => if negb (succeeded o1 o2 (Some parsed)) then Err (failure_error o3 o4 op code parsed) else accepted
          | None => accepted
          end) = Ok body → status_ok code = true ∧ body = b) as Haccepted.
  { intros b. destruct (status_ok code); cbn [negb]; [|done]. intros Hb. split; [done|].
    cbv zeta in Hb. destruct (parseResponse b) as [p|]; [destruct (negb (succeeded o1 o2 (Some p))); [done|]|];
      destruct (nonempty b); by inversion Hb. }
  destruct read_error as [msg|]; [destruct (len raw <? maxResponseBytes); [done|]|]; intros [Hok ->]%Haccepted;
    by eexists _, _, _.
Qed.

Lemma exports_delivers s req id body xs :
  exports s req id (Ok body) xs →
  ∃ result, xs = [Sent (export_request (client s) id (prov_ExportFileType req)) result] ∧ delivers result body.
Proof.
  inversion 1 as [|o1 o2 o3 o4 outcome r Hr]; subst. exists outcome. split; [done|].
  by eapply receive_raw_delivers.
Qed.

(** What a pair was made of: the certificates the last fetch was answered with,
    and the file the export of its request was answered with. *)
Definition obtained (s : Signer) (req : ProvisionRequest) (pc : ProvisionedCertificate) (xs : list event) : Prop :=
  ∃ before fetched cn sn certs result exported key path,
    xs = before ++ fetched ++ [Sent (export_request (client s) (pc_CSRID pc) (prov_ExportFileType req)) result] ∧
    got (client s) cn sn (Ok certs) fetched ∧ delivers result exported ∧ Forall parsed_certificate certs ∧
    provisioned req certs exported pc key path.

Lemma provisioning_obtained s ctx req t0 t1 r xs pc :
  provisioning s ctx req t0 t1 r xs → r = Ok pc → pc_CSRID pc ≠ "" ∧ obtained s req pc xs.
Proof.
  destruct 1 as [| | | | |stored id result certs exported xs ys zs us vs _ Hr _ (n & _ & Hf) He]; try done.
  intros (Hid & _ & key & path & Hp)%pair_Ok. subst id. split; [by eapply resolves_nonempty|].
  apply polling_spec in Hf as (_ & _ & Hgot). destruct (Hgot certs eq_refl) as (us1 & us2 & -> & Hg).
  apply exports_delivers in He as (o & -> & Hd).
  exists (xs ++ ys ++ zs ++ us1), us2. eexists _, _, certs, o, exported, key, path. rewrite <- !app_assoc.
  split_and!; [done|exact Hg|done|by eapply got_parsed|done].
Qed.
End sources.

Section provision_run.
Context `{Unicode, Conversions, Env, PublicKeys, !X509, !PrivateKeys, Pem}.
Context (s : Signer) (ctx : context) (req : ProvisionRequest).

Lemma run_Provision_sources w :
  run (Provision s ctx req) w (λ r _ xs,
    Forall (sent_by s) xs ∧ match r with Ok pc => pc_CSRID pc ≠ "" ∧ obtained s req pc xs | Err _ => True end).
Proof.
destruct (decide (trim_space (prov_CommonName req) = "")) as [E1|E1].
  { unfold Provision. rewrite bool_decide_eq_true_2 by done. cbv iota. by run_step. }
  destruct (decide (prov_Password req = "")) as [E2|E2].
  { unfold Provision. rewrite bool_decide_eq_false_2, bool_decide_eq_true_2 by done. cbv iota. by run_step. }
  eapply run_conseq; [by apply run_Provision|]. intros r w' xs _ Hp. simpl in Hp.
  split; [by eapply provisioning_addressed|]. destruct r; [by eapply provisioning_obtained|done].
Qed.

Lemma run_Provision_outcome w :
  run (Provision s ctx req) w (λ r _ xs,
    Forall (sent_by s) xs ∧ match r with Ok pc => issued_for req pc | Err _ => True end).
Proof.
  eapply run_conseq; [apply run_Provision_sources|]. intros [pc|e] w' xs _ [Ha Hr]; [|done].
  split; [done|]. destruct Hr as [Hid (before & fetched & cn & sn & certs & o & exported & key & path & ? & ? & ? & ? & ?)].
  split; [done|]. by exists certs, exported, key, path.
Qed.
End provision_run.

(** ** When the server cooperates *)

Section provision_cooperation.
Context `{Unicode, Conversions, Env, PublicKeys, !X509, !PrivateKeys, Pem}.
Context (s : Signer) (ctx : context) (req : ProvisionRequest) (key : private_key).

(** One certificate is for the key, and every such certificate certifies it
    under the names asked for. *)
Definition certified (certs : list certificate) : Prop :=
  (∃ c, c ∈ certs ∧ for_key (public_of key) c) ∧
  ∀ c, c ∈ certs → for_key (public_of key) c → certifies c key ∧ provisioned_names req c.

(** The export holds the key. *)
Definition holds_key (exported : string) : Prop :=
  ∃ pem, ParseExportedPrivateKey exported (prov_Password req) = Ok (MkPrivateKey key pem).

Definition identifies_certificate (p : response) : Prop :=
  reports commonNameKeys p ∨ reports serialNumberKeys p ∨ reports certificateIDKeys p.

(** The answers to a createCSR, a signCSR, a getCertificate and an exportCSR. *)
Definition serves (e : event) : Prop :=
  (∀ o, e = Sent (plain_request (client s) "POST" opCreateCSR
                    (CreateCSRRequest_details (create_request req))) o → answers (reports csrIDKeys) o) ∧
  (∀ id o, e = Sent (plain_request (client s) "POST" opSignCSR
                       (SignRequest_details (provision_sign_request s id))) o →
     answers identifies_certificate o) ∧
  publishing_fetches s certified e ∧
  (∀ id o, e = Sent (export_request (client s) id (prov_ExportFileType req)) o → answers_file holds_key o).

Context (Hbuilt : buildable s).

Lemma creates_served r xs :
  creates s req r xs → Forall serves xs → ∃ stored, r = Ok stored ∧ stored_ID stored ≠ "".
Proof.
  intros Hop Hco. rewrite Forall_forall in Hco.
  eapply (operation_answers _ _ _ (reports csrIDKeys)) in Hop as (p & (v & Hv) & o1 & o2 & ->); [|by apply built|].
  - eexists. split; [done|]. by eapply findString_reported.
  - intros o Ho%Hco. by eapply Ho.
Qed.

Lemma signs_served id r xs :
  signs s (provision_sign_request s id) r xs → Forall serves xs → ∃ result, r = Ok result.
Proof.
  intros Hop Hco. rewrite Forall_forall in Hco.
  eapply (operation_answers _ _ _ identifies_certificate) in Hop
    as (p & Hp & o1 & o2 & o3 & o4 & ->); [|by apply built|].
  - unfold signed_in. simpl. destruct Hp as [[v Hv]|[[v Hv]|[v Hv]]].
    + rewrite (bool_decide_eq_false_2 _ (findString_reported o2 _ _ _ Hv)). simpl. eauto.
    + rewrite (bool_decide_eq_false_2 _ (findString_reported o3 _ _ _ Hv)), andb_false_r. simpl. eauto.
    + rewrite (bool_decide_eq_false_2 _ (findString_reported o1 _ _ _ Hv)), andb_false_r. eauto.
  - intros o Ho%Hco. by eapply Ho.
Qed.

Lemma exports_served id r xs :
  exports s req id r xs → Forall serves xs → ∃ exported, r = Ok exported ∧ holds_key exported.
Proof.
  intros Hop Hco. rewrite Forall_forall in Hco.
  eapply (called_raw_answers _ _ holds_key) in Hop; [done|by apply built|].
  intros o Ho%Hco. by eapply Ho.
Qed.

Lemma fetches_served t0 t1 result r xs :
  fetches s ctx req t0 t1 result r xs → Forall serves xs →
  match r with Ok certs => certified certs | Err _ => exhausted s t0 t1 ∨ cancelled ctx t1 end.
Proof.
  intros (n & _ & Hp) Hco. apply (polling_published s ctx certified Hbuilt _ _ _ _ _ _ _ Hp).
  eapply Forall_impl; [exact Hco|]. by intros e (_ & _ & ? & _).
Qed.

Lemma pair_served certs exported id serial :
  certified certs → holds_key exported → ∃ pc, pair req certs exported id serial = Ok pc.
Proof.
  intros [(c & Hc & Hk) Hcerts] [pem Hpem]. unfold pair. rewrite Hpem. simpl.
  destruct (BuildBundle_exists _ _ _ Hc Hk) as [b Hb]. rewrite Hb.
  apply BuildBundle_bundle_ok in Hb as (path & [_ Hin Hkey _ _]).
  destruct (Hcerts _ Hin Hkey) as [Hm Hn%verifyProvisionedNames_nil].
  rewrite (proj2 (MatchesCertificate_spec (MkPrivateKey key pem) _) Hm), Hn. simpl. eauto.
Qed.

Lemma provisioning_served t0 t1 r xs :
  provisioning s ctx req t0 t1 r xs → Forall serves xs →
  (∃ pc, r = Ok pc) ∨ exhausted s t0 t1 ∨ cancelled ctx t1.
Proof.
  destruct 1 as [e xs Hc|stored e xs ys Hc Hr|stored id e xs ys zs Hc Hr Hs|
    stored id result e xs ys zs us Hc Hr Hs Hf|stored id result certs e xs ys zs us vs Hc Hr Hs Hf He|
    stored id result certs exported xs ys zs us vs Hc Hr Hs Hf He]; rewrite ?Forall_app.
  - intros Hx. by destruct (creates_served _ _ Hc Hx) as (? & ? & _).
  - intros [Hx _]. destruct (creates_served _ _ Hc Hx) as (? & [= <-] & ?). by inversion Hr.
  - intros (_ & _ & Hz). by destruct (signs_served _ _ _ Hs Hz).
  - intros (_ & _ & _ & Hu). right. exact (fetches_served _ _ _ _ _ Hf Hu).
  - intros (_ & _ & _ & _ & Hv). by destruct (exports_served _ _ _ He Hv) as (? & ? & _).
  - intros (_ & _ & _ & Hu & Hv). left. apply pair_served; [exact (fetches_served _ _ _ _ _ Hf Hu)|].
    by destruct (exports_served _ _ _ He Hv) as (? & [= <-] & ?).
Qed.

(** The pair is of the key that is served, and its chain of certificates that
    were fetched. *)
Lemma provisioning_served_bundle t0 t1 r xs pc :
  provisioning s ctx req t0 t1 r xs → r = Ok pc → Forall serves xs →
  ∃ before fetched after cn sn certs path, xs = before ++ fetched ++ after ∧
    got (client s) cn sn (Ok certs) fetched ∧ bundle_ok certs (public_of key) (pc_Bundle pc) path.
Proof.
  destruct 1 as [| | | | |stored id result certs exported xs ys zs us vs _ _ _ (n & _ & Hf) He]; try done.
  rewrite !Forall_app. intros (_ & _ & key' & path & [Hkey _ _ Hb _])%pair_Ok (_ & _ & _ & _ & Hv).
  destruct (exports_served _ _ _ He Hv) as (? & [= <-] & pem & Hpem). rewrite Hpem in Hkey. injection Hkey as <- _.
  apply polling_spec in Hf as (_ & _ & Hgot). destruct (Hgot certs eq_refl) as (us1 & us2 & -> & Hg).
  exists (xs ++ ys ++ zs ++ us1), us2, vs. eexists _, _, certs, path. rewrite <- !app_assoc. by split_and!.
Qed.
End provision_cooperation.

(** ** Properties *)

Section provision_claims.
Context `{Unicode, Conversions, Env, PublicKeys, !X509, !PrivateKeys, Pem}.

(** C15: a pair [Provision] returns comes from a Key Manager Plus record with an
    id.  The last thing that is sent is the export of that record; its private
    key is the one that the answer to it holds, readable without a password, and
    it is the key the leaf certifies.  The leaf heads a chain of certificates
    that were read out of the answer to the fetch before the export, and carries
    the common name and every alternative name that was asked for.  All requests
    go to the configured server. *)
Theorem Provision_pair_matches s ctx req w :
  run (Provision s ctx req) w (λ r _ xs,
    Forall (sent_by s) xs ∧
    match r with
    | Ok pc =>
      pc_CSRID pc ≠ "" ∧
      ∃ before fetched cn sn certs result exported key path,
        xs = before ++ fetched ++ [Sent (export_request (client s) (pc_CSRID pc) (prov_ExportFileType req)) result] ∧
        got (client s) cn sn (Ok certs) fetched ∧ delivers result exported ∧
        Forall parsed_certificate certs ∧
        ParseExportedPrivateKey exported (prov_Password req) = Ok (MkPrivateKey key (pc_PrivateKeyPEM pc)) ∧
        (∀ password, parsePEMPrivateKey (pc_PrivateKeyPEM pc) password = Ok key) ∧
        certifies (Leaf (pc_Bundle pc)) key ∧
        bundle_ok certs (public_of key) (pc_Bundle pc) path ∧
        provisioned_names req (Leaf (pc_Bundle pc))
    | Err _ => True
    end).
Proof.
  eapply run_conseq; [apply run_Provision_sources|]. intros [pc|e] w' xs _ [Ha Hr]; [|done].
  split; [done|]. destruct Hr as [Hid (before & fetched & cn & sn & certs & o & exported & key & path & Hxs & Hg & Hd & Hc & [])].
  split; [done|]. by exists before, fetched, cn, sn, certs, o, exported, key, path.
Qed.

(** C14: [Provision] refuses a request without a common name or password before
    anything is sent; otherwise it creates, resolves, signs, fetches and
    exports in this order, stopping at the first failure, and hands out a pair
    only after all of them. *)
Theorem Provision_follows_order s ctx req w :
  run (Provision s ctx req) w (λ r w' xs,
    if bool_decide (trim_space (prov_CommonName req) = "" ∨ prov_Password req = "")
    then xs = [] ∧ (r = Err no_common_name ∨ r = Err no_password)
    else provisioning s ctx req (w_now w) (w_now w') r xs).
Proof.
  case_bool_decide as E.
  - unfold Provision. case_bool_decide; [run_step; auto|]. rewrite bool_decide_eq_true_2 by tauto.
    cbv iota. run_step. auto.
  - apply run_Provision; tauto.
Qed.

(** C16: [Provision] delivers whenever it can: with a common name and a
    password, if Key Manager Plus creates the request and reports its id,
    identifies the signed certificate, publishes one for the key that carries
    the names asked for, sooner or later, and exports that key, then
    [Provision] returns the pair, unless the poll timeout passes or the context
    is done first. *)
Theorem Provision_completes s ctx req key w :
  trim_space (prov_CommonName req) ≠ "" → prov_Password req ≠ "" → buildable s →
  run (Provision s ctx req) w (λ r w' xs,
    Forall (serves s req key) xs →
    (∃ pc, r = Ok pc) ∨ w_now w + poll_timeout s < w_now w' + poll_interval s ∨ cancelled ctx (w_now w')).
Proof.
  intros Hcn Hpw Hbuilt. eapply run_conseq; [by apply run_Provision|]. intros r w' xs _ Hp Hs.
  exact (provisioning_served s ctx req key Hbuilt _ _ _ _ Hp Hs).
Qed.
End provision_claims.
