(* ===== verification/KmpSigner.v ===== *)
(** * [internal/signer/kmp.go]: from an issuer and its credentials to a client *)

From S2P Require Import Prelude GoStrings GoFloat GoAny GoHttp Errors GoNet X509 Chain World Client Signer PrivateKey Provision Api.
Local Open Scope go_scope.
Local Open Scope Z_scope.

Definition userAgentName : string := "kmp-issuer".

(** [kmpSigner]: one client shared by the health check and the signer. *)
Record kmpSigner := MkKmpSigner { ks_client : Client; ks_signer : Signer }.

(** issuer-lib's [signer.CertificateDetails], as far as it is read. *)
Record CertificateDetails := MkCertificateDetails {
  det_CSR : string;
  det_Duration : Z;
  det_IsCA : bool
}.

Definition signingOptions (spec : IssuerSpec) : SigningOptions :=
  let sg := Signing spec in
  MkSigningOptions (sig_SignType sg) (sig_ServerName sg) (sig_CAName sg) (sig_TemplateName sg)
    (sig_AgentName sg) (sig_AgentResponseTimeoutSeconds sg) (sig_RootCertificateCommonName sg)
    (sig_RootCertificateSerialNumber sg) (sig_ValidityDays sg) (sig_IsIntermediate sg)
    (sig_Email sg) (sig_CSRLookupOperation sg).

Definition requestTimeout (spec : IssuerSpec) : Z := default 0 (RequestTimeout spec).

Section kmp_signer.
Context `{Unicode, Conversions, Env, PublicKeys, !X509, !PrivateKeys, Pem}.

Definition client_config (spec : IssuerSpec) (secretData : secret_data) (authToken : string) : Config :=
  MkConfig (spec_URL spec) authToken (data_get AuthSecretCABundleKey secretData)
    (spec_InsecureSkipTLSVerify spec) (requestTimeout spec) userAgentName None.

Definition no_auth_token : error :=
  mark ErrInvalidConfig ("the auth Secret has no non-empty " +:+ quote AuthSecretTokenKey +:+ " key").

(** A nil spec is [None]. *)
Definition signerFromIssuerAndSecretData (spec : option IssuerSpec) (secretData : secret_data)
  : res kmpSigner :=
  match spec with
  | None => Err (mark ErrInvalidConfig "no issuer spec")
  | Some spec =>
    let authToken := trim_space (data_get AuthSecretTokenKey secretData) in
    if bool_decide (authToken = "") then Err no_auth_token
    else
      match NewClient (client_config spec secretData authToken) with
      | Err err => Err (mark ErrInvalidConfig (error_text err))
      | Ok client =>
        match NewSigner (Some client) (signingOptions spec) with
        | Err err => Err err
        | Ok inner => Ok (MkKmpSigner client inner)
        end
      end
  end.

(** The methods of [kmpSigner]. *)
Definition kmpSigner_Check (o : kmpSigner) ctx : io (option error) := Ping (ks_client o) ctx.

Definition kmpSigner_Sign (o : kmpSigner) ctx (details : CertificateDetails) : io (res string) :=
  try! bundle := Sign (ks_signer o) ctx (MkRequest (det_CSR details) (det_Duration details) (det_IsCA details)) in
  io_ret (Ok (ChainPEM bundle)).

Definition kmpSigner_Provision (o : kmpSigner) ctx (req : ProvisionRequest)
  : io (res ProvisionedCertificate) := Provision (ks_signer o) ctx req.

(** ** What a built signer is *)

Lemma Validate_invalid o e : Validate o = Some e → IsPermanent e = true.
Proof.
  unfold Validate, requireMSCAFields. intros Hv. repeat case_match; by simplify_eq.
Qed.

(** Every failure to build is a misconfiguration, which is permanent. *)
Lemma signerFromIssuerAndSecretData_Err spec data e :
  signerFromIssuerAndSecretData spec data = Err e → IsPermanent e = true.
Proof.
  unfold signerFromIssuerAndSecretData. destruct spec as [spec|]; [|by intros [= <-]].
  cbv zeta. case_bool_decide; [by intros [= <-]|].
  destruct (NewClient _) as [client|err]; [|by intros [= <-]]. unfold NewSigner.
  destruct (Validate _) as [err|] eqn:E; [|done]. intros [= <-]. by eapply Validate_invalid.
Qed.

(** A built signer has a client whose requests can be built. *)
Lemma signer_http spec data ks :
  signerFromIssuerAndSecretData spec data = Ok ks → unzoned (Host (baseURL (client (ks_signer ks)))) →
  http_url (baseURL (client (ks_signer ks))).
Proof.
  unfold signerFromIssuerAndSecretData. destruct spec as [spec|]; [|done]. cbv zeta. case_bool_decide; [done|].
  destruct (NewClient _) as [c|] eqn:E; [|done]. unfold NewSigner. destruct (Validate _); [done|].
  intros [= <-]. simpl. by eapply NewClient_http.
Qed.

(** What a built signer takes from the issuer and its Secret. *)
Lemma signerFromIssuerAndSecretData_parts spec data ks :
  signerFromIssuerAndSecretData (Some spec) data = Ok ks →
  url_Parse (trim_space (spec_URL spec)) = Some (baseURL (client (ks_signer ks))) ∧
  authToken (client (ks_signer ks)) = trim_space (trim_space (data_get AuthSecretTokenKey data)) ∧
  opts (ks_signer ks) = signingOptions spec.
Proof.
  unfold signerFromIssuerAndSecretData. cbv zeta. case_bool_decide; [done|].
  destruct (NewClient _) as [c|] eqn:E; [|done]. unfold NewSigner. destruct (Validate _); [done|].
  intros [= <-]. simpl. by apply NewClient_Ok in E as (? & _ & _ & ? & _).
Qed.

(** A built signer and its health check use one client. *)
Lemma built_client spec data ks :
  signerFromIssuerAndSecretData spec data = Ok ks → client (ks_signer ks) = ks_client ks.
Proof.
  unfold signerFromIssuerAndSecretData. destruct spec as [spec|]; [|done]. cbv zeta. case_bool_decide; [done|].
  destruct (NewClient _) as [c|]; [|done]. unfold NewSigner. destruct (Validate _); [done|]. by intros [= <-].
Qed.
End kmp_signer.

(** ** Properties *)

Section kmp_signer_claims.
Context `{Unicode, Conversions, Env, PublicKeys, !X509, !PrivateKeys, Pem}.

(** C33: a signer built from an issuer and its Secret talks to the parsed URL,
    over http or https and with a host, authenticates with the Secret's token,
    bounds every call in time, and has all the options its sign type needs; a
    failure to build one is permanent, since only a change to the issuer or the
    Secret can help. *)
Theorem signerFromIssuerAndSecretData_correct spec data :
  match signerFromIssuerAndSecretData (Some spec) data with
  | Ok ks =>
    client (ks_signer ks) = ks_client ks ∧
    url_Parse (trim_space (spec_URL spec)) = Some (baseURL (ks_client ks)) ∧
    (Scheme (baseURL (ks_client ks)) = "http" ∨ Scheme (baseURL (ks_client ks)) = "https") ∧
    Host (baseURL (ks_client ks)) ≠ "" ∧
    authToken (ks_client ks) = trim_space (trim_space (data_get AuthSecretTokenKey data)) ∧
    authToken (ks_client ks) ≠ "" ∧ 0 < Timeout (httpClient (ks_client ks)) ∧
    opts (ks_signer ks) = signingOptions spec ∧ complete_options (signingOptions spec)
  | Err e => IsPermanent e = true
  end.
Proof.
  destruct (signerFromIssuerAndSecretData (Some spec) data) as [ks|e] eqn:E;
    [|by eapply signerFromIssuerAndSecretData_Err].
  unfold signerFromIssuerAndSecretData in E. cbv zeta in E. case_bool_decide; [done|].
  destruct (NewClient _) as [c|] eqn:Ec; [|done]. unfold NewSigner in E.
  destruct (Validate _) eqn:Ev; [done|]. injection E as <-. simpl.
  apply NewClient_Ok in Ec as (? & ? & ? & ? & ? & ? & _). split_and!; try done.
  by apply Validate_None.
Qed.
End kmp_signer_claims.
