(* ===== verification/Kubernetes.v ===== *)
(** * The Kubernetes API and cert-manager's helpers

    Third-party code the controllers call: the client of the API server, and
    two functions of cert-manager's [pki] package.  They are parameters. *)

From S2P Require Import Prelude GoStrings GoAny GoHttp Errors GoNet X509 Api World.
Local Open Scope go_scope.
Local Open Scope Z_scope.

(** What the program distinguishes of an API error. *)
Inductive api_error :=
| NotFound (msg : string)
| ApiError (msg : string).

Definition api_error_text (e : api_error) : string :=
  match e with NotFound msg | ApiError msg => msg end.

(** A call: its answer, how long it took, and the outside after it. *)
Notation api_call A := (Z → outside → A * N * outside).

(** What the read of a Secret says of its existence, unless it failed. *)
Definition present (got : result api_error Secret) : option (option Secret) :=
  match got with
  | Ok secret => Some (Some secret)
  | Err (NotFound _) => Some None
  | Err (ApiError _) => None
  end.

(** The Secret a callback is given when there is none. *)
Definition blank_Secret : Secret := MkSecret "" [] [].

(** The answer of [controllerutil.CreateOrUpdate]: the Secret it found and the one
    it sent to the server, if it sent one, and its error. *)
Notation write_answer := (option (option Secret * Secret) * option string)%type.

(** [CreateOrUpdate] as documented: the object is read, the callback is called on
    it, or on a blank one if there is none, and what the callback makes of it is
    created, or updated if the callback changed it. *)
Definition creates_or_updates (got : result api_error Secret) (mutate : Secret → result string Secret)
    (answer : write_answer) : Prop :=
  match present got with
  | None => answer.1 = None ∧ is_Some answer.2
  | Some found =>
    match mutate (default blank_Secret found) with
    | Err _ => answer.1 = None ∧ is_Some answer.2
    | Ok secret => answer.1 = Some (found, secret) ∨ answer = (None, None) ∧ found = Some secret
    end
  end.

(** [SetControllerReference] as documented: the resource becomes the controller,
    unless another object is; all else is left as it is. *)
Record controller_set (c : KMPCertificate) (s s' : Secret) : Prop := {
  set_kept_type : sec_Type s' = sec_Type s;
  set_kept_data : sec_Data s' = sec_Data s;
  set_free : ¬ controlled_by_other c s;
  set_controlled : controlled_by c s';
  set_kept_owners : ∀ o, ¬ refers_to c o → o ∈ sec_Owners s' ↔ o ∈ sec_Owners s
}.

Class Kubernetes `{Env, PublicKeys} := {
  get_Secret : context → NamespacedName → api_call (result api_error Secret);
  get_KMPIssuer : context → NamespacedName → api_call (result api_error KMPIssuer);
  get_KMPClusterIssuer : context → string → api_call (result api_error KMPClusterIssuer);
  get_KMPCertificate : context → NamespacedName → api_call (result api_error KMPCertificate);
  update_Status : context → KMPCertificate → api_call (option string);
  (** [controllerutil.CreateOrUpdate] with a callback *)
  create_or_update : context → NamespacedName → (Secret → result string Secret) → api_call write_answer;
  (** [controllerutil.SetControllerReference] *)
  SetControllerReference : KMPCertificate → Secret → result string Secret;
  (** [pki.ParseSingleCertificateChainPEM]: the chain and the CA *)
  ParseSingleCertificateChainPEM : string → result string (string * string);
  (** [pki.DecodeX509CertificateChainBytes] *)
  DecodeX509CertificateChainBytes : string → result string (list certificate);
  (** [time.Time.Format(time.RFC3339)] *)
  format_RFC3339 : Z → string;
  (** [rand.Read] of so many bytes, or its error *)
  rand_Read_at : nat → nat → result string string;
  create_or_update_spec : ∀ ctx name mutate t out,
    creates_or_updates (get_Secret ctx name t out).1.1 mutate (create_or_update ctx name mutate t out).1.1;
  SetControllerReference_spec : ∀ c s s', SetControllerReference c s = Ok s' → controller_set c s s';
  (** [rand.Read] fills its buffer *)
  rand_Read_length : ∀ t n b, rand_Read_at t n = Ok b → String.length b = n
}.

Section kubernetes.
Context `{Kubernetes}.

(** Perform a call. *)
Definition api {A} (call : api_call A) : io A := λ w,
  let '(a, elapsed, out) := call (w_now w) (w_outside w) in
  (a, World (w_now w + Z.of_N elapsed) out (w_tick w) (w_log w)).

(** Note something done. *)
Definition note (e : event) : io () := λ w,
  (tt, World (w_now w) (w_outside w) (w_tick w) (w_log w ++ [e])).

Definition write_Status ctx (c : KMPCertificate) : io (option string) :=
  let! failure := api (update_Status ctx c) in
  let! _ := note (StatusWritten c failure) in
  io_ret failure.

Definition CreateOrUpdate ctx (name : NamespacedName) (mutate : Secret → result string Secret)
  : io (option string) :=
  let! (stored, failure) := api (create_or_update ctx name mutate) in
  match stored with
  | Some (found, secret) => let! _ := note (SecretWritten name found secret failure) in io_ret failure
  | None => io_ret failure
  end.

(** What a call would answer now. *)
Definition answer {A} (call : api_call A) (w : world) : A := (call (w_now w) (w_outside w)).1.1.

(** What the API server answers to a call at some time. *)
Definition answered {A} (call : api_call A) (a : A) : Prop := ∃ t out, (call t out).1.1 = a.

(** The world after a call. *)
Definition called {A} (call : api_call A) (w : world) : world := (api call w).2.

Lemma run_api_known {A} (call : api_call A) w (Q : A → world → list event → Prop) :
  (w_now w ≤ w_now (called call w) → Q (answer call w) (called call w) []) → run (api call) w Q.
Proof.
  unfold run, called, api, answer. destruct (call _ _) as [[a d] out]. simpl. intros HQ. exists [].
  rewrite app_nil_r. split_and!; [done|lia|]. apply HQ. lia.
Qed.

Lemma run_api_answer {A} (call : api_call A) w (Q : A → world → list event → Prop) :
  (∀ w', w_now w ≤ w_now w' → Q (answer call w) w' []) → run (api call) w Q.
Proof. intros HQ. apply run_api_known, HQ. Qed.

Lemma run_api {A} (call : api_call A) w (Q : A → world → list event → Prop) :
  (∀ a w', w_now w ≤ w_now w' → Q a w' []) → run (api call) w Q.
Proof. intros HQ. apply run_api_answer. intros w'. apply HQ. Qed.

Lemma run_note e w (Q : () → world → list event → Prop) :
  (∀ w', w_now w' = w_now w → Q tt w' [e]) → run (note e) w Q.
Proof. intros HQ. exists [e]. simpl. split_and!; [done|lia|by apply HQ]. Qed.

Lemma run_write_Status ctx c w (Q : option string → world → list event → Prop) :
  (∀ failure w', Q failure w' [StatusWritten c failure]) → run (write_Status ctx c) w Q.
Proof.
  intros HQ. unfold write_Status. apply run_bind, run_api. intros failure w1 _.
  apply run_bind, run_note. intros w2 _. apply run_ret. simpl. apply HQ.
Qed.

(** What a Secret holds was written, in the place of what was found. *)
Definition fills ctx name (mutate : Secret → result string Secret) w (found : option Secret) (secret : Secret) : Prop :=
  present (answer (get_Secret ctx name) w) = Some found ∧ mutate (default blank_Secret found) = Ok secret.

(** At most one write, of what [mutate] makes of the Secret as it is; it succeeds
    without one only if that is there already. *)
Lemma run_CreateOrUpdate ctx name mutate w (Q : option string → world → list event → Prop) :
  (∀ failure w', (failure = None → ∃ secret, fills ctx name mutate w (Some secret) secret) → Q failure w' []) →
  (∀ found secret failure w', fills ctx name mutate w found secret →
     Q failure w' [SecretWritten name found secret failure]) →
  run (CreateOrUpdate ctx name mutate) w Q.
Proof.
  intros Hnone Hwrite. unfold CreateOrUpdate. apply run_bind. unfold run at 1, api.
  pose proof (create_or_update_spec ctx name mutate (w_now w) (w_outside w)) as Hspec.
  unfold creates_or_updates, fills, answer in *.
  destruct (create_or_update ctx name mutate (w_now w) (w_outside w)) as [[[stored failure] d] out].
  simpl in *. exists []. rewrite app_nil_r. split_and!; [done|lia|].
  assert (Hrefused : stored = None ∧ is_Some failure → run (match stored with
    | Some (found, secret) => let! _ := note (SecretWritten name found secret failure) in io_ret failure
    | None => io_ret failure end) (World (w_now w + Z.of_N d) out (w_tick w) (w_log w)) (λ b w'' reqs', Q b w'' reqs')).
  { intros [-> [msg ->]]. by apply run_ret, Hnone. }
  destruct (present _) as [found|]; [|by apply Hrefused].
  destruct (mutate _) as [secret|msg] eqn:Em; [|by apply Hrefused].
  destruct Hspec as [->|([= -> ->] & ->)].
  - apply run_bind, run_note. intros w' _. apply run_ret. simpl. by apply Hwrite.
  - apply run_ret, Hnone. intros _. by exists secret.
Qed.

(** If the Secret can be read and [mutate] succeeds on it, it is written unless it
    is as it should be. *)
Lemma run_CreateOrUpdate_done ctx name mutate found w (Q : option string → world → list event → Prop) :
  present (answer (get_Secret ctx name) w) = Some found ∧ (∃ secret, mutate (default blank_Secret found) = Ok secret) →
  (∀ secret w', answer (get_Secret ctx name) w = Ok secret → mutate secret = Ok secret → Q None w' []) →
  (∀ secret failure w', mutate (default blank_Secret found) = Ok secret → Q failure w' [SecretWritten name found secret failure]) →
  run (CreateOrUpdate ctx name mutate) w Q.
Proof.
  intros [Hfound [secret Hmutate]] Hnone Hwrite. unfold CreateOrUpdate. apply run_bind. unfold run at 1, api.
  pose proof (create_or_update_spec ctx name mutate (w_now w) (w_outside w)) as Hspec.
  unfold creates_or_updates, answer in *. rewrite Hfound, Hmutate in Hspec.
  destruct (create_or_update ctx name mutate (w_now w) (w_outside w)) as [[[stored failure] d] out].
  simpl in *. exists []. rewrite app_nil_r. split_and!; [done|lia|]. destruct Hspec as [->|([= -> ->] & ->)].
  - apply run_bind, run_note. intros w' _. apply run_ret. simpl. by apply Hwrite.
  - apply run_ret. apply (Hnone secret); [|done]. unfold present in Hfound. repeat case_match; by simplify_eq.
Qed.
End kubernetes.
