(* ===== verification/Issuer.v ===== *)
(** * [internal/controllers/signer.go]: the callbacks issuer-lib drives *)

From S2P Require Import Prelude GoStrings GoFloat GoAny GoHttp Errors GoNet X509 Chain World Client Signer PrivateKey Provision Api KmpSigner Kubernetes.
Local Open Scope go_scope.
Local Open Scope Z_scope.

(** [issuerapi.Issuer]: the two types of this group, or another one. *)
Inductive issuer_object :=
| IsKMPIssuer (t : KMPIssuer)
| IsKMPClusterIssuer (t : KMPClusterIssuer)
| IsOther (description : string).

(** [signer.PEMBundle] *)
Record PEMBundle := MkPEMBundle { bundle_ChainPEM : string; bundle_CAPEM : string }.

Section issuer.
Context `{Unicode, Env, PublicKeys, !Kubernetes}.

(** The interfaces [HealthChecker] and [Signer], and their builders. *)
Definition HealthChecker : Type := context → io (option error).
Definition CertificateSigner : Type := context → CertificateDetails → io (res string).

Record Issuer := MkIssuer {
  HealthCheckerBuilder : IssuerSpec → secret_data → res HealthChecker;
  SignerBuilder : IssuerSpec → secret_data → res CertificateSigner;
  ClusterResourceNamespace : string
}.

Definition permanentIfUnrecoverable (err cause : error) : error :=
  if IsPermanent cause then PermanentErr err else err.

(** [fmt.Errorf("%w: %v", sentinel, err)]: only the text of [err] is kept. *)
Definition report_as (s : sentinel) (err : error) : error := mark s (error_text err).

Definition getIssuerDetails (o : Issuer) (issuerObject : issuer_object) : res (IssuerSpec * string) :=
  match issuerObject with
  | IsKMPIssuer t => Ok (iss_Spec t, Namespace (iss_Name t))
  | IsKMPClusterIssuer t => Ok (ciss_Spec t, ClusterResourceNamespace o)
  | IsOther description => Err (PermanentErr (New ("unexpected issuer type: " +:+ description)))
  end.

(** [fmt.Errorf("%w, secret name: %s, reason: %v", errGetAuthSecret, ...)] *)
Definition auth_secret_error (name : NamespacedName) (e : api_error) : error :=
  Wrapped (sentinel_text errGetAuthSecret +:+ ", secret name: " +:+ name_text name
           +:+ ", reason: " +:+ api_error_text e) (Sentinel errGetAuthSecret).

Definition getSecretData (o : Issuer) ctx (issuerSpec : IssuerSpec) (namespace : string)
  : io (res secret_data) :=
  let secretName := MkName namespace (AuthSecretName issuerSpec) in
  let! r := api (get_Secret ctx secretName) in
  match r with
  | Err e => io_ret (Err (auth_secret_error secretName e))
  | Ok secret =>
    match HealthCheckerBuilder o issuerSpec (sec_Data secret) with
    | Err err => io_ret (Err (permanentIfUnrecoverable (report_as errHealthCheckerBuilder err) err))
    | Ok checker =>
      let! err := checker ctx in
      match err with
      | Some err => io_ret (Err (permanentIfUnrecoverable (report_as errHealthCheckerCheck err) err))
      | None => io_ret (Ok (sec_Data secret))
      end
    end
  end.

Definition Issuer_Check (o : Issuer) ctx (issuerObject : issuer_object) : io (option error) :=
  match getIssuerDetails o issuerObject with
  | Err err => io_ret (Some err)
  | Ok (issuerSpec, namespace) =>
    let! r := getSecretData o ctx issuerSpec namespace in
    io_ret (match r with Ok _ => None | Err err => Some err end)
  end.

(** [cr] is what [GetCertificateDetails] of the request returns. *)
Definition Issuer_Sign (o : Issuer) ctx (cr : res CertificateDetails) (issuerObject : issuer_object)
  : io (res PEMBundle) :=
  match getIssuerDetails o issuerObject with
  | Err err => io_ret (Err (IssuerErr err))
  | Ok (issuerSpec, namespace) =>
    try! secretData := getSecretData o ctx issuerSpec namespace else IssuerErr in
    match cr with
    | Err err => io_ret (Err err)
    | Ok certDetails =>
      match SignerBuilder o issuerSpec secretData with
      | Err err => io_ret (Err (IssuerErr (report_as errSignerBuilder err)))
      | Ok signerObj =>
        try! signed := signerObj ctx certDetails
          else (λ err, permanentIfUnrecoverable (report_as errSignerSign err) err) in
        match ParseSingleCertificateChainPEM signed with
        | Err msg => io_ret (Err (New msg))
        | Ok (chainPEM, caPEM) => io_ret (Ok (MkPEMBundle chainPEM caPEM))
        end
      end
    end
  end.

(** ** Registration *)

Definition maxRetryDuration : Z := 5 * Minute.

(** What of issuer-lib's [CombinedController] is set. *)
Record CombinedController := MkCombinedController {
  IssuerTypes : list kind;
  ClusterIssuerTypes : list kind;
  FieldOwner : string;
  MaxRetryDuration : Z;
  ctl_Sign : context → res CertificateDetails → issuer_object → io (res PEMBundle);
  ctl_Check : context → issuer_object → io (option error);
  EventRecorder : string
}.

(** What [SetupWithManager] sets up. *)
Definition Issuer_SetupWithManager (s : Issuer) : CombinedController :=
  MkCombinedController [KMPIssuerKind] [KMPClusterIssuerKind] "kmpissuer.cert-manager.io" maxRetryDuration
    (Issuer_Sign s) (Issuer_Check s) "kmpissuer.cert-manager.io".

(** ** issuer-lib's view of an error *)

(** [errors.As] with a [PermanentError]: issuer-lib stops retrying. *)
Fixpoint is_permanent_error (e : error) : bool :=
  match e with
  | New _ | Sentinel _ => false
  | Wrapped _ c => is_permanent_error c
  | Joined e1 e2 => is_permanent_error e1 || is_permanent_error e2
  | KmpErr k => match Underlying k with Some c => is_permanent_error c | None => false end
  | PermanentErr _ => true
  | IssuerErr c => is_permanent_error c
  end.

(** [errors.As] with an [IssuerError]: the issuer is marked failed too. *)
Fixpoint is_issuer_error (e : error) : bool :=
  match e with
  | New _ | Sentinel _ => false
  | Wrapped _ c => is_issuer_error c
  | Joined e1 e2 => is_issuer_error e1 || is_issuer_error e2
  | KmpErr k => match Underlying k with Some c => is_issuer_error c | None => false end
  | PermanentErr c => is_issuer_error c
  | IssuerErr _ => true
  end.

Lemma permanentIfUnrecoverable_spec s err :
  is_permanent_error (permanentIfUnrecoverable (report_as s err) err) = IsPermanent err ∧
  is_issuer_error (permanentIfUnrecoverable (report_as s err) err) = false ∧
  errors_is (permanentIfUnrecoverable (report_as s err) err) s = true.
Proof.
  unfold permanentIfUnrecoverable, report_as, mark.
  destruct (IsPermanent err); simpl; split_and!; try done; by apply bool_decide_eq_true.
Qed.
End issuer.

(** ** Runs *)

Section issuer_runs.
Context `{Unicode, Env, PublicKeys, !Kubernetes}.

(** An interface whose calls do nothing but send requests. *)
Definition only_sends {A} (m : io A) : Prop := ∀ w, run m w (λ _ _ xs, Forall is_sent xs).

Lemma only_sends_ret {A} (a : A) : only_sends (io_ret a).
Proof. intros w. by run_step. Qed.

Lemma only_sends_bind {A B} (m : io A) (k : A → io B) : only_sends m → (∀ a, only_sends (k a)) → only_sends (io_bind m k).
Proof.
  intros Hm Hk w. apply run_bind. eapply run_conseq; [apply Hm|]. intros a w1 xs _ Hxs.
  eapply run_conseq; [apply Hk|]. intros b w2 ys _ Hys. by apply Forall_app.
Qed.

Lemma only_sends_api {A} (call : api_call A) : only_sends (api call).
Proof. intros w. by apply run_api. Qed.

(** Reading the credentials sends nothing but the health check. *)
Lemma getSecretData_sends o ctx spec namespace :
  (∀ data checker, HealthCheckerBuilder o spec data = Ok checker → only_sends (checker ctx)) →
  only_sends (getSecretData o ctx spec namespace).
Proof.
  intros Hchecker. unfold getSecretData. apply only_sends_bind; [apply only_sends_api|].
  intros [secret|e]; [|apply only_sends_ret].
  destruct (HealthCheckerBuilder o spec (sec_Data secret)) as [checker|err] eqn:Ec; [|apply only_sends_ret].
  apply only_sends_bind; [by eapply Hchecker|]. intros [err|]; apply only_sends_ret.
Qed.
End issuer_runs.
