(* ===== verification/Reconciler.v ===== *)
(** * [internal/controllers/kmpcertificate_controller.go]: the KMPCertificate controller *)

From S2P Require Import Prelude GoStrings GoFloat GoAny GoHttp Errors GoNet Base64 X509 Chain Verify World Client Signer PrivateKey Provision Api KmpSigner Kubernetes Issuer.
Local Open Scope go_scope.
Local Open Scope Z_scope.

Definition defaultKeyStorePasswordKey : string := "password".
Definition renewalFraction : Z := 3.
Definition issuanceFailureRequeue : Z := Minute.
Definition cmMetaTLSCAKey : string := "ca.crt".

(** Keys and type of a [kubernetes.io/tls] Secret. *)
Definition TLSCertKey : string := "tls.crt".
Definition TLSPrivateKeyKey : string := "tls.key".
Definition SecretTypeTLS : string := "kubernetes.io/tls".

(** [ctrl.Result] with the error of [Reconcile]. *)
Record reconcile_result := MkResult { RequeueAfter : Z; reconcile_err : option error }.

(** [t.Sub(u)] saturates at the range of a [time.Duration]. *)
Definition time_sub (t u : Z) : Z := Z.max min_int64 (Z.min max_int64 (t - u)).

Section reconciler.
Context `{Unicode, Env, PublicKeys, !X509, !PrivateKeys, !Pem, !Kubernetes}.

(** The interface [Provisioner] and its builder. *)
Definition Provisioner : Type := context → ProvisionRequest → io (res ProvisionedCertificate).

Record KMPCertificateReconciler := MkReconciler {
  rec_ClusterResourceNamespace : string;
  ProvisionerBuilder : IssuerSpec → secret_data → res Provisioner;
  Clock : option (io Z)
}.

Implicit Types (r : KMPCertificateReconciler) (ctx : context) (certificate : KMPCertificate).

Definition rec_now r : io Z := match Clock r with Some clock => clock | None => time_now end.

(** ** Decisions *)

Definition containsFold (values : list string) (want : string) : bool :=
  existsb (λ value, equal_fold value want) values.

(** The message [matchesSpec] returns for one name, if it is not covered. *)
Definition dns_mismatch (leaf : certificate) (name : string) : option string :=
  if containsFold (DNSNames leaf) name then None
  else Some ("the certificate does not cover DNS name " +:+ quote name).

Definition ip_mismatch (leaf : certificate) (address : string) : option string :=
  match ParseIP address with
  | None => Some (quote address +:+ " is not an IP address")
  | Some ip =>
    if covers_ip leaf ip then None
    else Some ("the certificate does not cover IP address " +:+ quote address)
  end.

Definition subject_mismatch (values : list string) (want what : string) : option string :=
  if bool_decide (want ≠ "") && negb (containsFold values want)
  then Some ("the certificate is not for " +:+ what +:+ " " +:+ quote want) else None.

(** The first reason of a list of checks. *)
Definition first_of (checks : list (option string)) : string := default "" (find_first id checks).

(** The checks of [matchesSpec], in order. *)
Definition spec_checks (leaf : certificate) (spec : KMPCertificateSpec) : list (option string) :=
  (if equal_fold (CommonName (Subject leaf)) (cert_CommonName spec) then None
   else Some ("the certificate is for " +:+ quote (CommonName (Subject leaf)) +:+ ", not "
              +:+ quote (cert_CommonName spec)))
  :: (dns_mismatch leaf <$> cert_DNSNames spec)
  ++ (ip_mismatch leaf <$> cert_IPAddresses spec)
  ++ [subject_mismatch (Organization (Subject leaf)) (sub_Organization (cert_Subject spec)) "organization";
      subject_mismatch (OrganizationalUnit (Subject leaf))
        (sub_OrganizationalUnit (cert_Subject spec)) "organizational unit"].

Definition matchesSpec (leaf : certificate) (spec : KMPCertificateSpec) : string :=
  first_of (spec_checks leaf spec).

Definition renewalTime (leaf : certificate) (renewBefore : option Z) : Z :=
  let before := Z.quot (time_sub (NotAfter leaf) (NotBefore leaf)) renewalFraction in
  let before := match renewBefore with Some d => if 0 <? d then d else before | None => before end in
  NotAfter leaf - before.

(** How long to wait, given the time. *)
Definition until (now : Z) (at_ : option Z) : Z :=
  match at_ with
  | None => issuanceFailureRequeue
  | Some at_ =>
    let wait := time_sub at_ now in
    if wait <? Second then Second else wait
  end.

(** The time [until] compares with, if it looks at the clock. *)
Definition renewal_clock r (renewAt : option Z) : io Z :=
  match renewAt with Some _ => rec_now r | None => io_ret 0 end.

(** [fmt.Errorf] and the errors of [pki] by their text. *)
Definition leafOf (chainPEM : string) : result string certificate :=
  match DecodeX509CertificateChainBytes chainPEM with
  | Err err => Err err
  | Ok [] => Err "no certificate in the chain"
  | Ok (leaf :: _) => Ok leaf
  end.

(** The second and third result of [issuanceNeeded] with its reason: [inl] is
    a reason to issue, [inr] the time the current certificate is renewed. *)
Definition secret_state (name : NamespacedName) (spec : KMPCertificateSpec) (secret : Secret)
  : string + certificate :=
  let certPEM := data_get TLSCertKey (sec_Data secret) in
  let keyPEM := data_get TLSPrivateKeyKey (sec_Data secret) in
  if bool_decide (certPEM = "") || bool_decide (keyPEM = "") then
    inl ("secret " +:+ name_text name +:+ " holds no certificate and key")
  else
    match leafOf certPEM with
    | Err msg => inl ("the certificate in secret " +:+ name_text name +:+ " could not be read: " +:+ msg)
    | Ok leaf =>
      let mismatch := matchesSpec leaf spec in
      if bool_decide (mismatch ≠ "") then inl mismatch else inr leaf
    end.

Definition issuanceNeeded r ctx certificate : io (string * option Z * bool) :=
  let spec := cert_Spec certificate in
  let name := MkName (Namespace (cert_Name certificate)) (SecretName spec) in
  let! secret := api (get_Secret ctx name) in
  match secret with
  | Err (NotFound _) => io_ret ("secret " +:+ name_text name +:+ " does not exist", None, true)
  | Err (ApiError msg) =>
    io_ret ("secret " +:+ name_text name +:+ " could not be read: " +:+ msg, None, true)
  | Ok secret =>
    match secret_state name spec secret with
    | inl reason => io_ret (reason, None, true)
    | inr leaf =>
      let renewAt := renewalTime leaf (RenewBefore spec) in
      let! now := rec_now r in
      if renewAt <=? now then
        io_ret ("the certificate is due for renewal at " +:+ format_RFC3339 renewAt, Some renewAt, true)
      else io_ret ("", Some renewAt, false)
    end
  end.

(** ** Issuing *)

Definition get_error (what : string) (name : NamespacedName) (e : api_error) : error :=
  wrap ("getting " +:+ what +:+ " " +:+ name_text name) (New (api_error_text e)).

Definition resolveIssuer r ctx certificate : io (res (IssuerSpec * string)) :=
  let ref := IssuerRef (cert_Spec certificate) in
  let kind := if nonempty (ref_Kind ref) then ref_Kind ref else "KMPIssuer" in
  if bool_decide (kind = "KMPIssuer") then
    let name := MkName (Namespace (cert_Name certificate)) (ref_Name ref) in
    let! issuer := api (get_KMPIssuer ctx name) in
    io_ret (match issuer with
            | Err e => Err (get_error "KMPIssuer" name e)
            | Ok issuer => Ok (iss_Spec issuer, Namespace (iss_Name issuer))
            end)
  else if bool_decide (kind = "KMPClusterIssuer") then
    let! issuer := api (get_KMPClusterIssuer ctx (ref_Name ref)) in
    io_ret (match issuer with
            | Err e => Err (get_error "KMPClusterIssuer" (MkName "" (ref_Name ref)) e)
            | Ok issuer => Ok (ciss_Spec issuer, rec_ClusterResourceNamespace r)
            end)
  else io_ret (Err (mark ErrInvalidConfig ("unknown issuer kind " +:+ quote kind))).

(** [base64.RawURLEncoding.EncodeToString] of the bytes of a string. *)
Definition generatePassword : io (res string) :=
  let! buf := next (λ t, rand_Read_at t 24) in
  io_ret (match buf with
          | Err msg => Err (wrap "generating a key store password" (New msg))
          | Ok buf => Ok (b64_raw_url_encode buf)
          end).

(** The password, and whether it was generated. *)
Definition keyStorePassword ctx certificate : io (res (string * bool)) :=
  match KeyStorePasswordSecretRef (cert_Spec certificate) with
  | None =>
    try! password := generatePassword in
    io_ret (Ok (password, true))
  | Some ref =>
    let key := if nonempty (sel_Key ref) then sel_Key ref else defaultKeyStorePasswordKey in
    let name := MkName (Namespace (cert_Name certificate)) (sel_Name ref) in
    let! secret := api (get_Secret ctx name) in
    match secret with
    | Err e =>
      io_ret (Err (wrap ("reading the key store password from secret " +:+ name_text name)
                     (New (api_error_text e))))
    | Ok secret =>
      let password := trim_space (data_get key (sec_Data secret)) in
      if bool_decide (password = "") then
        io_ret (Err (mark ErrInvalidConfig
          ("key " +:+ quote key +:+ " of secret " +:+ name_text name +:+ " is empty")))
      else io_ret (Ok (password, false))
    end
  end.

Definition provisionRequest certificate (password : string) : ProvisionRequest :=
  let spec := cert_Spec certificate in
  let subject := cert_Subject spec in
  let key := cert_PrivateKey spec in
  MkProvisionRequest (cert_CommonName spec) (cert_DNSNames spec ++ cert_IPAddresses spec)
    (sub_Organization subject) (sub_OrganizationalUnit subject) (sub_Locality subject)
    (sub_Province subject) (sub_Country subject) (pk_Algorithm key) (default 0 (pk_Size key))
    (pk_SignatureAlgorithm key) (pk_StoreType key) (cert_ValidityType spec) (cert_ValidityDays spec)
    password "".

(** The data [writeSecret] puts into a Secret. *)
Definition secret_content (chainPEM caPEM keyPEM password : string) (generated : bool)
    (data : secret_data) : secret_data :=
  let data := map_set TLSCertKey chainPEM data in
  let data := map_set TLSPrivateKeyKey keyPEM data in
  let data := if nonempty caPEM then map_set cmMetaTLSCAKey caPEM data else data in
  if generated then map_set KeyStorePasswordSecretKey password data else data.

(** The callback of [writeSecret]. *)
Definition fill_secret certificate (chainPEM caPEM keyPEM password : string) (generated : bool)
    (secret : Secret) : result string Secret :=
  SetControllerReference certificate
    (MkSecret SecretTypeTLS (secret_content chainPEM caPEM keyPEM password generated (sec_Data secret))
       (sec_Owners secret)).

Definition secret_name certificate : NamespacedName :=
  MkName (Namespace (cert_Name certificate)) (SecretName (cert_Spec certificate)).

Definition writeSecret ctx certificate (chainPEM caPEM keyPEM password : string) (generated : bool)
  : io (option error) :=
  let! failure := CreateOrUpdate ctx (secret_name certificate)
                    (fill_secret certificate chainPEM caPEM keyPEM password generated) in
  io_ret (match failure with
          | Some msg => Some (wrap ("writing secret " +:+ name_text (secret_name certificate)) (New msg))
          | None => None
          end).

(** The status after an issuance. *)
Definition issued_status certificate (provisioned : ProvisionedCertificate) : KMPCertificateStatus :=
  let leaf := Leaf (pc_Bundle provisioned) in
  MkKMPCertificateStatus (Conditions (cert_Status certificate)) (pc_SerialNumber provisioned)
    (pc_CSRID provisioned) (Some (NotBefore leaf)) (Some (NotAfter leaf))
    (Some (renewalTime leaf (RenewBefore (cert_Spec certificate)))).

(** [issue] up to its last assignments. *)
Definition issue_pair r ctx certificate : io (res ProvisionedCertificate) :=
  try! (issuerSpec, issuerNamespace) := resolveIssuer r ctx certificate in
  let authName := MkName issuerNamespace (AuthSecretName issuerSpec) in
  let! authSecret := api (get_Secret ctx authName) in
  match authSecret with
  | Err e => io_ret (Err (auth_secret_error authName e))
  | Ok authSecret =>
    try! (password, generated) := keyStorePassword ctx certificate in
    match ProvisionerBuilder r issuerSpec (sec_Data authSecret) with
    | Err err => io_ret (Err (report_as errSignerBuilder err))
    | Ok provisioner =>
      try! provisioned := provisioner ctx (provisionRequest certificate password) in
      match ParseSingleCertificateChainPEM (ChainPEM (pc_Bundle provisioned)) with
      | Err msg => io_ret (Err (mark ErrUnusableResponse ("splitting the certificate chain: " +:+ msg)))
      | Ok (chainPEM, caPEM) =>
        let! failure := writeSecret ctx certificate chainPEM caPEM (pc_PrivateKeyPEM provisioned)
                          password generated in
        match failure with
        | Some err => io_ret (Err err)
        | None => io_ret (Ok provisioned)
        end
      end
    end
  end.

Definition issue r ctx certificate : io (res KMPCertificate) :=
  try! provisioned := issue_pair r ctx certificate in
  io_ret (Ok (with_status certificate (issued_status certificate provisioned))).

(** ** Conditions *)

(** The body of the loop of [setCondition] for a condition of the type. *)
Definition refresh_condition (c existing : Condition) : Condition :=
  if bool_decide (cond_Status existing = cond_Status c)
     && bool_decide (cond_Reason existing = cond_Reason c)
     && bool_decide (cond_Message existing = cond_Message c)
     && bool_decide (cond_ObservedGeneration existing = cond_ObservedGeneration c)
  then existing
  else
    MkCondition (cond_Type existing) (cond_Status c) (cond_Reason c) (cond_Message c)
      (cond_ObservedGeneration c)
      (if bool_decide (cond_Status existing = cond_Status c)
       then cond_LastTransitionTime existing else cond_LastTransitionTime c).

Fixpoint update_condition (c : Condition) (conditions : list Condition) : option (list Condition) :=
  match conditions with
  | [] => None
  | existing :: rest =>
    if bool_decide (cond_Type existing ≠ cond_Type c) then
      (λ rest, existing :: rest) <$> update_condition c rest
    else Some (refresh_condition c existing :: rest)
  end.

Definition setCondition (now : Z) (conditions : list Condition) (generation : Z)
    (conditionType status reason message : string) : list Condition :=
  let c := MkCondition conditionType status reason message generation now in
  default (conditions ++ [c]) (update_condition c conditions).

Definition ready_status (now generation : Z) (status reason message : string)
    (st : KMPCertificateStatus) : KMPCertificateStatus :=
  MkKMPCertificateStatus
    (setCondition now (Conditions st) generation KMPCertificateConditionReady status reason message)
    (st_SerialNumber st) (st_CSRID st) (st_NotBefore st) (st_NotAfter st) (st_RenewalTime st).

Definition set_ready certificate (status reason message : string) : io KMPCertificate :=
  let! now := time_now in
  io_ret (with_status certificate
    (ready_status now (cert_Generation certificate) status reason message (cert_Status certificate))).

(** ** Reconcile *)

(** From the log line on: a certificate is requested, and the outcome becomes
    the Ready condition and a Kubernetes event. *)
Definition request_certificate r ctx certificate : io (reconcile_result * KMPCertificate) :=
  let! issued := issue r ctx certificate in
  match issued with
  | Err issueErr =>
    let! certificate := set_ready certificate "False" "Failed" (error_text issueErr) in
    let! _ := note (Recorded "Warning" "Failed" (error_text issueErr)) in
    if IsPermanent issueErr then io_ret (MkResult 0 None, certificate)
    else io_ret (MkResult issuanceFailureRequeue (Some issueErr), certificate)
  | Ok certificate =>
    let! certificate := set_ready certificate "True" "Issued" "Key Manager Plus issued the certificate" in
    let! _ := note (Recorded "Normal" "Issued" "Key Manager Plus issued the certificate") in
    let renewAt := st_RenewalTime (cert_Status certificate) in
    let! now := renewal_clock r renewAt in
    io_ret (MkResult (until now renewAt) None, certificate)
  end.

(** The body after the deferred function is installed: its result and the
    certificate as it left it. *)
Definition reconcile_body r ctx certificate : io (reconcile_result * KMPCertificate) :=
  let! (reason, renewAt, needed) := issuanceNeeded r ctx certificate in
  if negb needed then
    let! certificate := set_ready certificate "True" "Issued" "The Secret holds a current certificate" in
    let! now := renewal_clock r renewAt in
    io_ret (MkResult (until now renewAt) None, certificate)
  else request_certificate r ctx certificate.

Definition Reconcile r ctx (name : NamespacedName) : io reconcile_result :=
  let! got := api (get_KMPCertificate ctx name) in
  match got with
  | Err (NotFound _) => io_ret (MkResult 0 None)
  | Err (ApiError msg) => io_ret (MkResult 0 (Some (New msg)))
  | Ok certificate =>
    if bool_decide (cert_DeletionTimestamp certificate ≠ None) then io_ret (MkResult 0 None)
    else
      let before := cert_Status certificate in
      let! (result, certificate) := reconcile_body r ctx certificate in
      if bool_decide (before = cert_Status certificate) then io_ret result
      else
        let! failure := write_Status ctx certificate in
        match failure with
        | None => io_ret result
        | Some msg =>
          io_ret (MkResult 0 (Some (wrap ("updating the status of " +:+ name_text name) (New msg))))
        end
  end.

(** ** Registration *)

(** What of controller-runtime's builder is set: whose changes it is called
    for, and what it calls. *)
Record controller := MkController {
  ctl_For : kind;
  ctl_OwnsSecrets : bool;
  ctl_Named : string;
  ctl_Reconcile : context → NamespacedName → io reconcile_result
}.

Definition Reconciler_SetupWithManager r : controller :=
  MkController KMPCertificateKind true "kmpcertificate" (Reconcile r).
End reconciler.

(** ** What a Secret must hold *)

Section secret_spec.
Context `{Unicode, Env, PublicKeys, !X509, !PrivateKeys, !Pem, !Kubernetes}.
Implicit Types (leaf : certificate) (spec : KMPCertificateSpec).

(** The certificate is for what the resource asks for. *)
Record matches leaf spec : Prop := {
  matches_cn : equal_fold (CommonName (Subject leaf)) (cert_CommonName spec) = true;
  matches_dns : ∀ n, n ∈ cert_DNSNames spec → ∃ n', n' ∈ DNSNames leaf ∧ equal_fold n' n = true;
  matches_ips : ∀ a, a ∈ cert_IPAddresses spec →
    ∃ ip ip', ParseIP a = Some ip ∧ ip' ∈ IPAddresses leaf ∧ ip_equal ip' ip = true;
  matches_org : sub_Organization (cert_Subject spec) = "" ∨
    ∃ o, o ∈ Organization (Subject leaf) ∧ equal_fold o (sub_Organization (cert_Subject spec)) = true;
  matches_ou : sub_OrganizationalUnit (cert_Subject spec) = "" ∨
    ∃ o, o ∈ OrganizationalUnit (Subject leaf) ∧
         equal_fold o (sub_OrganizationalUnit (cert_Subject spec)) = true
}.

Lemma first_of_nil checks :
  (∀ m, Some m ∈ checks → m ≠ "") → first_of checks = "" ↔ ∀ c, c ∈ checks → c = None.
Proof.
  intros Hne. unfold first_of. rewrite <- (find_first_None id). split; [|by intros ->].
  destruct (find_first id checks) as [m|] eqn:E; [|done].
  apply find_first_Some in E as (c & Hc & Hm). simpl in Hm. subst. intros Hm.
  exfalso. by eapply Hne.
Qed.

Lemma holds_fold_spec values want :
  containsFold values want = true ↔ ∃ v, v ∈ values ∧ equal_fold v want = true.
Proof. apply existsb_elem_of. Qed.

Lemma subject_mismatch_None values want what :
  subject_mismatch values want what = None ↔
  want = "" ∨ ∃ v, v ∈ values ∧ equal_fold v want = true.
Proof.
  unfold subject_mismatch. rewrite <- holds_fold_spec.
  destruct (containsFold values want), (decide (want = "")) as [E|E]; simpl; rewrite ?andb_false_r;
    try tauto; [rewrite bool_decide_eq_false_2 by tauto; tauto|].
  rewrite bool_decide_eq_true_2 by done. naive_solver.
Qed.

Lemma dns_mismatch_None leaf n :
  dns_mismatch leaf n = None ↔ ∃ n', n' ∈ DNSNames leaf ∧ equal_fold n' n = true.
Proof. unfold dns_mismatch. rewrite <- holds_fold_spec. by destruct (containsFold _ _). Qed.

Lemma ip_mismatch_None leaf a :
  ip_mismatch leaf a = None ↔
  ∃ ip ip', ParseIP a = Some ip ∧ ip' ∈ IPAddresses leaf ∧ ip_equal ip' ip = true.
Proof.
  unfold ip_mismatch. destruct (ParseIP a) as [ip|]; [|naive_solver].
  pose proof (covers_ip_spec leaf ip) as Hc. destruct (covers_ip leaf ip); naive_solver.
Qed.

Lemma elem_of_spec_checks leaf spec c :
  c ∈ spec_checks leaf spec ↔
  c = hd None (spec_checks leaf spec)
  ∨ (∃ n, c = dns_mismatch leaf n ∧ n ∈ cert_DNSNames spec)
  ∨ (∃ a, c = ip_mismatch leaf a ∧ a ∈ cert_IPAddresses spec)
  ∨ c = subject_mismatch (Organization (Subject leaf)) (sub_Organization (cert_Subject spec)) "organization"
  ∨ c = subject_mismatch (OrganizationalUnit (Subject leaf))
          (sub_OrganizationalUnit (cert_Subject spec)) "organizational unit".
Proof.
  unfold spec_checks. rewrite elem_of_cons, !elem_of_app, !list_elem_of_fmap, !elem_of_cons, elem_of_nil.
  simpl. tauto.
Qed.

Lemma spec_checks_message leaf spec m : Some m ∈ spec_checks leaf spec → m ≠ "".
Proof.
  rewrite elem_of_spec_checks. simpl. unfold dns_mismatch, ip_mismatch, subject_mismatch.
  intros [Hm|[(n & Hm & _)|[(a & Hm & _)|[Hm|Hm]]]]; repeat case_match; simplify_eq; done.
Qed.

Lemma matchesSpec_nil leaf spec : matchesSpec leaf spec = "" ↔ matches leaf spec.
Proof.
  unfold matchesSpec. rewrite first_of_nil by apply spec_checks_message. split.
  - intros Hall. setoid_rewrite elem_of_spec_checks in Hall. split.
    + specialize (Hall _ (or_introl eq_refl)). simpl in Hall. by destruct (equal_fold _ _).
    + intros n Hn. apply dns_mismatch_None, Hall. eauto 10.
    + intros a Ha. apply ip_mismatch_None, Hall. eauto 10.
    + eapply subject_mismatch_None, Hall. eauto 10.
    + eapply subject_mismatch_None, Hall. eauto 10.
  - intros [Hcn Hdns Hips Horg Hou] c Hc. apply elem_of_spec_checks in Hc.
    destruct Hc as [->|[(n & -> & Hn)|[(a & -> & Ha)|[->| ->]]]].
    + simpl. by rewrite Hcn.
    + by apply dns_mismatch_None, Hdns.
    + by apply ip_mismatch_None, Hips.
    + by apply subject_mismatch_None.
    + by apply subject_mismatch_None.
Qed.
End secret_spec.

(** ** Conditions *)

Definition find_condition (ty : string) (conditions : list Condition) : option Condition :=
  find_first (λ c, if bool_decide (cond_Type c = ty) then Some c else None) conditions.

(** [new] is what becomes of a condition [old] that is set to [c]. *)
Record condition_set (c old new : Condition) : Prop := {
  set_type : cond_Type new = cond_Type old;
  set_status : cond_Status new = cond_Status c;
  set_reason : cond_Reason new = cond_Reason c;
  set_message : cond_Message new = cond_Message c;
  set_generation : cond_ObservedGeneration new = cond_ObservedGeneration c;
  set_since : cond_LastTransitionTime new =
    if bool_decide (cond_Status old = cond_Status c) then cond_LastTransitionTime old
    else cond_LastTransitionTime c
}.

Lemma refresh_condition_set c old : condition_set c old (refresh_condition c old).
Proof.
  unfold refresh_condition. destruct (decide (cond_Status old = cond_Status c)) as [E|E].
  - rewrite !(bool_decide_eq_true_2 _ E). cbn [andb].
    repeat case_bool_decide; cbn [andb]; split; simpl; try done; by rewrite bool_decide_eq_true_2.
  - rewrite !(bool_decide_eq_false_2 _ E). cbn [andb].
    split; simpl; try done; by rewrite bool_decide_eq_false_2.
Qed.

Lemma update_condition_Some c conditions conditions' :
  update_condition c conditions = Some conditions' →
  (∃ old new, find_condition (cond_Type c) conditions = Some old ∧
     find_condition (cond_Type c) conditions' = Some new ∧ condition_set c old new) ∧
  (∀ ty, ty ≠ cond_Type c → find_condition ty conditions' = find_condition ty conditions) ∧
  cond_Type <$> conditions' = cond_Type <$> conditions.
Proof.
  unfold find_condition. revert conditions'. induction conditions as [|e rest IH]; simpl; [done|]. intros conditions'.
  pose proof (refresh_condition_set c e) as Hset.
  destruct (decide (cond_Type e = cond_Type c)) as [E|E].
  - rewrite bool_decide_eq_false_2 by tauto. intros [= <-]. simpl. rewrite (set_type _ _ _ Hset), E.
    rewrite bool_decide_eq_true_2 by done. split_and!; [eauto| |done].
    intros ty Hty. by rewrite bool_decide_eq_false_2 by congruence.
  - rewrite bool_decide_eq_true_2 by done. destruct (update_condition c rest) as [rest'|]; [|done].
    intros [= <-]. destruct (IH rest' eq_refl) as ((old & new & ? & ? & ?) & Hother & Hty). simpl.
    rewrite !(bool_decide_eq_false_2 (cond_Type e = _)) by done. split_and!; [eauto| |exact (f_equal (cons (cond_Type e)) Hty)].
    intros ty Hne. by rewrite Hother.
Qed.

Lemma update_condition_None c conditions :
  update_condition c conditions = None → find_condition (cond_Type c) conditions = None.
Proof.
  unfold find_condition. induction conditions as [|e rest IH]; simpl; [done|].
  destruct (decide (cond_Type e = cond_Type c)) as [E|E].
  - rewrite bool_decide_eq_false_2 by tauto. by repeat case_bool_decide.
  - rewrite bool_decide_eq_true_2, (bool_decide_eq_false_2 (cond_Type e = _)) by done.
    destruct (update_condition c rest); [done|auto].
Qed.

(** ** Runs *)

Section runs.
Context `{Unicode, Env, PublicKeys, !X509, !PrivateKeys, !Pem, !Kubernetes}.
Implicit Types (r : KMPCertificateReconciler) (ctx : context) (certificate : KMPCertificate).

(** What a provisioner promises: it only sends requests, and what it returns
    is a matching pair for what was asked. *)
Class ProvisionerOk (p : Provisioner) : Prop :=
  provisioner_ok : ∀ ctx req w, run (p ctx req) w (λ res _ xs,
    Forall is_sent xs ∧ match res with Ok pc => issued_for req pc | Err _ => True end).

(** What the reconciler needs of its parts. *)
Class ReconcilerOk r : Prop := {
  provisioners_ok : ∀ spec data p, ProvisionerBuilder r spec data = Ok p → ProvisionerOk p;
  clock_ok : ∀ w, run (rec_now r) w (λ _ _ xs, xs = [])
}.

Context r `{!ReconcilerOk r}.

(** What a Secret of [certificate] holds: the chain and the key of a pair, of
    the type cert-manager's consumers expect; the CA, if the chain ends in one;
    the password of the key, if the controller made it up; it is owned by the
    resource. *)
Record stores certificate (pc : ProvisionedCertificate) (password chain ca : string)
    (secret : Secret) : Prop := {
  stores_type : sec_Type secret = "kubernetes.io/tls";
  stores_chain : data_get "tls.crt" (sec_Data secret) = chain;
  stores_key : data_get "tls.key" (sec_Data secret) = pc_PrivateKeyPEM pc;
  stores_ca : ca ≠ "" → data_get "ca.crt" (sec_Data secret) = ca;
  stores_password : KeyStorePasswordSecretRef (cert_Spec certificate) = None →
    data_get "keystore-password" (sec_Data secret) = password;
  stores_owner : ∃ filled, SetControllerReference certificate filled = Ok secret
}.

(** The names of the resource, on the certificate of a pair. *)
Record named_as_asked certificate leaf : Prop := {
  named_cn : equal_fold (cert_CommonName (cert_Spec certificate)) (CommonName (Subject leaf)) = true;
  named_dns : ∀ n, n ∈ cert_DNSNames (cert_Spec certificate) → covers_alt_name leaf n;
  named_ips : ∀ a, a ∈ cert_IPAddresses (cert_Spec certificate) → covers_alt_name leaf a
}.

(** A Secret with a matching pair for the resource. *)
Definition holds_pair certificate (secret : Secret) : Prop :=
  ∃ pc password chain ca,
    issued_for (provisionRequest certificate password) pc ∧
    named_as_asked certificate (Leaf (pc_Bundle pc)) ∧
    ParseSingleCertificateChainPEM (ChainPEM (pc_Bundle pc)) = Ok (chain, ca) ∧
    stores certificate pc password chain ca secret.

Lemma issued_for_named certificate password pc :
  issued_for (provisionRequest certificate password) pc →
  named_as_asked certificate (Leaf (pc_Bundle pc)).
Proof.
  intros (_ & certs & exported & key & path & _ & [_ _ _ _ [Hcn Halt]]).
  split; [done|intros n Hn; apply Halt, elem_of_app; auto..].
Qed.

(** The password was made up. *)
Definition made_up certificate : bool :=
  match KeyStorePasswordSecretRef (cert_Spec certificate) with Some _ => false | None => true end.

Lemma data_get_set k k' v data :
  data_get k (map_set k' v data) = if bool_decide (k = k') then v else data_get k data.
Proof. unfold data_get. rewrite map_get_set. by case_bool_decide. Qed.

Lemma fill_secret_stores certificate pc password chain ca existing secret :
  fill_secret certificate chain ca (pc_PrivateKeyPEM pc) password (made_up certificate) existing = Ok secret →
  stores certificate pc password chain ca secret.
Proof.
  intros Howner. pose proof Howner as [Hty Hdata _ _ _]%SetControllerReference_spec. simpl in *.
  unfold secret_content, nonempty, made_up in Hdata. split; [done|rewrite Hdata..|by eexists].
  1, 2: repeat case_match; by rewrite ?data_get_set.
  - intros Hca. rewrite bool_decide_eq_true_2 by done. repeat case_match; by rewrite ?data_get_set.
  - intros ->. by rewrite data_get_set.
Qed.

Lemma run_resolveIssuer ctx certificate w (Q : res (IssuerSpec * string) → world → list event → Prop) :
  (∀ res w', Q res w' []) → run (resolveIssuer r ctx certificate) w Q.
Proof.
  intros HQ. unfold resolveIssuer. cbv zeta. repeat case_bool_decide;
    [apply run_bind, run_api; intros ? ? _; run_step; apply HQ..|run_step; apply HQ].
Qed.

Lemma run_keyStorePassword ctx certificate w (Q : res (string * bool) → world → list event → Prop) :
  (∀ password w', Q (Ok (password, made_up certificate)) w' []) → (∀ e w', Q (Err e) w' []) →
  run (keyStorePassword ctx certificate) w Q.
Proof.
  intros HOk HErr. unfold keyStorePassword, made_up in *. destruct (KeyStorePasswordSecretRef _) as [ref|].
  - cbv zeta. apply run_bind, run_api. intros secret w1 _.
    destruct secret; [|run_step; apply HErr]. case_bool_decide; run_step; [apply HErr|apply HOk].
  - run_step. unfold generatePassword. apply run_bind, run_next. intros buf w1 _. run_step.
    destruct buf; simpl; [run_step; apply HOk|apply HErr].
Qed.

(** One attempt to issue: requests first, then at most one write. *)
Definition issue_log certificate (xs : list event) : Prop :=
  ∃ sent written, xs = sent ++ written ∧ Forall is_sent sent ∧
    (written = [] ∨ ∃ found secret failure, written = [SecretWritten (secret_name certificate) found secret failure] ∧
                      holds_pair certificate secret).

Lemma run_writeSecret ctx certificate pc password chain ca w
    (Q : option error → world → list event → Prop) :
  issued_for (provisionRequest certificate password) pc →
  ParseSingleCertificateChainPEM (ChainPEM (pc_Bundle pc)) = Ok (chain, ca) →
  (∀ failure w' xs,
     (xs = [] ∨ ∃ found secret f, xs = [SecretWritten (secret_name certificate) found secret f] ∧
                  holds_pair certificate secret) → Q failure w' xs) →
  run (writeSecret ctx certificate chain ca (pc_PrivateKeyPEM pc) password (made_up certificate)) w Q.
Proof.
  intros Hpc Hparse HQ. unfold writeSecret. apply run_bind, run_CreateOrUpdate.
  - intros failure w' _. run_step. apply HQ. by left.
  - intros found secret failure w' [_ Hfill]. run_step. rewrite app_nil_r. apply HQ. right.
    exists found, secret, failure. split; [done|].
    exists pc, password, chain, ca. split_and!; [done|by eapply issued_for_named|done|].
    by apply fill_secret_stores in Hfill.
Qed.

Lemma run_issue_pair ctx certificate w :
  run (issue_pair r ctx certificate) w (λ res _ xs,
    issue_log certificate xs ∧
    match res with
    | Ok pc => ∃ password, issued_for (provisionRequest certificate password) pc
    | Err _ => True
    end).
Proof.
  assert (Hnil : issue_log certificate []) by (exists [], []; repeat split; by left).
  unfold issue_pair. run_step. apply run_resolveIssuer. intros [[spec ns]|e] w1; [|by split].
  cbv zeta. apply run_bind, run_api. intros secret w2 _. destruct secret as [secret|e];
    [|run_step; by split].
  run_step. apply run_keyStorePassword; [intros password w3|intros e w3; by split].
  destruct (ProvisionerBuilder r spec (sec_Data secret)) as [p|e] eqn:Eb; [|run_step; by split].
  apply provisioners_ok in Eb. run_step. eapply run_conseq; [apply Eb|].
  intros [pc|e] w4 xs _ [Hsent Hpc]; simpl.
  2:{ split; [|done]. exists xs, []. rewrite app_nil_r. auto. }
  destruct (ParseSingleCertificateChainPEM _) as [[chain ca]|msg] eqn:Ep.
  2:{ run_step. split; [|done]. exists xs, []. auto. }
  apply run_bind, (run_writeSecret _ _ pc _ _ _ _ _ Hpc Ep). intros failure w5 ys Hys.
  assert (issue_log certificate (xs ++ ys)) by (exists xs, ys; auto).
  destruct failure; run_step; rewrite app_nil_r; split; eauto.
Qed.

Lemma run_issue ctx certificate w :
  run (issue r ctx certificate) w (λ res _ xs,
    issue_log certificate xs ∧
    match res with
    | Ok certificate' => ∃ password pc, issued_for (provisionRequest certificate password) pc ∧
                           certificate' = with_status certificate (issued_status certificate pc)
    | Err _ => True
    end).
Proof.
  unfold issue. run_step. eapply run_conseq; [apply run_issue_pair|].
  intros [pc|e] w1 xs _ [Hlog Hres]; simpl; [|done]. run_step. rewrite app_nil_r.
  split; [done|]. destruct Hres as [password ?]. eauto.
Qed.

(** The Ready condition. *)
Definition ready certificate : option Condition :=
  find_condition KMPCertificateConditionReady (Conditions (cert_Status certificate)).

Lemma setCondition_spec now conditions generation ty status reason message :
  let conditions' := setCondition now conditions generation ty status reason message in
  (∃ c, find_condition ty conditions' = Some c ∧ cond_Status c = status ∧ cond_Reason c = reason ∧
     cond_Message c = message ∧ cond_ObservedGeneration c = generation ∧
     cond_LastTransitionTime c =
       match find_condition ty conditions with
       | Some old => if bool_decide (cond_Status old = status) then cond_LastTransitionTime old else now
       | None => now
       end) ∧
  (∀ ty', ty' ≠ ty → find_condition ty' conditions' = find_condition ty' conditions).
Proof.
  cbv zeta. unfold setCondition. cbv zeta. set (c := MkCondition ty status reason message generation now).
  destruct (update_condition c conditions) as [conditions'|] eqn:E; simpl.
  - apply update_condition_Some in E as ((old & new & Ho & Hn & Hset) & Hother & _).
    split; [|done]. exists new. simpl in *. rewrite Ho. destruct Hset. by split_and!.
  - apply update_condition_None in E. simpl in E. rewrite E. unfold find_condition in *. split.
    + exists c. rewrite find_first_app, E. simpl. by rewrite bool_decide_eq_true_2.
    + intros ty' Hne. rewrite find_first_app. case_match; [done|]. simpl.
      by rewrite bool_decide_eq_false_2.
Qed.

Lemma run_set_ready_known certificate status reason message w (Q : KMPCertificate → world → list event → Prop) :
  (∀ w', w_now w' = w_now w → Q (with_status certificate
     (ready_status (w_now w) (cert_Generation certificate) status reason message (cert_Status certificate))) w' []) →
  run (set_ready certificate status reason message) w Q.
Proof. intros HQ. unfold set_ready. do 2 run_step. cbv zeta. run_step. by apply HQ. Qed.

(** The condition that says so. *)
Lemma ready_status_ready now certificate status reason message :
  ∃ c, ready (with_status certificate (ready_status now (cert_Generation certificate) status reason message
                (cert_Status certificate))) = Some c ∧
    cond_Status c = status ∧ cond_Message c = message ∧ cond_ObservedGeneration c = cert_Generation certificate.
Proof.
  destruct (setCondition_spec now (Conditions (cert_Status certificate)) (cert_Generation certificate)
              KMPCertificateConditionReady status reason message) as [(c & ? & ? & ? & ? & ? & _) _].
  by exists c.
Qed.

Lemma run_set_ready certificate status reason message w
    (Q : KMPCertificate → world → list event → Prop) :
  (∀ certificate' w' c,
     cert_Name certificate' = cert_Name certificate → cert_Spec certificate' = cert_Spec certificate →
     st_RenewalTime (cert_Status certificate') = st_RenewalTime (cert_Status certificate) →
     ready certificate' = Some c → cond_Status c = status → cond_Message c = message →
     Q certificate' w' []) →
  run (set_ready certificate status reason message) w Q.
Proof.
  intros HQ. apply run_set_ready_known. intros w' _.
  destruct (ready_status_ready (w_now w) certificate status reason message) as (c & Hc & ? & ? & _).
  by eapply HQ.
Qed.

Lemma until_minimum now at_ : Second ≤ until now at_.
Proof.
  unfold until, issuanceFailureRequeue, Minute, Second. destruct at_; [|lia]. cbv zeta.
  destruct (Z.ltb_spec (time_sub z now) 1000000000); lia.
Qed.

(** What the attempt of a reconciliation comes to: nothing if the certificate is
    current, else what [issue] returns. *)
Definition attempt ctx certificate (w : world) : option (res KMPCertificate) :=
  let '((_, needed), w') := issuanceNeeded r ctx certificate w in
  if needed then Some (issue r ctx certificate w').1 else None.

(** The condition of a certificate and the result agree with the attempt. *)
Definition settled (attempt : option (res KMPCertificate)) (result : reconcile_result) certificate : Prop :=
  ∃ c, ready certificate = Some c ∧ cond_ObservedGeneration c = cert_Generation certificate ∧
  match attempt with
  | Some (Err e) =>
    cond_Status c = "False" ∧ cond_Message c = error_text e ∧
    result = if IsPermanent e then MkResult 0 None else MkResult issuanceFailureRequeue (Some e)
  | Some (Ok _) | None => cond_Status c = "True" ∧ reconcile_err result = None ∧ Second ≤ RequeueAfter result
  end.

(** The events of an attempt: those of issuing, then a Kubernetes event. *)
Definition body_log certificate (xs : list event) : Prop :=
  xs = [] ∨ ∃ ys t reason message, xs = ys ++ [Recorded t reason message] ∧ issue_log certificate ys.

Lemma run_renewal_clock (renewAt : option Z) w (Q : Z → world → list event → Prop) :
  (∀ now w', Q now w' []) →
  run (renewal_clock r renewAt) w Q.
Proof.
  intros HQ. unfold renewal_clock. destruct renewAt; [|run_step; apply HQ].
  eapply run_conseq; [apply clock_ok|]. by intros now w' xs _ ->.
Qed.

(** [issuanceNeeded] does nothing but look. *)
Lemma run_issuanceNeeded ctx certificate w
    (Q : string * option Z * bool → world → list event → Prop) :
  (∀ verdict w', (verdict, w') = issuanceNeeded r ctx certificate w → Q verdict w' []) →
  run (issuanceNeeded r ctx certificate) w Q.
Proof.
  intros HQ. eapply (run_conseq _ _ (λ v w' xs, v = (issuanceNeeded r ctx certificate w).1 ∧
    w' = (issuanceNeeded r ctx certificate w).2 ∧ xs = [])).
  2:{ intros v w' xs _ (-> & -> & ->). apply HQ. by destruct (issuanceNeeded r ctx certificate w). }
  apply run_known. unfold issuanceNeeded. cbv zeta. apply run_bind, run_api.
  intros secret w1 _. destruct secret as [secret|[msg|msg]]; [|by run_step..].
  destruct (secret_state _ _ secret) as [reason|leaf] eqn:Es; [by run_step|].
  apply run_bind. eapply run_conseq; [apply clock_ok|]. intros now w2 xs _ ->.
  destruct (Z.leb_spec (renewalTime leaf (RenewBefore (cert_Spec certificate))) now); by run_step.
Qed.

(** What comes of a body of [Reconcile]. *)
Definition body_done certificate (a : option (res KMPCertificate)) (r : reconcile_result * KMPCertificate)
    (xs : list event) : Prop :=
  settled a r.1 r.2 ∧ body_log certificate xs ∧
  cert_Name r.2 = cert_Name certificate ∧ cert_Spec r.2 = cert_Spec certificate.

(** An attempt to issue ends with an event, whatever comes of it. *)
Lemma run_request_certificate ctx certificate w :
  run (request_certificate r ctx certificate) w (λ res _ xs,
    body_done certificate (Some (issue r ctx certificate w).1) res xs ∧
    ∃ ys t reason message, xs = ys ++ [Recorded t reason message]).
Proof.
  unfold request_certificate, body_done. apply run_bind.
  eapply run_conseq; [apply run_known, run_issue|]. intros res w2 xs _ (Hissue & _ & Hlog & Hres).
  rewrite <- Hissue. destruct res as [certificate1|e].
  - destruct Hres as (password & pc & _ & ->). apply run_bind, run_set_ready_known. intros w3 _.
    apply run_bind, run_note. intros w4 _.
    cbv zeta. apply run_bind, run_renewal_clock. intros now w5. run_step. simpl.
    split; [|by eexists xs, _, _, _]. split_and!; [|right; by eexists xs, _, _, _|done..].
    destruct (ready_status_ready (w_now w2) (with_status certificate (issued_status certificate pc)) "True" "Issued"
      "Key Manager Plus issued the certificate") as (c & Hc & ? & _ & ?).
    exists c. split_and!; [exact Hc|done..|]. exact (until_minimum now (st_RenewalTime (issued_status certificate pc))).
  - apply run_bind, run_set_ready_known. intros w3 _. apply run_bind, run_note. intros w4 _.
    destruct (ready_status_ready (w_now w2) certificate "False" "Failed" (error_text e)) as (c & Hc & ? & ? & ?).
    destruct (IsPermanent e) eqn:Ep; run_step; (split; [|by eexists xs, _, _, _]);
      (split_and!; [|right; by eexists xs, _, _, _|done..]); exists c;
      (split_and!; [exact Hc|done..|by rewrite Ep]).
Qed.

Lemma run_reconcile_body ctx certificate w :
  run (reconcile_body r ctx certificate) w (λ res _ xs, body_done certificate (attempt ctx certificate w) res xs).
Proof.
  unfold reconcile_body, attempt. apply run_bind, run_issuanceNeeded.
  intros [[reason renewAt] needed] w1 <-. destruct needed; simpl negb; cbv iota.
  - eapply run_conseq; [apply run_request_certificate|]. by intros res w2 xs _ [? _].
  - apply run_bind, run_set_ready_known. intros w2 _. apply run_bind, (run_renewal_clock renewAt).
    intros now' w3. run_step. unfold body_done. simpl. split_and!; [|by left|done..].
    destruct (ready_status_ready (w_now w1) certificate "True" "Issued" "The Secret holds a current certificate")
      as (c & Hc & ? & _ & ?).
    exists c. split_and!; [exact Hc|done..|]. apply until_minimum.
Qed.

(** The events of a reconciliation: those of an attempt, then at most one
    status update, if the status changed; unless that fails, the result is that
    of the attempt. *)
Definition reconcile_log certificate (a : option (res KMPCertificate)) (result : reconcile_result)
    (xs : list event) : Prop :=
  ∃ body status result' certificate', xs = body ++ status ∧ body_log certificate body ∧
    cert_Name certificate' = cert_Name certificate ∧ cert_Spec certificate' = cert_Spec certificate ∧
    settled a result' certificate' ∧
    ((status = [] ∧ cert_Status certificate' = cert_Status certificate ∧ result = result') ∨
     (status = [StatusWritten certificate' None] ∧ result = result') ∨
     ∃ msg what, status = [StatusWritten certificate' (Some msg)] ∧ result = MkResult 0 (Some (wrap what (New msg)))).

Lemma body_log_no_status certificate body c failure :
  body_log certificate body → StatusWritten c failure ∉ body.
Proof.
  intros [->|(ys & t & reason & msg & -> & sent & written & -> & Hsent & Hw)] Hin; [by apply not_elem_of_nil in Hin|].
  rewrite !elem_of_app, list_elem_of_singleton in Hin. destruct Hin as [[Hin|Hin]| ?]; [| |done].
  - rewrite Forall_forall in Hsent. by apply Hsent in Hin.
  - destruct Hw as [->|(? & ? & ? & -> & _)]; [by apply not_elem_of_nil in Hin|].
    by apply list_elem_of_singleton in Hin.
Qed.

(** What a reconciliation does with what the API server answers: nothing about
    a resource that is gone or going. *)
Definition attended (a : KMPCertificate → option (res KMPCertificate)) (got : result api_error KMPCertificate)
    (result : reconcile_result) (xs : list event) : Prop :=
  match got with
  | Ok certificate =>
    match cert_DeletionTimestamp certificate with
    | None => reconcile_log certificate (a certificate) result xs
    | Some _ => xs = [] ∧ result = MkResult 0 None
    end
  | Err (NotFound _) => xs = [] ∧ result = MkResult 0 None
  | Err (ApiError msg) => xs = [] ∧ result = MkResult 0 (Some (New msg))
  end.

Lemma settled_requeue a result certificate :
  settled a result certificate → RequeueAfter result = 0 ∨ Second ≤ RequeueAfter result.
Proof.
  intros (c & _ & _ & Hc). destruct a as [[?|e]|]; [by destruct Hc as (_ & _ & ?); right| |by destruct Hc as (_ & _ & ?); right].
  destruct Hc as (_ & _ & ->). destruct (IsPermanent e); [by left|by right].
Qed.

Lemma run_Reconcile ctx name w :
  run (Reconcile r ctx name) w (λ result _ xs,
    attended (λ certificate, attempt ctx certificate (called (get_KMPCertificate ctx name) w))
      (answer (get_KMPCertificate ctx name) w) result xs ∧
    (RequeueAfter result = 0 ∨ Second ≤ RequeueAfter result)).
Proof.
  unfold Reconcile. apply run_bind, run_api_known. intros _.
  destruct (answer _ _) as [certificate|[msg|msg]]; simpl; [|run_step; auto..].
  destruct (cert_DeletionTimestamp certificate) as [t|].
  { rewrite bool_decide_eq_true_2 by done. run_step. auto. }
  rewrite bool_decide_eq_false_2 by tauto. cbv iota zeta. apply run_bind. eapply run_conseq; [apply run_reconcile_body|].
  intros [result certificate'] w2 xs _ (Hset & Hlog & Hname & Hspec).
  pose proof (settled_requeue _ _ _ Hset) as Hreq. case_bool_decide as Est; [run_step|].
  - rewrite app_nil_r. split; [|done]. exists xs, [], result, certificate'. rewrite app_nil_r. split_and!; auto.
  - apply run_bind, run_write_Status. intros [msg|] w3; run_step; rewrite app_nil_r.
    + split; [|by left]. eexists xs, _, result, certificate'. split_and!; [done..|]. right. right. by eexists _, _.
    + split; [|done]. eexists xs, _, result, certificate'. split_and!; [done..|]. right. left. by split.
Qed.

(** What is written, read off the events. *)
Lemma attended_written a got result xs e :
  attended a got result xs → e ∈ xs →
  ∃ certificate, got = Ok certificate ∧ cert_DeletionTimestamp certificate = None ∧
  match e with
  | SecretWritten n _ secret _ => n = secret_name certificate ∧ holds_pair certificate secret
  | StatusWritten certificate' failure =>
    cert_Name certificate' = cert_Name certificate ∧ cert_Spec certificate' = cert_Spec certificate ∧
    (failure = None → settled (a certificate) result certificate')
  | _ => True
  end.
Proof.
  assert (Hnil : ∀ P : Prop, e ∈ [] → P) by (by intros P ?%not_elem_of_nil).
  destruct got as [certificate|[msg|msg]]; simpl; [|by intros [-> _]; apply Hnil..].
  destruct (cert_DeletionTimestamp certificate) eqn:Ed; [by intros [-> _]; apply Hnil|].
  intros (body & status & result' & c & -> & Hbody & ? & ? & Hset & Hstatus) Hin. exists certificate. split_and!; [done..|].
  apply elem_of_app in Hin as [Hin|Hin].
  - destruct Hbody as [->|(ys & t & reason & msg & -> & sent & written & -> & Hsent & Hw)]; [by apply Hnil|].
    rewrite !elem_of_app, list_elem_of_singleton in Hin. destruct Hin as [[Hin|Hin]| ->]; [| |done].
    + rewrite Forall_forall in Hsent. apply Hsent in Hin. by destruct e.
    + destruct Hw as [->|(found & s & f & -> & Hp)]; [by apply Hnil|].
      by apply list_elem_of_singleton in Hin as ->.
  - destruct Hstatus as [(-> & _)|[[-> ->]|(msg & what & -> & _)]]; [by apply Hnil|..];
      apply list_elem_of_singleton in Hin as ->; by split_and!.
Qed.
End runs.

(** ** Properties *)

Section reconciler_claims.
Context `{Unicode, Env, PublicKeys, !X509, !PrivateKeys, !Pem, !Kubernetes}.

(** C32: a Secret is left alone only if it holds a key and a chain whose first
    certificate is for the common name, every DNS name, every IP address and
    the organization and unit the resource asks for; otherwise there is a
    reason to issue, and it is not empty. *)
Theorem secret_state_correct name spec secret :
  let acceptable leaf :=
    data_get TLSCertKey (sec_Data secret) ≠ "" ∧ data_get TLSPrivateKeyKey (sec_Data secret) ≠ "" ∧
    (∃ rest, DecodeX509CertificateChainBytes (data_get TLSCertKey (sec_Data secret)) = Ok (leaf :: rest)) ∧
    matches leaf spec in
  match secret_state name spec secret with
  | inr leaf => acceptable leaf
  | inl reason => reason ≠ "" ∧ ∀ leaf, ¬ acceptable leaf
  end.
Proof.
  cbv zeta. unfold secret_state, leafOf. cbv zeta.
  destruct (decide (data_get TLSCertKey (sec_Data secret) = "")) as [E1|E1].
  { rewrite bool_decide_eq_true_2 by done. simpl. split; [done|]. naive_solver. }
  destruct (decide (data_get TLSPrivateKeyKey (sec_Data secret) = "")) as [E2|E2].
  { rewrite (bool_decide_eq_true_2 _ E2), orb_true_r. split; [done|]. naive_solver. }
  rewrite (bool_decide_eq_false_2 _ E1), (bool_decide_eq_false_2 _ E2). simpl orb. cbv iota.
  destruct (DecodeX509CertificateChainBytes _) as [[|leaf rest]|msg] eqn:Ed; [split; [done|naive_solver]| |split; [done|naive_solver]].
  case_bool_decide as Em.
  - split; [done|]. intros leaf' (_ & _ & (rest' & [= <- <-]) & Hm). by apply Em, matchesSpec_nil.
  - apply matchesSpec_nil in Em. split_and!; [done..|by exists rest|done].
Qed.

(** C40: by default renewal starts when a third of the certificate's lifetime is
    left, to the nanosecond, so always after it became valid and no later than it
    expires; a positive renewBefore moves it to exactly that long before expiry,
    even to before the certificate became valid. *)
Theorem renewalTime_window leaf renewBefore :
  0 < NotAfter leaf - NotBefore leaf ≤ max_int64 →
  let t := renewalTime leaf renewBefore in
  match renewBefore with
  | Some d => if 0 <? d then t = NotAfter leaf - d
              else 3 * (NotAfter leaf - t) ≤ NotAfter leaf - NotBefore leaf < 3 * (NotAfter leaf - t) + 3
  | None => NotBefore leaf < t ≤ NotAfter leaf ∧
            3 * (NotAfter leaf - t) ≤ NotAfter leaf - NotBefore leaf < 3 * (NotAfter leaf - t) + 3
  end.
Proof.
  intros Hl. cbv zeta. unfold renewalTime, time_sub, renewalFraction, max_int64, min_int64 in *. cbv zeta.
  rewrite Z.max_r, Z.min_r by lia. rewrite Z.quot_div_nonneg by lia.
  pose proof (Z.div_mod (NotAfter leaf - NotBefore leaf) 3 ltac:(done)) as Hdm.
  pose proof (Z.mod_pos_bound (NotAfter leaf - NotBefore leaf) 3 ltac:(done)) as Hm.
  destruct renewBefore as [d|]; [destruct (Z.ltb_spec 0 d)|]; lia.
Qed.

(** A name the resource and Key Manager Plus read alike. *)
Definition settled_names (spec : KMPCertificateSpec) : Prop :=
  (∀ n, n ∈ cert_DNSNames spec → trim_space n = n ∧ n ≠ "" ∧ ParseIP n = None) ∧
  (∀ a, a ∈ cert_IPAddresses spec → trim_space a = a ∧ a ≠ "" ∧ is_Some (ParseIP a)).
End reconciler_claims.
