(* ===== verification/Status.v ===== *)
(** * The status of a KMPCertificate in memory

    [setCondition] of kmpcertificate_controller.go changes the array of
    conditions in place, and [Reconcile] finds out whether the status changed
    by comparing it with the deep copy it took before.  Both against the pure
    definitions of Reconciler.v. *)

From stdpp Require Import gmap.
From S2P Require Import Prelude GoStrings GoFloat GoAny GoHttp Errors X509 Chain World PrivateKey Provision Api GoHeap DeepCopy Kubernetes Reconciler.
Local Open Scope go_scope.

Section status.
Context `{!MetaTypes, !MetaCopies}.
Implicit Types (h : heap value) (s : option array) (cs : list Condition).

(** ** [setCondition] *)

(** The loop over the indices of [*conditions] from [i] on, [n] of them: what
    it returns from inside, if it does. *)
Fixpoint set_loop (n i : nat) s (now : Z) (generation : Z) (conditionType status reason message : string)
  : mem value (option bool) :=
  match n with
  | O => mem_ret None
  | S n =>
    let% existing := index s i in
    if bool_decide (cond_Type existing ≠ conditionType) then
      set_loop n (S i) s now generation conditionType status reason message
    else if bool_decide (cond_Status existing = status) && bool_decide (cond_Reason existing = reason)
            && bool_decide (cond_Message existing = message)
            && bool_decide (cond_ObservedGeneration existing = generation) then
      mem_ret (Some false)
    else
      let since := if bool_decide (cond_Status existing ≠ status) then now
                   else cond_LastTransitionTime existing in
      let% _ := set_index s i
        (MkCondition (cond_Type existing) status reason message generation since) in
      mem_ret (Some true)
  end.

(** The new [*conditions] and the result; [grow] is the capacity the runtime
    chooses for a slice that must grow, given the old one and what is needed. *)
Definition setCondition_in_place (grow : nat → nat → nat) s (generation now : Z) (conditionType status reason message : string)
  : mem value (option array * bool) :=
  let% returned := set_loop (arr_len_of s) 0 s now generation conditionType status reason message in
  match returned with
  | Some changed => mem_ret (s, changed)
  | None =>
    let% s := append grow zero_condition s
                (MkCondition conditionType status reason message generation now) in
    mem_ret (s, true)
  end.

(** ** Statuses *)

Definition with_conditions (st : pKMPCertificateStatus) s : pKMPCertificateStatus :=
  MkpKMPCertificateStatus s (pst_SerialNumber st) (pst_CSRID st) (pst_NotBefore st) (pst_NotAfter st)
    (pst_RenewalTime st).

(** [&metav1.Time{Time: t}] *)
Definition new_time (t : Z) : mem value (option loc) :=
  let% l := @new _ _ time_cell t in mem_ret (Some l).

(** [equality.Semantic.DeepEqual] of two statuses compares what they denote. *)
Definition DeepEqual (st1 st2 : pKMPCertificateStatus) : mem value bool := λ h,
  match KMPCertificateStatus_view h st1, KMPCertificateStatus_view h st2 with
  | Some u1, Some u2 => Some (bool_decide (u1 = u2), h)
  | _, _ => None
  end.

(** ** What [setCondition] does *)

(** One step of the loop. *)
Lemma set_loop_step s now generation ty status reason message pre e rest h :
  elements h s = Some (pre ++ e :: rest) →
  set_loop (length (e :: rest)) (length pre) s now generation ty status reason message h =
  (if bool_decide (cond_Type e ≠ ty) then
     set_loop (length rest) (length (pre ++ [e])) s now generation ty status reason message
   else if bool_decide (cond_Status e = status) && bool_decide (cond_Reason e = reason)
           && bool_decide (cond_Message e = message) && bool_decide (cond_ObservedGeneration e = generation)
   then mem_ret (Some false)
   else let% _ := set_index s (length pre)
          (MkCondition (cond_Type e) status reason message generation
             (if bool_decide (cond_Status e = status) then cond_LastTransitionTime e else now)) in
        mem_ret (Some true)) h.
Proof.
  intros He. simpl. unfold mem_bind at 1. rewrite (index_spec _ _ _ _ e He) by (by apply list_lookup_middle).
  rewrite length_app, Nat.add_1_r. do 2 (case_match; [done|]).
  destruct (decide (cond_Status e = status)).
  - by rewrite !(bool_decide_eq_true_2 (_ = status)), !(bool_decide_eq_false_2 (_ ≠ status)) by tauto.
  - by rewrite !(bool_decide_eq_false_2 (_ = status)), !(bool_decide_eq_true_2 (_ ≠ status)) by tauto.
Qed.

Lemma set_loop_spec s now generation ty status reason message rest :
  let c := MkCondition ty status reason message generation now in
  ∀ pre h, elements h s = Some (pre ++ rest) → slice_ok (A := Condition) h s →
  match update_condition c rest with
  | None => set_loop (length rest) (length pre) s now generation ty status reason message h = Some (None, h)
  | Some rest' => ∃ h',
      set_loop (length rest) (length pre) s now generation ty status reason message h =
        Some (Some (bool_decide (rest' ≠ rest)), h') ∧
      elements h' s = Some (pre ++ rest') ∧ slice_ok (A := Condition) h' s ∧ dom h' = dom h ∧
      same_on (dom h ∖ slice_memory s) h h'
  end.
Proof.
  intros c. induction rest as [|e rest IH]; intros pre h He Hok; [done|].
  rewrite set_loop_step by done. cbn [update_condition].
  replace (cond_Type c) with ty by done.
  destruct (decide (cond_Type e = ty)) as [Ety|Ety].
  2:{ rewrite !bool_decide_eq_true_2 by done.
      specialize (IH (pre ++ [e]) h). rewrite <- app_assoc in IH. specialize (IH He Hok).
      destruct (update_condition c rest) as [rest'|]; [|done]. simpl.
      destruct IH as (h' & Hrun & He' & ?). rewrite <- app_assoc in He'. exists h'. split; [|done].
      rewrite Hrun. do 3 f_equal. apply bool_decide_ext. naive_solver. }
  rewrite !(bool_decide_eq_false_2 (cond_Type e ≠ ty)) by tauto. unfold refresh_condition. cbn [cond_Status cond_Reason cond_Message cond_ObservedGeneration cond_LastTransitionTime c].
  destruct (bool_decide (cond_Status e = status) && _ && _ && _) eqn:Esame.
  { exists h. by rewrite bool_decide_eq_false_2 by tauto. }
  set (e' := MkCondition _ _ _ _ _ _).
  destruct (set_index_ok h s (pre ++ e :: rest) (length pre) e' Hok He) as (h' & Hrun & He' & Hok' & Hdom & Hsame);
    [rewrite length_app; simpl; lia|].
  exists h'. rewrite insert_middle in He'. split_and!; [|done..].
  unfold mem_bind, mem_ret. rewrite Hrun. do 3 f_equal. symmetry. apply bool_decide_eq_true_2.
  intros [= E]. rewrite <- E in Esame. simpl in Esame. by rewrite !bool_decide_eq_true_2 in Esame.
Qed.

(** ** Statuses that denote *)

(** In memory the status [st] denotes [u], and there is room behind its
    conditions for what their slice promises. *)
Definition holds h (st : pKMPCertificateStatus) (u : KMPCertificateStatus) : Prop :=
  KMPCertificateStatus_view h st = Some u ∧ slice_ok (A := Condition) h (pst_Conditions st).

Lemma status_view_Some h st u :
  KMPCertificateStatus_view h st = Some u ↔
  (conditions_view h (pst_Conditions st) = Some (Conditions u) ∧
   time_view h (pst_NotBefore st) = Some (st_NotBefore u) ∧
   time_view h (pst_NotAfter st) = Some (st_NotAfter u) ∧
   time_view h (pst_RenewalTime st) = Some (st_RenewalTime u)) ∧
  pst_SerialNumber st = st_SerialNumber u ∧ pst_CSRID st = st_CSRID u.
Proof.
  unfold KMPCertificateStatus_view, struct_view, status_fields, pair_view. simpl. split.
  - intros (v & Hv & ->)%fmap_Some. apply bind_Some in Hv as (cs & -> & Hv).
    apply bind_Some in Hv as (v' & Hv & [= <-]). apply bind_Some in Hv as (nb & -> & Hv).
    apply bind_Some in Hv as (v'' & Hv & [= <-]). apply bind_Some in Hv as (na & -> & Hv).
    apply bind_Some in Hv as (rn & -> & [= <-]). done.
  - destruct u as [cs ser csr nb na rn]. simpl. intros [(-> & -> & -> & ->) [Hser Hcsr]]. simpl.
    unfold status_of. by rewrite Hser, Hcsr.
Qed.

(** A time is not among the conditions. *)
Lemma time_apart h s p t :
  slice_ok (A := Condition) h s → time_view h p = Some t → pointer_fp h p ## slice_memory s.
Proof.
  destruct p as [l|], s as [a|]; simpl; try set_solver. intros (ys & Hl & _) Hv.
  apply disjoint_singleton_l. intros ->%elem_of_singleton. revert Hv. unfold time_view. simpl.
  rewrite Hl. simpl. by destruct ys.
Qed.

Lemma time_kept h h' s p t :
  slice_ok (A := Condition) h s → same_on (dom h ∖ slice_memory s) h h' →
  time_view h p = Some t → time_view h' p = Some t.
Proof.
  intros Hok Hsame Hv. pose proof (time_apart _ _ _ _ Hok Hv) as Hd.
  pose proof (footprint_dom (view := time_view) (footprint := pointer_fp) (copy := copy_time) h p t Hv) as Hf.
  apply (view_frame (view := time_view) (footprint := pointer_fp) (copy := copy_time) h h' p t Hv).
  eapply same_on_mono; [|exact Hsame]. set_solver.
Qed.

Lemma slice_memory_dom h s : slice_ok (A := Condition) h s → slice_memory s ⊆ dom h.
Proof.
  destruct s as [a|]; simpl; [|set_solver]. intros (ys & Hl & _).
  apply singleton_subseteq_l, elem_of_dom. eauto.
Qed.

Lemma slice_ok_grows h h' s : slice_ok (A := Condition) h s → h ⊆ h' → slice_ok (A := Condition) h' s.
Proof.
  destruct s as [a|]; simpl; [|done]. intros (ys & Hl & ?) Hh. exists ys. split; [|done].
  by eapply lookup_weaken.
Qed.

Lemma holds_grows h h' st u : holds h st u → h ⊆ h' → holds h' st u.
Proof.
  intros [Hv Hok] Hh. split; [|by eapply slice_ok_grows].
  by eapply (view_grows KMPCertificateStatus_view KMPCertificateStatus_fp KMPCertificateStatus_DeepCopyInto).
Qed.

Lemma new_time_spec h t :
  ∃ p h', new_time t h = Some (p, h') ∧ h ⊆ h' ∧ time_view h' p = Some (Some t).
Proof.
  exists (Some (fresh (dom h))), (<[fresh (dom h) := [VTime t]]> h).
  pose proof (is_fresh (dom h)) as Hf. split_and!; [done|by apply insert_subseteq, not_elem_of_dom|].
  unfold time_view. simpl. by rewrite lookup_insert_eq.
Qed.

Lemma time_grows h h' p t : time_view h p = Some t → h ⊆ h' → time_view h' p = Some t.
Proof. intros Hv Hh. by eapply (view_grows time_view pointer_fp copy_time). Qed.

(** In place or in a new array, the conditions become those of [setCondition],
    and the result is whether that changed them. *)
Lemma setCondition_in_place_spec grow s now generation ty status reason message cs h :
  (∀ cap needed, needed ≤ grow cap needed)%nat →
  conditions_view h s = Some cs → slice_ok (A := Condition) h s →
  let cs' := setCondition now cs generation ty status reason message in
  ∃ s' h', setCondition_in_place grow s generation now ty status reason message h =
             Some ((s', bool_decide (cs' ≠ cs)), h') ∧
    conditions_view h' s' = Some cs' ∧ slice_ok (A := Condition) h' s' ∧ dom h ⊆ dom h' ∧
    same_on (dom h ∖ slice_memory s) h h'.
Proof.
  unfold conditions_view. setoid_rewrite slice_view_elements. intros grow_enough He Hok. cbv zeta.
  pose proof (set_loop_spec s now generation ty status reason message cs [] h He Hok) as Hloop.
  unfold setCondition_in_place, setCondition. rewrite <- (elements_length _ _ _ He). cbv zeta in *.
  destruct (update_condition _ cs) as [cs'|]; simpl in *.
  - destruct Hloop as (h' & Hrun & He' & Hok' & Hdom & Hsame). exists s, h'. unfold mem_bind.
    rewrite Hrun, Hdom. done.
  - destruct (append_ok grow zero_condition h s cs (MkCondition ty status reason message generation now) grow_enough Hok He)
      as (s' & h' & Hrun & ?). exists s', h'. unfold mem_bind at 1. rewrite Hloop. unfold mem_bind.
    rewrite Hrun. split; [|done]. unfold mem_ret. do 3 f_equal. symmetry. apply bool_decide_eq_true_2.
    intros E%(f_equal length). rewrite length_app in E. simpl in E. lia.
Qed.
End status.

(** ** Programs with a memory *)

Section programs.
Context `{Env, !MetaTypes}.

Definition prog (A : Type) : Type := heap value → world → option (A * heap value * world).

Definition prog_ret {A} (a : A) : prog A := λ h w, Some (a, h, w).
Definition prog_bind {A B} (m : prog A) (k : A → prog B) : prog B := λ h w,
  match m h w with Some (a, h, w) => k a h w | None => None end.
Definition perform {A} (m : io A) : prog A := λ h w, let '(a, w) := m w in Some (a, h, w).
Definition in_memory {A} (m : mem value A) : prog A := λ h w,
  match m h with Some (a, h) => Some (a, h, w) | None => None end.
End programs.

Notation "'let@' x := m 'in' k" := (prog_bind m (λ x, k))
  (at level 200, x pattern, m at level 200, k at level 200) : go_scope.

(** ** [Reconcile], with its status in memory *)

Section reconcile.
Context `{Unicode, Env, PublicKeys, !X509, !PrivateKeys, !Pem, !Kubernetes, !MetaTypes, !MetaCopies}.
Context (grow : nat → nat → nat).
(** How the client decodes the status of the resource it read. *)
Context (decode : KMPCertificateStatus → mem value pKMPCertificateStatus).
Implicit Types (r : KMPCertificateReconciler) (ctx : context) (certificate : KMPCertificate)
  (st : pKMPCertificateStatus) (h : heap value).

(** The assignments at the end of [issue]. *)
Definition record_issued certificate st (provisioned : ProvisionedCertificate)
  : mem value pKMPCertificateStatus :=
  let leaf := Leaf (pc_Bundle provisioned) in
  let% before := new_time (NotBefore leaf) in
  let% after := new_time (NotAfter leaf) in
  let% renewal := new_time (renewalTime leaf (RenewBefore (cert_Spec certificate))) in
  mem_ret (MkpKMPCertificateStatus (pst_Conditions st) (pc_SerialNumber provisioned)
             (pc_CSRID provisioned) before after renewal).

Definition set_ready_in_place certificate st (status reason message : string)
  : prog pKMPCertificateStatus :=
  let@ now := perform time_now in
  let@ (conditions, _) := in_memory (setCondition_in_place grow (pst_Conditions st)
                            (cert_Generation certificate) now KMPCertificateConditionReady
                            status reason message) in
  prog_ret (with_conditions st conditions).

(** [*p] for a pointer that may be nil. *)
Definition load_time (p : option loc) : mem value (option Z) :=
  match p with
  | None => mem_ret None
  | Some l => let% t := @load _ _ time_cell l in mem_ret (Some t)
  end.

(** [r.until(at)] *)
Definition until_now r (renewAt : option Z) : prog Z :=
  let@ now := perform (renewal_clock r renewAt) in
  prog_ret (until now renewAt).

Definition reconcile_body_in_memory r ctx certificate st
  : prog (reconcile_result * pKMPCertificateStatus) :=
  let@ (reason, renewAt, needed) := perform (issuanceNeeded r ctx certificate) in
  if negb needed then
    let@ st := set_ready_in_place certificate st "True" "Issued" "The Secret holds a current certificate" in
    let@ after := until_now r renewAt in
    prog_ret (MkResult after None, st)
  else
    let@ issued := perform (issue_pair r ctx certificate) in
    match issued with
    | Err issueErr =>
      let@ st := set_ready_in_place certificate st "False" "Failed" (error_text issueErr) in
      let@ _ := perform (note (Recorded "Warning" "Failed" (error_text issueErr))) in
      if IsPermanent issueErr then prog_ret (MkResult 0 None, st)
      else prog_ret (MkResult issuanceFailureRequeue (Some issueErr), st)
    | Ok provisioned =>
      let@ st := in_memory (record_issued certificate st provisioned) in
      let@ st := set_ready_in_place certificate st "True" "Issued" "Key Manager Plus issued the certificate" in
      let@ _ := perform (note (Recorded "Normal" "Issued" "Key Manager Plus issued the certificate")) in
      let@ renewAt := in_memory (load_time (pst_RenewalTime st)) in
      let@ after := until_now r renewAt in
      prog_ret (MkResult after None, st)
    end.

(** [r.Status().Update(ctx, &certificate)] sends what the status denotes. *)
Definition update_in_memory ctx certificate st : prog (option string) := λ h w,
  match KMPCertificateStatus_view h st with
  | Some status => perform (write_Status ctx (with_status certificate status)) h w
  | None => None
  end.

Definition Reconcile_in_memory r ctx (name : NamespacedName) : prog reconcile_result :=
  let@ got := perform (api (get_KMPCertificate ctx name)) in
  match got with
  | Err (NotFound _) => prog_ret (MkResult 0 None)
  | Err (ApiError msg) => prog_ret (MkResult 0 (Some (New msg)))
  | Ok certificate =>
    let@ st := in_memory (decode (cert_Status certificate)) in
    if bool_decide (cert_DeletionTimestamp certificate ≠ None) then prog_ret (MkResult 0 None)
    else
      let@ before := in_memory (KMPCertificateStatus_DeepCopy (Some st)) in
      let@ (result, st) := reconcile_body_in_memory r ctx certificate st in
      let@ same := in_memory (match before with Some before => DeepEqual before st | None => panic end) in
      if same then prog_ret result
      else
        let@ failure := update_in_memory ctx certificate st in
        match failure with
        | None => prog_ret result
        | Some msg =>
          prog_ret (MkResult 0 (Some (wrap ("updating the status of " +:+ name_text name) (New msg))))
        end
  end.

(** ** It does what the model without a memory does *)

Context (grow_enough : ∀ cap needed, (needed ≤ grow cap needed)%nat).

(** The part of the memory that is not the conditions is left as it is. *)
Definition keeps (s : option array) h h' : Prop := dom h ⊆ dom h' ∧ same_on (dom h ∖ slice_memory s) h h'.

Lemma record_issued_spec certificate st provisioned h u :
  holds h st u →
  ∃ st' h', record_issued certificate st provisioned h = Some (st', h') ∧ h ⊆ h' ∧
    pst_Conditions st' = pst_Conditions st ∧
    holds h' st' (issued_status (with_status certificate u) provisioned).
Proof.
  intros [Hv Hok]. unfold record_issued. cbv zeta. set (leaf := Leaf _).
  destruct (new_time_spec h (NotBefore leaf)) as (p1 & h1 & E1 & Hh1 & Hp1).
  destruct (new_time_spec h1 (NotAfter leaf)) as (p2 & h2 & E2 & Hh2 & Hp2).
  destruct (new_time_spec h2 (renewalTime leaf (RenewBefore (cert_Spec certificate)))) as (p3 & h3 & E3 & Hh3 & Hp3).
  unfold mem_bind. rewrite E1, E2, E3. eexists _, h3. split; [done|].
  assert (h ⊆ h3) as Hh by (by do 2 (etransitivity; [eassumption|])).
  split_and!; [done..|]. split; [|by eapply slice_ok_grows].
  apply status_view_Some in Hv as ((Hc & _) & _).
  apply status_view_Some. simpl. split_and!; try done.
  - by eapply (view_grows conditions_view conditions_fp copy_conditions).
  - eapply time_grows; [eapply time_grows|]; eassumption.
  - by eapply time_grows.
Qed.

Lemma set_ready_in_place_spec certificate st u status reason message h w :
  holds h st u →
  let certificate' := (set_ready (with_status certificate u) status reason message w).1 in
  ∃ st' h', set_ready_in_place certificate st status reason message h w =
              Some (st', h', (set_ready (with_status certificate u) status reason message w).2) ∧
    certificate' = with_status certificate (cert_Status certificate') ∧
    holds h' st' (cert_Status certificate') ∧ keeps (pst_Conditions st) h h'.
Proof.
  intros [Hv Hok]. cbv zeta. apply status_view_Some in Hv as ((Hc & Hb & Ha & Hr) & Hser & Hcsr).
  destruct (setCondition_in_place_spec grow (pst_Conditions st) (w_now w) (cert_Generation certificate)
    KMPCertificateConditionReady status reason message (Conditions u) h grow_enough Hc Hok)
    as (s' & h' & Hrun & Hc' & Hok' & Hdom & Hsame).
  exists (with_conditions st s'), h'. unfold set_ready_in_place, prog_bind, perform, time_now, in_memory.
  rewrite Hrun. split_and!; [done|done| |done]. split; [|done].
  apply status_view_Some. simpl. split_and!; try done; (eapply time_kept; [exact Hok|exact Hsame|done]).
Qed.

Lemma load_time_spec h p t : time_view h p = Some t → load_time p h = Some (t, h).
Proof.
  destruct p as [l|]; [|by intros [= <-]]. intros Hv.
  assert (∃ t', t = Some t') as [t' ->].
  { revert Hv. unfold time_view. simpl. destruct (h !! l) as [vs|]; simpl; [|done].
    destruct (vs !! 0) as [v|]; simpl; [|done]. destruct v; simpl; try done. intros [= <-]. eauto. }
  unfold load_time, mem_bind. by rewrite (@load_spec _ _ time_cell _ _ _ Hv).
Qed.

Lemma with_status_id certificate : with_status certificate (cert_Status certificate) = certificate.
Proof. by destruct certificate. Qed.

Lemma until_now_spec r renewAt h w :
  until_now r renewAt h w =
  let '(now, w') := renewal_clock r renewAt w in
  Some (until now renewAt, h, w').
Proof. unfold until_now, prog_bind, perform. by destruct (renewal_clock r renewAt w). Qed.

Lemma keeps_trans s h1 h2 h3 : h1 ⊆ h2 → keeps s h2 h3 → keeps s h1 h3.
Proof.
  intros Hh [Hd Hs]. pose proof (subseteq_dom _ _ Hh). split; [set_solver|].
  intros l Hl. rewrite Hs by set_solver.
  assert (l ∈ dom h1) as [vs Hvs]%elem_of_dom by set_solver.
  rewrite Hvs. by eapply lookup_weaken.
Qed.

(** The body in memory, and what it leaves there. *)
Lemma reconcile_body_refines r ctx certificate st h w :
  holds h st (cert_Status certificate) →
  let '((result, certificate'), w') := reconcile_body r ctx certificate w in
  ∃ st' h', reconcile_body_in_memory r ctx certificate st h w = Some ((result, st'), h', w') ∧
    certificate' = with_status certificate (cert_Status certificate') ∧
    holds h' st' (cert_Status certificate') ∧ keeps (pst_Conditions st) h h'.
Proof.
  intros Hst. unfold reconcile_body, request_certificate, reconcile_body_in_memory, io_bind, prog_bind at 1, perform at 1.
  destruct (issuanceNeeded r ctx certificate w) as [[[reason renewAt] needed] w1].
  destruct needed; cbn [negb].
  2:{ destruct (set_ready_in_place_spec certificate st (cert_Status certificate) "True" "Issued"
        "The Secret holds a current certificate" h w1 Hst) as (st' & h' & Hrun & Heq & Hholds & Hkeeps).
      rewrite with_status_id in *. destruct (set_ready _ _ _ _ w1) as [c2 w2]. simpl in *.
      unfold prog_bind at 1. rewrite Hrun. unfold prog_bind. rewrite until_now_spec.
      destruct (renewal_clock r renewAt w2) as [now w3].
      cbn. eauto 10. }
  unfold prog_bind at 1, perform at 1, issue, io_bind.
  destruct (issue_pair r ctx certificate w1) as [[provisioned|e] w2]; cbn [io_ret].
  - destruct (record_issued_spec certificate st provisioned h _ Hst) as (st1 & h1 & Hrec & Hh1 & Hconds & Hst1).
    rewrite with_status_id in Hst1. unfold prog_bind at 1, in_memory at 1. rewrite Hrec.
    destruct (set_ready_in_place_spec certificate st1 _ "True" "Issued" "Key Manager Plus issued the certificate"
      h1 w2 Hst1) as (st' & h' & Hrun & Heq & Hholds & Hkeeps).
    cbn [io_ret]. destruct (set_ready _ _ _ _ w2) as [c2 w3]. simpl in Hrun, Heq, Hholds.
    unfold prog_bind at 1. rewrite Hrun. unfold prog_bind at 1, perform at 1, note.
    set (w4 := World _ _ _ _).
    destruct Hholds as [Hv Hok]. pose proof Hv as ((_ & _ & _ & Hrenew) & _)%status_view_Some.
    unfold prog_bind at 1, in_memory at 1. rewrite (load_time_spec _ _ _ Hrenew).
    unfold prog_bind. rewrite until_now_spec. destruct (renewal_clock r _ w4) as [now w5].
    cbn. exists st', h'. split_and!; [done|done|by split|]. rewrite <- Hconds. by eapply keeps_trans.
  - destruct (set_ready_in_place_spec certificate st (cert_Status certificate) "False" "Failed"
      (error_text e) h w2 Hst) as (st' & h' & Hrun & Heq & Hholds & Hkeeps).
    rewrite with_status_id in *. cbn [io_ret]. destruct (set_ready _ _ _ _ w2) as [c2 w3]. simpl in *.
    unfold prog_bind at 1. rewrite Hrun. unfold prog_bind, perform, note.
    destruct (IsPermanent e); cbn; eauto 10.
Qed.

(** C10: the controller as it is written, with its status in shared memory, the
    conditions changed in place and the deep copy it took before compared
    with what is there afterwards, does what the model without a memory does:
    from any memory, it gives the same result, performs the same calls in the
    same order and sends the same status, or sends none. *)
Theorem Reconcile_in_memory_refines r ctx name h w :
  (∀ status h, ∃ st h', decode status h = Some (st, h') ∧ holds h' st status) →
  ∃ h', Reconcile_in_memory r ctx name h w =
    Some ((Reconcile r ctx name w).1, h', (Reconcile r ctx name w).2).
Proof.
  intros Hdecode. unfold Reconcile, Reconcile_in_memory, io_bind, prog_bind at 1, perform at 1.
  destruct (api _ w) as [[certificate|[msg|msg]] w1]; [|eauto..].
  destruct (Hdecode (cert_Status certificate) h) as (st & h1 & Hrun & Hst).
  unfold prog_bind at 1, in_memory at 1. rewrite Hrun. case_bool_decide; [eauto|].
  destruct (copy_fresh h1 st _ (proj1 Hst)) as (before & h2 & Hcopy & Hh2 & Hbefore & Hfresh).
  unfold prog_bind at 1, in_memory at 1, KMPCertificateStatus_DeepCopy, deep_copy_of, mem_bind.
  rewrite Hcopy. cbn [mem_ret].
  pose proof (reconcile_body_refines r ctx certificate st h2 w1 (holds_grows _ _ _ _ Hst Hh2)) as Hbody.
  destruct (reconcile_body r ctx certificate w1) as [[result certificate'] w2].
  destruct Hbody as (st' & h3 & Hrun3 & Heq & [Hv3 Hok3] & [Hdom3 Hsame3]).
  unfold prog_bind at 1. rewrite Hrun3.
  assert (KMPCertificateStatus_view h3 before = Some (cert_Status certificate)) as Hbefore3.
  { apply (view_frame h2 h3 before _ Hbefore). eapply same_on_mono; [|exact Hsame3].
    pose proof (footprint_dom h2 before _ Hbefore). pose proof (slice_memory_dom _ _ (proj2 Hst)). set_solver. }
  unfold prog_bind at 1, in_memory at 1, DeepEqual. rewrite Hbefore3, Hv3.
  case_bool_decide; [by eexists|].
  unfold prog_bind, update_in_memory. rewrite Hv3, <- Heq. unfold perform.
  destruct (write_Status ctx certificate' w2) as [[msg|] w3]; by eexists.
Qed.
End reconcile.

(** ** Properties *)

Section status_claims.
Context `{!MetaTypes, !MetaCopies}.

(** [setCondition] as it is written, changing the element of an array or
    appending to it in place or in a new array, computes what the search and
    update of a list computes: afterwards the slice holds the list of
    [Reconciler.setCondition], the result says whether that is another list
    than before, no memory but the array of the conditions is touched, and the
    slice is as sound as it was. *)
Theorem setCondition_in_place_equiv grow s now generation ty status reason message cs h :
  (∀ cap needed, needed ≤ grow cap needed)%nat →
  conditions_view h s = Some cs → slice_ok (A := Condition) h s →
  let cs' := setCondition now cs generation ty status reason message in
  ∃ s' h', setCondition_in_place grow s generation now ty status reason message h =
             Some ((s', bool_decide (cs' ≠ cs)), h') ∧
    conditions_view h' s' = Some cs' ∧ slice_ok (A := Condition) h' s' ∧ dom h ⊆ dom h' ∧
    same_on (dom h ∖ slice_memory s) h h'.
Proof. apply setCondition_in_place_spec. Qed.
End status_claims.
