(* ===== verification/Main.v ===== *)
(** * [cmd/main.go] and the builders of [internal/signer/kmp.go]: wiring

    Of [main], the choice of the cluster resource namespace and the objects
    handed to the controller manager; then what the wired controllers answer. *)

From S2P Require Import Prelude GoStrings GoFloat GoAny GoHttp Errors GoNet X509 Chain World Client Signer PrivateKey Provision Api KmpSigner Kubernetes Issuer Reconciler.
Local Open Scope go_scope.
Local Open Scope Z_scope.

(** What [os.Stat] says of the namespace file. *)
Inductive stat_result := StatOk | StatNotExist | StatError (msg : string).

Section main.
Context `{Unicode, Conversions, Env, PublicKeys, !X509, !PrivateKeys, !Pem, !Kubernetes}.

(** [getInClusterNamespace], given the flag and the results of [os.Stat] and
    [os.ReadFile]: the value the flag has afterwards. *)
Definition getInClusterNamespace (clusterResourceNamespace : string) (stat : stat_result)
    (file : result string string) : res string :=
  if nonempty clusterResourceNamespace then Ok clusterResourceNamespace
  else match stat with
  | StatNotExist => Err (Sentinel errNotInCluster)
  | StatError msg => Err (wrap "error checking namespace file" (New msg))
  | StatOk =>
    match file with
    | Err msg => Err (wrap "error reading namespace file" (New msg))
    | Ok namespace => Ok namespace
    end
  end.

Definition KMPHealthCheckerFromIssuerAndSecretData (spec : IssuerSpec) (secretData : secret_data)
  : res HealthChecker :=
  try kmpSigner := signerFromIssuerAndSecretData (Some spec) secretData in
  Ok (kmpSigner_Check kmpSigner).

Definition KMPProvisionerFromIssuerAndSecretData (spec : IssuerSpec) (secretData : secret_data)
  : res Provisioner :=
  try kmpSigner := signerFromIssuerAndSecretData (Some spec) secretData in
  Ok (kmpSigner_Provision kmpSigner).

Definition KMPSignerFromIssuerAndSecretData (spec : IssuerSpec) (secretData : secret_data)
  : res CertificateSigner :=
  try kmpSigner := signerFromIssuerAndSecretData (Some spec) secretData in
  Ok (kmpSigner_Sign kmpSigner).

(** The two objects [main] registers with the manager. *)
Definition main_issuer (clusterResourceNamespace : string) : Issuer :=
  MkIssuer KMPHealthCheckerFromIssuerAndSecretData KMPSignerFromIssuerAndSecretData
    clusterResourceNamespace.

Definition main_reconciler (clusterResourceNamespace : string) : KMPCertificateReconciler :=
  MkReconciler clusterResourceNamespace KMPProvisionerFromIssuerAndSecretData None.
End main.

(** ** The wired controllers *)

Section wiring.
Context `{Unicode, Conversions, Env, PublicKeys, !X509, !PrivateKeys, !Pem, !Kubernetes}.

Lemma addressed_is_sent c lookup xs : Forall (addressed c lookup) xs → Forall is_sent xs.
Proof. intros Hxs. eapply Forall_impl; [exact Hxs|]. by intros []. Qed.

#[export] Instance kmpSigner_ProvisionerOk o : ProvisionerOk (kmpSigner_Provision o).
Proof.
  intros ctx req w. eapply run_conseq; [apply run_Provision_outcome|].
  intros res w' xs _ [Ha Hr]. eauto using addressed_is_sent.
Qed.

#[export] Instance main_reconciler_ok ns : ReconcilerOk (main_reconciler ns).
Proof.
  split.
  - intros spec data p. simpl. unfold KMPProvisionerFromIssuerAndSecretData.
    destruct (signerFromIssuerAndSecretData _ _) as [o|]; [|done]. simpl. intros [= <-].
    apply kmpSigner_ProvisionerOk.
  - intros w. by apply run_now.
Qed.

Lemma kmpSigner_Check_sends o ctx : only_sends (kmpSigner_Check o ctx).
Proof.
  intros w. unfold kmpSigner_Check, Ping. apply run_bind.
  apply run_GetCertificate; [by left|]. intros r w' xs Hop.
  apply (plain_addressed "") in Hop; [|auto with kmp]. apply addressed_is_sent in Hop.
  destruct r; run_step; by rewrite app_nil_r.
Qed.

Lemma Sign_sends s ctx req : only_sends (Sign s ctx req).
Proof. intros w. eapply run_conseq; [apply run_Sign_outcome|]. intros r w' xs _ [Ha _]. by eapply addressed_is_sent. Qed.

(** A bundle is for the CSR of the request. *)
Lemma Sign_fulfils s ctx req w b : (Sign s ctx req w).1 = Ok b → fulfils (CSRPEM req) b.
Proof.
  intros Hb. destruct (run_Sign_outcome s ctx req w) as (xs & _ & _ & _ & Hr). rewrite Hb in Hr.
  destruct Hr as (csr & certs & path & _ & _ & _ & _ & ? & ? & ? & _). by exists csr, certs, path.
Qed.

Lemma main_getSecretData_sends ns ctx spec namespace : only_sends (getSecretData (main_issuer ns) ctx spec namespace).
Proof.
  apply getSecretData_sends. intros data checker. simpl. unfold KMPHealthCheckerFromIssuerAndSecretData.
  destruct (signerFromIssuerAndSecretData _ _); [|done]. simpl. intros [= <-]. apply kmpSigner_Check_sends.
Qed.

(** The request a CertificateRequest becomes. *)
Definition sign_request (details : CertificateDetails) : Request :=
  MkRequest (det_CSR details) (det_Duration details) (det_IsCA details).

(** C2: what the wired controller answers to a CertificateRequest.  What goes
    wrong with the issuer - its type, its credentials, the health check, a signer
    that cannot be built - is reported against the issuer; a request that cannot
    be read is not.  Otherwise the signer runs on exactly this request.  If that
    fails, the error reported is one of signing and not of the issuer, and it
    stops the retries exactly when the error the signer returned is permanent;
    if it succeeds, the bundle is the split of the chain it returned, whose leaf
    is for the public key of the CSR of this request and carries all its names.
    Nothing but requests is sent. *)
Theorem Issuer_Sign_correct ns ctx cr obj w :
  run (Issuer_Sign (main_issuer ns) ctx cr obj) w (λ r _ xs,
    Forall is_sent xs ∧
    match getIssuerDetails (main_issuer ns) obj with
    | Err e => xs = [] ∧ r = Err (IssuerErr e)
    | Ok (spec, namespace) =>
      let credentials := getSecretData (main_issuer ns) ctx spec namespace w in
      match credentials.1, cr with
      | Err e, _ => r = Err (IssuerErr e)
      | Ok _, Err e => r = Err e
      | Ok data, Ok details =>
        match signerFromIssuerAndSecretData (Some spec) data with
        | Err e => ∃ e', r = Err e' ∧ is_issuer_error e' = true ∧ errors_is e' errSignerBuilder = true
        | Ok ks =>
          match (Sign (ks_signer ks) ctx (sign_request details) credentials.2).1 with
          | Err cause => ∃ e, r = Err e ∧ errors_is e errSignerSign = true ∧ is_issuer_error e = false ∧
                           is_permanent_error e = IsPermanent cause
          | Ok bundle =>
            fulfils (det_CSR details) bundle ∧
            match ParseSingleCertificateChainPEM (ChainPEM bundle) with
            | Ok (chain, ca) => r = Ok (MkPEMBundle chain ca)
            | Err msg => r = Err (New msg)
            end
          end
        end
      end
    end).
Proof.
  unfold Issuer_Sign. destruct (getIssuerDetails (main_issuer ns) obj) as [[spec namespace]|err]; [|by run_step].
  cbv zeta. run_step. eapply run_conseq; [apply run_known, main_getSecretData_sends|].
  intros r w1 xs _ (Hr & Hw1 & Hxs). rewrite <- Hr, <- Hw1. destruct r as [data|e]; [|done].
  destruct cr as [details|e]; [|run_step; by rewrite app_nil_r].
  cbn [SignerBuilder main_issuer]. unfold KMPSignerFromIssuerAndSecretData.
  destruct (signerFromIssuerAndSecretData (Some spec) data) as [ks|e] eqn:Eks; cbn [result_bind].
  2:{ run_step. rewrite app_nil_r. split; [done|]. eexists. split_and!; [done..|].
      cbn [errors_is report_as mark]. by rewrite bool_decide_eq_true_2. }
  unfold kmpSigner_Sign. fold (sign_request details). do 2 apply run_bind.
  eapply run_conseq; [apply run_known, Sign_sends|]. intros r w2 ys _ (Hb & _ & Hys). rewrite <- Hb.
  assert (Forall is_sent (xs ++ ys)) by by apply Forall_app.
  destruct r as [bundle|cause].
  - pose proof (Sign_fulfils _ _ _ _ _ (eq_sym Hb)) as Hf. cbv beta iota. apply run_ret.
    destruct (ParseSingleCertificateChainPEM (ChainPEM bundle)) as [[chain ca]|msg]; run_step; by rewrite !app_nil_r.
  - do 2 run_step. rewrite !app_nil_r. split; [done|]. eexists. split; [done|].
    by destruct (permanentIfUnrecoverable_spec errSignerSign cause) as (? & ? & ?).
Qed.

(** C17: what the wired KMPCertificate controller returns and the status it
    stores agree with what the attempt came to.  A resource that is gone or
    being deleted is left alone, without an error; one that cannot be read is
    reported.  Otherwise the Ready condition is that of the attempt: true if
    the Secret was current or a certificate was issued, and then the controller
    is called again after a second or more and there is no error; false, with
    the text of the error the attempt returned, if it failed, and then that
    very error is returned unless it is permanent, in which case the controller
    is not called again.  A status that changed is written before that, for the
    resource that was read and with nothing of its name or spec changed; if the
    write fails, that is what is reported, whatever the attempt came to.  No
    result asks for less than a second. *)
Theorem Reconcile_result_agrees ns ctx name w :
  run (Reconcile (main_reconciler ns) ctx name) w (λ result _ xs,
    (RequeueAfter result = 0 ∨ Second ≤ RequeueAfter result) ∧
    match answer (get_KMPCertificate ctx name) w with
    | Err (NotFound _) => result = MkResult 0 None ∧ xs = []
    | Err (ApiError msg) => result = MkResult 0 (Some (New msg)) ∧ xs = []
    | Ok certificate =>
      if bool_decide (cert_DeletionTimestamp certificate = None) then
        ∃ result' certificate',
          cert_Name certificate' = cert_Name certificate ∧ cert_Spec certificate' = cert_Spec certificate ∧
          settled (attempt (main_reconciler ns) ctx certificate (called (get_KMPCertificate ctx name) w))
            result' certificate' ∧
          ((cert_Status certificate' = cert_Status certificate ∧ result = result' ∧
            ∀ c failure, StatusWritten c failure ∉ xs) ∨
           ∃ failure, last xs = Some (StatusWritten certificate' failure) ∧
             match failure with
             | None => result = result'
             | Some msg => ∃ what, result = MkResult 0 (Some (wrap what (New msg)))
             end)
      else result = MkResult 0 None ∧ xs = []
    end).
Proof.
  eapply run_conseq; [apply run_Reconcile, _|]. intros result w' xs _ [Hxs Hreq]. split; [done|].
  destruct (answer _ _) as [certificate|[msg|msg]]; simpl in Hxs; [|by destruct Hxs..].
  destruct (cert_DeletionTimestamp certificate); [by destruct Hxs|].
  rewrite bool_decide_eq_true_2 by done.
  destruct Hxs as (body & status & result' & c & -> & Hbody & ? & ? & ? & Hstatus). exists result', c.
  split_and!; [done..|]. destruct Hstatus as [(-> & ? & ->)|[[-> ->]|(msg & what & -> & ->)]].
  - left. split_and!; [done..|]. intros c' failure. rewrite app_nil_r. by eapply body_log_no_status.
  - right. exists None. by rewrite last_snoc.
  - right. exists (Some msg). rewrite last_snoc. eauto.
Qed.

(** What the signer's cert-manager accepts of Key Manager Plus: the chain built
    from any certificates that [e] has KMP publish for [pub] is one that
    [ParseSingleCertificateChainPEM] can order. *)
Definition published_splits (s : Signer) (pub : option public_key) (e : event) : Prop :=
  ∀ cn sn certs bundle path, got (client s) cn sn (Ok certs) [e] → bundle_ok certs pub bundle path →
    ∃ chain ca, ParseSingleCertificateChainPEM (ChainPEM bundle) = Ok (chain, ca).

Lemma published_split s pub before fetched after cn sn certs bundle path :
  Forall (published_splits s pub) (before ++ fetched ++ after) → got (client s) cn sn (Ok certs) fetched →
  bundle_ok certs pub bundle path → ∃ chain ca, ParseSingleCertificateChainPEM (ChainPEM bundle) = Ok (chain, ca).
Proof.
  intros [_ [Hf _]%Forall_app]%Forall_app Hg Hb. destruct (operation_Ok _ _ _ _ _ Hg) as [o ->].
  rewrite Forall_singleton in Hf. exact (Hf _ _ _ _ _ Hg Hb).
Qed.

(** A misconfigured issuer is a permanent failure for whoever builds a
    signer from it, but the two controllers keep only the text of the error:
    what they report is neither permanent nor a stop to the retries. *)
Theorem signer_build_failure_is_retried ns spec data :
  match ProvisionerBuilder (main_reconciler ns) spec data with
  | Ok _ => True
  | Err e => IsPermanent e = true ∧ IsPermanent (report_as errSignerBuilder e) = false
  end ∧
  match SignerBuilder (main_issuer ns) spec data with
  | Ok _ => True
  | Err e => IsPermanent e = true ∧ is_permanent_error (IssuerErr (report_as errSignerBuilder e)) = false
  end.
Proof.
  simpl. unfold KMPProvisionerFromIssuerAndSecretData, KMPSignerFromIssuerAndSecretData.
  destruct (signerFromIssuerAndSecretData (Some spec) data) as [o|e] eqn:E; [done|].
  by apply signerFromIssuerAndSecretData_Err in E.
Qed.
End wiring.
