(* ===== verification/Confinement.v ===== *)
(** * Where credentials go

    The wired controllers take the token of the Secret an issuer names, and send
    it to the server that issuer gives, to the operations of Key Manager Plus and
    the lookup operation the issuer configures; it gets elsewhere only where the
    answers of that server redirect to. *)

From S2P Require Import Prelude GoStrings GoFloat GoAny GoHttp Errors GoNet X509 Chain Verify World Client Signer PrivateKey Provision Api KmpSigner Kubernetes Issuer Reconciler Main.
Local Open Scope go_scope.
Local Open Scope Z_scope.

(** ** Computations whose events have a property *)

Section emits.
Context `{Env}.

(** Every event of [m] satisfies [P], and its result [R]. *)
Definition emits {A} (P : event → Prop) (R : A → Prop) (m : io A) : Prop :=
  ∀ w, run m w (λ a _ xs, R a ∧ Forall P xs).

Context {A B : Type} (P : event → Prop).

Lemma emits_ret (R : A → Prop) a : R a → emits P R (io_ret a).
Proof. intros Ha w. by run_step. Qed.

Lemma emits_bind (R : A → Prop) (S : B → Prop) m k :
  emits P R m → (∀ a, R a → emits P S (k a)) → emits P S (io_bind m k).
Proof.
  intros Hm Hk w. apply run_bind. eapply run_conseq; [apply Hm|]. intros a w1 xs _ [Ha Hxs].
  eapply run_conseq; [by apply Hk|]. intros b w2 ys _ [Hb Hys]. split; [done|]. by apply Forall_app.
Qed.

Lemma emits_any (R : A → Prop) m : emits P R m → emits P (λ _, True) m.
Proof. intros Hm w. eapply run_conseq; [apply Hm|]. by intros a w' xs _ [_ ?]. Qed.

Lemma emits_weaken (P' : event → Prop) (R : A → Prop) m :
  (∀ e, P' e → P e) → emits P' R m → emits P R m.
Proof.
  intros HP Hm w. eapply run_conseq; [apply Hm|]. intros a w' xs _ [? Hxs]. split; [done|].
  by eapply Forall_impl.
Qed.

Lemma emits_next (s : nat → A) : emits P (λ _, True) (next s).
Proof. intros w. by run_step. Qed.

Lemma emits_now : emits P (λ _, True) time_now.
Proof. intros w. by run_step. Qed.
End emits.

Section confinement.
Context `{Unicode, Conversions, Env, PublicKeys, !X509, !PrivateKeys, !Pem, !Kubernetes}.

Lemma emits_api {A} P (call : api_call A) : emits P (answered call) (api call).
Proof.
  intros w. apply run_api_answer. intros w' _. split; [|done]. by exists (w_now w), (w_outside w).
Qed.

Lemma emits_note (P : event → Prop) e : P e → emits P (λ _, True) (note e).
Proof. intros He w. apply run_note. intros w' _. split; [done|]. by constructor. Qed.

(** ** Requests of an issuer *)

(** The event is a request to the server of [spec], to an operation of its API;
    what is put on the wire for it carries the token of [data], and is that very
    request or one to a URL an answer redirected to. *)
Definition request_of (spec : IssuerSpec) (data : secret_data) (e : event) : Prop :=
  match e with
  | Sent req result =>
    (∃ u, url_Parse (trim_space (spec_URL spec)) = Some u ∧
      (unzoned (Host u) →
       Scheme (URL req) = Scheme u ∧ Host (URL req) = drop_empty_port (Host u) ∧
       ∃ op, known_operation (sig_CSRLookupOperation (Signing spec)) op ∧
         Path (URL req) = path_join [Path u; apiBasePath; op] ∧
         ((op = sig_CSRLookupOperation (Signing spec) → plain_element op) →
          Path (URL req) = base_path (Path u) +:+ "/api/pki/restapi/" +:+ op))) ∧
    ∀ r, r ∈ wire req result →
      map_get "Authtoken" (Header r) = Some (trim_space (trim_space (data_get AuthSecretTokenKey data))) ∧
      (r = req ∨ ∃ status, (status, URL r) ∈ redirects result)
  | _ => False
  end.

Lemma api_operation_plain op :
  op ∈ [opImportCSR; opSignCSR; opGetCertificate; opCreateCSR; opExportCSR] → plain_element op.
Proof. rewrite !elem_of_cons, elem_of_nil. intros [->|[->|[->|[->|[->|[]]]]]]; (split; [done|set_solver]). Qed.

Lemma wire_token c lookup req result r :
  addressed c lookup (Sent req result) → r ∈ wire req result →
  map_get "Authtoken" (Header r) = Some (authToken c) ∧
  (r = req ∨ ∃ status, (status, URL r) ∈ redirects result).
Proof.
  intros [_ Htok] [->|[? Hk]]%wire_from_spec; [by split; [|left]|]. split; [|by right].
  by rewrite Hk, Htok.
Qed.

Lemma addressed_request_of spec data ks e :
  signerFromIssuerAndSecretData (Some spec) data = Ok ks → sent_by (ks_signer ks) e →
  request_of spec data e.
Proof.
  intros Hks He. pose proof (signer_http _ _ _ Hks) as Hhttp. pose proof (signerFromIssuerAndSecretData_parts _ _ _ Hks) as (Hp & Htok & Hopts).
  unfold sent_by in He. destruct e as [req o| | |]; try done. split.
  2:{ intros r Hr. rewrite <- Htok. by eapply wire_token. }
  exists (baseURL (client (ks_signer ks))). split; [done|]. intros Hz. specialize (Hhttp Hz). destruct He as [Hu _].
  destruct (Hu Hhttp) as (? & ? & op & Hop & Hpath). rewrite Hopts in Hop. split_and!; [done..|].
  exists op. split_and!; [done..|]. intros Hplain. rewrite Hpath.
  assert (plain_element op) as Hpl by (destruct Hop as [?|[? _]]; [by apply api_operation_plain|by apply Hplain]).
  pose proof (endpoint_Path _ _ (http_path _ Hhttp) Hpl) as Hep.
  change ("/api/pki/restapi/" +:+ op) with (apiBasePath +:+ "/" +:+ op). exact Hep.
Qed.

Lemma Forall_request_of spec data ks xs :
  signerFromIssuerAndSecretData (Some spec) data = Ok ks → Forall (sent_by (ks_signer ks)) xs →
  Forall (request_of spec data) xs.
Proof. intros Hks Hxs. eapply Forall_impl; [exact Hxs|]. intros e. by apply addressed_request_of. Qed.

Lemma provisioner_requests spec data p ctx req :
  KMPProvisionerFromIssuerAndSecretData spec data = Ok p →
  emits (request_of spec data) (λ _, True) (p ctx req).
Proof.
  unfold KMPProvisionerFromIssuerAndSecretData. destruct (signerFromIssuerAndSecretData _ _) as [ks|] eqn:E; [|done].
  intros [= <-] w. eapply run_conseq; [apply run_Provision_outcome|]. intros r w' xs _ [Ha _]. split; [done|].
  by eapply Forall_request_of.
Qed.

Lemma checker_requests spec data checker ctx :
  KMPHealthCheckerFromIssuerAndSecretData spec data = Ok checker →
  emits (request_of spec data) (λ _, True) (checker ctx).
Proof.
  unfold KMPHealthCheckerFromIssuerAndSecretData. destruct (signerFromIssuerAndSecretData _ _) as [ks|] eqn:E; [|done].
  intros [= <-] w. unfold kmpSigner_Check, Ping. apply run_bind.
  apply run_GetCertificate; [by left|]. intros r w' xs Hop. rewrite <- (built_client _ _ _ E) in Hop.
  apply (plain_addressed (opt_CSRLookupOperation (opts (ks_signer ks)))) in Hop; [|auto with kmp].
  destruct r; run_step; rewrite app_nil_r; (split; [done|]); by eapply Forall_request_of.
Qed.

Lemma signer_requests spec data sign ctx details :
  KMPSignerFromIssuerAndSecretData spec data = Ok sign →
  emits (request_of spec data) (λ _, True) (sign ctx details).
Proof.
  unfold KMPSignerFromIssuerAndSecretData. destruct (signerFromIssuerAndSecretData _ _) as [ks|] eqn:E; [|done].
  intros [= <-] w. unfold kmpSigner_Sign. run_step. eapply run_conseq; [apply run_Sign_outcome|].
  intros [b|e] w' xs _ [Ha _]; [run_step; rewrite app_nil_r|]; (split; [done|]); by eapply Forall_request_of.
Qed.

(** The event is a request to the server of the issuer with the token of the
    Secret it names. *)
Definition confined ctx (spec : IssuerSpec) (namespace : string) (e : event) : Prop :=
  ∃ auth, answered (get_Secret ctx (MkName namespace (AuthSecretName spec))) (Ok auth) ∧
    request_of spec (sec_Data auth) e.

(** ** The callbacks of issuer-lib *)

Lemma emits_getSecretData ns ctx spec namespace :
  emits (confined ctx spec namespace)
    (λ r, match r with
          | Ok data => ∃ auth, answered (get_Secret ctx (MkName namespace (AuthSecretName spec))) (Ok auth) ∧ data = sec_Data auth
          | Err _ => True
          end)
    (getSecretData (main_issuer ns) ctx spec namespace).
Proof.
  unfold getSecretData. eapply emits_bind; [apply emits_api|]. intros [auth|e] Hauth; [|by apply emits_ret].
  cbn [HealthCheckerBuilder main_issuer].
  destruct (KMPHealthCheckerFromIssuerAndSecretData _ _) as [checker|e] eqn:E; [|by apply emits_ret].
  eapply emits_bind.
  - eapply emits_weaken; [|by eapply checker_requests]. intros e He. by exists auth.
  - intros [e|] _; apply emits_ret; [done|by exists auth].
Qed.

Lemma emits_Issuer_Check ns ctx obj :
  emits (λ e, ∃ spec namespace, getIssuerDetails (main_issuer ns) obj = Ok (spec, namespace) ∧ confined ctx spec namespace e)
    (λ _, True) (Issuer_Check (main_issuer ns) ctx obj).
Proof.
  unfold Issuer_Check. destruct (getIssuerDetails _ obj) as [[spec namespace]|e]; [|by apply emits_ret].
  eapply emits_bind; [|by intros; apply emits_ret].
  eapply emits_weaken; [|apply emits_getSecretData]. eauto.
Qed.

Lemma emits_Issuer_Sign ns ctx cr obj :
  emits (λ e, ∃ spec namespace, getIssuerDetails (main_issuer ns) obj = Ok (spec, namespace) ∧ confined ctx spec namespace e)
    (λ _, True) (Issuer_Sign (main_issuer ns) ctx cr obj).
Proof.
  unfold Issuer_Sign. destruct (getIssuerDetails _ obj) as [[spec namespace]|e]; [|by apply emits_ret].
  apply (emits_weaken _ (confined ctx spec namespace)); [eauto|].
  eapply emits_bind; [apply emits_getSecretData|]. intros [data|e] Hdata; [|by apply emits_ret].
  destruct Hdata as (auth & Hauth & ->). destruct cr as [details|e]; [|by apply emits_ret].
  cbn [SignerBuilder main_issuer].
  destruct (KMPSignerFromIssuerAndSecretData _ _) as [sign|e] eqn:E; [|by apply emits_ret].
  eapply emits_bind.
  - eapply emits_weaken; [|by eapply signer_requests]. intros e He. by exists auth.
  - intros [signed|e] _; [|by apply emits_ret].
    destruct (ParseSingleCertificateChainPEM signed) as [[chain ca]|msg]; by apply emits_ret.
Qed.

(** ** The KMPCertificate controller *)

(** The issuer a resource names, as the API server has it. *)
Definition issuer_of ns ctx certificate (spec : IssuerSpec) (namespace : string) : Prop :=
  let ref := IssuerRef (cert_Spec certificate) in
  let kind := if nonempty (ref_Kind ref) then ref_Kind ref else "KMPIssuer" in
  (kind = "KMPIssuer" ∧ ∃ issuer,
     answered (get_KMPIssuer ctx (MkName (Namespace (cert_Name certificate)) (ref_Name ref))) (Ok issuer) ∧
     spec = iss_Spec issuer ∧ namespace = Namespace (iss_Name issuer)) ∨
  (kind = "KMPClusterIssuer" ∧ ∃ issuer,
     answered (get_KMPClusterIssuer ctx (ref_Name ref)) (Ok issuer) ∧ spec = ciss_Spec issuer ∧ namespace = ns).

(** A request made for a resource goes to its issuer; other events are free. *)
Definition requests_confined ns ctx certificate (e : event) : Prop :=
  is_sent e → ∃ spec namespace, issuer_of ns ctx certificate spec namespace ∧ confined ctx spec namespace e.

Lemma emits_resolveIssuer P ns ctx certificate :
  emits P (λ r, match r with Ok (spec, namespace) => issuer_of ns ctx certificate spec namespace | Err _ => True end)
    (resolveIssuer (main_reconciler ns) ctx certificate).
Proof.
  unfold resolveIssuer, issuer_of. cbv zeta. case_bool_decide as E1; [|case_bool_decide as E2; [|by apply emits_ret]].
  - eapply emits_bind; [apply emits_api|]. intros [issuer|e] Ha; apply emits_ret; [|done].
    left. split; [done|]. by exists issuer.
  - eapply emits_bind; [apply emits_api|]. intros [issuer|e] Ha; apply emits_ret; [|done].
    right. split; [done|]. by exists issuer.
Qed.

Lemma emits_keyStorePassword P ctx certificate : emits P (λ _, True) (keyStorePassword ctx certificate).
Proof.
  unfold keyStorePassword, generatePassword. destruct (KeyStorePasswordSecretRef _) as [ref|].
  - cbv zeta. eapply emits_bind; [apply emits_api|]. intros [secret|e] _; [|by apply emits_ret].
    case_bool_decide; by apply emits_ret.
  - eapply (emits_bind _ (λ _, True)); [|intros [?|?] _; by apply emits_ret].
    eapply emits_bind; [apply emits_next|]. intros [?|?] _; by apply emits_ret.
Qed.

Lemma emits_writeSecret ns ctx certificate chain ca key password generated :
  emits (requests_confined ns ctx certificate) (λ _, True)
    (writeSecret ctx certificate chain ca key password generated).
Proof.
  unfold writeSecret. eapply (emits_bind _ (λ _, True)); [|by intros; apply emits_ret]. intros w.
  apply run_CreateOrUpdate.
  - intros. split; [done|]. constructor.
  - intros. split; [done|]. constructor; [by intros []|constructor].
Qed.

Lemma emits_issue_pair ns ctx certificate :
  emits (requests_confined ns ctx certificate) (λ _, True) (issue_pair (main_reconciler ns) ctx certificate).
Proof.
  unfold issue_pair. eapply emits_bind; [apply emits_resolveIssuer|]. intros [[spec namespace]|e] Hiss; [|by apply emits_ret].
  cbv zeta. eapply emits_bind; [apply emits_api|]. intros [auth|e] Hauth; [|by apply emits_ret].
  eapply emits_bind; [apply emits_keyStorePassword|]. intros [[password generated]|e] _; [|by apply emits_ret].
  cbn [ProvisionerBuilder main_reconciler].
  destruct (KMPProvisionerFromIssuerAndSecretData _ _) as [p|e] eqn:E; [|by apply emits_ret].
  eapply emits_bind.
  { eapply emits_weaken; [|by eapply provisioner_requests]. intros e He _. exists spec, namespace.
    split; [done|]. by exists auth. }
  intros [pc|e] _; [|by apply emits_ret].
  destruct (ParseSingleCertificateChainPEM _) as [[chain ca]|msg]; [|by apply emits_ret].
  eapply emits_bind; [apply emits_writeSecret|]. intros [e|] _; by apply emits_ret.
Qed.

Lemma emits_set_ready P certificate status reason message :
  emits P (λ _, True) (set_ready certificate status reason message).
Proof. unfold set_ready. eapply emits_bind; [apply emits_now|]. intros. by apply emits_ret. Qed.

Lemma emits_renewal_clock P ns renewAt : emits P (λ _, True) (renewal_clock (main_reconciler ns) renewAt).
Proof. unfold renewal_clock. destruct renewAt; [apply emits_now|by apply emits_ret]. Qed.

Lemma emits_request_certificate ns ctx certificate :
  emits (requests_confined ns ctx certificate) (λ _, True) (request_certificate (main_reconciler ns) ctx certificate).
Proof.
  unfold request_certificate, issue. eapply (emits_bind _ (λ _, True)).
  - eapply emits_bind; [apply emits_issue_pair|]. intros [?|?] _; by apply emits_ret.
  - intros [c|e] _.
    + eapply emits_bind; [apply emits_set_ready|]. intros c' _.
      eapply emits_bind; [by apply emits_note; intros []|]. intros _ _. cbv zeta.
      eapply emits_bind; [apply emits_renewal_clock|]. intros. by apply emits_ret.
    + eapply emits_bind; [apply emits_set_ready|]. intros c' _.
      eapply emits_bind; [by apply emits_note; intros []|]. intros _ _. by destruct (IsPermanent e); apply emits_ret.
Qed.

Lemma emits_reconcile_body ns ctx certificate :
  emits (requests_confined ns ctx certificate) (λ _, True) (reconcile_body (main_reconciler ns) ctx certificate).
Proof.
  unfold reconcile_body. eapply (emits_bind _ (λ _, True)).
  - unfold issuanceNeeded. cbv zeta. eapply emits_bind; [apply emits_api|].
    intros [secret|[msg|msg]] _; [|by apply emits_ret..].
    destruct (secret_state _ _ secret); [by apply emits_ret|].
    eapply emits_bind; [apply emits_now|]. intros now _. destruct (_ <=? _); by apply emits_ret.
  - intros [[reason renewAt] needed] _. destruct needed; cbn [negb]; [apply emits_request_certificate|].
    eapply emits_bind; [apply emits_set_ready|]. intros c' _.
    eapply emits_bind; [apply emits_renewal_clock|]. intros. by apply emits_ret.
Qed.

(** All requests of a reconciliation go to the issuer of the resource that was
    read. *)
Lemma run_Reconcile_confined ns ctx name w :
  run (Reconcile (main_reconciler ns) ctx name) w (λ _ _ xs,
    Forall (λ e, is_sent e → ∃ certificate, answer (get_KMPCertificate ctx name) w = Ok certificate ∧
                   requests_confined ns ctx certificate e) xs).
Proof.
  unfold Reconcile. apply run_bind, run_api_answer. intros w1 _.
  destruct (answer _ w) as [certificate|[msg|msg]]; [|by run_step..].
  case_bool_decide; [by run_step|]. cbv zeta.
  assert (emits (requests_confined ns ctx certificate) (λ _, True)
    (let! (result, certificate') := reconcile_body (main_reconciler ns) ctx certificate in
     if bool_decide (cert_Status certificate = cert_Status certificate') then io_ret result
     else let! failure := write_Status ctx certificate' in
          match failure with
          | None => io_ret result
          | Some msg => io_ret (MkResult 0 (Some (wrap ("updating the status of " +:+ name_text name) (New msg))))
          end)) as Hbody.
  { eapply emits_bind; [apply emits_reconcile_body|]. intros [result certificate'] _.
    case_bool_decide; [by apply emits_ret|]. eapply (emits_bind _ (λ _, True)).
    - unfold write_Status. eapply emits_bind; [apply emits_api|]. intros failure _.
      eapply emits_bind; [by apply emits_note; intros []|]. intros. by apply emits_ret.
    - intros [msg|] _; by apply emits_ret. }
  eapply run_conseq; [apply Hbody|]. intros result w' xs _ [_ Hxs]. simpl.
  eapply Forall_impl; [exact Hxs|]. intros e He Hsent. by exists certificate.
Qed.
End confinement.
