(* ===== verification/Escrow.v ===== *)
(** * What is behind the Secrets that are written

    The password that protects a key in Key Manager Plus is sent once, when the
    pair is created.  The controller keeps what it takes to use the escrow: the
    Secret it writes holds the very key that was exported, and the password it
    was created under, if the controller made that up.  A run lemma ties every
    Secret that is written to the exchanges logged before it, and to the Secret
    that was there. *)

From S2P Require Import Prelude GoStrings GoFloat GoAny GoHttp Errors Response GoNet X509 Chain World Client Signer PrivateKey Provision Api KmpSigner Kubernetes Issuer Reconciler Main Confinement.
Local Open Scope go_scope.
Local Open Scope Z_scope.

Section escrow.
Context `{Unicode, Conversions, Env, PublicKeys, !X509, !PrivateKeys, !Pem, !Kubernetes}.

(** ** The exchanges behind a pair *)

(** What is sent and answered for a pair: its key is created under the password,
    the request with the id is signed, and the key is exported. *)
Definition escrowed c (password id exported : string) (xs : list event) : Prop :=
  ∃ details signing (o1 o2 o3 : exchange),
    map_get "PASSWORD" details = Some (Str password) ∧ CSRID signing = id ∧ delivers o3 exported ∧
    [Sent (plain_request c "POST" opCreateCSR details) o1;
     Sent (plain_request c "POST" opSignCSR (SignRequest_details signing)) o2;
     Sent (export_request c id "") o3] `sublist_of` xs.

Lemma password_sent r :
  create_Password r ≠ "" → map_get "PASSWORD" (CreateCSRRequest_details r) = Some (Str (create_Password r)).
Proof.
  intros Hpw. destruct (CreateCSRRequest_details_fields (create_optional r) r) as [_ Hget]; [done|].
  rewrite Hget. unfold create_field. simpl. unfold nonempty. by rewrite bool_decide_eq_true_2.
Qed.

Lemma provisioning_escrowed s ctx certificate password t0 t1 pc xs :
  password ≠ "" → provisioning s ctx (provisionRequest certificate password) t0 t1 (Ok pc) xs →
  ∃ id exported key,
    escrowed (client s) password id exported xs ∧
    ParseExportedPrivateKey exported password = Ok (MkPrivateKey key (pc_PrivateKeyPEM pc)).
Proof.
  intros Hpw Hp. remember (Ok pc) as r eqn:Hr.
  destruct Hp as [| | | | |stored id result certs exported xs ys zs us vs Hc Hres Hs Hf He]; try done.
  apply pair_Ok in Hr as (_ & _ & key & path & [Hkey _ _ _ _]).
  exists id, exported, key. split; [|done].
  apply operation_Ok in Hc as [o1 ->]. apply operation_Ok in Hs as [o2 ->].
  apply exports_delivers in He as (o3 & -> & Hd).
  exists (CreateCSRRequest_details (create_request (provisionRequest certificate password))),
    (provision_sign_request s id), o1, o2, o3.
  split_and!; [exact (password_sent (create_request (provisionRequest certificate password)) Hpw)|apply signRequest_CSRID|exact Hd|].
  simpl. apply sublist_skip, sublist_inserts_l, sublist_skip, sublist_inserts_l. done.
Qed.

(** ** Secrets and what is behind them *)

Definition no_secret (e : event) : Prop := match e with SecretWritten _ _ _ _ => False | _ => True end.

(** [before] is the log of a provisioning of [certificate] under [password], and
    [secret] what [writeSecret] makes of the pair and of the Secret it found. *)
Definition backed ctx certificate (s : Signer) (password : string) (pc : ProvisionedCertificate) (chain ca : string)
    (found : option Secret) (secret : Secret) (before : list event) : Prop :=
  password ≠ "" ∧
  (∃ t0 t1, provisioning s ctx (provisionRequest certificate password) t0 t1 (Ok pc) before) ∧
  ParseSingleCertificateChainPEM (ChainPEM (pc_Bundle pc)) = Ok (chain, ca) ∧
  (∃ got, answered (get_Secret ctx (secret_name certificate)) got ∧ present got = Some found) ∧
  fill_secret certificate chain ca (pc_PrivateKeyPEM pc) password (made_up certificate) (default blank_Secret found) = Ok secret.

(** Every Secret that is written is the resource's and has its exchanges before
    it in the log. *)
Definition accounted ctx certificate (xs : list event) : Prop :=
  ∀ n found secret failure, SecretWritten n found secret failure ∈ xs →
  n = secret_name certificate ∧
  ∃ s password pc chain ca before, backed ctx certificate s password pc chain ca found secret before ∧
    before ++ [SecretWritten n found secret failure] `sublist_of` xs.

Lemma accounted_quiet ctx certificate xs : Forall no_secret xs → accounted ctx certificate xs.
Proof. intros Hxs n found secret failure Hin. rewrite Forall_forall in Hxs. by apply Hxs in Hin. Qed.

Lemma accounted_app ctx certificate xs ys :
  accounted ctx certificate xs → Forall no_secret ys → accounted ctx certificate (xs ++ ys).
Proof.
  intros Hxs Hys n found secret failure [Hin|Hin]%elem_of_app.
  - destruct (Hxs n found secret failure Hin) as [? (s & pw & pc & chain & ca & before & ? & Hsub)]. split; [done|].
    exists s, pw, pc, chain, ca, before. split; [done|]. by apply sublist_inserts_r.
  - rewrite Forall_forall in Hys. by apply Hys in Hin.
Qed.

Lemma accounted_write ctx certificate s password pc chain ca n found secret failure before :
  Forall no_secret before → n = secret_name certificate →
  backed ctx certificate s password pc chain ca found secret before →
  accounted ctx certificate (before ++ [SecretWritten n found secret failure]).
Proof.
  intros Hbefore Hn Hb n' found' secret' failure' [Hin|Hin]%elem_of_app.
  - rewrite Forall_forall in Hbefore. by apply Hbefore in Hin.
  - apply list_elem_of_singleton in Hin as [= -> -> -> ->]. split; [done|].
    by exists s, password, pc, chain, ca, before.
Qed.

(** ** The controller *)

Lemma run_provisioner_log spec data p ctx certificate password w :
  KMPProvisionerFromIssuerAndSecretData spec data = Ok p →
  run (p ctx (provisionRequest certificate password)) w (λ r _ xs, Forall no_secret xs ∧
    match r with
    | Ok pc => ∃ s t0 t1, password ≠ "" ∧ provisioning s ctx (provisionRequest certificate password) t0 t1 (Ok pc) xs
    | Err _ => True
    end).
Proof.
  unfold KMPProvisionerFromIssuerAndSecretData. destruct (signerFromIssuerAndSecretData _ _) as [ks|]; [|done].
  intros [= <-]. unfold kmpSigner_Provision. set (s := ks_signer ks). set (req := provisionRequest certificate password).
  destruct (decide (trim_space (prov_CommonName req) = "")) as [E1|E1].
  { unfold Provision. rewrite bool_decide_eq_true_2 by done. cbv iota. by run_step. }
  destruct (decide (password = "")) as [E2|E2].
  { unfold Provision. rewrite bool_decide_eq_false_2, bool_decide_eq_true_2 by done. cbv iota. by run_step. }
  eapply run_conseq; [by apply run_Provision|]. intros r w' xs _ Hp. simpl in Hp. split.
  - eapply Forall_impl; [by eapply provisioning_addressed|]. by intros [].
  - destruct r as [pc|e]; [|done]. by exists s, (w_now w), (w_now w').
Qed.

Lemma run_issue_pair_accounted ns ctx certificate w :
  run (issue_pair (main_reconciler ns) ctx certificate) w (λ _ _ xs, accounted ctx certificate xs).
Proof.
  assert (Hnil : accounted ctx certificate []) by (apply accounted_quiet; constructor).
  unfold issue_pair. run_step. apply run_resolveIssuer. intros [[spec namespace]|e] w1; [|done]. cbv zeta.
  apply run_bind, run_api. intros auth w2 _. destruct auth as [auth|e]; [|by run_step].
  run_step. apply run_keyStorePassword; [intros password w3|done]. cbn [ProvisionerBuilder main_reconciler].
  destruct (KMPProvisionerFromIssuerAndSecretData _ _) as [p|e] eqn:E; [|by run_step].
  run_step. eapply run_conseq; [by eapply run_provisioner_log|].
  intros [pc|e] w4 xs _ [Hxs Hpc]; simpl; [|by apply accounted_quiet].
  destruct (ParseSingleCertificateChainPEM _) as [[chain ca]|msg] eqn:Ep; [|run_step; rewrite app_nil_r; by apply accounted_quiet].
  destruct Hpc as (s & t0 & t1 & Hpw & Hprov).
  apply run_bind. eapply (run_conseq _ _ (λ _ _ ys, accounted ctx certificate (xs ++ ys))).
  2:{ intros [msg|] w5 ys _ Hys; run_step; by rewrite app_nil_r. }
  unfold writeSecret. apply run_bind, run_CreateOrUpdate.
  - intros failure w5 _. run_step. rewrite !app_nil_r. by apply accounted_quiet.
  - intros found secret failure w5 [Hgot Hfill]. run_step. rewrite app_nil_r.
    apply (accounted_write _ _ s password pc chain ca); [done..|]. split_and!; [done|by exists t0, t1|done| |done].
    eexists. split; [by exists (w_now w4), (w_outside w4)|done].
Qed.

Lemma run_request_accounted ns ctx certificate w :
  run (request_certificate (main_reconciler ns) ctx certificate) w (λ _ _ xs, accounted ctx certificate xs).
Proof.
  assert (Hnote : ∀ t r m, Forall no_secret [Recorded t r m]) by (repeat constructor).
  unfold request_certificate, issue. apply run_bind, run_try.
  eapply run_conseq; [apply run_issue_pair_accounted|]. intros res w1 xs _ Hxs.
  destruct res as [pc|e]; [run_step|]; rewrite ?app_nil_r; apply run_bind, run_set_ready;
    intros c w2 cond _ _ _ _ _ _; apply run_bind, run_note; intros w3 _.
  - cbv zeta. apply run_bind, run_renewal_clock; [apply _|]. intros now w4. run_step. simpl. by apply accounted_app.
  - destruct (IsPermanent e); run_step; simpl; by apply accounted_app.
Qed.

(** A reconciliation accounts for the Secrets it writes. *)
Lemma run_Reconcile_accounted ns ctx name w :
  run (Reconcile (main_reconciler ns) ctx name) w (λ _ _ xs, ∀ n found secret failure,
    SecretWritten n found secret failure ∈ xs →
    ∃ certificate s password pc chain ca before, answer (get_KMPCertificate ctx name) w = Ok certificate ∧
      cert_DeletionTimestamp certificate = None ∧ n = secret_name certificate ∧
      backed ctx certificate s password pc chain ca found secret before ∧
      before ++ [SecretWritten n found secret failure] `sublist_of` xs).
Proof.
  unfold Reconcile. apply run_bind, run_api_answer. intros w1 _.
  destruct (answer _ w) as [certificate|[msg|msg]]; [|run_step; by intros ???? ?%not_elem_of_nil..].
  case_bool_decide as Ed; [run_step; by intros ???? ?%not_elem_of_nil|]. cbv zeta.
  eapply (run_conseq _ _ (λ _ _ xs, accounted ctx certificate xs)).
  2:{ intros res w2 xs _ Hxs n found secret failure Hin.
      destruct (Hxs n found secret failure Hin) as [? (s & pw & pc & chain & ca & before & ? & ?)].
      by exists certificate, s, pw, pc, chain, ca, before. }
  apply run_bind. eapply (run_conseq _ _ (λ _ _ xs, accounted ctx certificate xs)).
  - unfold reconcile_body. apply run_bind.
    eapply run_conseq; [by apply (run_issuanceNeeded _ _ _ _ (λ _ _ xs, xs = []))|]. intros [[reason renewAt] needed] w2 xs _ ->.
    destruct needed; cbn [negb]; [apply run_request_accounted|].
    apply run_bind, run_set_ready. intros c w3 cond _ _ _ _ _ _. apply run_bind, run_renewal_clock; [apply _|].
    intros now w4. run_step. apply accounted_quiet. constructor.
  - intros [result certificate'] w2 xs _ Hxs. case_bool_decide; [run_step; by rewrite app_nil_r|].
    apply run_bind, run_write_Status. intros [msg|] w3; run_step; simpl; (apply accounted_app; [done|by repeat constructor]).
Qed.

(** ** What [writeSecret] leaves alone *)

Lemma secret_content_other chain ca key password generated data k :
  k ∉ ["tls.crt"; "tls.key"; "ca.crt"; "keystore-password"] →
  data_get k (secret_content chain ca key password generated data) = data_get k data.
Proof.
  intros Hk. unfold secret_content, TLSCertKey, TLSPrivateKeyKey, cmMetaTLSCAKey, KeyStorePasswordSecretKey in *. cbv zeta.
  destruct generated, (nonempty ca); rewrite ?data_get_set, ?bool_decide_eq_false_2 by set_solver; done.
Qed.

Lemma controller_set_kept certificate s s' :
  controller_set certificate s s' → ¬ controlled_by_other certificate s'.
Proof.
  intros [_ _ Hfree _ Hkept] (o & Ho & Hc & Hr). apply Hfree. exists o. split_and!; [|done..]. by apply Hkept.
Qed.

Lemma fill_secret_keeps certificate chain ca key password generated found secret :
  fill_secret certificate chain ca key password generated found = Ok secret →
  ¬ controlled_by_other certificate found ∧ controlled_by certificate secret ∧ ¬ controlled_by_other certificate secret ∧
  ∀ k, k ∉ ["tls.crt"; "tls.key"; "ca.crt"; "keystore-password"] → data_get k (sec_Data secret) = data_get k (sec_Data found).
Proof.
  intros Hset%SetControllerReference_spec. pose proof (controller_set_kept _ _ _ Hset) as Hno.
  destruct Hset as [_ Hdata Hfree Hby _]. simpl in *. split_and!; [done..|].
  intros k Hk. rewrite Hdata. by apply secret_content_other.
Qed.
End escrow.

(** ** Properties *)

Section escrow_claims.
Context `{Unicode, Conversions, Env, PublicKeys, !X509, !PrivateKeys, !Pem, !Kubernetes}.

(** C1: what the wired KMPCertificate controller writes.  It only ever writes the
    Secret of the resource it was called for, which exists and is not being
    deleted.  If the Secret that was there is controlled by another object, it is
    not overwritten; what is written is controlled by the resource and by no
    other object, and keeps the data under all keys that are not the
    controller's.  Its key and chain belong together: before the write, the
    certificates that the last getCertificate was answered with and the file
    that exportCSR was answered with were received, the key is the one that file
    holds, the chain is the split of the chain built from those certificates for
    that key, the leaf certifies the key, and carries the names the resource
    asks for. *)
Theorem Reconcile_writes_only_pairs ns ctx name w :
  run (Reconcile (main_reconciler ns) ctx name) w (λ _ _ xs, ∀ n found secret failure,
    SecretWritten n found secret failure ∈ xs →
    ∃ certificate, answer (get_KMPCertificate ctx name) w = Ok certificate ∧
      cert_DeletionTimestamp certificate = None ∧
      n = MkName (Namespace (cert_Name certificate)) (SecretName (cert_Spec certificate)) ∧
      (∃ got, answered (get_Secret ctx n) got ∧ present got = Some found) ∧
      (∀ old, found = Some old → ¬ controlled_by_other certificate old) ∧
      controlled_by certificate secret ∧ ¬ controlled_by_other certificate secret ∧
      (∀ key, key ∉ ["tls.crt"; "tls.key"; "ca.crt"; "keystore-password"] →
         data_get key (sec_Data secret) = data_get key (sec_Data (default blank_Secret found))) ∧
      ∃ s pc password chain ca before,
        before ++ [SecretWritten n found secret failure] `sublist_of` xs ∧
        obtained s (provisionRequest certificate password) pc before ∧
        ParseSingleCertificateChainPEM (ChainPEM (pc_Bundle pc)) = Ok (chain, ca) ∧
        named_as_asked certificate (Leaf (pc_Bundle pc)) ∧
        stores certificate pc password chain ca secret).
Proof.
  eapply run_conseq; [apply run_Reconcile_accounted|]. intros res w' xs _ Hxs n found secret failure Hin.
  destruct (Hxs n found secret failure Hin)
    as (certificate & s & pw & pc & chain & ca & before & ? & ? & -> & (Hpw & (t0 & t1 & Hp) & Hsplit & Hgot & Hfill) & Hsub).
  exists certificate. pose proof (fill_secret_keeps _ _ _ _ _ _ _ _ Hfill) as (Hfree & ? & ? & ?).
  split_and!; try done; [by intros old ->|]. exists s, pc, pw, chain, ca, before.
  pose proof (provisioning_obtained _ _ _ _ _ _ _ _ Hp eq_refl) as [_ Hob].
  pose proof (provisioning_issued _ _ _ _ _ _ _ _ Hp eq_refl) as Hiss.
  split_and!; try done; [by eapply issued_for_named|by apply fill_secret_stores in Hfill].
Qed.

(** C3: an escrowed key can be recovered.  A Secret is written only after the
    same reconciliation had the key created under a password, the request signed
    and the key exported, in this order; the private key in the Secret is the
    one that export holds under the password; and when the controller made the
    password up, the Secret holds that too, so that what Key Manager Plus keeps
    can be read again. *)
Theorem Reconcile_keys_recoverable ns ctx name w :
  run (Reconcile (main_reconciler ns) ctx name) w (λ _ _ xs, ∀ n found secret failure,
    SecretWritten n found secret failure ∈ xs →
    ∃ certificate c password id exported key before,
      answer (get_KMPCertificate ctx name) w = Ok certificate ∧
      escrowed c password id exported before ∧ before ++ [SecretWritten n found secret failure] `sublist_of` xs ∧
      ParseExportedPrivateKey exported password = Ok (MkPrivateKey key (data_get "tls.key" (sec_Data secret))) ∧
      (KeyStorePasswordSecretRef (cert_Spec certificate) = None →
       data_get "keystore-password" (sec_Data secret) = password)).
Proof.
  eapply run_conseq; [apply run_Reconcile_accounted|]. intros res w' xs _ Hxs n found secret failure Hin.
  destruct (Hxs n found secret failure Hin)
    as (certificate & s & pw & pc & chain & ca & before & ? & ? & -> & (Hpw & (t0 & t1 & Hp) & _ & _ & Hfill) & Hsub).
  destruct (provisioning_escrowed _ _ _ _ _ _ _ _ Hpw Hp) as (id & exported & key & Hesc & Hkey).
  apply fill_secret_stores in Hfill as [_ _ Htls _ Hpassword _].
  exists certificate, (client s), pw, id, exported, key, before. rewrite Htls. by split_and!.
Qed.
End escrow_claims.
