(* ===== verification/Requests.v ===== *)
(** * A CertificateRequest that is served

    The way of a CertificateRequest through the wired controller of
    internal/controllers/signer.go, from the credentials over the connectivity
    check to the bundle, when Key Manager Plus answers as it should. *)

From S2P Require Import Prelude GoStrings GoFloat GoAny GoHttp Errors Response GoNet X509 Chain Verify World Client Signer PrivateKey Provision Api KmpSigner Kubernetes Issuer Main.
Local Open Scope go_scope.
Local Open Scope Z_scope.

Section requests.
Context `{Unicode, Conversions, Env, PublicKeys, !X509, !PrivateKeys, !Pem, !Kubernetes}.

(** ** The connectivity check *)

Definition is_probe (c : Client) (e : event) : Prop := ∃ o, e = Sent (probe_request c) o.

(** It is answered with a certificate, whichever. *)
Definition probe_answered (c : Client) (e : event) : Prop :=
  ∀ o, e = Sent (probe_request c) o →
    answers (λ p, ∃ cert certs, certificatesFromStrings (collectStrings (Some p)) = Ok (cert :: certs)) o.

Lemma run_Ping_answered s ctx w :
  buildable s →
  run (Ping (client s) ctx) w (λ r _ xs,
    Forall (is_probe (client s)) xs ∧ (Forall (probe_answered (client s)) xs → r = None)).
Proof.
  intros Hbuilt. unfold Ping. apply run_bind, run_GetCertificate; [by left|]. intros r w1 xs Hop.
  pose proof Hop as (_ & Hsent & _)%operation_length.
  assert (Forall (probe_answered (client s)) xs → ∃ certs, r = Ok certs) as Hr.
  { intros Hans. rewrite Forall_forall in Hans.
    eapply (operation_answers _ _ _
      (λ p, ∃ cert certs, certificatesFromStrings (collectStrings (Some p)) = Ok (cert :: certs))) in Hop
      as (p & (cert & certs & Hp) & o & ->).
    - exists (cert :: certs). unfold certificates_in. by rewrite Hp.
    - by apply built.
    - intros o Ho. by eapply (Hans _ Ho). }
  destruct r as [certs|e]; run_step; rewrite app_nil_r; (split; [exact Hsent|]); [done|].
  intros Hans. by destruct (Hr Hans) as [? [=]].
Qed.

(** ** Issuance *)

Context (ns : string) (ctx : context) (obj : issuer_object) (details : CertificateDetails).
Context (spec : IssuerSpec) (namespace : string) (auth : Secret) (ks : kmpSigner) (csr : certificate_request).

(** The issuer is there with credentials that give a signer, and the CSR can be
    parsed. *)
Record issuer_ready : Prop := {
  issuer_known : getIssuerDetails (main_issuer ns) obj = Ok (spec, namespace);
  issuer_auth : ∀ w, answer (get_Secret ctx (MkName namespace (AuthSecretName spec))) w = Ok auth;
  issuer_signer : signerFromIssuerAndSecretData (Some spec) (sec_Data auth) = Ok ks;
  issuer_host : unzoned (Host (baseURL (client (ks_signer ks))));
  issuer_csr : ParseCSR (det_CSR details) = Ok csr
}.

Context (Hready : issuer_ready).

Lemma issuer_requests : buildable (ks_signer ks).
Proof. eapply signer_http; apply Hready. Qed.

(** The exchange goes as it should, and the chain of the certificates KMP
    publishes is one that can be split. *)
Definition signs_well (e : event) : Prop :=
  cooperates (ks_signer ks) (sign_request details) csr e ∧
  published_splits (ks_signer ks) (csr_PublicKey csr) e.

(** The bundle can be split. *)
Lemma run_Sign_split w :
  run (Sign (ks_signer ks) ctx (sign_request details)) w (λ r w' xs,
    (Forall (cooperates (ks_signer ks) (sign_request details) csr) xs →
     (∃ b, r = Ok b) ∨ w_now w + poll_timeout (ks_signer ks) < w_now w' + poll_interval (ks_signer ks)
     ∨ cancelled ctx (w_now w')) ∧
    ∀ b, r = Ok b → Forall (published_splits (ks_signer ks) (csr_PublicKey csr)) xs →
      ∃ chain ca, ParseSingleCertificateChainPEM (ChainPEM b) = Ok (chain, ca)).
Proof.
  eapply run_conseq; [apply (run_Sign _ _ (sign_request details) csr), (issuer_csr Hready)|].
  intros r w' xs _ Hst. split.
  - intros Hco. pose proof (steps_on_course _ _ (sign_request details) csr (issuer_requests) _ _ _ _ _ Hst I Hco) as Hr.
    destruct r; [eauto|by right].
  - intros b -> Hsplit. eapply steps_success in Hst as (certs & cn & sn & ys & zs & Ha & -> & Hg); [|done].
    apply assemble_Ok in Ha as [[path Hb] _].
    rewrite <- (app_nil_r zs) in Hsplit. by eapply published_split.
Qed.

Lemma run_Issuer_Sign_ready w :
  run (Issuer_Sign (main_issuer ns) ctx (Ok details) obj) w (λ r w' xs, ∃ probes signing,
    xs = probes ++ signing ∧ Forall (is_probe (ks_client ks)) probes ∧
    (Forall (probe_answered (ks_client ks)) probes →
     Forall signs_well signing →
     (∃ b, r = Ok b) ∨ w_now w + poll_timeout (ks_signer ks) < w_now w' + poll_interval (ks_signer ks)
     ∨ cancelled ctx (w_now w'))).
Proof.
  pose proof (built_client _ _ _ (issuer_signer Hready)) as Hclient.
  unfold Issuer_Sign. rewrite (issuer_known Hready). apply run_later, run_bind.
  unfold getSecretData. apply run_bind, run_api_answer. intros w1 Hw1. rewrite (issuer_auth Hready).
  simpl HealthCheckerBuilder. unfold KMPHealthCheckerFromIssuerAndSecretData. rewrite (issuer_signer Hready).
  cbn [result_bind]. apply run_bind. unfold kmpSigner_Check. rewrite <- Hclient.
  eapply run_conseq; [apply run_Ping_answered, (issuer_requests)|].
  intros [err|] w2 xs Hw2 [Hprobe Hans]; run_step; rewrite ?app_nil_r.
  { run_step. intros _. exists xs, []. rewrite !app_nil_r. split_and!; [done|done|].
    intros Ha. by specialize (Hans Ha). }
  simpl SignerBuilder. unfold KMPSignerFromIssuerAndSecretData. rewrite (issuer_signer Hready). cbn [result_bind].
  unfold kmpSigner_Sign. do 2 apply run_bind.
  eapply run_conseq; [apply run_Sign_split|]. intros r w3 ys Hw3 [Hserved Hsplit].
  assert (Forall signs_well ys →
    (∃ b, r = Ok b) ∨ w_now w + poll_timeout (ks_signer ks) < w_now w3 + poll_interval (ks_signer ks)
    ∨ cancelled ctx (w_now w3)) as Hdone.
  { intros [Hco _]%Forall_and. destruct (Hserved Hco) as [?|[?|?]]; [by left|right; left; lia|by right; right]. }
  destruct r as [b|e].
  - run_step. destruct (ParseSingleCertificateChainPEM (ChainPEM b)) as [[chain ca]|msg] eqn:Ep; run_step; rewrite !app_nil_r;
      intros _; exists xs, ys; (split_and!; [done|done|]); intros _ [_ Hpub]%Forall_and; [left; by eexists|].
    destruct (Hsplit b eq_refl Hpub) as (chain & ca & Ep'). by rewrite Ep in Ep'.
  - do 2 run_step. rewrite !app_nil_r. intros _. exists xs, ys. split_and!; [done|done|]. intros _ Hco.
    destruct (Hdone Hco) as [[b [=]]|?]. by right.
Qed.
End requests.

(** ** Properties *)

Section request_claims.
Context `{Unicode, Conversions, Env, PublicKeys, !X509, !PrivateKeys, !Pem, !Kubernetes}.

(** C8: a CertificateRequest gets its bundle when the issuer is ready, the
    connectivity probe is answered with a certificate, and Key Manager Plus
    answers the import, the signing and the fetches that follow as it should,
    with certificates that cert-manager takes for a single chain, unless the time
    for polling runs out or the context is cancelled. *)
Theorem Issuer_Sign_completes ns ctx obj details spec namespace auth ks csr w :
  issuer_ready ns ctx obj details spec namespace auth ks csr →
  run (Issuer_Sign (main_issuer ns) ctx (Ok details) obj) w (λ r w' xs, ∃ probes signing,
    xs = probes ++ signing ∧ Forall (is_probe (ks_client ks)) probes ∧
    (Forall (probe_answered (ks_client ks)) probes →
     Forall (signs_well details ks csr) signing →
     (∃ b, r = Ok b) ∨ w_now w + poll_timeout (ks_signer ks) < w_now w' + poll_interval (ks_signer ks)
     ∨ cancelled ctx (w_now w'))).
Proof. intros Hready. by eapply run_Issuer_Sign_ready. Qed.
End request_claims.
