(* ===== verification/Lifecycle.v ===== *)
(** * The life of a Secret, over reconciliations

    What one reconciliation of the wired controller leaves for the next: the
    Secret it writes is left alone until it is due, and it is written if Key
    Manager Plus and the cluster do their part. *)

From S2P Require Import Prelude GoStrings GoFloat GoAny GoHttp Errors GoNet Base64 X509 Chain Verify World Client Signer PrivateKey Provision Api KmpSigner Kubernetes Issuer Reconciler Main.
Local Open Scope go_scope.
Local Open Scope Z_scope.

Section lifecycle.
Context `{Unicode, Conversions, Env, PublicKeys, !X509, !PrivateKeys, !Pem, !Kubernetes}.
Implicit Types (ctx : context) (certificate : KMPCertificate) (secret : Secret).

(** ** What a Secret with a pair is taken for *)

(** What cert-manager documents of [ParseSingleCertificateChainPEM], as far as
    the program depends on it: from certificates in any order it makes a chain
    that starts with one of them. *)
Definition pki_starts_within : Prop := ∀ certs chain ca,
  certs ≠ [] → Forall parsed_certificate certs →
  ParseSingleCertificateChainPEM (encodeCertificates certs) = Ok (chain, ca) →
  chain ≠ "" ∧ ∃ first rest, DecodeX509CertificateChainBytes chain = Ok (first :: rest) ∧ first ∈ certs.

(** The certificate is an end entity: it is nobody's issuer. *)
Definition issues_nothing (c : certificate) : Prop := ∀ child, ¬ issued_by child c.

(** So only the leaf of a bundle can be. *)
Lemma signed_path_issuer c path x : signed_path c path → x ∈ path → ∃ child, issued_by child x.
Proof.
  induction 1 as [c|c i path Hi Hp IH]; [by intros ?%not_elem_of_nil|]. intros [->|Hx]%elem_of_cons; [by exists c|by apply IH].
Qed.

Lemma end_entity_is_leaf certs k b path c :
  bundle_ok certs k b path → c ∈ Leaf b :: path → issues_nothing c → c = Leaf b.
Proof.
  intros [_ _ _ Hsigned _] [->|Hc]%elem_of_cons Hno; [done|].
  destruct (signed_path_issuer _ _ _ Hsigned Hc) as [child ?]. by destruct (Hno child).
Qed.

(** The certificate has the organization and the unit asked for. *)
Definition carries_subject (spec : KMPCertificateSpec) (leaf : certificate) : Prop :=
  subject_mismatch (Organization (Subject leaf)) (sub_Organization (cert_Subject spec)) "organization" = None ∧
  subject_mismatch (OrganizationalUnit (Subject leaf))
    (sub_OrganizationalUnit (cert_Subject spec)) "organizational unit" = None.

(** The chain in a Secret starts with an end entity that has them. *)
Definition plain_leaf (spec : KMPCertificateSpec) (secret : Secret) : Prop := ∀ leaf rest,
  DecodeX509CertificateChainBytes (data_get TLSCertKey (sec_Data secret)) = Ok (leaf :: rest) →
  issues_nothing leaf ∧ carries_subject spec leaf.

Lemma named_matches certificate leaf :
  let spec := cert_Spec certificate in
  settled_names spec → named_as_asked certificate leaf → carries_subject spec leaf → matchesSpec leaf spec = "".
Proof.
  intros spec [Hdns Hips] [Hcn Halt_dns Halt_ips] [Horg%subject_mismatch_None Hou%subject_mismatch_None].
  apply matchesSpec_nil. split; [by rewrite equal_fold_sym| | |done|done].
  - intros n Hn. destruct (Hdns n Hn) as (Ht & Hne & Hp).
    destruct (Halt_dns n Hn) as [E|E]; [congruence|]. by rewrite Ht, Hp in E.
  - intros a Ha. destruct (Hips a Ha) as (Ht & Hne & ip & Hip).
    destruct (Halt_ips a Ha) as [E|E]; [congruence|].
    rewrite Ht, Hip in E. destruct E as (ip' & ? & ?). by exists ip, ip'.
Qed.

Lemma no_key_in_nothing password key : parsePEMPrivateKey "" password ≠ Ok key.
Proof.
  unfold parsePEMPrivateKey. simpl.
  destruct (pem_Decode "") as [[block rest]|] eqn:E; [|done].
  apply pem_decode_shorter in E. simpl in E. lia.
Qed.

(** What is read back of a Secret with a pair. *)
Lemma holds_pair_reads certificate secret :
  pki_starts_within → holds_pair certificate secret →
  (∀ leaf rest, DecodeX509CertificateChainBytes (data_get TLSCertKey (sec_Data secret)) = Ok (leaf :: rest) → issues_nothing leaf) →
  ∃ leaf rest, DecodeX509CertificateChainBytes (data_get TLSCertKey (sec_Data secret)) = Ok (leaf :: rest) ∧
    named_as_asked certificate leaf ∧
    data_get TLSCertKey (sec_Data secret) ≠ "" ∧ data_get TLSPrivateKeyKey (sec_Data secret) ≠ "".
Proof.
  intros Hpki (pc & password & chain & ca & Hissued & Hnamed & Hchain & [_ Htls Hkey _ _ _]) Hend.
  destruct Hissued as (_ & certs & exported & key & path & Hparsed & [_ Hread _ Hbundle _]).
  pose proof (bundle_parsed _ _ _ _ Hparsed Hbundle) as Hp.
  rewrite (bundle_encoding _ _ _ _ Hbundle) in Hchain.
  destruct (Hpki (Leaf (pc_Bundle pc) :: path) chain ca) as (Hne & first & rest & Hdecode & Hin); [done..|].
  change "tls.crt" with TLSCertKey in Htls. change "tls.key" with TLSPrivateKeyKey in Hkey. rewrite Htls in Hend |- *.
  pose proof (end_entity_is_leaf _ _ _ _ _ Hbundle Hin (Hend _ _ Hdecode)) as ->.
  exists (Leaf (pc_Bundle pc)), rest. split; [exact Hdecode|]. split; [exact Hnamed|]. split; [exact Hne|]. rewrite Hkey. intros E.
  specialize (Hread ""). rewrite E in Hread. by apply no_key_in_nothing in Hread.
Qed.

Lemma holds_pair_accepted certificate secret :
  pki_starts_within → settled_names (cert_Spec certificate) → holds_pair certificate secret →
  plain_leaf (cert_Spec certificate) secret →
  ∃ leaf rest, secret_state (secret_name certificate) (cert_Spec certificate) secret = inr leaf ∧
    named_as_asked certificate leaf ∧
    DecodeX509CertificateChainBytes (data_get TLSCertKey (sec_Data secret)) = Ok (leaf :: rest).
Proof.
  intros Hpki Hnames Hpair Hplain.
  destruct (holds_pair_reads _ _ Hpki Hpair) as (leaf & rest & Hdecode & Hnamed & Hne & Hkey); [by intros ?? [? _]%Hplain|].
  exists leaf, rest. split; [|done]. unfold secret_state, leafOf. cbv zeta.
  rewrite (bool_decide_eq_false_2 _ Hne), (bool_decide_eq_false_2 _ Hkey). simpl orb. cbv iota.
  rewrite Hdecode, (named_matches _ _ Hnames Hnamed (proj2 (Hplain _ _ Hdecode))).
  by rewrite bool_decide_eq_false_2 by tauto.
Qed.

Lemma matches_carries leaf spec : matchesSpec leaf spec = "" → carries_subject spec leaf.
Proof. intros [_ _ _ Horg Hou]%matchesSpec_nil. split; by apply subject_mismatch_None. Qed.

(** A chain whose leaf lacks what is asked for is a reason to issue. *)
Lemma lacking_subject_refused name spec secret leaf rest :
  DecodeX509CertificateChainBytes (data_get TLSCertKey (sec_Data secret)) = Ok (leaf :: rest) →
  ¬ carries_subject spec leaf → ∃ reason, secret_state name spec secret = inl reason.
Proof.
  intros Hdecode Hno. unfold secret_state, leafOf. cbv zeta. rewrite Hdecode. case_match; [by eexists|].
  rewrite bool_decide_eq_true_2; [by eexists|]. intros E. by apply Hno, matches_carries.
Qed.

(** ** A reconciliation that finds such a Secret *)

Definition is_status_write (e : event) : Prop := match e with StatusWritten _ _ => True | _ => False end.
Definition status_failed (e : event) : Prop := match e with StatusWritten _ (Some _) => True | _ => False end.

(** The verdict on a Secret that is there and acceptable. *)
Lemma run_issuanceNeeded_found ns ctx certificate secret leaf w
    (Q : string * option Z * bool → world → list event → Prop) :
  let renewal := renewalTime leaf (RenewBefore (cert_Spec certificate)) in
  answer (get_Secret ctx (secret_name certificate)) w = Ok secret →
  secret_state (secret_name certificate) (cert_Spec certificate) secret = inr leaf →
  (∀ reason w', renewal ≤ w_now w' → w_now w ≤ w_now w' → Q (reason, Some renewal, true) w' []) →
  (∀ w', w_now w' < renewal → w_now w ≤ w_now w' → Q ("", Some renewal, false) w' []) →
  run (issuanceNeeded (main_reconciler ns) ctx certificate) w Q.
Proof.
  cbv zeta. intros Hsecret Hstate Hdue Hcurrent. unfold issuanceNeeded. cbv zeta.
  apply run_bind, run_api_answer. intros w1 Hw1. fold (secret_name certificate). rewrite Hsecret, Hstate.
  apply run_bind, run_now. destruct (Z.leb_spec (renewalTime leaf (RenewBefore (cert_Spec certificate))) (w_now w1));
    run_step; simpl; auto.
Qed.

(** What a reconciliation of [name] finds under [n], right after it has read its
    resource. *)
Definition finds ctx (name n : NamespacedName) w secret : Prop :=
  answer (get_Secret ctx n) (called (get_KMPCertificate ctx name) w) = Ok secret.

(** A resource that is there to be served. *)
Definition attended_to ctx name w certificate : Prop :=
  answer (get_KMPCertificate ctx name) w = Ok certificate ∧ cert_DeletionTimestamp certificate = None.

Lemma run_Reconcile_body ns ctx name certificate w
    (P : reconcile_result → world → list event → Prop) :
  attended_to ctx name w certificate →
  (∀ w1, w1 = called (get_KMPCertificate ctx name) w → w_now w ≤ w_now w1 →
     run (reconcile_body (main_reconciler ns) ctx certificate) w1 (λ '(result, _) w2 xs, ∀ w3, w_now w2 ≤ w_now w3 →
       P result w3 xs)) →
  run (Reconcile (main_reconciler ns) ctx name) w (λ result w' xs, ∃ body status result',
    xs = body ++ status ∧ P result' w' body ∧ Forall is_status_write status ∧
    (result = result' ∨ Exists status_failed status)).
Proof.
  intros [Hget Hdel] Hbody. unfold Reconcile. apply run_bind, run_api_known. intros Hw1. rewrite Hget.
  rewrite Hdel, bool_decide_eq_false_2 by tauto. cbv iota zeta. apply run_bind.
  eapply run_conseq; [by apply (Hbody _ eq_refl)|]. intros [result certificate'] w2 xs _ HP. case_bool_decide.
  - run_step. simpl. exists xs, [], result. rewrite !app_nil_r. split_and!; auto with lia.
  - apply run_later, run_bind, run_write_Status. intros failure w3.
    destruct failure as [msg|]; run_step; simpl; intros Hw3; exists xs; eexists [_], result;
      (split_and!; [reflexivity|apply HP; lia|by repeat constructor|]); [right; by left|by left].
Qed.

(** What a reconciliation of a Secret with an acceptable certificate does. *)
Lemma run_Reconcile_found ns ctx name certificate secret leaf w :
  attended_to ctx name w certificate → finds ctx name (secret_name certificate) w secret →
  secret_state (secret_name certificate) (cert_Spec certificate) secret = inr leaf →
  let renewal := renewalTime leaf (RenewBefore (cert_Spec certificate)) in
  run (Reconcile (main_reconciler ns) ctx name) w (λ result w' xs,
    (w_now w' < renewal →
       Forall is_status_write xs ∧
       ((∃ now, w_now w ≤ now ≤ w_now w' ∧ result = MkResult (until now (Some renewal)) None)
        ∨ Exists status_failed xs)) ∧
    (renewal ≤ w_now w → ∃ t reason message, Recorded t reason message ∈ xs)).
Proof.
  intros Hatt Hsecret Hstate. cbv zeta. set (renewal := renewalTime _ _).
  destruct (decide (renewal ≤ w_now w)) as [Hdue|Hdue].
  - eapply run_conseq; [eapply (run_Reconcile_body _ _ _ _ _ (λ _ _ xs, ∃ t r m, Recorded t r m ∈ xs)); [done|]|].
    + intros w1 -> Hw1. unfold reconcile_body. apply run_bind. eapply run_issuanceNeeded_found; [done..| |].
      * intros reason w2 _ _. simpl negb. cbv iota. eapply run_conseq; [apply run_request_certificate, _|].
        intros [result c] w3 xs _ (_ & ys & t & rs & m & ->) w4 _. simpl. do 3 eexists.
        apply elem_of_app. right. by left.
      * intros w2 Hlt Hw2. fold renewal in Hlt. lia.
    + intros result w' xs Hw' (body & status & result' & -> & (t & r & m & Hin) & _). split; [lia|].
      intros _. exists t, r, m. apply elem_of_app. by left.
  - eapply run_conseq; [eapply (run_Reconcile_body _ _ _ _ _ (λ result w' xs, w_now w' < renewal → xs = [] ∧
      ∃ now, w_now w ≤ now ≤ w_now w' ∧ result = MkResult (until now (Some renewal)) None)); [done|]|].
    + intros w1 -> Hw1. unfold reconcile_body. apply run_bind. eapply run_issuanceNeeded_found; [done..| |].
      * intros reason w2 Hlate Hw2. simpl negb. cbv iota.
        eapply run_conseq; [apply run_request_certificate, _|].
        intros [result c] w3 xs Hw3 _ w4 Hw4. fold renewal in Hlate. lia.
      * intros w2 _ Hw2. simpl negb. cbv iota. apply run_bind, run_later, run_set_ready.
        intros c w3 cond _ _ _ _ _ _ Hw3. apply run_bind, run_now. run_step. simpl.
        intros w4 Hw4 _. split; [done|]. exists (w_now w3). split; [lia|done].
    + intros result w' xs Hw' (body & status & result' & -> & HP & Hst & Hres). split; [|lia].
      intros Hlt. destruct (HP Hlt) as [-> (now & Hnow & ->)]. simpl. split; [done|].
      destruct Hres as [->|?]; [left; by exists now|by right].
Qed.
End lifecycle.

(** ** A reconciliation that is served *)

Section cooperation.
Context `{Unicode, Conversions, Env, PublicKeys, !X509, !PrivateKeys, !Pem, !Kubernetes}.
Context (ns : string) (ctx : context) (certificate : KMPCertificate).
Context (spec : IssuerSpec) (namespace : string) (auth : Secret) (o : kmpSigner) (key : private_key).

(** A password the controller may protect the key with. *)
Definition possible_password (password : string) : Prop :=
  ∃ w, (keyStorePassword ctx certificate w).1 = Ok (password, made_up certificate).

(** The cluster does its part: the issuer is there with credentials that give a
    signer, there is a password, and the Secret can be read and is no other
    object's, if it is there. *)
Record cluster_ready : Prop := {
  ready_issuer : ∀ w, (resolveIssuer (main_reconciler ns) ctx certificate w).1 = Ok (spec, namespace);
  ready_auth : ∀ w, answer (get_Secret ctx (MkName namespace (AuthSecretName spec))) w = Ok auth;
  ready_signer : signerFromIssuerAndSecretData (Some spec) (sec_Data auth) = Ok o;
  ready_host : unzoned (Host (baseURL (client (ks_signer o))));
  ready_name : trim_space (cert_CommonName (cert_Spec certificate)) ≠ "";
  ready_password : ∀ w, ∃ password,
    (keyStorePassword ctx certificate w).1 = Ok (password, made_up certificate) ∧ password ≠ "";
  ready_secret : ∀ w, ∃ found, present (answer (get_Secret ctx (secret_name certificate)) w) = Some found ∧
    ¬ controlled_by_other certificate (default blank_Secret found);
  ready_owner : ∀ s, ¬ controlled_by_other certificate s → ∃ s', SetControllerReference certificate s = Ok s'
}.

(** Key Manager Plus does its part, with whatever password, and publishes
    certificates that cert-manager takes for a single chain. *)
Definition key_manager_serves (xs : list event) : Prop :=
  (∀ password, possible_password password →
     Forall (serves (ks_signer o) (provisionRequest certificate password) key) xs) ∧
  Forall (published_splits (ks_signer o) (public_of key)) xs.

(** The API server accepts what is written. *)
Definition writes_accepted (xs : list event) : Prop :=
  ∀ n found secret failure, SecretWritten n found secret failure ∈ xs → failure = None.

(** The time for polling ran out, or the context was cancelled. *)
Definition out_of_time (t0 t1 : Z) : Prop :=
  t0 + poll_timeout (ks_signer o) < t1 + poll_interval (ks_signer o) ∨ cancelled ctx t1.

Lemma out_of_time_wider t0 t1 t0' t1' : out_of_time t0 t1 → t0' ≤ t0 → t1 ≤ t1' → out_of_time t0' t1'.
Proof. intros [?|(d & ? & ?)] ? ?; [left; lia|right; exists d; split; [done|lia]]. Qed.

(** From [t0] to [t1] a Secret with a pair was written, or found to be there
    already. *)
Definition pair_stored (t0 t1 : Z) (xs : list event) : Prop :=
  ∃ secret, holds_pair certificate secret ∧
    ((∃ found, SecretWritten (secret_name certificate) found secret None ∈ xs) ∨
     ∃ w, t0 ≤ w_now w ≤ t1 ∧ answer (get_Secret ctx (secret_name certificate)) w = Ok secret).

Lemma pair_stored_wider t0 t1 t0' t1' xs zs :
  pair_stored t0 t1 xs → t0' ≤ t0 → t1 ≤ t1' → (∀ e, e ∈ xs → e ∈ zs) → pair_stored t0' t1' zs.
Proof.
  intros (secret & Hp & Hs) ? ? Hin. exists secret. split; [done|].
  destruct Hs as [[found Hf]|(w & ? & ?)]; [left; exists found; by apply Hin|right; exists w; split; [lia|done]].
Qed.

(** All did their part. *)
Definition served xs : Prop := key_manager_serves xs ∧ writes_accepted xs.

Lemma served_app xs ys : served (xs ++ ys) → served xs ∧ served ys.
Proof.
  intros [[Hs Hp] Hw]. apply Forall_app in Hp as [? ?].
  split; (split; [split; [intros pw Hpw; by apply Hs, Forall_app in Hpw as [? ?]|done]
                 |intros n f s x Hin; eapply Hw, elem_of_app; eauto]).
Qed.

Context (Hready : cluster_ready).

Lemma ready_requests : buildable (ks_signer o).
Proof. eapply signer_http; apply Hready. Qed.

Lemma run_writeSecret_ready pc password chain ca w (Q : option error → world → list event → Prop) :
  issued_for (provisionRequest certificate password) pc →
  ParseSingleCertificateChainPEM (ChainPEM (pc_Bundle pc)) = Ok (chain, ca) →
  (∀ r w' xs, (writes_accepted xs → pair_stored (w_now w) (w_now w) xs) → Q r w' xs) →
  run (writeSecret ctx certificate chain ca (pc_PrivateKeyPEM pc) password (made_up certificate)) w Q.
Proof.
  intros Hpc Hchain HQ. unfold writeSecret. apply run_bind.
  assert (Hholds : ∀ secret s, fill_secret certificate chain ca (pc_PrivateKeyPEM pc) password (made_up certificate) s = Ok secret →
    holds_pair certificate secret).
  { intros secret s Hfill. exists pc, password, chain, ca.
    split_and!; [done|by eapply issued_for_named|done|by apply fill_secret_stores in Hfill]. }
  destruct (ready_secret Hready w) as (found & Hfound & Hfree).
  apply (run_CreateOrUpdate_done _ _ _ found).
  - split; [done|]. unfold fill_secret. by apply (ready_owner Hready).
  - intros secret w' Hget Hfill. run_step. apply HQ. intros _. exists secret. split; [by eapply Hholds|]. right. exists w. by split; [lia|].
  - intros secret failure w' Hfill. run_step. rewrite app_nil_r. apply HQ. intros Hacc. exists secret. split; [by eapply Hholds|]. left.
    exists found. rewrite (Hacc _ _ _ _ (list_elem_of_here _ _)). by left.
Qed.

Lemma run_issue_pair_ready w :
  run (issue_pair (main_reconciler ns) ctx certificate) w (λ res w' xs,
    served xs → pair_stored (w_now w) (w_now w') xs ∨ out_of_time (w_now w) (w_now w')).
Proof.
  apply run_later. unfold issue_pair. apply run_bind.
  eapply run_conseq; [by apply run_value, (run_resolveIssuer _ _ _ _ (λ _ _ xs, xs = []))|].
  intros res w1 xs Hw1 [-> ->]. rewrite (ready_issuer Hready). cbv zeta.
  apply run_bind, run_api_answer. intros w2 Hw2. rewrite (ready_auth Hready).
  apply run_bind.
  eapply run_conseq; [by apply run_value, (run_keyStorePassword _ _ _ (λ _ _ xs, xs = []))|].
  intros res w3 xs Hw3 [-> ->]. destruct (ready_password Hready w2) as (password & Hpw & Hne). rewrite Hpw.
  simpl ProvisionerBuilder. unfold KMPProvisionerFromIssuerAndSecretData. rewrite (ready_signer Hready).
  cbn [result_bind]. unfold kmpSigner_Provision. apply run_bind.
  eapply run_conseq; [apply run_Provision; [apply (ready_name Hready)|exact Hne]|].
  intros res w4 xs Hw4 Hprov.
  assert (Hcase : served xs → (∃ pc, res = Ok pc) ∨ out_of_time (w_now w) (w_now w4)).
  { intros [[Hserves _] _]. specialize (Hserves password (ex_intro _ w2 Hpw)).
    destruct (provisioning_served _ _ _ key ready_requests _ _ _ _ Hprov Hserves) as [?|Hout]; [by left|].
    right. eapply (out_of_time_wider (w_now w3) (w_now w4)); [exact Hout|lia..]. }
  destruct res as [pc|e].
  - pose proof (provisioning_issued _ _ _ _ _ _ _ _ Hprov eq_refl) as Hpc.
    destruct (ParseSingleCertificateChainPEM (ChainPEM (pc_Bundle pc))) as [[chain ca]|msg] eqn:Hchain.
    + apply run_bind, run_later, (run_writeSecret_ready pc password chain ca); [done..|]. intros r w5 ys Hys Hw45.
      assert (∀ w', w_now w ≤ w_now w4 ≤ w_now w' → served (xs ++ ys) → pair_stored (w_now w) (w_now w') (xs ++ ys)).
      { intros w' ? [_ [_ Hacc]]%served_app. eapply pair_stored_wider; [by apply Hys|lia..|]. intros. apply elem_of_app. by right. }
      destruct r; run_step; rewrite app_nil_r; intros Hw5 Hs; left; (match goal with HS : ∀ w', _ → served _ → _ |- _ => apply HS end; [lia|done]).
    + run_step. rewrite app_nil_r. simpl. intros Hw5 [[Hserves Hpub] _].
      destruct (provisioning_served_bundle _ _ _ key ready_requests _ _ _ _ _ Hprov eq_refl
        (Hserves password (ex_intro _ w2 Hpw))) as (before & fetched & after & cn & sn & certs & path & -> & Hg & Hb).
      destruct (published_split _ _ _ _ _ _ _ _ _ _ Hpub Hg Hb) as (? & ? & E). by rewrite Hchain in E.
  - run_step. rewrite ?app_nil_r. simpl. intros Hw5 Hs. destruct (Hcase Hs) as [[pc [=]]|?]. by right.
Qed.

Lemma run_request_ready w :
  run (request_certificate (main_reconciler ns) ctx certificate) w (λ _ w' xs,
    served xs → pair_stored (w_now w) (w_now w') xs ∨ out_of_time (w_now w) (w_now w')).
Proof.
  assert (Hgrow : ∀ xs ys t1 t2, t1 ≤ t2 →
    (served xs → pair_stored (w_now w) t1 xs ∨ out_of_time (w_now w) t1) →
    served (xs ++ ys) → pair_stored (w_now w) t2 (xs ++ ys) ∨ out_of_time (w_now w) t2).
  { intros xs ys t1 t2 Ht Hxs [Hs _]%served_app. destruct (Hxs Hs) as [?|?].
    - left. eapply pair_stored_wider; [done|lia..|]. intros. apply elem_of_app. by left.
    - right. by eapply out_of_time_wider. }
  unfold request_certificate, issue. apply run_bind, run_try.
  eapply run_conseq; [apply run_issue_pair_ready|]. intros res w1 xs Hw1 Hxs.
  destruct res as [pc|e]; [run_step|]; rewrite ?app_nil_r; apply run_bind, run_later, run_set_ready;
    intros c w2 cond _ _ _ _ _ _ Hw2; apply run_bind, run_later, run_note; intros w3 _ Hw3.
  - cbv zeta. apply run_bind, run_later, run_renewal_clock; [apply _|]. intros now w4 Hw4. run_step.
    simpl. apply (Hgrow xs _ (w_now w1)); [lia|done].
  - destruct (IsPermanent e); run_step; simpl; (apply (Hgrow xs _ (w_now w1)); [lia|done]).
Qed.

(** A certificate has to be requested: the Secret is missing, unreadable or not
    acceptable, or its certificate is due for renewal. *)
Definition wants_certificate (got : result api_error Secret) (now : Z) : Prop :=
  match got with
  | Ok secret =>
    match secret_state (secret_name certificate) (cert_Spec certificate) secret with
    | inl _ => True
    | inr leaf => renewalTime leaf (RenewBefore (cert_Spec certificate)) ≤ now
    end
  | Err _ => True
  end.

Lemma wants_later got t t' : t ≤ t' → wants_certificate got t → wants_certificate got t'.
Proof. unfold wants_certificate. destruct got as [secret|]; [|done]. destruct (secret_state _ _ _); [done|lia]. Qed.

Lemma run_issuanceNeeded_wanted w :
  wants_certificate (answer (get_Secret ctx (secret_name certificate)) w) (w_now w) →
  run (issuanceNeeded (main_reconciler ns) ctx certificate) w (λ r _ xs, r.2 = true ∧ xs = []).
Proof.
  intros Hwanted. unfold issuanceNeeded. cbv zeta. apply run_bind, run_api_answer. intros w1 Hw1.
  fold (secret_name certificate). destruct (answer _ w) as [secret|[msg|msg]]; [|by run_step..].
  simpl in Hwanted. destruct (secret_state _ _ secret) as [reason|leaf]; [by run_step|].
  apply run_bind, run_now. rewrite (proj2 (Z.leb_le _ _)) by lia. by run_step.
Qed.
End cooperation.

(** ** Properties *)

Section lifecycle_claims.
Context `{Unicode, Conversions, Env, PublicKeys, !X509, !PrivateKeys, !Pem, !Kubernetes}.


(** C7: the Secret a reconciliation wrote is left alone by the next ones until
    it is due for renewal: they send nothing, write no Secret, and ask to be
    called again at the renewal time (or fail to update the status); once it is
    due the next one tries to issue.  This needs that the names of the resource
    are written plainly, that the chain starts with an end entity that carries
    the organization and unit asked for, and that the API server answers with
    that Secret. *)
Theorem Reconcile_keeps_its_Secret ns ctx name certificate secret w :
  pki_starts_within → attended_to ctx name w certificate → holds_pair certificate secret →
  finds ctx name (secret_name certificate) w secret →
  settled_names (cert_Spec certificate) → plain_leaf (cert_Spec certificate) secret →
  ∃ leaf rest, DecodeX509CertificateChainBytes (data_get TLSCertKey (sec_Data secret)) = Ok (leaf :: rest) ∧
  let renewal := renewalTime leaf (RenewBefore (cert_Spec certificate)) in
  run (Reconcile (main_reconciler ns) ctx name) w (λ result w' xs,
    (w_now w' < renewal →
       Forall is_status_write xs ∧
       ((∃ now, w_now w ≤ now ≤ w_now w' ∧ result = MkResult (until now (Some renewal)) None)
        ∨ Exists status_failed xs)) ∧
    (renewal ≤ w_now w → ∃ t reason message, Recorded t reason message ∈ xs)).
Proof.
  intros Hpki Hatt Hpair Hsecret Hnames Hsubject.
  destruct (holds_pair_accepted _ _ Hpki Hnames Hpair Hsubject) as (leaf & rest & Hstate & _ & Hdecode).
  exists leaf, rest. split; [done|]. by eapply run_Reconcile_found.
Qed.

(** C39: what the controller accepts of Key Manager Plus is not all it asks of
    its Secret.  A Secret it wrote, with a matching pair under all the names
    asked for, is no reason to stop if the certificate lacks the organization or
    the unit of the resource: the next reconciliation that finds it, at whatever
    time, tries to issue again. *)
Theorem issued_certificate_may_be_refused ns ctx name certificate secret w :
  pki_starts_within → attended_to ctx name w certificate → holds_pair certificate secret →
  finds ctx name (secret_name certificate) w secret →
  (∀ leaf rest, DecodeX509CertificateChainBytes (data_get TLSCertKey (sec_Data secret)) = Ok (leaf :: rest) →
     issues_nothing leaf ∧ ¬ carries_subject (cert_Spec certificate) leaf) →
  (∃ leaf rest, DecodeX509CertificateChainBytes (data_get TLSCertKey (sec_Data secret)) = Ok (leaf :: rest) ∧
     named_as_asked certificate leaf) ∧
  run (Reconcile (main_reconciler ns) ctx name) w (λ _ _ xs, ∃ t reason message, Recorded t reason message ∈ xs) ∧
  attempt (main_reconciler ns) ctx certificate (called (get_KMPCertificate ctx name) w) ≠ None.
Proof.
  intros Hpki Hatt Hpair Hfinds Hlacks.
  destruct (holds_pair_reads _ _ Hpki Hpair) as (leaf & rest & Hdecode & Hnamed & _); [by intros ?? [? _]%Hlacks|].
  assert (Hwants : ∀ w1, w1 = called (get_KMPCertificate ctx name) w →
    wants_certificate certificate (answer (get_Secret ctx (secret_name certificate)) w1) (w_now w1)).
  { intros w1 ->. unfold finds in Hfinds. rewrite Hfinds. simpl.
    by destruct (lacking_subject_refused (secret_name certificate) _ _ _ _ Hdecode (proj2 (Hlacks _ _ Hdecode))) as [reason ->]. }
  split; [by exists leaf, rest|]. split.
  - eapply run_conseq; [eapply (run_Reconcile_body _ _ _ _ _ (λ _ _ xs, ∃ t r m, Recorded t r m ∈ xs)); [done|]|].
    + intros w1 Hw1 _. unfold reconcile_body. apply run_bind.
      eapply run_conseq; [by apply (run_issuanceNeeded_wanted ns ctx certificate), Hwants|].
      intros [[reason renewAt] needed] w2 xs Hw2 [Hn ->]. simpl in Hn. subst. simpl negb. cbv iota.
      eapply run_conseq; [apply run_request_certificate, _|].
      intros [result c] w3 xs _ (_ & ys & t & rs & m & ->) w4 _. simpl. do 3 eexists. apply elem_of_app. right. by left.
    + intros result w' xs Hw' (body & status & result' & -> & (t & r & m & Hin) & _).
      exists t, r, m. apply elem_of_app. by left.
  - unfold attempt. destruct (run_issuanceNeeded_wanted ns ctx certificate _ (Hwants _ eq_refl)) as (xs & _ & _ & Hn & _).
    destruct (issuanceNeeded _ _ _ _) as [[[reason renewAt] needed] w2]. simpl in Hn. by rewrite Hn.
Qed.
End lifecycle_claims.
