(* ===== verification/Convergence.v ===== *)
(** * A cluster that serves what was written

    When nobody else changes the cluster, the log of the program says what it
    has.  A reconciliation whose resource has an acceptable Secret updates the
    status at most, and once that is as it should be it does nothing at all. *)

From S2P Require Import Prelude GoStrings GoFloat GoAny GoHttp Errors GoNet X509 Chain World Client Signer PrivateKey Provision Api KmpSigner Kubernetes Issuer Reconciler Main Lifecycle.
Local Open Scope go_scope.
Local Open Scope Z_scope.

(** ** A cluster of its own *)

#[export] Instance NamespacedName_eq_dec : EqDecision NamespacedName.
Proof. solve_decision. Defined.

(** A resource, whatever its status. *)
Definition same_resource (c c' : KMPCertificate) : Prop := c' = with_status c (cert_Status c').

#[export] Instance same_resource_refl : Reflexive same_resource.
Proof. by intros []. Qed.

#[export] Instance same_resource_trans : Transitive same_resource.
Proof. unfold same_resource. intros c1 c2 c3 E2 E3. rewrite E3, E2. reflexivity. Qed.

Lemma same_resource_fields c c' :
  same_resource c c' →
  secret_name c' = secret_name c ∧ cert_Spec c' = cert_Spec c ∧ cert_DeletionTimestamp c' = cert_DeletionTimestamp c ∧
  cert_Generation c' = cert_Generation c.
Proof. by intros ->. Qed.

(** A condition but for its time, which is stored to the second only. *)
Definition untimed (c : Condition) : string * string * string * string * Z :=
  (cond_Type c, cond_Status c, cond_Reason c, cond_Message c, cond_ObservedGeneration c).

Definition same_conditions (st st' : KMPCertificateStatus) : Prop :=
  untimed <$> Conditions st' = untimed <$> Conditions st.

(** The API server as a store: it has Secrets and resources, reads return what
    it has, and nothing changes that but the writes of the program.  A write
    that failed may have been carried out. *)
Class Store `{Kubernetes} := {
  secret_at : outside → NamespacedName → option Secret;
  certificate_at : outside → NamespacedName → option KMPCertificate;
  kept out out' : Prop := secret_at out' = secret_at out ∧ certificate_at out' = certificate_at out;
  certificate_name out n c : certificate_at out n = Some c → cert_Name c = n;
  reads_secret ctx n t out secret :
    secret_at out n = Some secret → (get_Secret ctx n t out).1.1 = Ok secret;
  reads_certificate ctx n t out c :
    certificate_at out n = Some c → (get_KMPCertificate ctx n t out).1.1 = Ok c;
  reads_only ctx n t out c :
    (get_KMPCertificate ctx n t out).1.1 = Ok c → certificate_at out n = Some c;
  exchange_keeps c deadline ctx req t out : kept out (round_trip c deadline ctx req t out).2;
  get_Secret_keeps ctx n t out : kept out (get_Secret ctx n t out).2;
  get_KMPIssuer_keeps ctx n t out : kept out (get_KMPIssuer ctx n t out).2;
  get_KMPClusterIssuer_keeps ctx n t out : kept out (get_KMPClusterIssuer ctx n t out).2;
  get_KMPCertificate_keeps ctx n t out : kept out (get_KMPCertificate ctx n t out).2;
  (** the status is all an update of the status changes *)
  update_Status_changes ctx c t out :
    let '(failure, _, out') := update_Status ctx c t out in
    secret_at out' = secret_at out ∧
    ∀ n c0, certificate_at out n = Some c0 → ∃ c1, certificate_at out' n = Some c1 ∧ same_resource c0 c1 ∧
      (if decide (cert_Name c = n) then failure = None → same_conditions (cert_Status c) (cert_Status c1)
       else c1 = c0);
  create_or_update_changes ctx n mutate t out :
    let '((sent, failure), _, out') := create_or_update ctx n mutate t out in
    certificate_at out' = certificate_at out ∧
    (∀ n', n' ≠ n → secret_at out' n' = secret_at out n') ∧
    match sent, failure with
    | Some (_, secret), None => secret_at out' n = Some secret
    | Some _, Some _ => True
    | None, _ => secret_at out' n = secret_at out n
    end
}.

(** ** The log as the history of the store *)

(** The last event that is one of those looked for. *)
Fixpoint last_of {A} (sel : event → option A) (xs : list event) : option A :=
  match xs with
  | [] => None
  | e :: xs => match last_of sel xs with Some r => Some r | None => sel e end
  end.

Lemma last_of_app {A} (sel : event → option A) xs ys :
  last_of sel (xs ++ ys) = match last_of sel ys with Some r => Some r | None => last_of sel xs end.
Proof.
  induction xs as [|e xs IH]; simpl; [by destruct (last_of sel ys)|]. rewrite IH. by destruct (last_of sel ys).
Qed.

Lemma last_of_elem {A} (sel : event → option A) xs a : last_of sel xs = Some a → ∃ e, e ∈ xs ∧ sel e = Some a.
Proof.
  induction xs as [|e xs IH]; simpl; [done|]. destruct (last_of sel xs) as [r|].
  - intros (e' & ? & ?)%IH. exists e'. split; [by right|done].
  - exists e. split; [by left|done].
Qed.

(** What was written to the Secret [n], and to the status of [n], with the
    error if that failed. *)
Definition written_to (n : NamespacedName) (e : event) : option (Secret * option string) :=
  match e with
  | SecretWritten n' _ secret failure => if decide (n' = n) then Some (secret, failure) else None
  | _ => None
  end.

Definition status_of (n : NamespacedName) (e : event) : option (KMPCertificateStatus * option string) :=
  match e with
  | StatusWritten c failure => if decide (cert_Name c = n) then Some (cert_Status c, failure) else None
  | _ => None
  end.

(** The last write of a Secret in a log, and of a status. *)
Definition last_write (n : NamespacedName) : list event → option (Secret * option string) := last_of (written_to n).
Definition last_status (n : NamespacedName) : list event → option (KMPCertificateStatus * option string) :=
  last_of (status_of n).

Lemma last_write_elem n xs secret failure :
  last_write n xs = Some (secret, failure) → ∃ found, SecretWritten n found secret failure ∈ xs.
Proof.
  intros (e & He & Hsel)%last_of_elem. unfold written_to in Hsel. destruct e as [| n' found s f| |]; try done.
  destruct (decide (n' = n)) as [->|]; [|done]. injection Hsel as -> ->. by exists found.
Qed.

Section store.
Context `{Unicode, Conversions, Env, PublicKeys, !X509, !PrivateKeys, !Pem, !Kubernetes, !Store}.

(** A run that logs [xs] takes the store from [out] to [out']. *)
Definition evolves (out : outside) (xs : list event) (out' : outside) : Prop :=
  (∀ n, match last_write n xs with
        | Some (secret, None) => secret_at out' n = Some secret
        | Some (_, Some _) => True
        | None => secret_at out' n = secret_at out n
        end) ∧
  ∀ n c, certificate_at out n = Some c → ∃ c', certificate_at out' n = Some c' ∧ same_resource c c' ∧
    match last_status n xs with
    | Some (st, None) => same_conditions st (cert_Status c')
    | Some (_, Some _) => True
    | None => c' = c
    end.

Definition writes_nothing (e : event) : Prop := (∀ n, written_to n e = None) ∧ ∀ n, status_of n e = None.

Lemma last_of_nothing {A} (sel : event → option A) xs : Forall (λ e, sel e = None) xs → last_of sel xs = None.
Proof. induction 1 as [|e xs He _ IH]; simpl; [done|]. by rewrite IH. Qed.

Lemma kept_evolves out xs out' : Forall writes_nothing xs → kept out out' → evolves out xs out'.
Proof.
  intros Hxs [Es Ec]. split; [intros n|intros n c Hc].
  - unfold last_write. rewrite last_of_nothing; [by rewrite Es|]. eapply Forall_impl; [exact Hxs|]. by intros e [He _].
  - exists c. unfold last_status. rewrite last_of_nothing, Ec; [done|]. eapply Forall_impl; [exact Hxs|]. by intros e [_ He].
Qed.

Lemma evolves_app out xs out1 ys out2 : evolves out xs out1 → evolves out1 ys out2 → evolves out (xs ++ ys) out2.
Proof.
  intros [Hs Hc] [Hs' Hc']. split.
  - intros n. specialize (Hs n). specialize (Hs' n). unfold last_write in *. rewrite last_of_app.
    destruct (last_of _ ys) as [[s [|]]|]; [done..|]. rewrite Hs'. by destruct (last_of _ xs) as [[s [|]]|].
  - intros n c (c1 & Hc1 & E1 & Hst1)%Hc. apply Hc' in Hc1 as (c2 & Hc2 & E2 & Hst2). exists c2.
    split_and!; [done|by etransitivity|]. unfold last_status in *. rewrite last_of_app.
    destruct (last_of _ ys) as [[s [|]]|]; [done..|]. by subst c2.
Qed.

(** ** Computations that leave the store to their log *)

Definition follows {A} (m : io A) : Prop :=
  ∀ w, run m w (λ _ w' xs, evolves (w_outside w) xs (w_outside w')).

Lemma evolves_nothing out : evolves out [] out.
Proof. by apply kept_evolves; [constructor|split]. Qed.

Lemma follows_ret {A} (a : A) : follows (io_ret a).
Proof. intros w. run_step. apply evolves_nothing. Qed.

Lemma follows_bind {A B} (m : io A) (k : A → io B) : follows m → (∀ a, follows (k a)) → follows (io_bind m k).
Proof.
  intros Hm Hk w. apply run_bind. eapply run_conseq; [apply Hm|]. intros a w1 xs _ Hxs.
  eapply run_conseq; [apply Hk|]. intros b w2 ys _ Hys. exact (evolves_app _ _ _ _ _ Hxs Hys).
Qed.

Lemma follows_next {A} (s : nat → A) : follows (next s).
Proof. intros w. exists []. rewrite app_nil_r. split_and!; [done|simpl; lia|apply evolves_nothing]. Qed.

Lemma follows_now : follows time_now.
Proof. intros w. apply run_now, evolves_nothing. Qed.

Lemma follows_note e : writes_nothing e → follows (note e).
Proof.
  intros He w. exists [e]. split_and!; [done|simpl; lia|]. apply kept_evolves; [by apply Forall_singleton|by split].
Qed.

Lemma follows_wait ctx d : follows (wait_or_done ctx d).
Proof.
  unfold wait_or_done. do 2 (apply follows_bind; [apply follows_next|intros ?]). intros w.
  exists []. rewrite app_nil_r. case_match; simpl; repeat case_match; simpl; bool_prop;
    (split_and!; [done|lia|apply evolves_nothing]).
Qed.

Lemma follow_keeps hops t deadline ctx ireq req with_body now out :
  kept out (follow hops t deadline ctx ireq req with_body now out).2.
Proof.
  revert req with_body now out. induction hops as [|hops IH]; intros req with_body now out; simpl;
    pose proof (exchange_keeps t deadline ctx req now out) as Hk;
    destruct (round_trip t deadline ctx req now out) as [[h e] out1]; cbv zeta; simpl in Hk;
    destruct (hop_outcome h) as [msg|status body err]; [done| |done|];
    (destruct (redirect_behavior (Method req) status) as [[method keeps]|]; [|done]); (case_bool_decide; [done|]);
    (destruct (url_reference (URL req) (Location h)) as [u|msg]; [|done]); [done|].
  match goal with |- context [follow hops ?t ?dl ?c ?i ?r ?b ?n out1] => pose proof (IH r b n out1) as Hr;
    destruct (follow hops t dl c i r b n out1) as [[x e'] out2] end.
  simpl in *. destruct Hk as [Es Ec], Hr as [Es' Ec']. split; congruence.
Qed.

Lemma follows_http c ctx req : follows (http_Do c ctx req).
Proof.
  intros w. unfold run, http_Do.
  pose proof (follow_keeps max_redirects (Transport c) (deadline c (w_now w)) ctx req req true (w_now w) (w_outside w)) as Hk.
  destruct (follow _ _ _ _ _ _ _ _ _) as [[o d] out]. exists [Sent req o]. split_and!; [done|simpl; lia|].
  apply kept_evolves; [|exact Hk]. repeat constructor.
Qed.

Lemma follows_api {A} (call : api_call A) :
  (∀ t out, evolves out [] (call t out).2) → follows (api call).
Proof.
  intros Hcall w. apply run_api_known. intros _. specialize (Hcall (w_now w) (w_outside w)).
  unfold called, api. by destruct (call _ _) as [[a d] out].
Qed.

Lemma follows_get {A} (call : api_call A) : (∀ t out, kept out (call t out).2) → follows (api call).
Proof. intros Hk. apply follows_api. intros t out. apply kept_evolves; [constructor|apply Hk]. Qed.

Lemma follows_write_Status ctx c : follows (write_Status ctx c).
Proof.
  intros w. unfold write_Status. apply run_bind. unfold run at 1, api.
  pose proof (update_Status_changes ctx c (w_now w) (w_outside w)) as Hlaw.
  destruct (update_Status _ _ _ _) as [[failure d] out]. destruct Hlaw as [Es Ec].
  exists []. simpl. rewrite app_nil_r. split_and!; [done|lia|].
  apply run_bind. exists [StatusWritten c failure]. simpl. split_and!; [done|lia|]. run_step. simpl.
  split; [intros n; unfold last_write; simpl; by rewrite Es|]. intros n c0 (c1 & ? & ? & Hst)%Ec. exists c1. split_and!; [done..|].
  unfold last_status. simpl. destruct (decide (cert_Name c = n)); [|done]. destruct failure; [done|]. by apply Hst.
Qed.

Lemma follows_CreateOrUpdate ctx n mutate : follows (CreateOrUpdate ctx n mutate).
Proof.
  intros w. unfold CreateOrUpdate. apply run_bind. unfold run at 1, api.
  pose proof (create_or_update_changes ctx n mutate (w_now w) (w_outside w)) as Hlaw.
  destruct (create_or_update _ _ _ _ _) as [[[sent failure] d] out]. destruct Hlaw as (Ec & Eother & En).
  assert (∀ k c, certificate_at (w_outside w) k = Some c →
    ∃ c', certificate_at out k = Some c' ∧ same_resource c c' ∧ c' = c) as Hc by (intros k c Hk; exists c; by rewrite Ec).
  exists []. simpl. rewrite app_nil_r. split_and!; [done|lia|]. destruct sent as [[found secret]|]; simpl.
  - apply run_bind. exists [SecretWritten n found secret failure]. simpl. split_and!; [done|lia|]. run_step. simpl.
    split; [|done]. intros k. unfold last_write. simpl. destruct (decide (n = k)) as [<-|Hne]; [by destruct failure|].
    by apply Eother.
  - run_step. split; [|done]. intros k. simpl. destruct (decide (k = n)) as [->|Hne]; [done|]. by apply Eother.
Qed.
End store.

Create HintDb follows discriminated.
#[export] Hint Resolve follows_ret follows_next follows_now follows_wait follows_http follows_write_Status
  follows_CreateOrUpdate : follows.
#[export] Hint Extern 1 (follows (note _)) => apply follows_note; split; reflexivity : follows.
#[export] Hint Extern 1 (follows (api (get_Secret _ _))) => apply follows_get, get_Secret_keeps : follows.
#[export] Hint Extern 1 (follows (api (get_KMPIssuer _ _))) => apply follows_get, get_KMPIssuer_keeps : follows.
#[export] Hint Extern 1 (follows (api (get_KMPClusterIssuer _ _))) =>
  apply follows_get, get_KMPClusterIssuer_keeps : follows.
#[export] Hint Extern 1 (follows (api (get_KMPCertificate _ _))) =>
  apply follows_get, get_KMPCertificate_keeps : follows.

(** Follow the structure of a computation. *)
Ltac follow :=
  repeat first
    [ progress intros | solve [auto 2 with follows] | apply follows_bind | progress cbv zeta
    | match goal with |- follows (match ?x with _ => _ end) => destruct x end ].

Section operations.
Context `{Unicode, Conversions, Env, PublicKeys, !X509, !PrivateKeys, !Pem, !Kubernetes, !Store}.

(** ** Key Manager Plus *)

Lemma follows_do c ctx method op query body contentType : follows (do c ctx method op query body contentType).
Proof. unfold do. follow. Qed.
Hint Resolve follows_do : follows.

Lemma follows_call c ctx method op query body contentType :
  follows (Client.call c ctx method op query body contentType).
Proof. unfold Client.call. follow. Qed.
Hint Resolve follows_call : follows.

Lemma follows_CreateCSR c ctx req : follows (CreateCSR c ctx req).
Proof. unfold CreateCSR. follow. Qed.

Lemma follows_FindCSRID c ctx op cn : follows (FindCSRID c ctx op cn).
Proof. unfold FindCSRID. follow. Qed.
Hint Resolve follows_FindCSRID : follows.

Lemma follows_resolveCSRID s ctx stored cn : follows (resolveCSRID s ctx stored cn).
Proof. unfold resolveCSRID. follow. Qed.

Lemma follows_SignCSR c ctx req : follows (SignCSR c ctx req).
Proof. unfold SignCSR. follow. Qed.

Lemma follows_GetCertificate c ctx cn sn : follows (GetCertificate c ctx cn sn).
Proof. unfold GetCertificate. follow. Qed.
Hint Resolve follows_GetCertificate : follows.

Lemma follows_fetchCertificate s ctx cn sn : follows (fetchCertificate s ctx cn sn).
Proof.
  unfold fetchCertificate. apply follows_bind; [apply follows_now|]. intros now. cbv zeta.
  generalize (max_polls s). intros fuel. induction fuel as [|fuel IH]; simpl; follow.
Qed.

Lemma follows_ExportCSR c ctx id fileType : follows (ExportCSR c ctx id fileType).
Proof. unfold ExportCSR, callRaw. follow. Qed.
Hint Resolve follows_CreateCSR follows_resolveCSRID follows_SignCSR follows_fetchCertificate follows_ExportCSR : follows.

Lemma follows_Provision s ctx req : follows (Provision s ctx req).
Proof. unfold Provision. follow. Qed.

Lemma follows_provisioner spec data p ctx req :
  KMPProvisionerFromIssuerAndSecretData spec data = Ok p → follows (p ctx req).
Proof.
  unfold KMPProvisionerFromIssuerAndSecretData. destruct (signerFromIssuerAndSecretData _ _); [|done].
  intros [= <-]. apply follows_Provision.
Qed.

(** ** The controller *)

Lemma follows_issuanceNeeded ns ctx c : follows (issuanceNeeded (main_reconciler ns) ctx c).
Proof. unfold issuanceNeeded. follow. Qed.

Lemma follows_resolveIssuer ns ctx c : follows (resolveIssuer (main_reconciler ns) ctx c).
Proof. unfold resolveIssuer. follow. Qed.

Lemma follows_keyStorePassword ctx c : follows (keyStorePassword ctx c).
Proof. unfold keyStorePassword, generatePassword. follow. Qed.

Lemma follows_writeSecret ctx c chain ca key password generated :
  follows (writeSecret ctx c chain ca key password generated).
Proof. unfold writeSecret. follow. Qed.
Hint Resolve follows_issuanceNeeded follows_resolveIssuer follows_keyStorePassword follows_writeSecret : follows.

Lemma follows_issue_pair ns ctx c : follows (issue_pair (main_reconciler ns) ctx c).
Proof.
  unfold issue_pair. apply follows_bind; [follow|]. intros [[spec namespace]|e]; [|follow]. cbv zeta.
  apply follows_bind; [follow|]. intros [auth|e]; [|follow].
  apply follows_bind; [follow|]. intros [[password generated]|e]; [|follow].
  cbn [ProvisionerBuilder main_reconciler].
  destruct (KMPProvisionerFromIssuerAndSecretData _ _) eqn:E; [|follow].
  apply follows_bind; [by eapply follows_provisioner|]. follow.
Qed.
Hint Resolve follows_issue_pair : follows.

Lemma follows_set_ready c status reason message : follows (set_ready c status reason message).
Proof. unfold set_ready. follow. Qed.

Lemma follows_renewal_clock ns renewAt : follows (renewal_clock (main_reconciler ns) renewAt).
Proof. unfold renewal_clock. follow. Qed.
Hint Resolve follows_set_ready follows_renewal_clock : follows.

Lemma follows_request_certificate ns ctx c : follows (request_certificate (main_reconciler ns) ctx c).
Proof. unfold request_certificate, issue. follow. Qed.
Hint Resolve follows_request_certificate : follows.

Lemma follows_Reconcile ns ctx name : follows (Reconcile (main_reconciler ns) ctx name).
Proof. unfold Reconcile, reconcile_body. follow. Qed.
End operations.
#[export] Hint Resolve follows_call follows_SignCSR follows_GetCertificate follows_resolveCSRID
  follows_fetchCertificate : follows.

(** ** A status that says so already *)

Lemma find_condition_untimed ty cs cs' :
  untimed <$> cs' = untimed <$> cs → untimed <$> find_condition ty cs' = untimed <$> find_condition ty cs.
Proof.
  revert cs'. induction cs as [|e cs IH]; intros [|e' cs'] E; try done. injection E as Ety ? ? ? ? E.
  unfold find_condition in *. simpl. rewrite Ety. case_bool_decide; [simpl; unfold untimed; congruence|by apply IH].
Qed.

(** Setting a condition that is there changes nothing. *)
Lemma update_condition_idle c cs e :
  find_condition (cond_Type c) cs = Some e → untimed e = untimed c → update_condition c cs = Some cs.
Proof.
  unfold find_condition. intros Hf E. induction cs as [|d cs IH]; simpl in *; [done|].
  destruct (decide (cond_Type d = cond_Type c)) as [Ed|Ed].
  - rewrite bool_decide_eq_true_2 in Hf by done. injection Hf as ->. injection E as _ ? ? ? ?.
    rewrite bool_decide_eq_false_2 by tauto. unfold refresh_condition. by rewrite !bool_decide_eq_true_2.
  - rewrite bool_decide_eq_false_2 in Hf by done. rewrite bool_decide_eq_true_2 by done. by rewrite IH.
Qed.

Lemma setCondition_idle now now' cs cs' generation ty status reason message :
  untimed <$> cs' = untimed <$> setCondition now cs generation ty status reason message →
  setCondition now' cs' generation ty status reason message = cs'.
Proof.
  intros E. apply (find_condition_untimed ty) in E.
  destruct (setCondition_spec now cs generation ty status reason message) as [(c & Hc & ? & ? & ? & ? & _) _].
  rewrite Hc in E. destruct (find_condition ty cs') as [e|] eqn:He; [|done]. injection E as E.
  assert (cond_Type c = ty) as Hty.
  { clear -Hc. unfold find_condition in Hc. revert Hc. generalize (setCondition now cs generation ty status reason message).
    induction l as [|d l IH]; simpl; [done|]. case_bool_decide; [by intros [= ->]|done]. }
  unfold setCondition. cbv zeta. erewrite update_condition_idle; [done|exact He|]. unfold untimed in *. simpl. congruence.
Qed.

(** ** A resource at rest *)

Section at_rest.
Context `{Unicode, Conversions, Env, PublicKeys, !X509, !PrivateKeys, !Pem, !Kubernetes}.

(** The status after a reconciliation that leaves the Secret alone. *)
Definition current_status (now : Z) (c : KMPCertificate) : KMPCertificateStatus :=
  ready_status now (cert_Generation c) "True" "Issued" "The Secret holds a current certificate" (cert_Status c).

(** That changes nothing any more. *)
Definition calm (c : KMPCertificate) : Prop := ∀ now, current_status now c = cert_Status c.

Lemma calm_stored now c c' :
  same_conditions (current_status now c) (cert_Status c') → cert_Generation c' = cert_Generation c → calm c'.
Proof.
  intros E Hg now'. unfold current_status, ready_status. rewrite Hg.
  unfold same_conditions in E. simpl in E. apply (setCondition_idle _ now') in E. rewrite E. by destruct (cert_Status c').
Qed.

(** A reconciliation that finds an acceptable Secret: what it makes of the
    status, if that changes it. *)
Lemma run_Reconcile_idle ns ctx name c secret leaf w :
  attended_to ctx name w c → finds ctx name (secret_name c) w secret →
  secret_state (secret_name c) (cert_Spec c) secret = inr leaf →
  run (Reconcile (main_reconciler ns) ctx name) w (λ _ w' xs,
    w_now w' < renewalTime leaf (RenewBefore (cert_Spec c)) →
    ∃ now, (current_status now c = cert_Status c ∧ xs = []) ∨
           (current_status now c ≠ cert_Status c ∧
            ∃ failure, xs = [StatusWritten (with_status c (current_status now c)) failure])).
Proof.
  intros [Hget Hdel] Hfinds Hstate. unfold Reconcile. apply run_bind, run_api_known. intros Hw1.
  rewrite Hget, Hdel, bool_decide_eq_false_2 by tauto. cbv iota zeta. unfold reconcile_body. do 2 apply run_bind.
  eapply run_issuanceNeeded_found; [exact Hfinds|exact Hstate| |].
  - intros reason w2 Hdue Hw2. cbn [negb]. eapply run_conseq; [apply run_request_certificate, _|].
    intros [result c'] w3 xs Hw3 _. case_bool_decide; [run_step; lia|].
    apply run_later, run_bind, run_write_Status. intros [msg|] w4; run_step; lia.
  - intros w2 _ Hw2. cbn [negb]. unfold set_ready. do 2 apply run_bind. apply run_now. run_step.
    apply run_bind, run_renewal_clock; [apply _|]. intros now w3. run_step. simpl.
    fold (current_status (w_now w2) c). case_bool_decide as E.
    + run_step. intros _. exists (w_now w2). left. by split.
    + apply run_bind, run_write_Status. intros failure w4. destruct failure as [msg|]; run_step; intros _;
        exists (w_now w2); right; (split; [intros E'; by apply E|by eexists]).
Qed.

Context `{!Store}.
Context (ns : string) (name n : NamespacedName).

(** Time passes and anything may happen, except to the resource and its
    Secret. *)
Definition undisturbed (w w' : world) : Prop :=
  w_now w ≤ w_now w' ∧ secret_at (w_outside w') n = secret_at (w_outside w) n ∧
  certificate_at (w_outside w') name = certificate_at (w_outside w) name.

(** The status is updated once, after attempts that fail, and nothing else is
    done. *)
Definition comes_to_rest (ys : list event) : Prop :=
  ∃ failed, Forall status_failed failed ∧ (ys = failed ∨ ∃ c, ys = failed ++ [StatusWritten c None]).

(** The resource is there, with this Secret; its status says so. *)
Definition at_rest (resource : KMPCertificate) (secret : Secret) (w : world) : Prop :=
  secret_at (w_outside w) n = Some secret ∧
  ∃ c, certificate_at (w_outside w) name = Some c ∧ same_resource resource c.
Definition calm_at (w : world) : Prop := ∃ c, certificate_at (w_outside w) name = Some c ∧ calm c.

Lemma undisturbed_at_rest resource secret w w' :
  undisturbed w w' → at_rest resource secret w → at_rest resource secret w'.
Proof. intros (_ & Es & Ec). unfold at_rest. by rewrite Es, Ec. Qed.

Lemma undisturbed_calm_at w w' : undisturbed w w' → calm_at w → calm_at w'.
Proof. intros (_ & _ & Ec). unfold calm_at. by rewrite Ec. Qed.

Context (resource : KMPCertificate) (secret : Secret) (leaf : certificate).
Context (Hname : secret_name resource = n) (Hdel : cert_DeletionTimestamp resource = None).
Context (Hstate : secret_state n (cert_Spec resource) secret = inr leaf).
Notation renewal := (renewalTime leaf (RenewBefore (cert_Spec resource))).

(** One more reconciliation writes no more than the status, and nothing if that
    is as it should be. *)
Lemma Reconcile_at_rest ctx w :
  at_rest resource secret w →
  run (Reconcile (main_reconciler ns) ctx name) w (λ _ w' xs, w_now w' < renewal →
    at_rest resource secret w' ∧
    ((xs = [] ∧ calm_at w') ∨
     ¬ calm_at w ∧ ∃ c failure, xs = [StatusWritten c failure] ∧ (failure = None → calm_at w'))).
Proof.
  intros (Hs & c & Hc & Hsame). pose proof (same_resource_fields _ _ Hsame) as (Hn & Hspec & Hd & Hg).
  assert (finds ctx name (secret_name c) w secret) as Hfinds.
  { apply reads_secret. rewrite Hn, Hname. unfold called, api.
    pose proof (get_KMPCertificate_keeps ctx name (w_now w) (w_outside w)) as [Es _].
    destruct (get_KMPCertificate _ _ _ _) as [[? ?] out]. simpl in *. by rewrite Es. }
  assert (attended_to ctx name w c) as Hatt by (split; [by apply reads_certificate|by rewrite Hd]).
  rewrite <- Hname, <- Hn, <- Hspec in Hstate.
  destruct (run_Reconcile_idle ns ctx name c secret leaf w Hatt Hfinds Hstate) as (xs & Hlog & Ht & Hidle).
  destruct (follows_Reconcile ns ctx name w) as (xs' & Hlog' & _ & Hev).
  rewrite Hlog in Hlog'. apply app_inv_head in Hlog' as <-.
  exists xs. split_and!; [done..|]. intros Hlt. rewrite <- Hspec in Hlt. destruct (Hidle Hlt) as (now & Hxs).
  destruct Hev as [Hevs Hevc]. specialize (Hevs n). destruct (Hevc name c Hc) as (c' & Hc' & Hsame' & Hst).
  destruct Hxs as [[Hnow ->]|(Hnow & failure & ->)].
  - split; [split; [by rewrite Hevs|exists c'; split; [done|by etransitivity]]|]. left. split; [done|].
    exists c'. split; [done|]. simpl in Hst. subst c'. apply (calm_stored now c); [|done]. by rewrite Hnow.
  - split; [split; [by rewrite Hevs|exists c'; split; [done|by etransitivity]]|]. right. split.
    + intros (c0 & Hc0 & Hcalm). rewrite Hc in Hc0. injection Hc0 as <-. by apply Hnow.
    + eexists _, failure. split; [done|]. intros ->. exists c'. split; [done|]. unfold last_status in Hst. simpl in Hst.
      rewrite (certificate_name _ _ _ Hc), decide_True in Hst by done. apply (calm_stored now c); [done|].
      by apply (same_resource_fields _ _ Hsame').
Qed.
End at_rest.
