(* ===== verification/History.v ===== *)
(** * The operator over its life

    The controllers run side by side, again and again.  A history is any number
    of their activations, each from a world of its own, and a log in which their
    events are interleaved in some order.  What holds of every history is proved
    from what holds of each activation. *)

From S2P Require Import Prelude GoStrings GoFloat GoAny GoHttp Errors GoNet X509 Chain Verify World Client Signer PrivateKey Provision Api KmpSigner Kubernetes Issuer Reconciler Main Confinement Lifecycle.
Local Open Scope go_scope.
Local Open Scope Z_scope.

(** ** Interleavings *)

(** [l] consists of the elements of [l1] and [l2], each in their order. *)
Inductive shuffle {A} : list A → list A → list A → Prop :=
| shuffle_nil : shuffle [] [] []
| shuffle_left x l1 l2 l : shuffle l1 l2 l → shuffle (x :: l1) l2 (x :: l)
| shuffle_right x l1 l2 l : shuffle l1 l2 l → shuffle l1 (x :: l2) (x :: l).

Section shuffle.
Context {A : Type}.
Implicit Types l : list A.

Lemma shuffle_Permutation l1 l2 l : shuffle l1 l2 l → l ≡ₚ l1 ++ l2.
Proof.
  induction 1 as [|x l1 l2 l _ IH|x l1 l2 l _ IH]; [done|by rewrite IH|]. by rewrite IH, Permutation_middle.
Qed.

Lemma shuffle_elem_of l1 l2 l x : shuffle l1 l2 l → x ∈ l ↔ x ∈ l1 ∨ x ∈ l2.
Proof. intros ->%shuffle_Permutation. apply elem_of_app. Qed.

(** One after the other is one of the ways. *)
Lemma shuffle_app l1 l2 : shuffle l1 l2 (l1 ++ l2).
Proof.
  induction l1 as [|x l1 IH]; [|by constructor]. induction l2; constructor; auto.
Qed.

Lemma shuffle_sublist l1 l2 l : shuffle l1 l2 l → l1 `sublist_of` l ∧ l2 `sublist_of` l.
Proof. induction 1 as [|x l1 l2 l _ [? ?]|x l1 l2 l _ [? ?]]; split; by constructor. Qed.
End shuffle.

(** ** Activations *)

Section history.
Context `{Unicode, Conversions, Env, PublicKeys, !X509, !PrivateKeys, !Pem, !Kubernetes}.

(** What the controller manager calls: a reconciliation of a KMPCertificate,
    the [Sign] of a CertificateRequest, the [Check] of an issuer. *)
Inductive activity :=
| Reconciling (ctx : context) (name : NamespacedName)
| Signing (ctx : context) (cr : res CertificateDetails) (obj : issuer_object)
| Checking (ctx : context) (obj : issuer_object).

Context (ns : string).

(** It runs, from a world to a world. *)
Definition activate (a : activity) (w : world) : world :=
  match a with
  | Reconciling ctx name => (Reconcile (main_reconciler ns) ctx name w).2
  | Signing ctx cr obj => (Issuer_Sign (main_issuer ns) ctx cr obj w).2
  | Checking ctx obj => (Issuer_Check (main_issuer ns) ctx obj w).2
  end.

(** An activation that is over: what ran, from which world, and its events. *)
Record activation := Activation { act_of : activity; act_from : world; act_events : list event }.

Definition act_to (a : activation) : world := activate (act_of a) (act_from a).

Definition ran (a : activation) : Prop := w_log (act_to a) = w_log (act_from a) ++ act_events a.

(** An activation from an empty log, with all it did. *)
Definition whole (a : activity) (w : world) : activation := Activation a w (w_log (activate a w)).

Lemma whole_ran a w : w_log w = [] → ran (whole a w).
Proof. unfold ran, act_to, whole. cbn [act_of act_from act_events]. by intros ->. Qed.

(** Activations start at any time and in any world, and their events are
    interleaved in any way. *)
Inductive history : list activation → list event → Prop :=
| history_start : history [] []
| history_more a acts log log' :
    ran a → history acts log → shuffle (act_events a) log log' → history (a :: acts) log'.

(** What a run adds to the log satisfies what was shown of it. *)
Lemma run_adds {A} (m : io A) w xs Q :
  run m w Q → w_log (m w).2 = w_log w ++ xs → Q (m w).1 (m w).2 xs.
Proof. intros (ys & E & _ & HQ) E'. rewrite E in E'. by apply app_inv_head in E' as ->. Qed.

(** ** What an activation may do *)

(** [e] is an event of the reconciliation of [certificate]. *)
Definition written_for (certificate : KMPCertificate) (e : event) : Prop :=
  match e with
  | SecretWritten n _ secret _ => n = secret_name certificate ∧ holds_pair certificate secret
  | StatusWritten certificate' _ =>
    cert_Name certificate' = cert_Name certificate ∧ cert_Spec certificate' = cert_Spec certificate
  | _ => True
  end.

(** The issuer an activation is for, in its context. *)
Definition issuer_for (a : activation) (ctx : context) (spec : IssuerSpec) (namespace : string) : Prop :=
  match act_of a with
  | Reconciling ctx' name => ctx' = ctx ∧ ∃ certificate,
      answer (get_KMPCertificate ctx name) (act_from a) = Ok certificate ∧ issuer_of ns ctx certificate spec namespace
  | Signing ctx' _ obj | Checking ctx' obj => ctx' = ctx ∧ getIssuerDetails (main_issuer ns) obj = Ok (spec, namespace)
  end.

(** A request goes to that issuer, with the credentials it names. *)
Definition well_addressed (a : activation) (e : event) : Prop :=
  is_sent e → ∃ ctx spec namespace, issuer_for a ctx spec namespace ∧ confined ctx spec namespace e.

(** Anything but a request is for reconciliations, of the resource as it was
    read, and only if that is not going. *)
Definition permitted (a : activation) (e : event) : Prop :=
  is_sent e ∨ ∃ ctx name certificate,
    act_of a = Reconciling ctx name ∧ answer (get_KMPCertificate ctx name) (act_from a) = Ok certificate ∧
    cert_DeletionTimestamp certificate = None ∧ written_for certificate e.

Lemma issuer_event a xs w ctx obj e :
  (∃ cr, a = Signing ctx cr obj) ∨ a = Checking ctx obj →
  (∃ spec namespace, getIssuerDetails (main_issuer ns) obj = Ok (spec, namespace) ∧ confined ctx spec namespace e) →
  well_addressed (Activation a w xs) e ∧ permitted (Activation a w xs) e.
Proof.
  intros Ha (spec & namespace & Hobj & Hc). split.
  - intros _. exists ctx, spec, namespace. split; [|done]. by destruct Ha as [[cr ->]| ->].
  - left. destruct Hc as (auth & _ & Hr). by destruct e.
Qed.

(** What an activation may do. *)
Lemma ran_events a : ran a → Forall (λ e, well_addressed a e ∧ permitted a e) (act_events a).
Proof.
  unfold ran, act_to. destruct a as [[ctx name|ctx cr obj|ctx obj] w xs]; cbn [act_of act_from act_events activate];
    intros Hran; apply Forall_forall; intros e Hin.
  - pose proof (run_adds _ _ _ _ (run_Reconcile (main_reconciler ns) ctx name w) Hran) as [Hatt _].
    pose proof (run_adds _ _ _ _ (run_Reconcile_confined ns ctx name w) Hran) as Hreq.
    cbv beta in Hreq. rewrite Forall_forall in Hreq. split.
    + intros Hsent. destruct (Hreq e Hin Hsent) as (certificate & Hget & Hc).
      destruct (Hc Hsent) as (spec & namespace & ? & ?). exists ctx, spec, namespace. split; [|done].
      split; [done|]. by exists certificate.
    + destruct (attended_written _ _ _ _ _ Hatt Hin) as (certificate & Hget & Hdel & He).
      right. exists ctx, name, certificate. split_and!; [done..|].
      destruct e as [| |c f|]; try done. by destruct He as (? & ? & _).
  - pose proof (run_adds _ _ _ _ (emits_Issuer_Sign ns ctx cr obj w) Hran) as [_ Hreq].
    rewrite Forall_forall in Hreq. eapply issuer_event; [eauto|by apply Hreq].
  - pose proof (run_adds _ _ _ _ (emits_Issuer_Check ns ctx obj w) Hran) as [_ Hreq].
    rewrite Forall_forall in Hreq. eapply issuer_event; [eauto|by apply Hreq].
Qed.

(** Rule induction: what is shown of the events of every activation holds of
    the log. *)
Lemma history_ind_events (P : activation → event → Prop) acts log :
  (∀ a, a ∈ acts → ran a → Forall (P a) (act_events a)) → history acts log →
  ∀ e, e ∈ log → ∃ a, a ∈ acts ∧ ran a ∧ P a e.
Proof.
  intros Hran Hh. induction Hh as [|a acts log log' Ha Hh IH Hsh]; intros e He; [by apply not_elem_of_nil in He|].
  apply (shuffle_elem_of _ _ _ _ Hsh) in He as [He|He].
  - exists a. split_and!; [by left|done|]. specialize (Hran a (list_elem_of_here _ _) Ha).
    rewrite Forall_forall in Hran. by apply Hran.
  - destruct (IH (λ b Hb, Hran b (list_elem_of_further _ _ _ Hb)) e He) as (b & ? & ? & ?). exists b. by split_and!; [right|..].
Qed.

(** ** Resources that are left alone *)

(** Nobody who may write the Secret [n] has a reason to: the reconciliations
    whose resource has that Secret find it there, acceptable, and are over
    before it is due. *)
Definition content_with (n : NamespacedName) (a : activation) : Prop :=
  ∀ ctx name certificate,
    act_of a = Reconciling ctx name → answer (get_KMPCertificate ctx name) (act_from a) = Ok certificate →
    cert_DeletionTimestamp certificate = None → secret_name certificate = n →
    ∃ secret leaf, finds ctx name n (act_from a) secret ∧
      secret_state n (cert_Spec certificate) secret = inr leaf ∧
      w_now (act_to a) < renewalTime leaf (RenewBefore (cert_Spec certificate)).

Definition writes_secret (n : NamespacedName) (e : event) : Prop :=
  match e with SecretWritten n' _ _ _ => n' = n | _ => False end.

Lemma content_writes_nothing n a :
  ran a → content_with n a → ∀ e, e ∈ act_events a → ¬ writes_secret n e.
Proof.
  intros Hran Hcontent e He Hw. pose proof (ran_events a Hran) as Hp. rewrite Forall_forall in Hp.
  destruct e as [| n' found secret f| |]; try done. simpl in Hw. subst n'.
  destruct (proj2 (Hp _ He)) as [?|(ctx & name & certificate & Ha & Hget & Hdel & Hn & _)]; [done|].
  destruct (Hcontent ctx name certificate Ha Hget Hdel (eq_sym Hn)) as (s & leaf & Hs & Hstate & Hdue).
  unfold ran, act_to in *. rewrite Ha in Hran, Hdue. cbn [activate] in Hran, Hdue. subst n.
  pose proof (run_adds _ _ _ _ (run_Reconcile_found ns ctx name certificate s leaf (act_from a)
    (conj Hget Hdel) Hs Hstate) Hran) as [Hquiet _].
  destruct (Hquiet Hdue) as [Hst _]. rewrite Forall_forall in Hst. exact (Hst _ He).
Qed.
End history.

(** ** Properties *)

Section history_claims.
Context `{Unicode, Conversions, Env, PublicKeys, !X509, !PrivateKeys, !Pem, !Kubernetes}.

(** C4: whatever the operator does over its life - reconciliations, signings
    and health checks, any number of them, side by side, with anything happening
    in between - a Secret it writes is the one a KMPCertificate names that was
    read in the very activation, is not being deleted, and holds a matching pair
    for it; a status it stores is that of such a resource, whose spec it leaves
    alone; and a Secret is not written at all while every reconciliation that
    may write it finds it acceptable and is over before its renewal. *)
Theorem history_accounted ns acts log :
  history ns acts log →
  (∀ e, e ∈ log → ∃ a, a ∈ acts ∧ ran ns a ∧ permitted a e) ∧
  ∀ n, (∀ a, a ∈ acts → content_with ns n a) → ∀ found secret failure, SecretWritten n found secret failure ∉ log.
Proof.
  intros Hh. split.
  - apply (history_ind_events ns permitted); [|done]. intros a _ Hran.
    eapply Forall_impl; [by apply ran_events|]. by intros e [_ ?].
  - intros n Hcontent found secret failure Hin.
    destruct (history_ind_events ns (λ _ e, ¬ writes_secret n e) acts log) with (SecretWritten n found secret failure)
      as (a & _ & _ & Hno); [|done..|by apply Hno].
    intros a Ha Hran. apply Forall_forall. intros e. by apply (content_writes_nothing ns n a Hran), Hcontent.
Qed.

(** C5: where credentials go.  Over the life of the operator, every request is
    made for the issuer of the CertificateRequest or health check, or for the one
    the KMPCertificate that was read refers to, and carries the token of the
    Secret that issuer names, whatever else is served side by side.  It goes to
    the scheme and host that issuer configures, to an operation of the API or the
    lookup operation the issuer configures: below the API path, which is below
    the configured one, unless that lookup operation is not a plain path element.
    What is put on the wire for it carries the token, too; it is that request, or
    one to a URL that an answer redirected to, and only there the token can leave
    the configured host. *)
Theorem history_confined ns acts log e :
  history ns acts log → e ∈ log → is_sent e →
  ∃ a ctx spec namespace auth, a ∈ acts ∧ ran ns a ∧ issuer_for ns a ctx spec namespace ∧
    answered (get_Secret ctx (MkName namespace (AuthSecretName spec))) (Ok auth) ∧
    request_of spec (sec_Data auth) e.
Proof.
  intros Hh He Hsent.
  destruct (history_ind_events ns (well_addressed ns) acts log) with e as (a & Ha & Hran & Hw); [|done..|].
  - intros a _ Hran. eapply Forall_impl; [by apply ran_events|]. by intros x [? _].
  - destruct (Hw Hsent) as (ctx & spec & namespace & Hiss & auth & ? & ?). by exists a, ctx, spec, namespace, auth.
Qed.
End history_claims.
