(* ===== verification/Operation.v ===== *)
(** * The operator at work on a cluster

    The controllers run one after the other in a cluster that serves what they
    write (Convergence.v).  Reconciliations of other resources, signings and
    health checks do not disturb a resource that has its Secret, and it does not
    disturb itself: the control loop comes to rest. *)

From S2P Require Import Prelude GoStrings GoFloat GoAny GoHttp Errors GoNet X509 Chain World Client Signer PrivateKey Provision Api KmpSigner Kubernetes Issuer Reconciler Main Confinement Lifecycle Convergence History.
Local Open Scope go_scope.
Local Open Scope Z_scope.

Section operations.
Context `{Unicode, Conversions, Env, PublicKeys, !X509, !PrivateKeys, !Pem, !Kubernetes, !Store}.

(** ** The other activities follow their log, too *)

Lemma follows_ImportCSR c ctx csr email : follows (ImportCSR c ctx csr email).
Proof. unfold ImportCSR. follow. Qed.
Hint Resolve follows_ImportCSR : follows.

Lemma follows_Sign s ctx req : follows (Sign s ctx req).
Proof. unfold Sign. follow. Qed.

Lemma follows_checker spec data checker ctx :
  KMPHealthCheckerFromIssuerAndSecretData spec data = Ok checker → follows (checker ctx).
Proof.
  unfold KMPHealthCheckerFromIssuerAndSecretData. destruct (signerFromIssuerAndSecretData _ _); [|done].
  intros [= <-]. unfold kmpSigner_Check, Ping. follow.
Qed.

Lemma follows_signer spec data sign ctx details :
  KMPSignerFromIssuerAndSecretData spec data = Ok sign → follows (sign ctx details).
Proof.
  unfold KMPSignerFromIssuerAndSecretData. destruct (signerFromIssuerAndSecretData _ _); [|done].
  intros [= <-]. unfold kmpSigner_Sign. apply follows_bind; [apply follows_Sign|]. follow.
Qed.

Lemma follows_getSecretData ns ctx spec namespace : follows (getSecretData (main_issuer ns) ctx spec namespace).
Proof.
  unfold getSecretData. apply follows_bind; [follow|]. intros [auth|e]; [|follow].
  cbn [HealthCheckerBuilder main_issuer].
  destruct (KMPHealthCheckerFromIssuerAndSecretData _ _) eqn:E; [|follow].
  apply follows_bind; [by eapply follows_checker|]. follow.
Qed.
Hint Resolve follows_getSecretData : follows.

Lemma follows_Issuer_Check ns ctx obj : follows (Issuer_Check (main_issuer ns) ctx obj).
Proof. unfold Issuer_Check. follow. Qed.

Lemma follows_Issuer_Sign ns ctx cr obj : follows (Issuer_Sign (main_issuer ns) ctx cr obj).
Proof.
  unfold Issuer_Sign. destruct (getIssuerDetails _ obj) as [[spec namespace]|e]; [|follow].
  apply follows_bind; [follow|]. intros [data|e]; [|follow]. destruct cr as [details|e]; [|follow].
  cbn [SignerBuilder main_issuer]. destruct (KMPSignerFromIssuerAndSecretData _ _) eqn:E; [|follow].
  apply follows_bind; [by eapply follows_signer|]. follow.
Qed.

Lemma activate_follows ns a w :
  ∃ xs, w_log (activate ns a w) = w_log w ++ xs ∧ w_now w ≤ w_now (activate ns a w) ∧
        evolves (w_outside w) xs (w_outside (activate ns a w)).
Proof.
  destruct a; [apply follows_Reconcile|apply follows_Issuer_Sign|apply follows_Issuer_Check].
Qed.
End operations.

(** ** A life *)

Section life.
Context `{Unicode, Conversions, Env, PublicKeys, !X509, !PrivateKeys, !Pem, !Kubernetes, !Store}.
Context (ns : string) (name n : NamespacedName).

(** It is not about the resource [name], nor is its Secret [n]. *)
Definition bystander (a : activity) (w : world) : Prop :=
  match a with
  | Reconciling _ name' =>
    name' ≠ name ∧ ∀ c, certificate_at (w_outside w) name' = Some c → secret_name c ≠ n
  | _ => True
  end.

(** Activities one after the other, with their events; the resource is the only
    one with its Secret, and in between nobody touches either. *)
Inductive life : world → list (activity * list event) → world → Prop :=
| life_over w w' : undisturbed name n w w' → life w [] w'
| life_more w w1 a xs acts w' :
    undisturbed name n w w1 → bystander a w1 ∨ (∃ ctx, a = Reconciling ctx name) →
    w_log (activate ns a w1) = w_log w1 ++ xs → life (activate ns a w1) acts w' → life w ((a, xs) :: acts) w'.

(** The events of the reconciliations of the resource. *)
Definition own (acts : list (activity * list event)) : list event :=
  flat_map (λ p, match p.1 with
                 | Reconciling _ name' => if decide (name' = name) then p.2 else []
                 | _ => []
                 end) acts.

(** Bystanders write neither. *)
Lemma bystander_events a w xs :
  bystander a w → w_log (activate ns a w) = w_log w ++ xs →
  Forall (λ e, written_to n e = None ∧ status_of name e = None) xs.
Proof.
  intros Hb Hlog. pose proof (ran_events ns (Activation a w xs) Hlog) as Hp. cbn [act_events] in Hp.
  eapply Forall_impl; [exact Hp|]. intros e [_ [Hsent|(ctx & name' & c & Ha & Hget & _ & He)]]; [by destruct e|].
  cbn [act_of act_from] in *. subst a. destruct Hb as [Hname Hn]. apply reads_only in Hget.
  pose proof (certificate_name _ _ _ Hget) as Hc.
  destruct e as [|n' found secret f|c' f|]; try done; simpl in He |- *.
  - destruct He as [-> _]. by rewrite decide_False by (by apply Hn).
  - destruct He as [Hc' _]. by rewrite decide_False by congruence.
Qed.

Lemma bystander_undisturbed a w :
  bystander a w → (∃ c, certificate_at (w_outside w) name = Some c) → undisturbed name n w (activate ns a w).
Proof.
  intros Hb [c Hc]. destruct (activate_follows ns a w) as (xs & Hlog & Ht & Hs & Hcert).
  pose proof (bystander_events a w xs Hb Hlog) as Hxs. split; [done|].
  assert (last_write n xs = None) as Hw.
  { apply last_of_nothing. eapply Forall_impl; [exact Hxs|]. by intros e [? _]. }
  assert (last_status name xs = None) as Hst.
  { apply last_of_nothing. eapply Forall_impl; [exact Hxs|]. by intros e [_ ?]. }
  split; [specialize (Hs n); by rewrite Hw in Hs|].
  destruct (Hcert name c Hc) as (c' & Hc' & _ & E). rewrite Hst in E. by rewrite Hc', Hc, E.
Qed.

Lemma life_later w acts w' : life w acts w' → w_now w ≤ w_now w'.
Proof.
  induction 1 as [w w' [? _]|w w1 a xs acts w' [? _] _ _ _ IH]; [done|].
  destruct (activate_follows ns a w1) as (? & _ & ? & _). lia.
Qed.

Lemma comes_to_rest_nil : comes_to_rest [].
Proof. exists []. split; [constructor|by left]. Qed.

Lemma comes_to_rest_failed c msg ys : comes_to_rest ys → comes_to_rest (StatusWritten c (Some msg) :: ys).
Proof.
  intros (failed & Hf & Hys). exists (StatusWritten c (Some msg) :: failed). split; [by constructor|].
  destruct Hys as [->|[c' ->]]; [by left|right; by exists c'].
Qed.

Lemma comes_to_rest_once c : comes_to_rest [StatusWritten c None].
Proof. exists []. split; [constructor|]. right. by exists c. Qed.

Context (resource : KMPCertificate) (secret : Secret) (leaf : certificate).
Context (Hname : secret_name resource = n) (Hdel : cert_DeletionTimestamp resource = None).
Context (Hstate : secret_state n (cert_Spec resource) secret = inr leaf).
Notation renewal := (renewalTime leaf (RenewBefore (cert_Spec resource))).

(** Up to renewal, the resource stays at rest. *)
Lemma life_at_rest w acts w' :
  life w acts w' → at_rest name n resource secret w → w_now w' < renewal →
  at_rest name n resource secret w' ∧ comes_to_rest (own acts) ∧ (calm_at name w → own acts = []).
Proof.
  induction 1 as [w w' Hu|w w1 a xs acts w' Hu Ha Hlog Hl IH]; intros Hrest Hlt.
  { split_and!; [by eapply undisturbed_at_rest|apply comes_to_rest_nil|done]. }
  pose proof (undisturbed_at_rest _ _ _ _ _ _ Hu Hrest) as Hrest1. pose proof (life_later _ _ _ Hl).
  destruct Ha as [Hb|[ctx ->]].
  - assert (own ((a, xs) :: acts) = own acts) as ->.
    { unfold own. simpl. destruct a as [ctx name'| |]; [|done..]. destruct Hb as [Hne _]. by rewrite decide_False. }
    assert (undisturbed name n w1 (activate ns a w1)) as Hu1.
    { apply bystander_undisturbed; [done|]. destruct Hrest1 as (_ & c & ? & _). by exists c. }
    destruct (IH (undisturbed_at_rest _ _ _ _ _ _ Hu1 Hrest1) Hlt) as (? & ? & Hquiet). split_and!; [done..|].
    intros Hcalm. by eapply Hquiet, undisturbed_calm_at, undisturbed_calm_at.
  - assert (own ((Reconciling ctx name, xs) :: acts) = xs ++ own acts) as ->.
    { unfold own. simpl. by rewrite decide_True. }
    cbn [activate] in *.
    destruct (Reconcile_at_rest ns name n resource secret leaf Hname Hdel Hstate ctx w1 Hrest1)
      as (xs' & Hlog' & _ & Hone).
    rewrite Hlog in Hlog'. apply app_inv_head in Hlog' as <-. destruct Hone as [Hrest' Hone]; [lia|].
    destruct (IH Hrest' Hlt) as (? & Hrests & Hquiet). split; [done|].
    destruct Hone as [[-> Hcalm]|(Hno & c & failure & -> & Hcalm)].
    + rewrite (Hquiet Hcalm). split; [apply comes_to_rest_nil|done].
    + split; [|intros Hw; destruct Hno; by eapply undisturbed_calm_at].
      destruct failure as [msg|]; [by apply comes_to_rest_failed|].
      rewrite (Hquiet (Hcalm eq_refl)). apply comes_to_rest_once.
Qed.
End life.

(** ** Properties *)

Section operation_claims.
Context `{Unicode, Conversions, Env, PublicKeys, !X509, !PrivateKeys, !Pem, !Kubernetes, !Store}.

(** C9: the control loop comes to rest.  In a cluster that serves what was
    written, once a reconciliation has stored a Secret, any number of further
    reconciliations of the resource, until the certificate is due for renewal,
    does no more than update the status, once: no request is sent, no Secret is
    written, and after one such update has succeeded nothing is done at all.
    In between the operator may serve other resources, sign CertificateRequests
    and check issuers, and the Secret is still there in the end.  This needs
    that nobody but the operator changes the resource or the Secret, that no
    other resource names the same Secret, that the names are written plainly,
    and that the chain starts with an end entity that carries the organization
    and unit asked for. *)
Theorem operator_settles ns ctx name certificate w :
  pki_starts_within → certificate_at (w_outside w) name = Some certificate →
  cert_DeletionTimestamp certificate = None → settled_names (cert_Spec certificate) →
  run (Reconcile (main_reconciler ns) ctx name) w (λ _ w1 xs, ∀ secret,
    last_write (secret_name certificate) xs = Some (secret, None) → plain_leaf (cert_Spec certificate) secret →
    ∃ leaf rest, DecodeX509CertificateChainBytes (data_get TLSCertKey (sec_Data secret)) = Ok (leaf :: rest) ∧
    ∀ acts w2, life ns name (secret_name certificate) w1 acts w2 →
      w_now w2 < renewalTime leaf (RenewBefore (cert_Spec certificate)) →
      comes_to_rest (own name acts) ∧ secret_at (w_outside w2) (secret_name certificate) = Some secret).
Proof.
  intros Hpki Hc Hdel Hnames.
  destruct (run_Reconcile (main_reconciler ns) ctx name w) as (xs & Hlog & Ht & Hatt & _).
  destruct (follows_Reconcile ns ctx name w) as (xs' & Hlog' & _ & Hev & Hevc).
  rewrite Hlog in Hlog'. apply app_inv_head in Hlog' as <-.
  exists xs. split_and!; [done..|]. intros secret Hw Hsubject.
  destruct (last_write_elem _ _ _ _ Hw) as [found Hin].
  destruct (attended_written _ _ _ _ _ Hatt Hin) as (c & Hget & _ & _ & Hpair).
  unfold answer in Hget. rewrite (reads_certificate _ _ _ _ _ Hc) in Hget. injection Hget as <-.
  destruct (holds_pair_accepted _ _ Hpki Hnames Hpair Hsubject) as (leaf & rest & Hstate & _ & Hdecode).
  exists leaf, rest. split; [done|]. intros acts w2 Hl Hlt.
  destruct (life_at_rest ns name _ certificate secret leaf eq_refl Hdel Hstate _ _ _ Hl) as ([? _] & ? & _);
    [|exact Hlt|done].
  split; [|destruct (Hevc _ _ Hc) as (c' & ? & ? & _); by exists c'].
  specialize (Hev (secret_name certificate)). by rewrite Hw in Hev.
Qed.
End operation_claims.
