(* ===== verification/Startup.v ===== *)
(** * [cmd/main.go]: starting the program

    From the arguments to the running controller manager: which calls are made in
    which order, with what, and where the program exits.  The options of the
    two TLS servers are slices that start out as one ([tlsOpts]), so they are
    in a memory (GoHeap.v). *)

From stdpp Require Import gmap.
From S2P Require Import Prelude GoStrings GoUrl GoFlag GoFloat GoAny GoHttp Errors X509 World Client PrivateKey Api GoHeap Kubernetes Issuer Reconciler Main.
Local Open Scope go_scope.

(** ** Flags *)

Record flags := MkFlags {
  clusterResourceNamespace : string;
  printVersion : bool;
  metricsAddr : string;
  metricsCertPath : string;
  metricsCertName : string;
  metricsCertKey : string;
  webhookCertPath : string;
  webhookCertName : string;
  webhookCertKey : string;
  enableLeaderElection : bool;
  probeAddr : string;
  secureMetrics : bool;
  enableHTTP2 : bool
}.

(** The calls of [flag.StringVar] and [flag.BoolVar]: names and defaults. *)
Definition declarations : list (string * variable) :=
  [("cluster-resource-namespace", StringVar "");
   ("version", BoolVar false);
   ("metrics-bind-address", StringVar "0");
   ("health-probe-bind-address", StringVar ":8081");
   ("leader-elect", BoolVar false);
   ("metrics-secure", BoolVar true);
   ("webhook-cert-path", StringVar "");
   ("webhook-cert-name", StringVar "tls.crt");
   ("webhook-cert-key", StringVar "tls.key");
   ("metrics-cert-path", StringVar "");
   ("metrics-cert-name", StringVar "tls.crt");
   ("metrics-cert-key", StringVar "tls.key");
   ("enable-http2", BoolVar false)].

Definition declared : variables := list_to_map declarations.

Definition string_var (vars : variables) (name : string) : string :=
  match vars !! name with Some (StringVar s) => s | _ => "" end.

Definition bool_var (vars : variables) (name : string) : bool :=
  match vars !! name with Some (BoolVar b) => b | _ => false end.

(** The variables of [main]. *)
Definition flags_of (vars : variables) : flags := {|
  clusterResourceNamespace := string_var vars "cluster-resource-namespace";
  printVersion := bool_var vars "version";
  metricsAddr := string_var vars "metrics-bind-address";
  metricsCertPath := string_var vars "metrics-cert-path";
  metricsCertName := string_var vars "metrics-cert-name";
  metricsCertKey := string_var vars "metrics-cert-key";
  webhookCertPath := string_var vars "webhook-cert-path";
  webhookCertName := string_var vars "webhook-cert-name";
  webhookCertKey := string_var vars "webhook-cert-key";
  enableLeaderElection := bool_var vars "leader-elect";
  probeAddr := string_var vars "health-probe-bind-address";
  secureMetrics := bool_var vars "metrics-secure";
  enableHTTP2 := bool_var vars "enable-http2"
|}.

(** Without arguments. *)
Definition default_flags : flags := flags_of declared.

(** ** TLS options *)

(** [certwatcher.New(certPath, keyPath)] *)
Record watcher := CertWatcher { certPath : string; keyPath : string }.

(** [filepath.Join] is [path.Join] on the systems the program runs on. *)
Definition watcher_in (dir cert key : string) : watcher :=
  CertWatcher (path_join [dir; cert]) (path_join [dir; key]).

(** The functions of [main] that change a [tls.Config], and the nil function. *)
Inductive tls_option :=
| disableHTTP2
| getCertificateOf (w : watcher)
| NilFunc.

#[export] Instance tls_option_cell : Storable tls_option tls_option.
Proof. by refine {| inject o := o; project o := Some o |}. Defined.

(** What they change of a [tls.Config]. *)
Record tls_config := MkTlsConfig { NextProtos : list string; GetCertificate : option watcher }.

Definition configure (c : tls_config) (o : tls_option) : tls_config :=
  match o with
  | disableHTTP2 => MkTlsConfig ["http/1.1"] (GetCertificate c)
  | getCertificateOf w => MkTlsConfig (NextProtos c) (Some w)
  | NilFunc => c
  end.

(** ** Calls to the outside *)

Record manager_options := MkManagerOptions {
  mgr_Scheme : scheme;
  mgr_MetricsBindAddress : string;
  mgr_MetricsSecureServing : bool;
  mgr_MetricsAuthenticated : bool;         (** [FilterProvider] is set *)
  mgr_HealthProbeBindAddress : string;
  mgr_LeaderElection : bool;
  mgr_LeaderElectionID : string;
  mgr_LeaderElectionReleaseOnCancel : bool
}.

(** What [init] and [main] do, in terms of the calls that can fail.  The
    options of the servers are read when the manager starts them. *)
Inductive action `{Unicode, Env, PublicKeys, !Kubernetes} :=
| AddClientGoTypes
| AddCertManagerTypes
| NewCertWatcher (w : watcher)
| GetConfig
| NewManager (o : manager_options)
| SetupIssuers (c : CombinedController)
| SetupCertificates (c : controller)
| AddRunnable (w : watcher)
| AddHealthzCheck (name : string)
| AddReadyzCheck (name : string)
| Start (webhook metrics : list tls_option).

Section startup.
Context `{Unicode, Conversions, Env, PublicKeys, !X509, !PrivateKeys, !Pem, !Kubernetes}.

(** The outside: the file with the namespace, and the text of the error a call
    fails with, after those made before it. *)
Context (stat : stat_result) (file : result string string).
Context (fails : list action → action → option string).
(** The capacity the runtime chooses for a slice that must grow. *)
Context (grow : nat → nat → nat).

(** [os.Exit(1)] after an error was logged with a message; a panic; [os.Exit]
    of the [flag] package, with what it printed before the usage. *)
Inductive stop :=
| Exit (message error_text : string)
| Panic (error_text : string)
| Usage (code : Z) (message : string).

(** The memory, the calls made so far and the scheme. *)
Record setup := MkSetup { su_heap : gmap nat (list tls_option); su_done : list action; su_scheme : scheme }.

Definition startup (A : Type) : Type := setup → (stop + A) * setup.

Definition st_ret {A} (a : A) : startup A := λ s, (inr a, s).
Definition st_bind {A B} (m : startup A) (k : A → startup B) : startup B := λ s,
  match m s with
  | (inr a, s) => k a s
  | (inl e, s) => (inl e, s)
  end.
Definition st_stop {A} (e : stop) : startup A := λ s, (inl e, s).

Definition call (a : action) (failed : string → stop) : startup () := λ s,
  let s' := MkSetup (su_heap s) (su_done s ++ [a]) (su_scheme s) in
  match fails (su_done s) a with
  | Some err => (inl (failed err), s')
  | None => (inr tt, s')
  end.

(** [if err := ...; err != nil { setupLog.Error(err, message); os.Exit(1) }] *)
Definition attempt (a : action) (message : string) : startup () := call a (Exit message).

Definition memory {A} (m : mem tls_option A) : startup A := λ s,
  match m (su_heap s) with
  | Some (a, h) => (inr a, MkSetup h (su_done s) (su_scheme s))
  | None => (inl (Panic "invalid memory address or nil pointer dereference"), s)
  end.

Definition registered : startup scheme := λ s, (inr (su_scheme s), s).
End startup.

Notation "'let+' x := m 'in' k" := (st_bind m (λ x, k))
  (at level 200, x pattern, m at level 200, k at level 200) : go_scope.

Section main.
Context `{Unicode, Conversions, Env, PublicKeys, !X509, !PrivateKeys, !Pem, !Kubernetes}.
Context (stat : stat_result) (file : result string string).
Context (fails : list action → action → option string).
Context (grow : nat → nat → nat).

(** The function [init]. *)
Definition init : startup () :=
  let+ _ := call fails AddClientGoTypes Panic in
  let+ _ := call fails AddCertManagerTypes Panic in
  λ s, (inr tt, MkSetup (su_heap s) (su_done s) (addKnownTypes (su_scheme s))).

(** The message [main] logs when there is no namespace. *)
Definition namespace_message (err : error) : string :=
  if errors_is err errNotInCluster then "please supply --cluster-resource-namespace"
  else "unexpected error while getting in-cluster Namespace".

(** [append(opts, option)] *)
Definition append_option (opts : option array) (o : tls_option) : startup (option array) :=
  memory (append grow NilFunc opts o).

(** A watcher for the certificates in a directory, if one is given, and the
    options with the one that uses it. *)
Definition watch_certificates (dir cert key message : string) (opts : option array)
  : startup (option watcher * option array) :=
  if nonempty dir then
    let w := watcher_in dir cert key in
    let+ _ := attempt fails (NewCertWatcher w) message in
    let+ opts := append_option opts (getCertificateOf w) in
    st_ret (Some w, opts)
  else st_ret (None, opts).

Definition add_watcher (w : option watcher) (message : string) : startup () :=
  match w with
  | Some w => attempt fails (AddRunnable w) message
  | None => st_ret tt
  end.

Definition options_of (f : flags) (known : scheme) : manager_options :=
  MkManagerOptions known (metricsAddr f) (secureMetrics f) (secureMetrics f) (probeAddr f)
    (enableLeaderElection f) "kmp-issuer.kmp.cert-manager.io" true.

(** The last calls of [main]; the servers read their options. *)
Definition start_manager (webhookTLSOpts metricsTLSOpts : option array) : startup () :=
  let+ _ := attempt fails (AddHealthzCheck "healthz") "unable to set up health check" in
  let+ _ := attempt fails (AddReadyzCheck "readyz") "unable to set up ready check" in
  let+ webhook := memory (range_slice webhookTLSOpts) in
  let+ metrics := memory (range_slice metricsTLSOpts) in
  attempt fails (Start webhook metrics) "problem running manager".

(** [main] from [flag.Parse] on. *)
Definition serve (f : flags) : startup () :=
  if printVersion f then st_ret tt
  else match getInClusterNamespace (clusterResourceNamespace f) stat file with
  | Err err => st_stop (Exit (namespace_message err) (error_text err))
  | Ok namespace =>
    let+ tlsOpts := (if enableHTTP2 f then st_ret None else append_option None disableHTTP2) in
    let+ (webhookCertWatcher, webhookTLSOpts) :=
      watch_certificates (webhookCertPath f) (webhookCertName f) (webhookCertKey f)
        "Failed to initialize webhook certificate watcher" tlsOpts in
    let+ (metricsCertWatcher, metricsTLSOpts) :=
      watch_certificates (metricsCertPath f) (metricsCertName f) (metricsCertKey f)
        "to initialize metrics certificate watcher" tlsOpts in
    let+ _ := attempt fails GetConfig "unable to get kubeconfig" in
    let+ known := registered in
    let+ _ := attempt fails (NewManager (options_of f known)) "unable to start manager" in
    let+ _ := attempt fails (SetupIssuers (Issuer_SetupWithManager (main_issuer namespace)))
                "unable to create Signer controllers" in
    let+ _ := attempt fails (SetupCertificates (Reconciler_SetupWithManager (main_reconciler namespace)))
                "unable to create the KMPCertificate controller" in
    let+ _ := add_watcher metricsCertWatcher "unable to add metrics certificate watcher to manager" in
    let+ _ := add_watcher webhookCertWatcher "unable to add webhook certificate watcher to manager" in
    start_manager webhookTLSOpts metricsTLSOpts
  end.

(** [flag.Parse]: the flags, or how the program exits. *)
Definition parse_flags (foreign : foreign_flags) (args : list string) : stop + flags :=
  match Parse foreign declared args with
  | Parsed vars _ => inr (flags_of vars)
  | HelpRequested => inl (Usage 0 "")
  | Failed message => inl (Usage 2 message)
  end.

Definition main (foreign : foreign_flags) (args : list string) : startup () :=
  match parse_flags foreign args with
  | inl e => st_stop e
  | inr f => serve f
  end.

(** The process: what it did and how it ended. *)
Definition program (foreign : foreign_flags) (args : list string) : option stop * list action :=
  match (let+ _ := init in main foreign args) (MkSetup ∅ [] []) with
  | (inl e, s) => (Some e, su_done s)
  | (inr _, s) => (None, su_done s)
  end.
End main.

(** ** The order of the calls *)

Section plan.
Context `{Unicode, Conversions, Env, PublicKeys, !X509, !PrivateKeys, !Pem, !Kubernetes}.

(** A call with how the program ends if it fails. *)
Notation step := (action * (string → stop))%type.

Definition watchers (dir cert key : string) : list watcher :=
  if nonempty dir then [watcher_in dir cert key] else [].

Definition init_plan : list step := [(AddClientGoTypes, Panic); (AddCertManagerTypes, Panic)].

Definition plan (f : flags) (namespace : string) : list step :=
  let http := if enableHTTP2 f then [] else [disableHTTP2] in
  let webhook := watchers (webhookCertPath f) (webhookCertName f) (webhookCertKey f) in
  let metrics := watchers (metricsCertPath f) (metricsCertName f) (metricsCertKey f) in
  ((λ w, (NewCertWatcher w, Exit "Failed to initialize webhook certificate watcher")) <$> webhook) ++
  ((λ w, (NewCertWatcher w, Exit "to initialize metrics certificate watcher")) <$> metrics) ++
  [(GetConfig, Exit "unable to get kubeconfig")] ++
  [(NewManager (options_of f (addKnownTypes [])), Exit "unable to start manager")] ++
  [(SetupIssuers (Issuer_SetupWithManager (main_issuer namespace)),
    Exit "unable to create Signer controllers")] ++
  [(SetupCertificates (Reconciler_SetupWithManager (main_reconciler namespace)),
    Exit "unable to create the KMPCertificate controller")] ++
  ((λ w, (AddRunnable w, Exit "unable to add metrics certificate watcher to manager")) <$> metrics) ++
  ((λ w, (AddRunnable w, Exit "unable to add webhook certificate watcher to manager")) <$> webhook) ++
  [(AddHealthzCheck "healthz", Exit "unable to set up health check")] ++
  [(AddReadyzCheck "readyz", Exit "unable to set up ready check")] ++
  [(Start (http ++ (getCertificateOf <$> webhook)) (http ++ (getCertificateOf <$> metrics)),
    Exit "problem running manager")].

Context (fails : list action → action → option string).

(** Make the calls up to the first that fails. *)
Fixpoint execute (steps : list step) (made : list action) : option stop * list action :=
  match steps with
  | [] => (None, made)
  | (a, failed) :: steps =>
    match fails made a with
    | Some err => (Some (failed err), made ++ [a])
    | None => execute steps (made ++ [a])
    end
  end.

Definition and_then (r : option stop * list action) (k : list action → option stop * list action)
  : option stop * list action :=
  match r with
  | (None, made) => k made
  | (Some e, made) => (Some e, made)
  end.

Lemma execute_app steps1 steps2 made :
  execute (steps1 ++ steps2) made = and_then (execute steps1 made) (execute steps2).
Proof.
  revert made. induction steps1 as [|[a failed] steps1 IH]; intros made; simpl; [done|].
  by destruct (fails made a).
Qed.

(** How a part of the program ends, and what was done by then. *)
Definition end_of {A} (r : (stop + A) * setup) : option stop * list action :=
  match r with
  | (inl e, s) => (Some e, su_done s)
  | (inr _, s) => (None, su_done s)
  end.

Lemma end_of_call {B} a failed (k : () → startup B) h made known :
  end_of ((let+ x := call fails a failed in k x) (MkSetup h made known)) =
  and_then (execute [(a, failed)] made) (λ made, end_of (k tt (MkSetup h made known))).
Proof. unfold st_bind, call. simpl. by destruct (fails made a). Qed.

Lemma end_of_memory {A B} (m : mem tls_option A) a h' (k : A → startup B) h made known :
  m h = Some (a, h') →
  end_of ((let+ x := memory m in k x) (MkSetup h made known)) = end_of (k a (MkSetup h' made known)).
Proof. intros Hm. unfold st_bind, memory. simpl. by rewrite Hm. Qed.

Lemma end_of_add_watcher {B} dir cert key message (k : () → startup B) h made known :
  end_of ((let+ x := add_watcher fails (hd_error (watchers dir cert key)) message in k x) (MkSetup h made known)) =
  and_then (execute ((λ w, (AddRunnable w, Exit message)) <$> watchers dir cert key) made)
    (λ made, end_of (k tt (MkSetup h made known))).
Proof. unfold watchers. destruct (nonempty dir); [|done]. apply end_of_call. Qed.

Context (stat : stat_result) (file : result string string).
Context (grow : nat → nat → nat).
Context (grow_enough : ∀ cap needed, needed ≤ grow cap needed).

(** Options in a full array: the ones a server adds are its own. *)
Lemma end_of_watch_certificates dir cert key message opts os h :
  elements h opts = Some os → arr_cap_of opts ≤ arr_len_of opts →
  ∃ h' opts', h ⊆ h' ∧ elements h' opts' = Some (os ++ (getCertificateOf <$> watchers dir cert key)) ∧
  ∀ B (k : option watcher * option array → startup B) made known,
    end_of ((let+ x := watch_certificates fails grow dir cert key message opts in k x) (MkSetup h made known)) =
    and_then (execute ((λ w, (NewCertWatcher w, Exit message)) <$> watchers dir cert key) made)
      (λ made, end_of (k (hd_error (watchers dir cert key), opts') (MkSetup h' made known))).
Proof.
  intros He Hfull. unfold watch_certificates, watchers. destruct (nonempty dir).
  2:{ exists h, opts. rewrite app_nil_r. done. }
  cbv zeta. set (w := watcher_in dir cert key).
  destruct (append_full grow NilFunc h opts os (getCertificateOf w) grow_enough Hfull He)
    as (opts' & h' & Hrun & Hh & He' & _).
  exists h', opts'. split_and!; [done..|]. intros B k made known.
  unfold st_bind at 1, attempt, call. unfold st_bind at 1. simpl.
  destruct (fails made (NewCertWatcher w)); [done|]. unfold append_option, memory, st_bind. simpl.
  by rewrite Hrun.
Qed.

(** The options [main] starts with fill their array, if a first element gets an
    array of its own size. *)
Lemma tls_options f made known :
  grow 0 1 = 1 →
  ∃ h opts, elements h opts = Some (if enableHTTP2 f then [] else [disableHTTP2]) ∧
    arr_cap_of opts ≤ arr_len_of opts ∧
    ∀ B (k : option array → startup B),
      end_of ((let+ x := (if enableHTTP2 f then st_ret None else append_option grow None disableHTTP2) in k x)
                (MkSetup ∅ made known)) = end_of (k opts (MkSetup h made known)).
Proof.
  intros Hone. destruct (enableHTTP2 f).
  { exists ∅, None. by split_and!. }
  destruct (append_full grow NilFunc ∅ None [] disableHTTP2 grow_enough) as (opts & h & Hrun & _ & He & Hlen & Hcap);
    [done..|].
  exists h, opts. split_and!; [done|rewrite Hlen, Hcap; simpl; lia|]. intros B k. by apply end_of_memory.
Qed.

Lemma end_of_init {B} (k : () → startup B) :
  end_of ((let+ x := init fails in k x) (MkSetup ∅ [] [])) =
  and_then (execute init_plan []) (λ made, end_of (k tt (MkSetup ∅ made (addKnownTypes [])))).
Proof.
  unfold init, st_bind, call. simpl. destruct (fails [] _); [done|]. simpl. by destruct (fails [_] _).
Qed.

(** One part of [main] makes the calls of one part of the plan. *)
Ltac next_calls lemma :=
  cbv beta iota; unfold attempt; rewrite execute_app, lemma;
  match goal with |- and_then ?r _ = _ => destruct r as [[?|] ?made]; [reflexivity|]; cbn [and_then] end.

Lemma end_of_serve f made :
  grow 0 1 = 1 →
  end_of (serve stat file fails grow f (MkSetup ∅ made (addKnownTypes []))) =
  if printVersion f then (None, made)
  else match getInClusterNamespace (clusterResourceNamespace f) stat file with
  | Err err => (Some (Exit (namespace_message err) (error_text err)), made)
  | Ok namespace => execute (plan f namespace) made
  end.
Proof.
  intros Hone. unfold serve, plan. destruct (printVersion f); [done|].
  destruct (getInClusterNamespace _ _ _) as [namespace|err]; [|done]. cbv zeta.
  destruct (tls_options f made (addKnownTypes []) Hone) as (h & opts & He & Hfull & Htls).
  rewrite Htls. set (http := if enableHTTP2 f then [] else _) in *.
  destruct (end_of_watch_certificates (webhookCertPath f) (webhookCertName f) (webhookCertKey f)
    "Failed to initialize webhook certificate watcher" opts http h He Hfull) as (h1 & webhook & Hh1 & Hw & Hrun1).
  destruct (end_of_watch_certificates (metricsCertPath f) (metricsCertName f) (metricsCertKey f)
    "to initialize metrics certificate watcher" opts http h1 (elements_grows _ _ _ _ He Hh1) Hfull)
    as (h2 & metrics & Hh2 & Hm & Hrun2).
  next_calls Hrun1. next_calls Hrun2. next_calls @end_of_call.
  unfold st_bind at 1, registered. cbn [su_scheme].
  do 3 next_calls @end_of_call. do 2 next_calls @end_of_add_watcher. cbv beta iota. unfold start_manager. do 2 next_calls @end_of_call.
  erewrite end_of_memory by (unfold range_slice; by rewrite (elements_grows _ _ _ _ Hw Hh2)).
  erewrite end_of_memory by (unfold range_slice; by rewrite Hm).
  unfold attempt, call. simpl. by destruct (fails _ _).
Qed.

(** C18: the program makes the calls of its plan in order, up to the first that
    fails: the types are registered, then, once the arguments are read, unless
    only the version is asked for, and once it has a namespace, the watchers of
    the certificates it is given, the manager with those types, both controllers
    for that namespace, the watchers and the two probes, and only then is the
    manager started.  It exits exactly when a call fails, the arguments are not
    understood or there is no namespace, saying which.  Each TLS server serves
    the certificates given for it, and HTTP/1.1 only unless HTTP/2 is enabled;
    as the options of both start out as one slice, this needs that the runtime
    gives a first element an array of its size. *)
Theorem program_follows_plan foreign args :
  grow 0 1 = 1 →
  program stat file fails grow foreign args =
  and_then (execute init_plan []) (λ made,
    match parse_flags foreign args with
    | inl e => (Some e, made)
    | inr f =>
      if printVersion f then (None, made)
      else match getInClusterNamespace (clusterResourceNamespace f) stat file with
      | Err err => (Some (Exit (namespace_message err) (error_text err)), made)
      | Ok namespace => execute (plan f namespace) made
      end
    end).
Proof.
  intros Hone. transitivity (end_of ((let+ _ := init fails in main stat file fails grow foreign args) (MkSetup ∅ [] []))).
  - unfold program. by destruct ((let+ _ := init fails in _) _) as [[]].
  - rewrite end_of_init. destruct (execute init_plan []) as [[e|] made]; [done|]. cbn [and_then]. unfold main.
    destruct (parse_flags foreign args) as [e|f]; [done|]. by apply end_of_serve.
Qed.
End plan.

(** ** The command line *)

Definition text_of (v : variable) : string :=
  match v with BoolVar true => "true" | BoolVar false => "false" | StringVar s => s end.

Definition argument_of (setting : string * variable) : string :=
  "--" +:+ setting.1 +:+ "=" +:+ text_of setting.2.

(** The flags written out. *)
Definition settings (f : flags) : list (string * variable) :=
  [("cluster-resource-namespace", StringVar (clusterResourceNamespace f));
   ("version", BoolVar (printVersion f));
   ("metrics-bind-address", StringVar (metricsAddr f));
   ("health-probe-bind-address", StringVar (probeAddr f));
   ("leader-elect", BoolVar (enableLeaderElection f));
   ("metrics-secure", BoolVar (secureMetrics f));
   ("webhook-cert-path", StringVar (webhookCertPath f));
   ("webhook-cert-name", StringVar (webhookCertName f));
   ("webhook-cert-key", StringVar (webhookCertKey f));
   ("metrics-cert-path", StringVar (metricsCertPath f));
   ("metrics-cert-name", StringVar (metricsCertName f));
   ("metrics-cert-key", StringVar (metricsCertKey f));
   ("enable-http2", BoolVar (enableHTTP2 f))].

Definition set_all (vars : variables) (l : list (string * variable)) : variables :=
  foldl (λ m s, <[s.1 := s.2]> m) vars l.

(** The flag is declared, with a value of this kind. *)
Definition fits (vars : variables) (s : string * variable) : Prop :=
  ∃ old, vars !! s.1 = Some old ∧ is_bool old = is_bool s.2.

Lemma fits_insert vars s s' : fits vars s → fits vars s' → fits (<[s.1 := s.2]> vars) s'.
Proof.
  intros (old & Hold & Hk) (old' & Hold' & Hk'). unfold fits, variables in *.
  destruct (decide (s.1 = s'.1)) as [E|E]; [rewrite E, lookup_insert_eq; eexists|rewrite lookup_insert_ne by done; by exists old'].
  split; [done|]. rewrite E in Hold. congruence.
Qed.

Lemma set_value_text old v : is_bool old = is_bool v → set_value old (text_of v) = Ok v.
Proof. destruct old, v as [[]|]; done. Qed.

Lemma spelled_settings vars l :
  Forall (fits vars) l → spelled vars (argument_of <$> l) (set_all vars l).
Proof.
  revert vars. induction l as [|[name v] l IH]; intros vars Hl; [constructor|].
  apply Forall_cons in Hl as [Hs Hl]. pose proof Hs as (old & Hold & Hk). simpl.
  apply (spelled_more vars name (text_of v) old v [argument_of (name, v)]).
  - apply (spells_equals _ _ _ "--"). set_solver.
  - done.
  - by apply set_value_text.
  - apply IH. eapply Forall_impl; [exact Hl|]. intros s' Hs'. by apply (fits_insert vars (name, v) s').
Qed.

Lemma declared_names name : is_Some (declared !! name) → flag_name name.
Proof.
  intros [v Hv]. apply elem_of_list_to_map_2 in Hv.
  assert (Forall (λ d, flag_name d.1) declarations) as Hall.
  { unfold declarations. repeat (apply Forall_cons; split; [split; [by apply cut_byte_lacks|done]|]). constructor. }
  rewrite Forall_forall in Hall. by apply (Hall (name, v)).
Qed.

Section command_line.
Context `{Unicode, Conversions, Env, PublicKeys, !X509, !PrivateKeys, !Pem, !Kubernetes}.

(** C19: the command line means what it says.  Settings in any order and in any
    of the ways to write one - one dash or two, the value behind an equals sign
    or, unless the flag is boolean, as the next argument, a boolean flag alone -
    give the flags with those values, the last one for a flag that is set
    twice, and the defaults elsewhere; what comes after the first argument that
    is not a flag is ignored.  Every choice of the flags can be made. *)
Theorem flags_read_back foreign rest :
  ends_flags rest →
  (∀ args vars, spelled declared args vars → parse_flags foreign (args ++ rest) = inr (flags_of vars)) ∧
  ∀ f, parse_flags foreign ((argument_of <$> settings f) ++ rest) = inr f.
Proof.
  intros Hrest.
  assert (∀ args vars, spelled declared args vars → parse_flags foreign (args ++ rest) = inr (flags_of vars)) as Hargs.
  { intros args vars Hs. unfold parse_flags. rewrite (Parse_spelled foreign _ _ _ rest declared_names Hs).
    by destruct (Parse_ends foreign vars rest Hrest) as [rest' ->]. }
  split; [exact Hargs|]. intros f. rewrite (Hargs _ (set_all declared (settings f))).
  - by destruct f.
  - apply spelled_settings. unfold settings.
    repeat (apply Forall_cons; split; [eexists; by split|]). constructor.
Qed.
End command_line.
