(* ===== verification/Samples.v ===== *)
(** * A concrete world, and witnesses

    Instances of every interface of the development - a codec for certificates
    and keys made of text, a scripted server and API server - and, at concrete
    inputs in them, the theorems that have hypotheses. *)

From stdpp Require Import gmap.
From S2P Require Import Prelude GoStrings GoUrl GoFlag GoFloat GoAny Json JsonCodec GoHttp Errors Response GoNet Base64 X509 Pem Chain Verify Api World Client Signer PrivateKey Provision KmpSigner GoHeap DeepCopy Kubernetes Issuer Reconciler Status Main Confinement Requests Lifecycle History Startup.
Local Open Scope go_scope.
Local Open Scope Z_scope.

(** ** Certificates and keys as text *)

(** A public key is its name; a private key the name of its public key. *)
#[local] Instance named_keys : PublicKeys := {|
  public_key := string;
  implements_equal _ := true;
  key_equal a b := bool_decide (a = b) |}.

(** [cert;subject;issuer;key;common name;DNS names] and [csr;key;common name;DNS
    names]. *)
Definition read_certificate (der : string) : result string certificate :=
  match split_byte 59 der with
  | [kind; subject; issuer; key; cn; dns] =>
    if bool_decide (kind ≠ "cert") then Err "not a certificate" else
    Ok (Certificate _ der subject issuer (Some key) (Name cn [] []) (split_byte 44 dns) [] [] [] 0 (90 * Day))
  | _ => Err "malformed certificate"
  end.

Definition read_request (der : string) : result string certificate_request :=
  match split_byte 59 der with
  | [kind; key; cn; dns] =>
    if bool_decide (kind ≠ "csr") then Err "not a request" else
    Ok (CertificateRequest _ (Name cn [] []) (split_byte 44 dns) [] [] [] (Some key))
  | _ => Err "malformed request"
  end.

(** A certificate without DNS names is that of an authority. *)
Definition is_ca (c : certificate) : bool := bool_decide (DNSNames c = [""]).

Lemma read_certificate_raw der c : read_certificate der = Ok c → Raw c = der.
Proof. unfold read_certificate. intros Hr. repeat case_match; try discriminate. by injection Hr as <-. Qed.

#[local] Instance text_x509 : X509 := {|
  x509_ParseCertificate := read_certificate;
  x509_ParseCertificateRequest := read_request;
  x509_CheckSignature _ := None;
  x509_CheckSignatureFrom child parent := bool_decide (RawIssuer child = RawSubject parent) && is_ca parent;
  x509_parse_raw := read_certificate_raw |}.

#[local] Existing Instance rfc7468.
#[local] Existing Instance ascii_tables.
#[local] Existing Instance amd64_conversions.

Definition read_key (der : string) : option string :=
  if has_prefix der "key;" then Some (drop_bytes 4 der) else None.

Definition write_key (key : string) : result string string := Ok ("key;" +:+ key).

Lemma read_write_key k der : write_key k = Ok der → read_key der = Some k.
Proof. intros [= <-]. unfold read_key. simpl. by destruct k. Qed.

#[local] Instance text_private_keys : PrivateKeys := {|
  private_key := string;
  public_of key := Some key;
  x509_ParsePKCS8PrivateKey := read_key;
  x509_ParsePKCS1PrivateKey _ := None;
  x509_ParseECPrivateKey _ := None;
  x509_MarshalPKCS8PrivateKey := write_key;
  x509_DecryptPEMBlock _ _ := Err "not encrypted";
  pkcs8_round_trip := read_write_key |}.

(** ** A scripted server *)

Definition follow_reference (location : string) : result string url :=
  match url_Parse location with Some u => Ok u | None => Err "invalid Location" end.

(** It answers with the replies of a list, a second each. *)
#[local] Instance scripted : Env := {|
  outside := list hop;
  round_trip _ _ _ _ _ replies :=
    match replies with
    | reply :: replies => (reply, 1000000000%N, replies)
    | [] => (Hop (TransportError "connection refused") "", 1000000000%N, [])
    end;
  url_reference _ := follow_reference;
  url_error _ := "invalid URL";
  json_error _ := "invalid JSON";
  map_order_at _ := order_of [];
  random_at _ := "boundary";
  timer_delay_at _ := 0%N;
  timer_first_at _ := true |}.

(** ** A scripted API server *)

Definition web_spec : KMPCertificateSpec :=
  MkKMPCertificateSpec "web-tls" (MkIssuerReference "kmp" "") "web.example" ["web.example"] []
    (MkCertificateSubject "" "" "" "" "") (MkPrivateKeySpec "RSA" (Some 2048) "" "") (Some 90) "" None None.

Definition web : KMPCertificate :=
  MkKMPCertificate (MkName "apps" "web") 1 None web_spec (MkKMPCertificateStatus [] "" "" None None None).

Definition root_signing : SigningSpec :=
  MkSigningSpec "signWithRoot" "" "" "" "" None "Example Root" "" None None "" "".

Definition issuer_spec : IssuerSpec := MkIssuerSpec "https://kmp.example" "kmp-auth" root_signing false None.

(** It has the issuer, its credentials and the KMPCertificate, but no TLS Secret;
    it stores what it is given. *)
Definition stored_secret (name : NamespacedName) : result api_error Secret :=
  if bool_decide (ObjName name = "kmp-auth") then Ok (MkSecret "Opaque" [("authtoken", "token")] [])
  else Err (NotFound "not found").

#[local] Instance Secret_eq_dec : EqDecision Secret.
Proof. solve_decision. Defined.

(** Create the Secret, or update it if that changes it. *)
Definition store_in (got : result api_error Secret) (mutate : Secret → result string Secret) : write_answer :=
  match present got with
  | None => (None, Some "unavailable")
  | Some found =>
    match mutate (default blank_Secret found) with
    | Err msg => (None, Some msg)
    | Ok secret => if decide (found = Some secret) then (None, None) else (Some (found, secret), None)
    end
  end.

Lemma store_in_spec got mutate : creates_or_updates got mutate (store_in got mutate).
Proof.
  unfold creates_or_updates, store_in. destruct (present got) as [found|]; [|by split].
  destruct (mutate _) as [secret|msg]; [|by split]. case_decide; [by right|by left].
Qed.

Definition own_reference (c : KMPCertificate) : OwnerReference :=
  MkOwnerReference (gv_Group SchemeGroupVersion) "KMPCertificate" (ObjName (cert_Name c)) true.

(** An object has one controller at most. *)
Definition set_owner (c : KMPCertificate) (s : Secret) : result string Secret :=
  if decide (Exists (λ o, owner_Controller o = true ∧ ¬ refers_to c o) (sec_Owners s)) then Err "already owned by another controller"
  else Ok (MkSecret (sec_Type s) (sec_Data s) (filter (λ o, ¬ refers_to c o) (sec_Owners s) ++ [own_reference c])).

Lemma set_owner_spec c s s' : set_owner c s = Ok s' → controller_set c s s'.
Proof.
  unfold set_owner. case_decide as E; [done|]. intros [= <-]. assert (refers_to c (own_reference c)) as Hown by done.
  split; simpl; [done|done| | |].
  - intros (o & ? & ? & ?). apply E, Exists_exists. eauto.
  - exists (own_reference c). split_and!; [|done|done]. apply elem_of_app. right. by left.
  - intros o Ho. rewrite elem_of_app, list_elem_of_filter, list_elem_of_singleton.
    split; [intros [[_ ?]| ->]; [done|by destruct (Ho Hown)]|by left].
Qed.

Lemma set_owner_free c s : ¬ controlled_by_other c s → ∃ s', set_owner c s = Ok s'.
Proof.
  intros Hfree. unfold set_owner. case_decide as E; [|by eexists].
  apply Exists_exists in E as (o & ? & ? & ?). destruct Hfree. exists o. eauto.
Qed.

(** The certificates from the end entity on, if they are a single chain; a root at
    the end is split off. *)
Definition is_end (certs : list certificate) (c : certificate) : bool :=
  forallb (λ child, bool_decide (Raw child = Raw c) || negb (is_issuer child c)) certs.

Definition order_chain (certs : list certificate) : option (list certificate) :=
  match find_first (λ c, if is_end certs c then Some c else None) certs with
  | None => None
  | Some leaf =>
    let remaining := filter (λ c, Raw c ≠ Raw leaf) certs in
    let path := extend_chain (length remaining) [leaf] remaining leaf in
    if bool_decide (length path = length certs) then Some path else None
  end.

Definition encode_chain (chain : list certificate) : result string (string * string) :=
  match chain with
  | [] => Err "no certificates"
  | leaf :: path =>
    match last path with
    | None => Ok (encodeCertificates chain, encodeCertificates chain)
    | Some top =>
      Ok (encodeCertificates (if isSelfSigned top then leaf :: removelast path else chain), encodeCertificates [top])
    end
  end.

Definition split_chain (pem : string) : result string (string * string) :=
  match order_chain (parsePEMCertificates pem).1 with
  | None => Err "the certificates are not a single chain"
  | Some chain => encode_chain chain
  end.

Lemma order_chain_within certs chain : order_chain certs = Some chain → chain ≠ [] ∧ ∀ c, c ∈ chain → c ∈ certs.
Proof.
  unfold order_chain. destruct (find_first _ certs) as [leaf|] eqn:E; [|done]. cbv zeta.
  apply find_first_Some in E as (c & Hc & Hl). destruct (is_end certs c); [|done]. injection Hl as ->.
  destruct (extend_chain_spec _ [leaf] (filter (λ c, Raw c ≠ Raw leaf) certs) leaf eq_refl) as (path & rest & -> & _ & Hp & _).
  case_bool_decide; [|done]. intros [= <-]. split; [done|]. intros x [->|Hx]%elem_of_cons; [done|].
  assert (x ∈ path ++ rest) as Hin by (apply elem_of_app; by left). rewrite Hp in Hin. by apply list_elem_of_filter in Hin as [_ ?].
Qed.

Lemma encode_chain_head chain pem ca :
  encode_chain chain = Ok (pem, ca) → ∃ leaf rest, pem = encodeCertificates (leaf :: rest) ∧ ∀ c, c ∈ leaf :: rest → c ∈ chain.
Proof.
  destruct chain as [|leaf path]; [done|]. unfold encode_chain. destruct (last path) as [top|] eqn:El; intros [= <- _]; [|by exists leaf, path].
  destruct (isSelfSigned top); [|by exists leaf, path]. exists leaf, (removelast path). split; [done|].
  intros c [->|Hc]%elem_of_cons; [by left|]. right. clear -Hc. induction path as [|x path IH]; [done|].
  destruct path as [|y path]; [by apply not_elem_of_nil in Hc|]. apply elem_of_cons in Hc as [->|Hc]; [by left|right; by apply IH].
Qed.

Lemma split_chain_starts certs pem ca :
  Forall parsed_certificate certs → split_chain (encodeCertificates certs) = Ok (pem, ca) →
  pem ≠ "" ∧ ∃ first rest, (parsePEMCertificates pem).1 = first :: rest ∧ first ∈ certs.
Proof.
  intros Hp. unfold split_chain. rewrite parse_encodeCertificates by done. simpl.
  destruct (order_chain certs) as [chain|] eqn:E; [|done]. apply order_chain_within in E as [_ Hin].
  intros (leaf & rest & -> & Hsub)%encode_chain_head.
  assert (Forall parsed_certificate (leaf :: rest)) as Hp'.
  { rewrite Forall_forall in Hp |- *. intros c Hc. by apply Hp, Hin, Hsub. }
  pose proof (parse_encodeCertificates _ Hp') as Hread. split; [|exists leaf, rest; rewrite Hread; split; [done|apply Hin, Hsub; by left]].
  intros E. rewrite E in Hread. by vm_compute in Hread.
Qed.

Definition zero_bytes (n : nat) : string := Nat.iter n (String (to_byte 0)) "".

Lemma zero_bytes_length (t n : nat) b : @Ok string _ (zero_bytes n) = Ok b → String.length b = n.
Proof. intros [= <-]. induction n as [|n IH]; [done|]. simpl. by rewrite IH. Qed.

(** A cluster that has [resource] under every name, and these Secrets. *)
Definition cluster (resource : KMPCertificate) (secrets : NamespacedName → result api_error Secret) : Kubernetes := {|
  get_Secret _ name _ out := (secrets name, 0%N, out);
  get_KMPIssuer _ name _ out := (Ok (MkKMPIssuer name issuer_spec), 0%N, out);
  get_KMPClusterIssuer _ name _ out := (Ok (MkKMPClusterIssuer name issuer_spec), 0%N, out);
  get_KMPCertificate _ name _ out := (Ok resource, 0%N, out);
  update_Status _ _ _ out := (None, 0%N, out);
  create_or_update _ name mutate _ out := (store_in (secrets name) mutate, 0%N, out);
  SetControllerReference := set_owner;
  ParseSingleCertificateChainPEM := split_chain;
  DecodeX509CertificateChainBytes chain := Ok (parsePEMCertificates chain).1;
  format_RFC3339 t := format_int t;
  rand_Read_at _ n := Ok (zero_bytes n);
  create_or_update_spec _ name mutate _ _ := store_in_spec (secrets name) mutate;
  SetControllerReference_spec := set_owner_spec;
  rand_Read_length t n b := zero_bytes_length t n b |}.

#[local] Instance small_cluster : Kubernetes := cluster web stored_secret.

(** ** A run *)

(** JSON with its double quotes written as [']. *)
Fixpoint json (s : string) : string :=
  match s with
  | EmptyString => ""
  | String c s => String (if byte_of c =? 39 then to_byte 34 else c) (json s)
  end.

(** A text as the contents of a JSON string: line breaks escaped. *)
Fixpoint escaped (s : string) : string :=
  match s with
  | EmptyString => ""
  | String c s => (if byte_of c =? 10 then "\n" else String c "") +:+ escaped s
  end.

Definition answer (body : string) : hop := Hop (Reply 200 (json body) None) "".

Definition leaf_der : string := "cert;web;root;web-key;web.example;web.example".
Definition root_der : string := "cert;root;root;root-key;Example Root;".
Definition leaf_pem : string := pem_Encode pemCertificateType leaf_der.
Definition root_pem : string := pem_Encode pemCertificateType root_der.
Definition web_key_pem : string := pem_Encode pemPrivateKeyType "key;web-key".
Definition web_csr_pem : string := encode_pem "CERTIFICATE REQUEST" "csr;web-key;web.example;web.example".

(** Key Manager Plus signs, is not ready with the certificate, then returns it
    with its issuer listed first. *)
Definition signing_replies : list hop :=
  [answer "{'status': 'success', 'CSR_ID': '12'}";
   answer "{'status': 'Success', 'serialNumber': '1f', 'commonName': 'web.example'}";
   answer "{'status': 'success', 'result': []}";
   answer ("{'chain': ['" +:+ escaped root_pem +:+ "', '" +:+ escaped leaf_pem +:+ "']}")].

Definition provisioning_replies : list hop :=
  signing_replies ++ [Hop (Reply 200 web_key_pem None) ""].

Definition background : context := Context None DeadlineExceeded.
Definition start (replies : list hop) : world := World 1000 replies 0 [].

Definition kmp_client : Client :=
  MkClient (Url "https" "" None "kmp.example" "" "" false false "" "" "") "token"
    (HttpClient (TLSTransport false None) defaultTimeout) "kmp-issuer".

Definition root_options : SigningOptions := signingOptions issuer_spec.

Definition root_signer : Signer := MkSigner kmp_client root_options 0 0.

(** How many requests a run sends. *)
Definition requests_sent (log : list event) : nat :=
  length (flat_map (λ e, match e with Sent req _ => [req] | _ => [] end) log).

(** The workflows come to their end: a chain for the CSR after four requests
    and two polls, and a Secret with the exported key and the chain. *)
Example sign_sample :
  let '(r, w) := Sign root_signer background (MkRequest web_csr_pem (36 * Hour) false) (start signing_replies) in
  ChainPEM <$> (match r with Ok b => Some b | Err _ => None end) = Some (leaf_pem +:+ root_pem) ∧
  requests_sent (w_log w) = 4%nat ∧ w_now w = 1000 + 6 * Second.
Proof. vm_compute. auto. Qed.

Example reconcile_sample :
  let '(result, w) := Reconcile (main_reconciler "kmp") background (MkName "apps" "web")
                        (start provisioning_replies) in
  reconcile_err result = None ∧ requests_sent (w_log w) = 5%nat ∧
  find_first (λ e, match e with SecretWritten name None secret None => Some (name, sec_Data secret) | _ => None end)
    (w_log w) =
  Some (MkName "apps" "web-tls",
        [("ca.crt", root_pem); ("keystore-password", b64_raw_url_encode (zero_bytes 24));
         ("tls.crt", leaf_pem); ("tls.key", web_key_pem)]).
Proof. vm_compute. auto. Qed.

(** The token goes where an answer redirects to: an issuer's server that answers
    307 has it sent to another host. *)
Example token_follows_redirect :
  match w_log (Ping kmp_client background (start [Hop (Reply 307 "" None) "https://elsewhere.example/"])).2 with
  | [Sent req result] =>
    (λ r, (Host (URL r), map_get "Authtoken" (Header r))) <$> wire req result =
      [("kmp.example", Some "token"); ("elsewhere.example", Some "token")]
  | _ => False
  end.
Proof. vm_compute. reflexivity. Qed.

(** ** Witnesses *)

Definition one_id : response := Response (Map [("CSR_ID", Str "7"); ("message", Str "stored")]) "".

Lemma findString_order_independent_witness :
  unambiguous (wanted_set csrIDKeys) (doc one_id) ∧
  findString (order_of ["CSR_ID"; "message"]) (Some one_id) csrIDKeys =
  findString (order_of ["message"; "CSR_ID"]) (Some one_id) csrIDKeys.
Proof.
  assert (unambiguous (wanted_set csrIDKeys) (doc one_id)) as Hu.
  { intros m e e' s s' Hsub He He' Hs Hs'. simpl in Hsub.
    inversion Hsub as [v|l x v Hx Hx'|m' k x v Hx Hx']; subst.
    - assert (∀ e s, e ∈ [("CSR_ID", Str "7"); ("message", Str "stored")] →
                direct_scalar (wanted_set csrIDKeys) e = Some s → s = "7") as H7.
      { intros e0 s0 H0 Hs0. rewrite !elem_of_cons, elem_of_nil in H0. destruct H0 as [->|[->|[]]].
        - vm_compute in Hs0. by injection Hs0.
        - vm_compute in Hs0. done. }
      by rewrite (H7 _ _ He Hs), (H7 _ _ He' Hs').
    - rewrite !elem_of_cons, elem_of_nil in Hx. destruct Hx as [[= -> ->]|[[= -> ->]|[]]]; inversion Hx'. }
  split; [exact Hu|].
  exact (findString_order_independent (order_of ["CSR_ID"; "message"]) (order_of ["message"; "CSR_ID"])
           one_id csrIDKeys Hu).
Defined.

Lemma scalarString_integer_witness :
  Z.abs 4503599627370497 ≤ 2 ^ 53 ∧
  scalarString (Float64 (float_of_int 4503599627370497)) = Some (format_int 4503599627370497).
Proof. split; [lia|]. apply (scalarString_integer 4503599627370497). lia. Defined.

Definition web_create : CreateCSRRequest := create_request (provisionRequest web "secret").

Lemma CreateCSRRequest_details_fields_witness :
  rev (create_optional web_create) ≡ₚ create_optional web_create ∧
  create_details_in (rev (create_optional web_create)) web_create = CreateCSRRequest_details web_create ∧
  ∀ key, map_get key (CreateCSRRequest_details web_create) = create_field web_create key.
Proof.
  assert (rev (create_optional web_create) ≡ₚ create_optional web_create) as Hp
    by (symmetry; apply Permutation_rev).
  split; [exact Hp|]. exact (CreateCSRRequest_details_fields (rev (create_optional web_create)) web_create Hp).
Defined.

Definition kmp_config (base : string) : Config :=
  MkConfig base "token" "" false 0 "kmp-issuer" None.

(** A base URL that needs most of the rules of [url.Parse]. *)
Definition elaborate_url : string := " HTTPS://us%65r:p%40ss@[2001:DB8::1]:/kmp%2F1/?x=1#top ".

Definition elaborate_client : Client :=
  MkClient (Url "https" "" (Some (Userinfo "user" (Some "p@ss"))) "[2001:DB8::1]:" "/kmp/1/" "/kmp%2F1/" false false
              "x=1" "top" "")
    "token" (HttpClient (TLSTransport false None) defaultTimeout) "kmp-issuer".


(** What is sent for it. *)
Example elaborate_request :
  url_String (URL (build_request elaborate_client "POST" "signCSR" [("INPUT_DATA", ["{}"])] None "")) =
  "https://user:p%40ss@[2001:DB8::1]/kmp/1/api/pki/restapi/signCSR?INPUT_DATA=%7B%7D#top".
Proof. vm_compute. reflexivity. Qed.

(** A zone with bytes beyond ASCII: the URL is accepted, but no request to it can
    be built, and the failure is permanent. *)
Definition zoned_url : string := "https://[fe80::1%25" +:+ chr 195 +:+ chr 188 +:+ "]".

Example zoned_host_unbuildable :
  match NewClient (kmp_config zoned_url) with
  | Ok c => request_error (target c "signCSR" []) = Some "invalid URL"
  | Err _ => False
  end.
Proof. vm_compute. reflexivity. Qed.

(** The certificates of the last reply above, and the bundle for the web key. *)
Definition sample_values : list string := [root_pem; leaf_pem; "pending"].
Definition sample_leaf : certificate :=
  Certificate _ leaf_der "web" "root" (Some "web-key") (Name "web.example" [] []) ["web.example"] [] [] [] 0 (90 * Day).
Definition sample_root : certificate :=
  Certificate _ root_der "root" "root" (Some "root-key") (Name "Example Root" [] []) [""] [] [] [] 0 (90 * Day).
Definition sample_bundle : Bundle := MkBundle (leaf_pem +:+ root_pem) sample_leaf.

(** A server that answers everything [Sign] asks, the certificate at the second
    poll. *)
Definition cooperative_replies : list hop :=
  [answer "{'CSR_ID': '12'}"; answer "{'commonName': 'web.example'}"; answer "{'data': []}";
   answer ("{'chain': ['" +:+ escaped root_pem +:+ "', '" +:+ escaped leaf_pem +:+ "']}")].

Definition web_request : Request := MkRequest web_csr_pem (36 * Hour) false.
Definition web_csr : certificate_request :=
  CertificateRequest _ (Name "web.example" [] []) ["web.example"] [] [] [] (Some "web-key").

Lemma web_csr_covered : covers_request web_csr sample_leaf.
Proof.
  split; simpl; [by right|intros n ->%list_elem_of_singleton|by intros ? ?%not_elem_of_nil..].
  exists "web.example". split; [by left|reflexivity].
Qed.

Ltac answered :=
  eexists 200, _, _; split_and!;
  [eexists _, None; split_and!; [reflexivity|reflexivity|by left]|lia|lia
  |vm_compute; reflexivity|intros; vm_compute; reflexivity|].

Definition path_of (e : event) : string := match e with Sent r _ => Path (URL r) | _ => "" end.
Definition reply_of (e : event) : http_outcome := match e with Sent _ o => outcome_of o | _ => TransportError "" end.

Lemma kmp_client_http : http_url (baseURL kmp_client).
Proof.
  apply (url_Parse_http "https://kmp.example"); [reflexivity|by right; left|discriminate|]. by intros H.
Qed.

Lemma path_of_request method op q b ct o :
  path_of (Sent (build_request kmp_client method op q b ct) o) = Path (endpoint kmp_client op).
Proof. apply (build_request_URL kmp_client method op q b ct kmp_client_http). Qed.

(** Not the request of that operation: the paths differ. *)
Ltac other_operation :=
  repeat intro; exfalso;
  match goal with H : _ = Sent _ _ |- _ =>
    apply (f_equal path_of) in H; unfold export_request, plain_request, import_request in H;
    change (client root_signer) with kmp_client in H;
    rewrite path_of_request in H; vm_compute in H; discriminate H end.

(** The reply it got. *)
Ltac this_reply :=
  repeat intro;
  match goal with H : _ = Sent _ _ |- _ => apply (f_equal reply_of) in H; simpl in H; rewrite <- H end.

Lemma cooperative_log :
  Forall (cooperates root_signer web_request web_csr)
    (w_log (Sign root_signer background web_request (start cooperative_replies)).2).
Proof.
  match goal with |- Forall _ ?log => set (l := log); vm_compute in l; subst l end.
  repeat apply Forall_cons_2; [..|apply Forall_nil_2]; (split; [|split]); try solve [other_operation].
  - this_reply. answered. eexists "12", _, ("CSR_ID", Str "12"). split_and!; [constructor|by left|reflexivity].
  - this_reply. answered. eexists "web.example", _, ("commonName", Str "web.example").
    split_and!; [constructor|by left|reflexivity].
  - this_reply. answered. exists []. split; [reflexivity|by left].
  - this_reply. answered. exists [sample_root; sample_leaf]. split; [vm_compute; reflexivity|right].
    split; [exists sample_leaf|].
    + split; [by right; left|]. intros key [= <-] _. by exists "web-key".
    + intros c Hc. rewrite !elem_of_cons, elem_of_nil in Hc. destruct Hc as [->|[->|[]]]; intros Hk.
      * by destruct (Hk "web-key" eq_refl eq_refl) as (? & [= <-] & ?).
      * apply web_csr_covered.
Qed.

Lemma Sign_completes_witness :
  let w := start cooperative_replies in
  ParseCSR (CSRPEM web_request) = Ok web_csr ∧
  run (Sign root_signer background web_request) w (λ r w' xs,
    Forall (cooperates root_signer web_request web_csr) xs →
    (∃ b, r = Ok b) ∨ w_now w + poll_timeout root_signer < w_now w' + poll_interval root_signer
    ∨ cancelled background (w_now w')).
Proof.
  cbv zeta. assert (ParseCSR (CSRPEM web_request) = Ok web_csr) as Hcsr by (vm_compute; reflexivity).
  split; [exact Hcsr|]. exact (Sign_completes root_signer _ _ _ _ Hcsr kmp_client_http).
Defined.

(** The same for [Provision]. *)
Definition serving_replies : list hop :=
  [answer "{'CSR_ID': '12'}"; answer "{'serialNumber': '1f'}"; answer "{'data': []}";
   answer ("{'chain': ['" +:+ escaped root_pem +:+ "', '" +:+ escaped leaf_pem +:+ "']}");
   Hop (Reply 200 web_key_pem None) ""].

Definition web_provision : ProvisionRequest := provisionRequest web "secret".

Lemma sample_leaf_provisioned password : provisioned_names (provisionRequest web password) sample_leaf.
Proof.
  split; [reflexivity|]. intros n Hn. vm_compute in Hn. apply list_elem_of_singleton in Hn as ->.
  right. exists "web.example". split; [by left|reflexivity].
Qed.

(** The exchanges of such a run, each of them served. *)
Ltac served_exchanges :=
  match goal with |- Forall _ ?log => set (l := log); vm_compute in l; subst l end;
  repeat apply Forall_cons_2; [..|apply Forall_nil_2]; (split; [|split; [|split]]); try solve [other_operation];
  [ this_reply; answered; eexists "12", _, ("CSR_ID", Str "12"); split_and!; [constructor|by left|reflexivity]
  | this_reply; answered; right; left; eexists "1f", _, ("serialNumber", Str "1f");
    split_and!; [constructor|by left|reflexivity]
  | this_reply; answered; exists []; split; [reflexivity|by left]
  | this_reply; answered; exists [sample_root; sample_leaf]; split; [vm_compute; reflexivity|right];
    split; [exists sample_leaf; split; [by right; left|intros key [= <-] _; by exists "web-key"]|];
    intros c Hc; rewrite !elem_of_cons, elem_of_nil in Hc; destruct Hc as [->|[->|[]]]; intros Hk;
    [by destruct (Hk "web-key" eq_refl eq_refl) as (? & [= <-] & ?)
    |split; [by exists "web-key", "web-key"|apply sample_leaf_provisioned]]
  | this_reply; eexists 200, _; split_and!;
    [eexists _, None; split_and!; [reflexivity|reflexivity|by left]|lia|lia|by vm_compute
    |intros p o1 o2 Hp; by vm_compute in Hp|eexists; vm_compute; reflexivity] ].

Lemma serving_log :
  Forall (serves root_signer web_provision "web-key")
    (w_log (Provision root_signer background web_provision (start serving_replies)).2).
Proof. served_exchanges. Qed.

Lemma Provision_completes_witness :
  let w := start serving_replies in
  (trim_space (prov_CommonName web_provision) ≠ "" ∧ prov_Password web_provision ≠ "" ∧ buildable root_signer) ∧
  run (Provision root_signer background web_provision) w (λ r w' xs,
    Forall (serves root_signer web_provision "web-key") xs →
    (∃ pc, r = Ok pc) ∨ w_now w + poll_timeout root_signer < w_now w' + poll_interval root_signer
    ∨ cancelled background (w_now w')).
Proof.
  cbv zeta. assert (trim_space (prov_CommonName web_provision) ≠ "") as Hcn by (vm_compute; discriminate).
  assert (prov_Password web_provision ≠ "") as Hpw by discriminate.
  assert (buildable root_signer) as Hb by exact kmp_client_http.
  split; [exact (conj Hcn (conj Hpw Hb))|]. exact (Provision_completes _ _ _ "web-key" _ Hcn Hpw Hb).
Defined.

Lemma ChainPEM_reads_back_witness :
  certificatesFromStrings sample_values = Ok [sample_root; sample_leaf] ∧
  BuildBundle [sample_root; sample_leaf] (Some "web-key") = Ok sample_bundle ∧
  ∃ path, parsePEMCertificates (ChainPEM sample_bundle) = (sample_leaf :: path, None) ∧
          NoDup (Raw <$> sample_leaf :: path).
Proof.
  assert (certificatesFromStrings sample_values = Ok [sample_root; sample_leaf]) as Hv
    by (vm_compute; reflexivity).
  assert (BuildBundle [sample_root; sample_leaf] (Some "web-key") = Ok sample_bundle) as Hb
    by (vm_compute; reflexivity).
  split; [exact Hv|]. split; [exact Hb|].
  exact (ChainPEM_reads_back sample_values [sample_root; sample_leaf] (Some "web-key") sample_bundle Hv Hb).
Defined.

Lemma signRequest_validity_witness :
  signType (opts root_signer) = SignTypeWithRoot ∧ opt_ValidityDays (opts root_signer) = None ∧
  0 < 36 * Hour ≤ max_int64 ∧
  ∃ days, ValidityDays (signRequest root_signer "12" (MkRequest "" (36 * Hour) false)) = Some days ∧
    1 ≤ days ≤ 106752 ∧ (days - 1) * Day < 36 * Hour < days * Day + 2 * Microsecond ∧
    ((36 * Hour) mod Day = 0 → days * Day = 36 * Hour).
Proof.
  assert (0 < 36 * Hour ≤ max_int64) as Hd by (vm_compute; split; [reflexivity|discriminate]).
  split; [reflexivity|]. split; [reflexivity|]. split; [exact Hd|].
  exact (signRequest_validity root_signer "12" (MkRequest "" (36 * Hour) false) eq_refl eq_refl Hd).
Defined.

Lemma renewalTime_window_witness :
  0 < NotAfter sample_leaf - NotBefore sample_leaf ≤ max_int64 ∧
  (NotBefore sample_leaf < renewalTime sample_leaf None ≤ NotAfter sample_leaf ∧
   3 * (NotAfter sample_leaf - renewalTime sample_leaf None) ≤ NotAfter sample_leaf - NotBefore sample_leaf
     < 3 * (NotAfter sample_leaf - renewalTime sample_leaf None) + 3).
Proof.
  assert (0 < NotAfter sample_leaf - NotBefore sample_leaf ≤ max_int64) as Hl
    by (vm_compute; split; [reflexivity|discriminate]).
  split; [exact Hl|]. exact (renewalTime_window sample_leaf None Hl).
Defined.

Definition web_sign : SignRequest :=
  MkSignRequest "12" "MSCAusingAgent" "ca.example" "Example <CA>" "Web & mail" "agent" (Some 90) "" "" None None.


(** ** A memory *)

(** Metadata with a name and a pointer to the deletion timestamp; the status of
    an issuer is its conditions. *)
#[local] Instance small_meta : MetaTypes := {|
  ObjectMeta := string * option loc;
  ListMeta := string;
  IssuerStatus := option array;
  IssuerStatus_Conditions conditions := conditions |}.

#[local] Instance small_meta_copies : MetaCopies := {|
  ObjectMeta_view := pair_view plain_view time_view;
  ObjectMeta_footprint := pair_footprint plain_footprint pointer_fp;
  ObjectMeta_DeepCopyInto := pair_copy mem_ret copy_time;
  ObjectMeta_copies := pair_copies _ _ _ _ _ _;
  ListMeta_view := plain_view;
  ListMeta_footprint := plain_footprint;
  ListMeta_DeepCopyInto := mem_ret;
  ListMeta_copies := plain_copies;
  IssuerStatus_view := conditions_view;
  IssuerStatus_footprint := conditions_fp;
  IssuerStatus_DeepCopyInto := copy_conditions;
  IssuerStatus_copies := conditions_copies;
  zero_ObjectMeta := ("", None);
  zero_IssuerStatus := None |}.

(** A list of two certificates that share their DNS names and a time. *)
Definition shared_certificate (name : string) : pKMPCertificate :=
  MkObject (MkTypeMeta "KMPCertificate" "kmp.cert-manager.io/v1alpha1") (name, Some 2%nat)
    (MkpKMPCertificateSpec "tls" (MkIssuerReference "kmp" "") "web.example" (Some (MkArray 1 2 2)) None
       (MkCertificateSubject "" "" "" "" "") (MkpPrivateKeySpec "RSA" (Some 3%nat) "" "") None "" None None)
    (MkpKMPCertificateStatus (Some (MkArray 4 1 2)) "1f" "12" (Some 2%nat) None None).

Definition ready_condition : Condition := MkCondition "Ready" "True" "Issued" "ok" 1 10.

Definition shared_heap : gmap nat (list value) :=
  list_to_map
    [(1%nat, [VString "web.example"; VString "www.web.example"]);
     (2%nat, [VTime 1000]);
     (3%nat, [VInt32 2048]);
     (4%nat, [VCondition ready_condition; VCondition zero_condition]);
     (5%nat, [VCertificate (shared_certificate "a"); VCertificate (shared_certificate "b")])].

Definition shared_list : runtime_object :=
  KMPCertificateListObject (Some (MkObjectList (MkTypeMeta "KMPCertificateList" "") "" (Some (MkArray 5 2 2)))).

Definition shared_value : object_value := default (CertificateValue None) (object_view shared_heap shared_list).

Lemma DeepCopyObject_independent_witness :
  object_view shared_heap shared_list = Some shared_value ∧
  copies_object shared_heap shared_list shared_value (DeepCopyObject shared_list shared_heap).
Proof.
  assert (object_view shared_heap shared_list = Some shared_value) as Hv.
  { unfold shared_value.
    assert (match object_view shared_heap shared_list with Some _ => true | None => false end = true) as Hs
      by (vm_compute; reflexivity).
    by destruct (object_view shared_heap shared_list). }
  split; [exact Hv|]. exact (DeepCopyObject_independent shared_heap shared_list shared_value Hv).
Defined.

(** As the runtime does: at least twice the capacity. *)
Definition doubling (cap needed : nat) : nat := Nat.max needed (2 * cap).

Lemma doubling_enough cap needed : (needed ≤ doubling cap needed)%nat.
Proof. unfold doubling. lia. Qed.

Definition shared_conditions : option array := Some (MkArray 4 1 2).

Lemma shared_conditions_ok : slice_ok (A := Condition) shared_heap shared_conditions.
Proof. exists [ready_condition; zero_condition]. split; [vm_compute; reflexivity|simpl; lia]. Qed.

Lemma setCondition_in_place_equiv_witness :
  conditions_view shared_heap shared_conditions = Some [ready_condition] ∧
  ∃ s' h', setCondition_in_place doubling shared_conditions 2 20 "Ready" "False" "Failed" "no" shared_heap =
             Some ((s', true), h') ∧
    conditions_view h' s' = Some [MkCondition "Ready" "False" "Failed" "no" 2 20].
Proof.
  assert (conditions_view shared_heap shared_conditions = Some [ready_condition]) as Hv
    by (vm_compute; reflexivity).
  split; [exact Hv|].
  destruct (setCondition_in_place_equiv doubling shared_conditions 20 2 "Ready" "False" "Failed" "no" _ _
    doubling_enough Hv shared_conditions_ok) as (s' & h' & Hrun & Hv' & _).
  exists s', h'. split; [exact Hrun|exact Hv'].
Defined.

(** A decoder: every slice and pointer in memory of its own. *)
Definition store_conditions (cs : list Condition) : mem value (option array) :=
  match cs with
  | [] => mem_ret None
  | _ => let% l := new_array (inject <$> cs) in mem_ret (Some (MkArray l (length cs) (length cs)))
  end.

Definition store_time (t : option Z) : mem value (option loc) :=
  match t with None => mem_ret None | Some t => new_time t end.

Definition store_status (u : KMPCertificateStatus) : mem value pKMPCertificateStatus :=
  let% conditions := store_conditions (Conditions u) in
  let% before := store_time (st_NotBefore u) in
  let% after := store_time (st_NotAfter u) in
  let% renewal := store_time (st_RenewalTime u) in
  mem_ret (MkpKMPCertificateStatus conditions (st_SerialNumber u) (st_CSRID u) before after renewal).

Lemma store_conditions_spec cs h :
  ∃ s h', store_conditions cs h = Some (s, h') ∧ h ⊆ h' ∧ conditions_view h' s = Some cs ∧
    slice_ok (A := Condition) h' s.
Proof.
  destruct cs as [|c cs]; [by exists None, h|]. set (all := c :: cs).
  eexists _, (<[fresh (dom h) := inject <$> all]> h). pose proof (is_fresh (dom h)) as Hf.
  assert (slice_ok (A := Condition) (<[fresh (dom h) := inject <$> all]> h)
            (Some (MkArray (fresh (dom h)) (length all) (length all)))) as Hok.
  { exists all. split; [apply lookup_insert_eq|simpl; lia]. }
  split_and!; [reflexivity|by apply insert_subseteq, not_elem_of_dom| |exact Hok].
  etransitivity; [apply slice_view_elements|].
  rewrite (slice_ok_elements _ _ all); [simpl; by rewrite (firstn_all cs)|apply lookup_insert_eq|done].
Qed.

Lemma store_time_spec t h :
  ∃ p h', store_time t h = Some (p, h') ∧ h ⊆ h' ∧ time_view h' p = Some t.
Proof. destruct t as [t|]; [apply new_time_spec|by exists None, h]. Qed.

Lemma store_status_spec u h : ∃ st h', store_status u h = Some (st, h') ∧ holds h' st u.
Proof.
  destruct (store_conditions_spec (Conditions u) h) as (s & h1 & E1 & _ & Hv1 & Hok1).
  destruct (store_time_spec (st_NotBefore u) h1) as (p2 & h2 & E2 & H2 & Hv2).
  destruct (store_time_spec (st_NotAfter u) h2) as (p3 & h3 & E3 & H3 & Hv3).
  destruct (store_time_spec (st_RenewalTime u) h3) as (p4 & h4 & E4 & H4 & Hv4).
  eexists _, h4. split; [unfold store_status, mem_bind; by rewrite E1, E2, E3, E4|].
  assert (h1 ⊆ h4) as H14 by (etransitivity; [exact H2|]; by etransitivity).
  split; [|by eapply slice_ok_grows]. apply status_view_Some. simpl. split_and!; try done.
  - by eapply (view_grows conditions_view conditions_fp copy_conditions).
  - eapply time_grows; [eapply time_grows|]; eassumption.
  - by eapply time_grows.
Qed.

Lemma Reconcile_in_memory_refines_witness :
  let r := main_reconciler "kmp" in
  (∀ status h, ∃ st h', store_status status h = Some (st, h') ∧ holds h' st status) ∧
  ∃ h', Reconcile_in_memory doubling store_status r background (MkName "apps" "web") shared_heap
          (start provisioning_replies) =
    Some ((Reconcile r background (MkName "apps" "web") (start provisioning_replies)).1, h',
          (Reconcile r background (MkName "apps" "web") (start provisioning_replies)).2).
Proof.
  split; [exact store_status_spec|].
  exact (Reconcile_in_memory_refines doubling store_status doubling_enough (main_reconciler "kmp") background
           (MkName "apps" "web") shared_heap (start provisioning_replies) store_status_spec).
Defined.

(** With a shallow copy in place of the deep one the change would go unnoticed:
    the array of the conditions is the one that is changed. *)
Example shallow_copy_misses_change :
  let before := MkpKMPCertificateStatus shared_conditions "" "" None None None in
  match setCondition_in_place doubling shared_conditions 2 20 "Ready" "False" "Failed" "no" shared_heap with
  | Some ((s, changed), h) => changed = true ∧ fst <$> DeepEqual before (with_conditions before s) h = Some true
  | None => False
  end.
Proof. vm_compute. auto. Qed.

(** ** A start *)

(** Both servers are given certificates; the second probe cannot be set up. *)
Definition both_paths : list string :=
  ["--cluster-resource-namespace=kmp"; "-metrics-bind-address"; ":8443"; "--zap-devel"; "--metrics-cert-path=/metrics";
   "--webhook-cert-path"; "/webhook/"; "-metrics-secure"].

(** One of the flags of the logger. *)
Definition zap_devel (name : string) : option (bool * (string → option string)) :=
  if bool_decide (name = "zap-devel") then Some (true, λ _, None) else None.

Example both_paths_flags :
  parse_flags zap_devel both_paths = inr
    (MkFlags "kmp" false ":8443" "/metrics" "tls.crt" "tls.key" "/webhook/" "tls.crt" "tls.key" false ":8081" true false).
Proof. vm_compute. reflexivity. Qed.

Example bad_arguments :
  parse_flags zap_devel ["--leader-elect=yes"] =
    inl (Usage 2 ("invalid boolean value " +:+ quote "yes" +:+ " for -leader-elect: parse error")) ∧
  parse_flags zap_devel ["-probe"] = inl (Usage 2 "flag provided but not defined: -probe") ∧
  parse_flags zap_devel ["--metrics-cert-path"] = inl (Usage 2 "flag needs an argument: -metrics-cert-path") ∧
  parse_flags zap_devel ["-h"] = inl (Usage 0 "").
Proof. vm_compute. auto. Qed.

(** The value of a boolean flag is not the next argument: that one ends the
    flags. *)
Lemma flags_read_back_witness :
  ends_flags ["false"; "--version"] ∧
  parse_flags zap_devel ["--leader-elect"; "false"; "--version"] =
    inr (flags_of (<["leader-elect" := BoolVar true]> declared)) ∧
  parse_flags zap_devel ((argument_of <$> settings default_flags) ++ ["false"; "--version"]) = inr default_flags.
Proof.
  assert (ends_flags ["false"; "--version"]) as Hrest by by left. split; [exact Hrest|].
  destruct (flags_read_back zap_devel ["false"; "--version"] Hrest) as [Hargs Hall]. split; [|apply Hall].
  apply (Hargs ["--leader-elect"]).
  apply (spelled_more declared "leader-elect" "true" (BoolVar false) (BoolVar true) ["--leader-elect"] []);
    [|reflexivity..|apply spelled_none].
  apply (spells_bare _ _ _ "--" (BoolVar false)); [|reflexivity..]. right. left.
Defined.

Definition no_readyz (made : list action) (a : action) : option string :=
  match a with AddReadyzCheck _ => Some "taken" | _ => None end.

Definition always (made : list action) (a : action) : option string := None.

Lemma program_follows_plan_witness :
  doubling 0 1 = 1%nat ∧
  (program StatOk (Ok "apps") no_readyz doubling zap_devel both_paths).1 = Some (Exit "unable to set up ready check" "taken").
Proof.
  split; [reflexivity|].
  by rewrite (program_follows_plan no_readyz StatOk (Ok "apps") doubling doubling_enough zap_devel both_paths eq_refl).
Defined.

Definition last_start (r : option stop * list action) : option (list tls_option * list tls_option) :=
  match last r.2 with Some (Start webhook metrics) => Some (webhook, metrics) | _ => None end.

Definition metrics_watcher : watcher := CertWatcher "/metrics/tls.crt" "/metrics/tls.key".
Definition webhook_watcher : watcher := CertWatcher "/webhook/tls.crt" "/webhook/tls.key".

Example servers_have_their_own_options :
  last_start (program StatOk (Ok "apps") always doubling zap_devel both_paths) =
  Some ([disableHTTP2; getCertificateOf webhook_watcher], [disableHTTP2; getCertificateOf metrics_watcher]).
Proof. vm_compute. reflexivity. Qed.

(** A runtime that gave a first element an array with room for more would let
    the second [append] overwrite what the first one wrote: the webhook server
    would serve the certificate of the metrics server. *)
Example roomy_runtime_mixes_options :
  last_start (program StatOk (Ok "apps") always (λ _ needed, needed + 1)%nat zap_devel both_paths) =
  Some ([disableHTTP2; getCertificateOf metrics_watcher], [disableHTTP2; getCertificateOf metrics_watcher]).
Proof. vm_compute. reflexivity. Qed.

(** ** Reconciliations *)

Definition web_name : NamespacedName := MkName "apps" "web".

Definition web_kmp : kmpSigner := MkKmpSigner kmp_client root_signer.

Lemma small_cluster_ready :
  cluster_ready "kmp" background web issuer_spec "apps" (MkSecret "Opaque" [("authtoken", "token")] []) web_kmp.
Proof.
  split.
  - intros w. reflexivity.
  - intros w. reflexivity.
  - vm_compute. reflexivity.
  - by intros H.
  - vm_compute. discriminate.
  - intros w. eexists. split; [reflexivity|]. vm_compute. discriminate.
  - intros w. exists None. split; [reflexivity|]. by intros (o & Ho%not_elem_of_nil & _).
  - exact (set_owner_free web).
Qed.


(** The password the controller makes up here. *)
Definition made_up_password : string := b64_raw_url_encode (zero_bytes 24).

Lemma keyStorePassword_web w : (keyStorePassword background web w).1 = Ok (made_up_password, true).
Proof.
  unfold keyStorePassword, generatePassword, made_up_password. cbn [KeyStorePasswordSecretRef cert_Spec web web_spec].
  unfold io_bind, next. cbn [rand_Read_at small_cluster cluster]. generalize (b64_raw_url_encode (zero_bytes 24)).
  reflexivity.
Qed.

(** What any answer but the last to a getCertificate gives is no certificate, and
    that one is a single chain. *)
Lemma published_reply req code raw :
  match parseResponse (limit_read maxResponseBytes raw) with
  | Some p => match certificatesFromStrings (collectStrings (Some p)) with
              | Ok certs => certs = [] ∨ certs = [sample_root; sample_leaf]
              | Err _ => True
              end
  | None => True
  end →
  published_splits root_signer (Some "web-key") (Sent req (Exchange [] (Reply code raw None))).
Proof.
  intros Hcerts cn sn certs bundle path Hg Hb. inversion Hg as [|p r ys Hc (o & Hr)]; subst.
  inversion Hc as [|o1 o2 o3 o4 result r' Hrec]; subst. symmetry in Hrec. apply receive_Ok in Hrec as (code' & raw' & Hd & _ & Hp & _).
  assert (raw' = limit_read maxResponseBytes raw) as ->.
  { destruct Hd as (body & err & Ho & -> & _). simpl in Ho. by injection Ho as <- <- <-. }
  rewrite Hp in Hcerts. unfold certificates_in in Hr.
  destruct (certificatesFromStrings _) as [cs|]; [|done]. destruct Hcerts as [->| ->]; [done|]. injection Hr as ->.
  destruct Hb as [Henc Hin Hkey _ (rest & Hperm & _)]. rewrite Henc.
  rewrite !elem_of_cons, elem_of_nil in Hin. destruct Hin as [E|[E|[]]]; rewrite E in *.
  - by destruct (Hkey "web-key" eq_refl eq_refl) as (? & [= <-] & ?).
  - assert (path = [] ∨ path = [sample_root]) as [->| ->].
    { assert (path ++ rest = [sample_root]) as Hpr by (by apply Permutation_singleton_r). destruct path as [|x [|]]; simplify_eq/=; eauto. }
    + eexists _, _. vm_compute. reflexivity.
    + eexists _, _. vm_compute. reflexivity.
Qed.

Lemma published_other e : ¬ is_sent e → published_splits root_signer (Some "web-key") e.
Proof. intros Hno cn sn certs bundle path Hg _. destruct (operation_Ok _ _ _ _ _ Hg) as [o [= ->]]. by destruct Hno. Qed.

Ltac published :=
  match goal with |- Forall _ ?log => set (l := log); vm_compute in l; subst l end;
  repeat apply Forall_cons_2; [..|apply Forall_nil_2];
  first [apply published_other; exact id | apply published_reply; vm_compute; auto].

Lemma serving_reconciliation :
  key_manager_serves background web web_kmp "web-key"
    (w_log (Reconcile (main_reconciler "kmp") background web_name (start serving_replies)).2).
Proof.
  split.
  - intros password [w Hw]. rewrite keyStorePassword_web in Hw.
    assert (made_up_password = password) as <- by congruence.
    served_exchanges.
  - published.
Qed.

Lemma signing_published :
  Forall (published_splits root_signer (csr_PublicKey web_csr))
    (w_log (Sign root_signer background web_request (start cooperative_replies)).2).
Proof. published. Qed.

(** The Secret [reconcile_sample] writes, and the cluster that then has it. *)
Definition web_tls : Secret :=
  MkSecret "kubernetes.io/tls"
    [("ca.crt", root_pem); ("keystore-password", b64_raw_url_encode (zero_bytes 24));
     ("tls.crt", leaf_pem); ("tls.key", web_key_pem)] [own_reference web].

Definition later_cluster : Kubernetes := cluster web (λ name,
  if bool_decide (ObjName name = "web-tls") then Ok web_tls else stored_secret name).

Lemma web_tls_holds_pair : holds_pair web web_tls.
Proof.
  destruct (run_Reconcile (main_reconciler "kmp") background web_name (start provisioning_replies))
    as (xs & Hlog & _ & Hatt & _).
  assert (SecretWritten (MkName "apps" "web-tls") None web_tls None ∈ xs) as Hin.
  { change (w_log (start provisioning_replies)) with (@nil event) in Hlog. rewrite app_nil_l in Hlog. rewrite <- Hlog.
    apply (list_elem_of_lookup_2 _ 5). vm_compute. reflexivity. }
  destruct (attended_written _ _ _ _ _ Hatt Hin) as (certificate & [= <-] & _ & _ & Hholds). exact Hholds.
Qed.

(** The clusters differ in the Secrets only. *)
Lemma web_tls_holds_pair_later : holds_pair (H5 := later_cluster) web web_tls.
Proof.
  destruct web_tls_holds_pair as (pc & password & chain & ca & Hissued & Hnamed & Hparse & [? ? ? ? ? Howner]).
  exists pc, password, chain, ca. split; [exact Hissued|]. split; [exact Hnamed|]. split; [exact Hparse|].
  split; [assumption..|exact Howner].
Qed.

Lemma cluster_starts_within resource secrets : pki_starts_within (H6 := cluster resource secrets).
Proof.
  intros certs chain ca _ Hp Hsplit. destruct (split_chain_starts certs chain ca Hp Hsplit) as (Hne & first & rest & Hread & Hin).
  split; [exact Hne|]. exists first, rest. split; [exact (f_equal Ok Hread)|exact Hin].
Qed.

Lemma sample_leaf_end : issues_nothing sample_leaf.
Proof. intros child [_ Hs]. simpl in Hs. apply andb_true_iff in Hs as [_ Hs]. by vm_compute in Hs. Qed.

Lemma Reconcile_keeps_its_Secret_witness :
  let renewal := renewalTime sample_leaf None in
  run (Reconcile (H5 := later_cluster) (main_reconciler "kmp") background web_name) (start []) (λ result w' xs,
    (w_now w' < renewal →
       Forall is_status_write xs ∧
       ((∃ now, w_now (start []) ≤ now ≤ w_now w' ∧ result = MkResult (until now (Some renewal)) None)
        ∨ Exists status_failed xs)) ∧
    (renewal ≤ w_now (start []) → ∃ t reason message, Recorded t reason message ∈ xs)).
Proof.
  destruct (Reconcile_keeps_its_Secret (H6 := later_cluster) "kmp" background web_name web web_tls (start []))
    as (leaf & rest & Hleaf & Hrun).
  - apply cluster_starts_within.
  - split; reflexivity.
  - exact web_tls_holds_pair_later.
  - reflexivity.
  - split; intros n Hn; simpl in Hn.
    + apply list_elem_of_singleton in Hn as ->. split_and!; by vm_compute.
    + by apply not_elem_of_nil in Hn.
  - intros leaf rest Hleaf. vm_compute in Hleaf. injection Hleaf as <- <-. split; [exact sample_leaf_end|split; reflexivity].
  - vm_compute in Hleaf. injection Hleaf as <- <-. exact Hrun.
Defined.

(** The same resource with an organization, which the certificate lacks. *)
Definition org_web : KMPCertificate :=
  MkKMPCertificate (MkName "apps" "web") 1 None
    (MkKMPCertificateSpec "web-tls" (MkIssuerReference "kmp" "") "web.example" ["web.example"] []
       (MkCertificateSubject "Example Org" "" "" "" "") (MkPrivateKeySpec "RSA" (Some 2048) "" "") (Some 90) "" None None)
    (MkKMPCertificateStatus [] "" "" None None None).

Definition org_cluster : Kubernetes := cluster org_web (λ name,
  if bool_decide (ObjName name = "web-tls") then Ok web_tls else stored_secret name).

(** A pair for the one is a pair for the other. *)
Lemma web_tls_holds_pair_org : holds_pair (H5 := org_cluster) org_web web_tls.
Proof.
  destruct web_tls_holds_pair as (pc & password & chain & ca & Hissued & [? ? ?] & Hparse & [? ? ? ? ? Howner]).
  exists pc, password, chain, ca. split.
  { destruct Hissued as (Hid & certs & exported & key & path & Hparsed & [? ? ? ? [? ?]]). split; [exact Hid|].
    exists certs, exported, key, path. split; [exact Hparsed|]. split; [assumption..|]. split; assumption. }
  split; [split; assumption|]. split; [exact Hparse|]. split; [assumption..|exact Howner].
Qed.

Lemma issued_certificate_may_be_refused_witness :
  run (Reconcile (H5 := org_cluster) (main_reconciler "kmp") background web_name) (start [])
    (λ _ _ xs, ∃ t reason message, Recorded t reason message ∈ xs).
Proof.
  destruct (issued_certificate_may_be_refused (H6 := org_cluster) "kmp" background web_name org_web web_tls (start []))
    as (_ & Hrun & _).
  - apply cluster_starts_within.
  - split; reflexivity.
  - exact web_tls_holds_pair_org.
  - reflexivity.
  - intros leaf rest Hleaf. vm_compute in Hleaf. injection Hleaf as <- <-.
    split; [exact sample_leaf_end|]. intros [Horg _]. by vm_compute in Horg.
  - exact Hrun.
Defined.

(** The answer of a response with two ids. *)
Definition two_ids : response := Response (Map [("CSR_ID", Str "7"); ("id", Str "99")]) "".

Lemma import_id_depends_on_order_witness :
  ∃ o o', ∀ o2 s ctx w,
    run (resolveCSRID s ctx (imported_in o o2 two_ids) "") w (λ r _ xs, r = Ok "7" ∧ xs = []) ∧
    run (resolveCSRID s ctx (imported_in o' o2 two_ids) "") w (λ r _ xs, r = Ok "99" ∧ xs = []).
Proof.
  assert (map_ok [("CSR_ID", Str "7"); ("id", Str "99")]) as Hok
    by (unfold map_ok, keys; simpl; repeat constructor).
  destruct (import_id_depends_on_order two_ids _ ("CSR_ID", Str "7") "7" eq_refl Hok (list_elem_of_here _ _))
    as [o Ho]; [vm_compute; reflexivity|].
  destruct (import_id_depends_on_order two_ids _ ("id", Str "99") "99" eq_refl Hok
    (list_elem_of_further _ _ _ (list_elem_of_here _ _))) as [o' Ho']; [vm_compute; reflexivity|].
  exists o, o'. intros o2 s ctx w. split; [apply Ho|apply Ho'].
Defined.

Lemma parseResponse_typed_witness :
  parseResponse (json "{'CSR_ID': 7, 'ok': true}") =
    Some (Response (Map [("CSR_ID", Float64 (float_of_int 7)); ("ok", Bool true)]) (json "{'CSR_ID': 7, 'ok': true}")) ∧
  scalarString (Float64 (float_of_int 7)) ≠ None.
Proof.
  set (raw := json "{'CSR_ID': 7, 'ok': true}").
  set (d := Map [("CSR_ID", Float64 (float_of_int 7)); ("ok", Bool true)]).
  assert (parseResponse raw = Some (Response d raw)) as Hp by (vm_compute; reflexivity).
  assert (subdoc d (Float64 (float_of_int 7))) as Hsub.
  { apply (subdoc_entry _ "CSR_ID" (Float64 (float_of_int 7))); [by left|apply subdoc_here]. }
  split; [exact Hp|]. destruct (parseResponse_typed raw (Response d raw) _ Hp Hsub) as (_ & _ & Hnone).
  intros Hs. apply Hnone in Hs. destruct Hs as [?|[(? & ? & _)|[(? & ?)|(? & ? & _)]]]; discriminate.
Defined.

(** ** A CertificateRequest *)

Definition web_details : CertificateDetails := MkCertificateDetails web_csr_pem (36 * Hour) false.
Definition web_issuer : issuer_object := IsKMPIssuer (MkKMPIssuer (MkName "apps" "kmp") issuer_spec).

Lemma Issuer_Sign_completes_witness :
  let w := start cooperative_replies in
  issuer_ready "kmp" background web_issuer web_details issuer_spec "apps"
    (MkSecret "Opaque" [("authtoken", "token")] []) web_kmp web_csr ∧
  run (Issuer_Sign (main_issuer "kmp") background (Ok web_details) web_issuer) w (λ r w' xs, ∃ probes signing,
    xs = probes ++ signing ∧ Forall (is_probe kmp_client) probes ∧
    (Forall (probe_answered kmp_client) probes →
     Forall (signs_well web_details web_kmp web_csr) signing →
     (∃ b, r = Ok b) ∨ w_now w + poll_timeout root_signer < w_now w' + poll_interval root_signer
     ∨ cancelled background (w_now w'))).
Proof.
  cbv zeta.
  assert (issuer_ready "kmp" background web_issuer web_details issuer_spec "apps"
            (MkSecret "Opaque" [("authtoken", "token")] []) web_kmp web_csr) as Hready.
  { split.
    - reflexivity.
    - intros w. reflexivity.
    - vm_compute. reflexivity.
    - by intros H.
    - vm_compute. reflexivity. }
  split; [exact Hready|].
  exact (Issuer_Sign_completes "kmp" background web_issuer web_details issuer_spec "apps" _ web_kmp web_csr
           (start cooperative_replies) Hready).
Defined.

(** The whole way: an answered probe, the import, the signing and two fetches. *)
Example issuer_sample :
  let probed := answer ("{'chain': '" +:+ escaped root_pem +:+ "'}") :: cooperative_replies in
  (Issuer_Sign (main_issuer "kmp") background (Ok web_details) web_issuer (start probed)).1 =
  Ok (MkPEMBundle leaf_pem root_pem).
Proof. vm_compute. reflexivity. Qed.

(** ** A life of the operator *)

(** The first activations of an operator: a health check beside a reconciliation
    that issues. *)
Definition issuing : activation := whole "kmp" (Reconciling background web_name) (start provisioning_replies).
Definition probing : activation := whole "kmp" (Checking background web_issuer) (start []).

Definition early_life : list event := act_events issuing ++ act_events probing ++ [].

Lemma early_history : history "kmp" [issuing; probing] early_life.
Proof.
  apply (history_more "kmp" issuing [probing] (act_events probing ++ []) early_life).
  - exact (whole_ran "kmp" (act_of issuing) (act_from issuing) eq_refl).
  - apply (history_more "kmp" probing [] [] (act_events probing ++ [])).
    + exact (whole_ran "kmp" (act_of probing) (act_from probing) eq_refl).
    + constructor.
    + exact (shuffle_app (act_events probing) []).
  - exact (shuffle_app (act_events issuing) (act_events probing ++ [])).
Qed.

(** What the probe sends; the server does not answer. *)
Definition probe_event : event := Sent (probe_request kmp_client) (Exchange [] (TransportError "connection refused")).

Lemma probe_in_life : probe_event ∈ early_life.
Proof.
  apply elem_of_app. right. rewrite app_nil_r. apply (list_elem_of_lookup_2 _ 0). vm_compute. reflexivity.
Qed.

Lemma history_confined_witness :
  history "kmp" [issuing; probing] early_life ∧ probe_event ∈ early_life ∧
  ∃ a ctx spec namespace auth, a ∈ [issuing; probing] ∧ ran "kmp" a ∧ issuer_for "kmp" a ctx spec namespace ∧
    answered (get_Secret ctx (MkName namespace (AuthSecretName spec))) (Ok auth) ∧
    request_of spec (sec_Data auth) probe_event.
Proof.
  split; [exact early_history|]. split; [exact probe_in_life|].
  exact (history_confined "kmp" [issuing; probing] early_life probe_event early_history probe_in_life I).
Defined.

(** Later on the Secret is there: two reconciliations, a century apart from its
    renewal. *)
Definition looking : activation :=
  whole (H6 := later_cluster) "kmp" (Reconciling background web_name) (start []).

Definition later_life : list event := act_events looking ++ act_events looking ++ [].

Lemma later_history : history (H6 := later_cluster) "kmp" [looking; looking] later_life.
Proof.
  apply (history_more (H6 := later_cluster) "kmp" looking [looking] (act_events looking ++ []) later_life).
  - exact (whole_ran (H6 := later_cluster) "kmp" (act_of looking) (act_from looking) eq_refl).
  - apply (history_more (H6 := later_cluster) "kmp" looking [] [] (act_events looking ++ [])).
    + exact (whole_ran (H6 := later_cluster) "kmp" (act_of looking) (act_from looking) eq_refl).
    + constructor.
    + exact (shuffle_app (act_events looking) []).
  - exact (shuffle_app (act_events looking) (act_events looking ++ [])).
Qed.

Lemma looking_content : content_with (H6 := later_cluster) "kmp" (MkName "apps" "web-tls") looking.
Proof.
  intros ctx name certificate _ [= <-] _ _. exists web_tls, sample_leaf. split_and!.
  - reflexivity.
  - vm_compute. reflexivity.
  - vm_compute. reflexivity.
Qed.

Lemma history_accounted_witness :
  history (H6 := later_cluster) "kmp" [looking; looking] later_life ∧
  (∀ e, e ∈ later_life → ∃ a, a ∈ [looking; looking] ∧ ran (H6 := later_cluster) "kmp" a ∧ permitted (H6 := later_cluster) a e) ∧
  ∀ found secret failure, SecretWritten (MkName "apps" "web-tls") found secret failure ∉ later_life.
Proof.
  split; [exact later_history|].
  destruct (history_accounted (H6 := later_cluster) "kmp" [looking; looking] later_life later_history) as [Hall Hquiet].
  split; [exact Hall|]. apply Hquiet. intros a Ha. rewrite !elem_of_cons, elem_of_nil in Ha.
  destruct Ha as [->|[->|[]]]; exact looking_content.
Defined.
