(* ===== verification/StoreSamples.v ===== *)
(** * A cluster that remembers

    An API server whose Secrets and resource change as they are written, for the
    control loop over several reconciliations. *)

From S2P Require Import Prelude GoStrings GoFloat GoAny GoHttp Errors GoNet Base64 X509 Pem Chain World Client Signer PrivateKey Provision Api KmpSigner Kubernetes Issuer Reconciler Main Lifecycle Convergence History Operation Samples.
Local Open Scope go_scope.
Local Open Scope Z_scope.

#[local] Existing Instance named_keys.
#[local] Existing Instance text_x509.
#[local] Existing Instance text_private_keys.
#[local] Existing Instance rfc7468.
#[local] Existing Instance ascii_tables.
#[local] Existing Instance amd64_conversions.

(** What the network will answer, the Secrets, and the only resource. *)
Record shelf := Shelf {
  replies : list hop;
  secrets : NamespacedName → option Secret;
  resource : KMPCertificate
}.

#[local] Instance remembering : Env := {|
  outside := shelf;
  round_trip _ _ _ _ _ out :=
    match replies out with
    | reply :: rest => (reply, 1000000000%N, Shelf rest (secrets out) (resource out))
    | [] => (Hop (TransportError "connection refused") "", 1000000000%N, out)
    end;
  url_reference _ := follow_reference;
  url_error _ := "invalid URL";
  json_error _ := "invalid JSON";
  map_order_at _ := order_of [];
  random_at _ := "boundary";
  timer_delay_at _ := 0%N;
  timer_first_at _ := true |}.

Definition read_secret (name : NamespacedName) (out : shelf) : result api_error Secret :=
  match secrets out name with Some secret => Ok secret | None => Err (NotFound "not found") end.

Definition read_resource (name : NamespacedName) (out : shelf) : result api_error KMPCertificate :=
  if decide (cert_Name (resource out) = name) then Ok (resource out) else Err (NotFound "not found").

Definition put_secret (name : NamespacedName) (secret : Secret) (out : shelf) : shelf :=
  Shelf (replies out) (λ n, if decide (n = name) then Some secret else secrets out n) (resource out).

(** What a write stores. *)
Definition upsert (name : NamespacedName) (mutate : Secret → result string Secret) (out : shelf)
  : write_answer * N * shelf :=
  let answer := store_in (read_secret name out) mutate in
  (answer, 0%N, match answer.1 with Some (_, secret) => put_secret name secret out | None => out end).

Definition put_status (c : KMPCertificate) (out : shelf) : shelf :=
  let r := resource out in
  Shelf (replies out) (secrets out)
    (if decide (cert_Name c = cert_Name r) then
       MkKMPCertificate (cert_Name r) (cert_Generation r) (cert_DeletionTimestamp r) (cert_Spec r) (cert_Status c)
     else r).

#[local] Instance shelf_cluster : Kubernetes := {|
  get_Secret _ name _ out := (read_secret name out, 0%N, out);
  get_KMPIssuer _ name _ out := (Ok (MkKMPIssuer name issuer_spec), 0%N, out);
  get_KMPClusterIssuer _ name _ out := (Ok (MkKMPClusterIssuer name issuer_spec), 0%N, out);
  get_KMPCertificate _ name _ out := (read_resource name out, 0%N, out);
  update_Status _ c _ out := (None, 0%N, put_status c out);
  create_or_update _ name mutate _ out := upsert name mutate out;
  SetControllerReference := set_owner;
  ParseSingleCertificateChainPEM := split_chain;
  DecodeX509CertificateChainBytes chain := Ok (parsePEMCertificates chain).1;
  format_RFC3339 t := format_int t;
  rand_Read_at _ n := Ok (zero_bytes n);
  create_or_update_spec _ name mutate _ out := store_in_spec (read_secret name out) mutate;
  SetControllerReference_spec := set_owner_spec;
  rand_Read_length t n b := zero_bytes_length t n b |}.

Lemma put_status_changes c (out : shelf) n c0 :
  (if decide (cert_Name (resource out) = n) then Some (resource out) else None) = Some c0 →
  let out' := put_status c out in
  ∃ c1, (if decide (cert_Name (resource out') = n) then Some (resource out') else None) = Some c1 ∧
    same_resource c0 c1 ∧
    (if decide (cert_Name c = n) then @None string = None → same_conditions (cert_Status c) (cert_Status c1)
     else c1 = c0).
Proof.
  destruct (decide (cert_Name (resource out) = n)) as [<-|]; [|done]. intros [= <-]. unfold put_status. simpl.
  destruct (decide (cert_Name c = _)); simpl; rewrite decide_True by done; eexists; split_and!; done.
Qed.

#[local] Instance shelf_store : Store.
Proof.
  refine {|
    secret_at := secrets;
    certificate_at out n := if decide (cert_Name (resource out) = n) then Some (resource out) else None |};
    intros; simpl in *; try done.
  - by case_match; simplify_eq.
  - unfold read_secret. by case_match; simplify_eq.
  - unfold read_resource. by case_match; simplify_eq.
  - unfold read_resource in *. by case_match; simplify_eq.
  - by destruct (replies out).
  - split; [done|]. intros n c0. apply put_status_changes.
  - unfold upsert, store_in. destruct (present _) as [found|]; [|done].
    destruct (mutate _) as [secret|msg]; [|done]. case_decide; [done|]. split_and!; [done| |]; simpl.
    + intros n' Hn. by rewrite decide_False.
    + by rewrite decide_True.
Defined.

(** Key Manager Plus as it provisions, the credentials of the issuer, and the
    resource without its Secret. *)
Definition opening : world :=
  World 1000 (Shelf provisioning_replies
    (λ n, if decide (ObjName n = "kmp-auth") then Some (MkSecret "Opaque" [("authtoken", "token")] []) else None)
    web) 0 [].

Lemma shelf_starts_within : pki_starts_within.
Proof.
  intros certs chain ca _ Hp Hsplit. destruct (split_chain_starts certs chain ca Hp Hsplit) as (Hne & first & rest & Hread & Hin).
  split; [exact Hne|]. exists first, rest. split; [exact (f_equal Ok Hread)|exact Hin].
Qed.

(** Three reconciliations: the first issues, the second says in the status that
    the certificate is current, the third does nothing. *)
Definition after_reconciling (w : world) : world := (Reconcile (main_reconciler "kmp") background web_name w).2.

Example three_reconciliations :
  let w1 := after_reconciling opening in
  let w2 := after_reconciling w1 in
  let w3 := after_reconciling w2 in
  length (w_log w1) = 8%nat ∧ w_log w3 = w_log w2 ∧
  match drop 8 (w_log w2) with [StatusWritten _ None] => True | _ => False end.
Proof. vm_compute. auto. Qed.

(** A health check of the issuer and two reconciliations. *)
Definition checked : activity := Checking background (IsKMPIssuer (MkKMPIssuer (MkName "apps" "kmp") issuer_spec)).
Definition reconciled : activity := Reconciling background web_name.

Example busy_life :
  let w1 := after_reconciling opening in
  ∃ acts w2, life "kmp" web_name (MkName "apps" "web-tls") w1 acts w2 ∧
    acts.*1 = [checked; reconciled; reconciled] ∧ w_now w2 < renewalTime sample_leaf None.
Proof.
  intros w1. set (w2 := activate "kmp" checked w1). set (w3 := activate "kmp" reconciled w2).
  destruct (activate_follows "kmp" checked w1) as (xs & Hxs & _).
  destruct (activate_follows "kmp" reconciled w2) as (ys & Hys & _).
  destruct (activate_follows "kmp" reconciled w3) as (zs & Hzs & _).
  assert (∀ w, undisturbed web_name (MkName "apps" "web-tls") w w) as Hsame by (intros w; split_and!; [lia|done..]).
  exists [(checked, xs); (reconciled, ys); (reconciled, zs)], (activate "kmp" reconciled w3). split_and!.
  - eapply life_more; [apply Hsame|by left|exact Hxs|].
    eapply life_more; [apply Hsame|right; by exists background|exact Hys|].
    eapply life_more; [apply Hsame|right; by exists background|exact Hzs|]. apply life_over, Hsame.
  - reflexivity.
  - vm_compute. reflexivity.
Qed.

Lemma operator_settles_witness :
  run (Reconcile (main_reconciler "kmp") background web_name) opening (λ _ w1 xs,
    last_write (MkName "apps" "web-tls") xs = Some (web_tls, None) ∧
    ∀ acts w2, life "kmp" web_name (MkName "apps" "web-tls") w1 acts w2 →
      w_now w2 < renewalTime sample_leaf None →
      comes_to_rest (own web_name acts) ∧ secret_at (w_outside w2) (MkName "apps" "web-tls") = Some web_tls).
Proof.
  destruct (operator_settles "kmp" background web_name web opening) as (xs & Hlog & Ht & Hrest).
  - exact shelf_starts_within.
  - reflexivity.
  - reflexivity.
  - split; intros n Hn; simpl in Hn.
    + apply list_elem_of_singleton in Hn as ->. split_and!; by vm_compute.
    + by apply not_elem_of_nil in Hn.
  - exists xs. split; [exact Hlog|]. split; [exact Ht|].
    change (w_log opening) with (@nil event) in Hlog. rewrite app_nil_l in Hlog. rewrite <- Hlog in Hrest |- *.
    assert (last_write (MkName "apps" "web-tls")
              (w_log (Reconcile (main_reconciler "kmp") background web_name opening).2) = Some (web_tls, None)) as Hw
      by (vm_compute; reflexivity).
    split; [exact Hw|]. destruct (Hrest web_tls Hw) as (leaf & rest & Hleaf & Hlife).
    { intros leaf rest Hleaf. vm_compute in Hleaf. injection Hleaf as <- <-.
      split; [exact sample_leaf_end|split; reflexivity]. }
    vm_compute in Hleaf. injection Hleaf as <- <-. exact Hlife.
Defined.
